(* ===== verification/_CoqProject ===== *)
-Q . S2P
Prelude.v
GoStrings.v
GoFloat.v
Wire.v
Literal.v
SqlLex.v
Classify.v
Tables.v
Ast.v
Firewall.v
Rewriter.v
SessionCompat.v
Lsn.v
Session.v
Balancer.v
Float64.v
RateLimit.v
Breaker.v
Net.v
Config.v
ConnLimit.v
Cache.v
Pool.v
Synth.v
Timeout.v
Relay.v
DbGroup.v
Crypto.v
Auth.v
Cancel.v
Json.v
Samples.v
Digest.v
Mirror.v
Redact.v
AuditLog.v
Watcher.v
Proxy.v
ProxyServer.v
Handlers.v
Query.v
Logic.v
Accounting.v
DataApi.v
LsnPoll.v
Admin.v
HandleConn.v
Guards.v
Progress.v
