(* ===== verification/Prelude.v ===== *)
(** * pgmux: a verification development

    pgmux is a PostgreSQL proxy written in Go: it speaks the wire protocol with clients, decides for each
    query whether it reads or writes, sends reads to replicas and writes to the writer over pooled
    connections, caches results, and guards the databases with a firewall, limits and breakers. This
    library models the program as Rocq definitions translated from the source, function by function, and
    proves what makes them correct.

    ** The program and its files

    Foundations. [Prelude] (this file) has bytes and Go strings as [list byte], machine integers as [Z]
    with their wrap-around, times in nanoseconds, results with errors and panics ([res]), the tactics and
    the hint database [pgmux]. [GoStrings], [GoFloat], [Float64], [Net], [Json], [Crypto] and [Samples]
    model what the program uses of Go's strings, strconv, float64 arithmetic, net, encoding/json, crypto
    and encoding/base64, and the latency samples two components share.

    Protocol (internal/protocol). [Wire]: messages, startup packets, Parse, Bind and Close payloads of
    message.go. [Literal]: bound parameters as SQL literals, literal.go.

    Query analysis (internal/router). [SqlLex]: statement splitting, comments and string literals.
    [Classify] and [Tables]: classification and table names by text, parser.go. [Ast]: the same on parse
    trees, parser_ast.go, ast.go, parsed_query.go. [Firewall], [Rewriter], [SessionCompat]: the files of
    these names. [Timeout]: the timeout hint. [Session]: the routing state of a session, router.go.
    [Lsn], [Balancer]: log positions and the choice of a reader, each method of the balancer by itself.

    Shared services. [RateLimit], [Breaker] (internal/resilience), [Config] and [Watcher]
    (internal/config), [ConnLimit] (proxy/connlimit.go), [Cache] (internal/cache), [Pool]
    (internal/pool), [DbGroup] (proxy/dbgroup.go), [Synth] (proxy/synthesizer.go), [Digest], [Mirror],
    [Redact], [AuditLog] (the packages of these names), [Cancel] (proxy/cancel.go, session.go).

    The proxy (internal/proxy). [Relay]: the monad of a session with its world (streams of client and
    backends, failing writes, answers of the pools, trace of events) and the relaying of copy.go and
    backend.go. [Auth]: auth.go and pgconn.go. [Proxy]: the state sessions share, reached one access at a
    time while others act in between. [Handlers] and [Query]: the handlers and the loop of query.go,
    query_read.go, query_extended.go; a session chooses a reader in one access per draw of the index and
    per load of a backend ([Handlers.search]). [ProxyServer]: creation, reload and shutdown, server.go. [HandleConn]:
    handleConn of server.go, from the first byte of a client to the end of its session. [LsnPoll]: lsn.go.

    HTTP interfaces. [DataApi] (internal/dataapi) and [Admin] (internal/admin, with the wiring of
    cmd/pgmux/main.go).

    Proofs about sessions. [Logic] is a program logic for the session monad ([spec], over a [Setting]
    that says which events are legal); [Accounting] instantiates it with the accounts of connections;
    [Guards] says what reaches the backends; [Progress] that the query loop ends.

    ** How the code is modelled

    A struct is a [Record], an enum or a syntax tree an [Inductive], a Go map a [gmap] (its iteration
    order an argument), shared pointers locations in a store ([Balancer], [Cache], [DbGroup], [Cancel]).
    An error is a value, a slice out of range or a nil pointer is [Panic]. Code under a lock or on an
    atomic is one step. Where goroutines interleave ([Pool], [Mirror], [AuditLog], [Watcher],
    [DataApi.Watchdog]) there is a step relation, and theorems hold in every reachable state; where a
    session shares state ([Proxy], [HandleConn], [Admin]) the changes of the others are a list of arbitrary
    functions, one before each access. Code that is not in the repository is a class or an argument: the
    SQL parser pg_query ([PgQuery], [Normalizer], [Fingerprinter]), its deparser and regular expressions
    ([RewriteDeps]), Unicode case ([UnicodeCase]), PBKDF2 ([Pbkdf2]), the YAML decoder, the file system and
    the network.

    ** What is shown

    - Messages and values: framing, startup, Bind payloads and the answers of a backend are decoded exactly
      ([Wire], [DataApi]); JSON is read back ([Json]); a response kept in the cache is the one of the
      query, but for numbers ([DataApi]).
    - No injection: a substituted parameter is a constant of a grammar written from the SQL manual and
      cannot leave its place ([Literal]), and the statements of a
      synthesised query are those of the prepared one ([Synth]); redaction hides literals ([Redact]).
    - Analysis: splitting finds the statements of texts that the program and PostgreSQL lex alike
      ([SqlLex.reads_alike]), the fast classifier agrees with the full one
      ([Classify]), firewall and rewriter do what the rules say on every tree ([Firewall], [Rewriter]).
    - Routing: when a reader is used, reads after writes, caught-up readers after a poll, whoever
      else draws in between ([Session], [Balancer], [LsnPoll]).
    - Refinements: the cache, the connection counters, the statement registry, the registry of sessions
      and the digest against simple specifications ([Cache], [ConnLimit], [Synth], [Cancel], [Digest]).
    - Connections: no connection of a pool is in two hands or lost in any interleaving ([Pool]); sessions,
      whole client connections, Data API requests and polls return what they take ([Accounting], [HandleConn],
      [DataApi], [LsnPoll]); a transaction stays on its connection ([Guards]); relaying is transparent ([Relay]).
    - Access: who is served and authenticated, with what each step finds and leaves in the shared state
      ([HandleConn]), the SCRAM client against a server written from RFC 5802 ([Auth]), what the Data API executes
      ([DataApi.handleQuery_guarded]), who changes something through the Admin API and what it shows
      ([Admin]), where cancel requests go ([Cancel]), what refusals answer ([Guards]).
    - Life cycle: what loading refuses, and creation, reload and shutdown with configurations that were
      loaded ([Config], [DbGroup], [ProxyServer]), debounced
      reloads ([Watcher]), the accounts of mirror and audit log ([Mirror], [AuditLog]).
    - Termination: the query loop and the relay loops end on every input ([Progress], [Relay]).

    Examples named after what they show record where the code falls short of its intent; they are proved by
    evaluation.

    ** Bounds

    Loops over a stream run for one more round than the stream has bytes: every round reads a message of at
    least five bytes, so the bound is never what ends them ([Relay.relay_rounds_suffice],
    [Progress.query_loop_terminates], and the exact results of [Auth] and [DataApi]). Loops over text have
    the length of the text as fuel; the JSON reader has enough for any text ([Json.parse_value_fuel]); numerals
    have 64 digits, enough for 64 bits. Counters that wrap are kept at their width; theorems about counts
    assume fewer than 2^63 events where the code counts in int64.

    ** Not modelled

    Metrics and telemetry register collectors and exporters of third-party libraries. Of the program's
    entry point and of [Server.Start] the flags, signals, sockets, accept loop, tickers and the start of
    goroutines are left out; what the tickers call is modelled. So are log lines, spans and metrics everywhere, the
    Redis subscription, TLS itself and the bytes of TCP, and the HTTP server below the handlers. Time is
    read at each step and not related to how long steps take; fairness of the scheduler is not assumed. *)

From Stdlib Require Export ZArith Lia.
From Stdlib Require Export Strings.Byte.
From Stdlib Require Import Strings.String.
From stdpp Require Export base list gmap option.

(** ** Bytes and Go strings

    A Go [string] and a Go [[]byte] are both finite sequences of bytes, and the
    conversions between them are the identity on the bytes; both are modelled
    as [list byte]. *)

Abbreviation bytes := (list byte).

Export Strings.String.StringSyntax.
Declare Scope go_scope.
Delimit Scope go_scope with go.
Open Scope go_scope.

(** Character and string constants of the source. *)
Definition B (s : String.string) : bytes := String.list_byte_of_string s.
Arguments B s%_string.
Notation "$ s" := (B s%string) (at level 1, format "$ s") : go_scope.
Notation "a =b b" := (Byte.eqb a b%byte) (at level 70) : go_scope.

#[global] Instance byte_eq_dec : EqDecision byte := Byte.byte_eq_dec.

#[global] Program Instance byte_countable : Countable byte :=
  inj_countable Byte.to_N Byte.of_N _.
Next Obligation. intros b. apply Byte.of_to_N. Qed.

#[global] Instance byte_inhabited : Inhabited byte := populate Byte.x00.

(** The unsigned value of a byte, and truncation of an integer to a byte. *)
Definition bz (b : byte) : Z := Z.of_N (Byte.to_N b).
Definition zb (z : Z) : byte := default Byte.x00 (Byte.of_N (Z.to_N (z mod 256))).

Lemma bz_range b : (0 <= bz b < 256)%Z.
Proof. unfold bz. pose proof (Byte.to_N_bounded b). lia. Qed.

Lemma zb_bz b : zb (bz b) = b.
Proof.
  unfold zb. rewrite Z.mod_small by apply bz_range.
  unfold bz. rewrite N2Z.id, Byte.of_to_N. done.
Qed.

Lemma bz_zb z : bz (zb z) = (z mod 256)%Z.
Proof.
  unfold zb, bz. pose proof (Z.mod_pos_bound z 256 ltac:(lia)).
  destruct (Byte.of_N (Z.to_N (z mod 256))) as [b|] eqn:E; simpl.
  - apply Byte.to_of_N in E. rewrite E. lia.
  - apply Byte.of_N_None_iff in E. lia.
Qed.

#[global] Instance bz_inj : Inj (=) (=) bz.
Proof. intros a b H. rewrite <- (zb_bz a), <- (zb_bz b), H. done. Qed.

Lemma byte_eqb_spec a b : reflect (a = b) (Byte.eqb a b).
Proof.
  destruct (Byte.eqb a b) eqn:E; constructor.
  - by apply Byte.byte_dec_bl.
  - intros ->. by rewrite (Byte.byte_dec_lb eq_refl) in E.
Qed.

Lemma byte_eqb_refl a : Byte.eqb a a = true.
Proof. by apply Byte.byte_dec_lb. Qed.

Lemma byte_eqb_ne a b : a <> b -> Byte.eqb a b = false.
Proof. destruct (byte_eqb_spec a b); congruence. Qed.

(** [forall_bytes P] decides a boolean property of every byte by evaluation. *)
Definition all_bytes : bytes := (fun n => zb (Z.of_nat n)) <$> seq 0 256.

Lemma elem_of_all_bytes b : b ∈ all_bytes.
Proof.
  unfold all_bytes. apply list_elem_of_fmap. exists (Z.to_nat (bz b)). pose proof (bz_range b).
  split; [|apply elem_of_seq; lia]. rewrite Z2Nat.id by lia. by rewrite zb_bz.
Qed.

Lemma forall_bytes (P : byte -> bool) :
  forallb P all_bytes = true -> forall b, P b = true.
Proof.
  rewrite forallb_forall. intros H b. apply H, list_elem_of_In, elem_of_all_bytes.
Qed.

(** ** Machine integers *)

Definition MaxInt64 : Z := 2 ^ 63 - 1.
Definition MinInt64 : Z := - 2 ^ 63.

(** Wrap-around to [w] bits, unsigned and in two's complement. *)
Definition wrapU (w z : Z) : Z := (z mod 2 ^ w)%Z.
Definition wrapS (w z : Z) : Z := ((z + 2 ^ (w - 1)) mod 2 ^ w - 2 ^ (w - 1))%Z.

Lemma wrapU_range w z : (0 <= w)%Z -> (0 <= wrapU w z < 2 ^ w)%Z.
Proof. intros. apply Z.mod_pos_bound. by apply Z.pow_pos_nonneg. Qed.

Lemma wrapU_small w z : (0 <= z < 2 ^ w)%Z -> wrapU w z = z.
Proof. apply Z.mod_small. Qed.

Lemma wrapS_small w z : (- 2 ^ (w - 1) <= z < 2 ^ (w - 1))%Z -> (0 < w)%Z -> wrapS w z = z.
Proof.
  intros H Hw. unfold wrapS.
  assert (2 ^ w = 2 * 2 ^ (w - 1))%Z by (rewrite <- Z.pow_succ_r by lia; f_equal; lia).
  rewrite Z.mod_small; lia.
Qed.

(** Disjoint bits: a bitwise or is a sum. *)
Lemma lor_low k q y : (0 <= k)%Z -> (0 <= y < 2 ^ k)%Z -> Z.lor (2 ^ k * q) y = (2 ^ k * q + y)%Z.
Proof.
  intros Hk Hy. symmetry. apply Z.add_nocarry_lor, Z.bits_inj_iff'. intros n Hn.
  rewrite Z.land_spec, Z.bits_0, (Z.mul_comm _ q).
  destruct (Z.lt_ge_cases n k).
  - by rewrite Z.mul_pow2_bits_low.
  - rewrite <- (Z.mod_small y (2 ^ k)), Z.mod_pow2_bits_high by lia. apply andb_false_r.
Qed.

(** [time.Time] values are instants in nanoseconds, [0] being the zero time;
    [time.Duration] values are nanoseconds in [int64], and [Time.Sub] (hence
    [time.Since]) saturates at the ends of that range. *)
Abbreviation Time := Z (only parsing).
Abbreviation Duration := Z (only parsing).
Definition IsZeroTime (t : Time) : bool := (t =? 0)%Z.
Definition Since (now t : Time) : Duration := Z.max MinInt64 (Z.min MaxInt64 (now - t)).

Definition Second : Duration := 1000000000.
Definition Minute : Duration := (60 * Second)%Z.

(** ** Results of fallible code

    A Go function that returns an error next to its value either succeeds,
    returns an error, or panics (an index out of range, a nil dereference). *)
Inductive res (E A : Type) : Type :=
| Ok (a : A)
| Err (e : E)
| Panic.
Arguments Ok {E A} a.
Arguments Err {E A} e.
Arguments Panic {E A}.

Definition res_bind {E A C} (r : res E A) (k : A -> res E C) : res E C :=
  match r with Ok a => k a | Err e => Err e | Panic => Panic end.

Notation "x <-? c1 ; c2" := (res_bind c1 (fun x => c2))
  (at level 20, c1 at level 100, c2 at level 200) : go_scope.
Notation "' p <-? c1 ; c2" := (res_bind c1 (fun x => match x with p => c2 end))
  (at level 20, p pattern, c1 at level 100, c2 at level 200) : go_scope.

Definition is_panic {E A} (r : res E A) : bool :=
  match r with Panic => true | _ => false end.

Lemma res_bind_Ok {E A C} (r : res E A) (k : A -> res E C) c :
  res_bind r k = Ok c -> exists a, r = Ok a /\ k a = Ok c.
Proof. destruct r; simpl; try done; eauto. Qed.

Lemma res_bind_no_panic {E A C} (r : res E A) (k : A -> res E C) :
  is_panic r = false -> (forall a, r = Ok a -> is_panic (k a) = false) ->
  is_panic (res_bind r k) = false.
Proof. destruct r; simpl; auto. Qed.

(** ** Automation *)

(** Split every boolean test on bytes in the goal or the context. *)
Ltac byte_cases :=
  repeat match goal with
  | |- context [Byte.eqb ?a ?b] => destruct (byte_eqb_spec a b); subst; simpl
  | H : context [Byte.eqb ?a ?b] |- _ => destruct (byte_eqb_spec a b); subst; simpl in H
  end.

(** Turn boolean conjunctions, disjunctions and comparisons into propositions. *)
Ltac bool_to_prop :=
  repeat match goal with
  | H : (_ && _)%bool = true |- _ => apply andb_true_iff in H as [? ?]
  | H : (_ && _)%bool = false |- _ => apply andb_false_iff in H
  | H : (_ || _)%bool = false |- _ => apply orb_false_iff in H as [? ?]
  | H : (_ || _)%bool = true |- _ => apply orb_true_iff in H
  | H : negb _ = true |- _ => apply negb_true_iff in H
  | H : negb _ = false |- _ => apply negb_false_iff in H
  | H : (_ <=? _)%Z = true |- _ => apply Z.leb_le in H
  | H : (_ <=? _)%Z = false |- _ => apply Z.leb_gt in H
  | H : (_ <? _)%Z = true |- _ => apply Z.ltb_lt in H
  | H : (_ <? _)%Z = false |- _ => apply Z.ltb_ge in H
  | H : (_ =? _)%Z = true |- _ => apply Z.eqb_eq in H
  | H : (_ =? _)%Z = false |- _ => apply Z.eqb_neq in H
  | H : (_ <=? _)%nat = true |- _ => apply Nat.leb_le in H
  | H : (_ <=? _)%nat = false |- _ => apply Nat.leb_gt in H
  | H : (_ <? _)%nat = true |- _ => apply Nat.ltb_lt in H
  | H : (_ <? _)%nat = false |- _ => apply Nat.ltb_ge in H
  | H : (_ =? _)%nat = true |- _ => apply Nat.eqb_eq in H
  | H : (_ =? _)%nat = false |- _ => apply Nat.eqb_neq in H
  | H : Byte.eqb _ _ = true |- _ => apply Byte.byte_dec_bl in H
  end.

Create HintDb pgmux.
Create Rewrite HintDb pgmux.
#[export] Hint Resolve bz_range wrapU_range byte_eqb_refl : pgmux.
#[export] Hint Rewrite zb_bz bz_zb byte_eqb_refl : pgmux.
