(* ===== verification/GoStrings.v ===== *)
(** * The parts of Go's [strings] and [strconv] packages that pgmux uses

    Every function is executable.  The only part of these packages that is not
    spelled out is the Unicode case table consulted by [strings.ToUpper] and
    [strings.ToLower] on strings that contain a non-ASCII byte: it is the class
    [UnicodeCase] below.  [strings.TrimSpace] and [strings.Fields] are exact,
    Unicode spaces included. *)

From S2P Require Import Prelude.

(** ** Prefixes and substring search *)

Fixpoint HasPrefix (s p : bytes) {struct p} : bool :=
  match p, s with
  | [], _ => true
  | _ :: _, [] => false
  | x :: p', y :: s' => (x =b y) && HasPrefix s' p'
  end.

Definition HasSuffix (s p : bytes) : bool := HasPrefix (reverse s) (reverse p).

(** [strings.Index]: the offset of the first occurrence, [None] for [-1]. *)
Fixpoint Index (s sub : bytes) : option nat :=
  if HasPrefix s sub then Some 0
  else match s with
       | [] => None
       | _ :: s' => S <$> Index s' sub
       end.

Definition Contains (s sub : bytes) : bool :=
  match Index s sub with Some _ => true | None => false end.

Fixpoint IndexByte (s : bytes) (c : byte) : option nat :=
  match s with
  | [] => None
  | x :: s' => if (x =b c) then Some 0 else S <$> IndexByte s' c
  end.

(** [strings.Count] for a non-empty separator (non-overlapping occurrences);
    [skip] is the number of bytes of the current occurrence still to pass. *)
Fixpoint Count_aux (skip : nat) (s sub : bytes) : nat :=
  match s with
  | [] => 0
  | _ :: s' =>
      match skip with
      | S k => Count_aux k s' sub
      | O => if HasPrefix s sub then S (Count_aux (length sub - 1) s' sub)
             else Count_aux 0 s' sub
      end
  end.
Definition Count (s sub : bytes) : nat := Count_aux 0 s sub.

(** ** Splitting and joining *)

(** [strings.Split] on a one-byte separator. *)
Fixpoint Split1 (s : bytes) (c : byte) : list bytes :=
  match s with
  | [] => [[]]
  | x :: s' =>
      if (x =b c) then [] :: Split1 s' c
      else match Split1 s' c with
           | [] => [[x]]
           | w :: ws => (x :: w) :: ws
           end
  end.

(** [strings.SplitN s sep 2] on a one-byte separator. *)
Definition SplitN2 (s : bytes) (c : byte) : list bytes :=
  match IndexByte s c with
  | None => [s]
  | Some i => [take i s; drop (S i) s]
  end.

Fixpoint Join (ws : list bytes) (sep : bytes) : bytes :=
  match ws with
  | [] => []
  | [w] => w
  | w :: ws' => w ++ sep ++ Join ws' sep
  end.

(** [strings.ReplaceAll] for a non-empty [old]. *)
Fixpoint ReplaceAll_aux (skip : nat) (s old new : bytes) : bytes :=
  match s with
  | [] => []
  | x :: s' =>
      match skip with
      | S k => ReplaceAll_aux k s' old new
      | O => if HasPrefix s old then new ++ ReplaceAll_aux (length old - 1) s' old new
             else x :: ReplaceAll_aux 0 s' old new
      end
  end.
Definition ReplaceAll (s old new : bytes) : bytes := ReplaceAll_aux 0 s old new.

(** ** White space

    [unicode.IsSpace] holds of six ASCII bytes and of nineteen other runes;
    these are their UTF-8 encodings.  No other valid encoding contains one of
    these sequences at an offset that is not a rune boundary, so matching the
    bytes and matching the decoded runes agree. *)
Definition space_encodings : list bytes :=
  [ [x09]; [x0a]; [x0b]; [x0c]; [x0d]; [x20];
    [xc2; x85]; [xc2; xa0]; [xe1; x9a; x80];
    [xe2; x80; x80]; [xe2; x80; x81]; [xe2; x80; x82]; [xe2; x80; x83];
    [xe2; x80; x84]; [xe2; x80; x85]; [xe2; x80; x86]; [xe2; x80; x87];
    [xe2; x80; x88]; [xe2; x80; x89]; [xe2; x80; x8a]; [xe2; x80; xa8];
    [xe2; x80; xa9]; [xe2; x80; xaf]; [xe2; x81; x9f]; [xe3; x80; x80] ].

(** The length of the space rune that starts [s], [0] when there is none. *)
Definition space_len (encs : list bytes) (s : bytes) : nat :=
  match List.find (HasPrefix s) encs with
  | Some e => length e
  | None => 0
  end.

Fixpoint trim_left (encs : list bytes) (skip : nat) (s : bytes) : bytes :=
  match s with
  | [] => []
  | _ :: s' =>
      match skip with
      | S k => trim_left encs k s'
      | O => match space_len encs s with
             | S k => trim_left encs k s'
             | O => s
             end
      end
  end.

Definition TrimLeftSpace (s : bytes) : bytes := trim_left space_encodings 0 s.
Definition TrimRightSpace (s : bytes) : bytes :=
  reverse (trim_left (reverse <$> space_encodings) 0 (reverse s)).
Definition TrimSpace (s : bytes) : bytes := TrimRightSpace (TrimLeftSpace s).

(** [strings.Fields]; [cur] is the field being read, reversed. *)
Fixpoint Fields_aux (skip : nat) (cur s : bytes) : list bytes :=
  match s with
  | [] => match cur with [] => [] | _ => [reverse cur] end
  | x :: s' =>
      match skip with
      | S k => Fields_aux k cur s'
      | O => match space_len space_encodings s with
             | O => Fields_aux 0 (x :: cur) s'
             | S k => match cur with
                      | [] => Fields_aux k [] s'
                      | _ => reverse cur :: Fields_aux k [] s'
                      end
             end
      end
  end.
Definition Fields (s : bytes) : list bytes := Fields_aux 0 [] s.

(** ** Case *)

Definition byte_in (lo hi b : byte) : bool := (bz lo <=? bz b)%Z && (bz b <=? bz hi)%Z.
Definition is_ascii (b : byte) : bool := (bz b <? 128)%Z.
Definition upper1 (b : byte) : byte := if byte_in "a" "z" b then zb (bz b - 32) else b.
Definition lower1 (b : byte) : byte := if byte_in "A" "Z" b then zb (bz b + 32) else b.

(** [strings.Map(unicode.ToUpper, s)] and its lower-case counterpart, on
    strings with a byte outside ASCII. *)
Class UnicodeCase := {
  unicode_upper : bytes -> bytes;
  unicode_lower : bytes -> bytes
}.

Definition ToUpper `{UnicodeCase} (s : bytes) : bytes :=
  if forallb is_ascii s then upper1 <$> s else unicode_upper s.
Definition ToLower `{UnicodeCase} (s : bytes) : bytes :=
  if forallb is_ascii s then lower1 <$> s else unicode_lower s.

(** The instance that maps only the ASCII letters, used to evaluate examples. *)
Definition ascii_case : UnicodeCase :=
  {| unicode_upper := fmap upper1; unicode_lower := fmap lower1 |}.

(** [strings.EqualFold s t] for a [t] of ASCII characters none of which folds
    to a character outside ASCII (that is, without [k] and [s]). *)
Definition EqualFoldASCII (s t : bytes) : bool :=
  bool_decide ((lower1 <$> s) = (lower1 <$> t)).

(** The source's [b | 0x20]. *)
Definition or20 (b : byte) : byte := zb (Z.lor (bz b) 32).

(** ** Numbers *)

Definition digit_char (d : Z) : byte :=
  if (d <? 10)%Z then zb (48 + d) else zb (55 + d).
Definition digit_char_lower (d : Z) : byte :=
  if (d <? 10)%Z then zb (48 + d) else zb (87 + d).

(** The value of a digit character of [strconv.ParseUint], [None] when it is
    not a letter or a digit. *)
Definition digit_val (b : byte) : option Z :=
  if byte_in "0" "9" b then Some (bz b - 48)%Z
  else if byte_in "a" "z" (lower1 b) then Some (bz (lower1 b) - 87)%Z
  else None.

Fixpoint digits_aux (fuel : nat) (base n : Z) (acc : list Z) : list Z :=
  match fuel with
  | O => acc
  | S f => if (n <? base)%Z then n :: acc
           else digits_aux f base (n / base) (n mod base :: acc)%Z
  end.
(** The digits of [0 <= n < 2^64] in a base of at least two. *)
Definition digits (base n : Z) : list Z := digits_aux 64 base n [].

Definition FormatUint (base n : Z) : bytes := digit_char <$> digits base n.
(** [strconv.FormatInt v 10]. *)
Definition FormatInt (v : Z) : bytes :=
  if (v <? 0)%Z then "-"%byte :: FormatUint 10 (- v) else FormatUint 10 v.

Fixpoint parse_digits (base : Z) (acc : Z) (s : bytes) : option Z :=
  match s with
  | [] => Some acc
  | c :: s' =>
      match digit_val c with
      | Some d => if (d <? base)%Z then parse_digits base (acc * base + d) s' else None
      | None => None
      end
  end.

(** [strconv.ParseUint s base bits] with an explicit base (no prefix and no
    underscores): [None] stands for the syntax and the range error. *)
Definition ParseUint (s : bytes) (base bits : Z) : option Z :=
  match s with
  | [] => None
  | _ => match parse_digits base 0 s with
         | Some n => if (n <? 2 ^ bits)%Z then Some n else None
         | None => None
         end
  end.

(** [strconv.ParseInt s 10 64]. *)
Definition ParseInt (s : bytes) : option Z :=
  match s with
  | [] => None
  | c :: s' =>
      if (c =b "-") then
        match ParseUint s' 10 64 with
        | Some n => if (n <=? 2 ^ 63)%Z then Some (- n)%Z else None
        | None => None
        end
      else
        match ParseUint (if (c =b "+") then s' else s) 10 64 with
        | Some n => if (n <? 2 ^ 63)%Z then Some n else None
        | None => None
        end
  end.
(** [strconv.Atoi] on a 64-bit platform. *)
Definition Atoi (s : bytes) : option Z := ParseInt s.

(** [hex.EncodeToString]. *)
Definition hex1 (b : byte) : bytes :=
  [digit_char_lower (bz b / 16); digit_char_lower (bz b mod 16)].
Definition EncodeToString (s : bytes) : bytes := concat (hex1 <$> s).

(** ** Facts about searching *)

Lemma HasPrefix_spec s p : HasPrefix s p = true <-> exists r, s = p ++ r.
Proof.
  revert s. induction p as [|x p IH]; intros s; simpl.
  - split; [intros _; by exists s | done].
  - destruct s as [|y s]; [split; [done | by intros [r ?]]|].
    rewrite andb_true_iff, IH. split.
    + intros [E [r ->]]. apply Byte.byte_dec_bl in E as ->. by exists r.
    + intros [r [= -> ->]]. split; [apply byte_eqb_refl | by exists r].
Qed.

Lemma HasPrefix_app p r : HasPrefix (p ++ r) p = true.
Proof. apply HasPrefix_spec. by exists r. Qed.

Lemma HasPrefix_length s p : HasPrefix s p = true -> length p <= length s.
Proof. intros [r ->]%HasPrefix_spec. rewrite length_app. lia. Qed.

Lemma Index_Some s sub i :
  Index s sub = Some i -> exists r, s = take i s ++ sub ++ r.
Proof.
  revert i. induction s as [|x s IH]; intros i; simpl.
  - destruct (HasPrefix [] sub) eqn:E; [|done]. intros [= <-].
    apply HasPrefix_spec in E as [r E]. by exists r.
  - destruct (HasPrefix (x :: s) sub) eqn:E.
    + intros [= <-]. apply HasPrefix_spec in E as [r E]. by exists r.
    + destruct (Index s sub) as [j|] eqn:Ej; [|done]. intros [= <-].
      destruct (IH j eq_refl) as [r Hr]. exists r. simpl. by rewrite <- Hr.
Qed.

Lemma Index_le s sub i : Index s sub = Some i -> i + length sub <= length s.
Proof.
  revert i. induction s as [|x s IH]; intros i; simpl.
  - destruct (HasPrefix [] sub) eqn:E; [|done]. intros [= <-].
    by apply HasPrefix_length in E.
  - destruct (HasPrefix (x :: s) sub) eqn:E.
    + intros [= <-]. by apply HasPrefix_length in E.
    + destruct (Index s sub) as [j|]; [|done]. intros [= <-]. specialize (IH j eq_refl). lia.
Qed.

Lemma Index_None s sub : Index s sub = None -> forall a r, s <> a ++ sub ++ r.
Proof.
  induction s as [|x s IH]; simpl; intros H a r Hs.
  - destruct a; [|done]. destruct (HasPrefix [] sub) eqn:E; [done|].
    rewrite (proj2 (HasPrefix_spec [] sub)) in E; [done | by exists r].
  - destruct (HasPrefix (x :: s) sub) eqn:E; [done|].
    destruct (Index s sub) eqn:Ei; [done|]. destruct a as [|y a].
    + rewrite (proj2 (HasPrefix_spec (x :: s) sub)) in E; [done | by exists r].
    + injection Hs as -> ->. by eapply IH.
Qed.

Lemma Contains_spec s sub : Contains s sub = true <-> exists a r, s = a ++ sub ++ r.
Proof.
  unfold Contains. destruct (Index s sub) as [i|] eqn:E; split; try done.
  - intros _. apply Index_Some in E as [r E]. by exists (take i s), r.
  - intros (a & r & Hs). by destruct (Index_None _ _ E a r).
Qed.

Lemma IndexByte_Some s c i :
  IndexByte s c = Some i -> s = take i s ++ c :: drop (S i) s /\ c ∉ take i s.
Proof.
  revert i. induction s as [|x s IH]; intros i; simpl; [done|].
  destruct (byte_eqb_spec x c) as [->|Hne].
  - intros [= <-]. simpl. rewrite drop_0. split; [done | set_solver].
  - destruct (IndexByte s c) as [j|]; [|done]. intros [= <-].
    destruct (IH j eq_refl) as [Hs Hc]. simpl. rewrite <- Hs. split; [done|set_solver].
Qed.

Lemma IndexByte_None s c : IndexByte s c = None <-> c ∉ s.
Proof.
  induction s as [|x s IH]; simpl; [set_solver|].
  destruct (byte_eqb_spec x c) as [->|Hne]; [set_solver|].
  destruct (IndexByte s c); set_solver.
Qed.

Lemma IndexByte_app s c r : c ∉ s -> IndexByte (s ++ c :: r) c = Some (length s).
Proof.
  induction s as [|x s IH]; intros H; simpl; [by rewrite byte_eqb_refl|].
  rewrite byte_eqb_ne by set_solver. rewrite IH by set_solver. done.
Qed.

(** ** Facts about numbers *)

Lemma digit_val_char d : (0 <= d < 16)%Z -> digit_val (digit_char d) = Some d.
Proof.
  intros H.
  assert (forallb (fun d => bool_decide (digit_val (digit_char d) = Some d)) (seqZ 0 16) = true)
    as Hall by by vm_compute.
  rewrite forallb_forall in Hall. specialize (Hall d).
  rewrite bool_decide_eq_true in Hall. apply Hall, list_elem_of_In, elem_of_seqZ. lia.
Qed.

Lemma parse_digits_acc base acc ds s :
  (0 < base <= 16)%Z -> Forall (fun d => 0 <= d < base)%Z ds ->
  parse_digits base acc ((digit_char <$> ds) ++ s) =
    parse_digits base (fold_left (fun a d => a * base + d)%Z ds acc) s.
Proof.
  intros Hb H. revert acc. induction H as [|d ds Hd _ IH]; intros acc; [done|].
  simpl. rewrite digit_val_char by lia.
  destruct (Z.ltb_spec d base); [apply IH | lia].
Qed.

Lemma digits_aux_spec fuel base n acc :
  (2 <= base)%Z -> (0 <= n < 2 ^ Z.of_nat fuel)%Z -> (0 < fuel) ->
  exists ds, digits_aux fuel base n acc = ds ++ acc /\ ds <> [] /\
    Forall (fun d => 0 <= d < base)%Z ds /\
    forall a, fold_left (fun a d => a * base + d)%Z ds a = (a * base ^ Z.of_nat (length ds) + n)%Z.
Proof.
  intros Hb. revert n acc. induction fuel as [|f IH]; intros n acc Hn Hf; [lia|].
  simpl. destruct (Z.ltb_spec n base).
  { exists [n]. split; [done|]. split; [done|]. split; [repeat constructor; lia|].
    intros a. simpl. lia. }
  assert (n / base < n)%Z by (apply Z.div_lt; lia).
  assert (0 <= n / base)%Z by (apply Z.div_pos; lia).
  assert (n / base < 2 ^ Z.of_nat f)%Z.
  { rewrite Nat2Z.inj_succ, Z.pow_succ_r in Hn by lia.
    apply Z.div_lt_upper_bound; [lia|]. assert (0 < 2 ^ Z.of_nat f)%Z by lia. nia. }
  assert (0 < f) by (destruct f; [|lia]; simpl in *; lia).
  destruct (IH (n / base)%Z (n mod base :: acc)%Z) as (ds & E & _ & Hall & Hfold); [lia|lia|].
  exists (ds ++ [n mod base])%Z. rewrite E, <- app_assoc. split; [done|].
  split; [by destruct ds|]. split.
  - apply Forall_app. split; [done|]. repeat constructor; apply Z.mod_pos_bound; lia.
  - intros a. rewrite fold_left_app. simpl. rewrite Hfold, length_app. simpl.
    rewrite Nat2Z.inj_add, Z.pow_add_r by lia. pose proof (Z_div_mod_eq_full n base). nia.
Qed.

(** [ParseUint] reads back what [FormatUint] prints. *)
Lemma ParseUint_FormatUint base bits n :
  (2 <= base <= 16)%Z -> (0 <= n < 2 ^ bits)%Z -> (bits <= 64)%Z ->
  ParseUint (FormatUint base n) base bits = Some n.
Proof.
  intros Hb Hn Hbits. assert (n < 2 ^ 64)%Z
    by (eapply Z.lt_le_trans; [apply Hn | apply Z.pow_le_mono_r; lia]).
  destruct (digits_aux_spec 64 base n []) as (ds & E & Hne & Hall & Hfold);
    [lia | simpl; lia | lia |].
  unfold ParseUint, FormatUint, digits. rewrite E, app_nil_r.
  pose proof (parse_digits_acc base 0 ds [] ltac:(lia) Hall) as Hp.
  rewrite app_nil_r, Hfold, Z.mul_0_l, Z.add_0_l in Hp. rewrite Hp.
  destruct ds as [|d ds]; [done|]. cbn [fmap list_fmap parse_digits].
  rewrite (proj2 (Z.ltb_lt n (2 ^ bits))) by lia. done.
Qed.

Lemma FormatUint_head base n :
  (2 <= base)%Z -> (0 <= n < 2 ^ 64)%Z -> exists c s, FormatUint base n = c :: s.
Proof.
  intros Hb Hn. destruct (digits_aux_spec 64 base n []) as (ds & E & Hne & _);
    [lia | simpl; lia | lia |].
  unfold FormatUint, digits. rewrite E, app_nil_r. destruct ds as [|d ds]; [done|].
  by exists (digit_char d), (digit_char <$> ds).
Qed.

(** Every character [FormatUint] prints is the character of a digit. *)
Lemma FormatUint_digits base n :
  (2 <= base)%Z -> (0 <= n < 2 ^ 64)%Z ->
  Forall (fun c => exists d, (0 <= d < base)%Z /\ c = digit_char d) (FormatUint base n).
Proof.
  intros Hb Hn. destruct (digits_aux_spec 64 base n []) as (ds & E & _ & Hall & _);
    [lia | simpl; lia | lia |].
  unfold FormatUint, digits. rewrite E, app_nil_r. apply Forall_fmap.
  eapply Forall_impl; [|exact Hall]. simpl. eauto.
Qed.

Lemma digit_char_not d c :
  (0 <= d < 10)%Z -> byte_in "0" "9" c = false -> Byte.eqb (digit_char d) c = false.
Proof.
  intros H Hc. apply byte_eqb_ne. intros E.
  assert (forallb (fun d => byte_in "0" "9" (digit_char d)) (seqZ 0 10) = true) as Hall
    by by vm_compute.
  rewrite forallb_forall in Hall. specialize (Hall d).
  rewrite E, Hc in Hall. discriminate Hall. apply list_elem_of_In, elem_of_seqZ. lia.
Qed.

(** [ParseInt] reads back what [FormatInt] prints, on all of [int64]. *)
Lemma ParseInt_FormatInt v : (MinInt64 <= v <= MaxInt64)%Z -> ParseInt (FormatInt v) = Some v.
Proof.
  unfold MinInt64, MaxInt64. intros Hv. unfold FormatInt. destruct (Z.ltb_spec v 0).
  - simpl. rewrite ParseUint_FormatUint by lia.
    destruct (Z.leb_spec (- v) (2 ^ 63)); [f_equal; lia | lia].
  - assert (0 <= v < 2 ^ 64)%Z by lia.
    pose proof (FormatUint_digits 10 v ltac:(lia) H0) as Hd.
    pose proof (ParseUint_FormatUint 10 64 v ltac:(lia) ltac:(lia) ltac:(lia)) as Hp.
    destruct (FormatUint_head 10 v ltac:(lia) H0) as (c & s & E).
    rewrite E in Hd, Hp |- *. apply list.Forall_cons in Hd as [(d & Hd & ->) _].
    unfold ParseInt. rewrite !digit_char_not by (done || by vm_compute).
    rewrite Hp. destruct (Z.ltb_spec v (2 ^ 63)); [done|lia].
Qed.

(** ** Trimming *)

Lemma trim_left_split encs k s :
  exists p, drop k s = p ++ trim_left encs k s /\ Forall (fun b => b ∈ concat encs) p.
Proof.
  revert k. induction s as [|c s IH]; intros k; [exists []; by rewrite drop_nil|].
  destruct k as [|k]; [|apply IH]. cbn [trim_left drop]. unfold space_len.
  destruct (List.find (HasPrefix (c :: s)) encs) as [e|] eqn:E; [|by exists []].
  apply List.find_some in E as [He Hp]. apply list_elem_of_In in He.
  apply HasPrefix_spec in Hp as [r Hr]. destruct e as [|d e]; [by exists []|].
  injection Hr as <- ->. cbn [length]. destruct (IH (length e)) as (p & Hd & Hall).
  rewrite drop_app_length in Hd. exists (c :: e ++ p). split; [by cbn [app]; rewrite <- app_assoc, <- Hd|].
  apply (Forall_app_2 _ (c :: e)); [|done]. apply Forall_forall. intros x Hx.
  apply list_elem_of_In, in_concat. exists (c :: e). by rewrite <- (list_elem_of_In encs).
Qed.

(** What [TrimSpace] cuts off consists of the bytes of spaces. *)
Definition space_bytes : bytes := concat space_encodings.

Lemma TrimSpace_split s :
  exists p q, s = p ++ TrimSpace s ++ q /\
    Forall (fun b => b ∈ space_bytes) p /\ Forall (fun b => b ∈ space_bytes) q.
Proof.
  destruct (trim_left_split space_encodings 0 s) as (p & Hs & Hp). rewrite drop_0 in Hs.
  destruct (trim_left_split (reverse <$> space_encodings) 0 (reverse (TrimLeftSpace s))) as (q & Ht & Hq).
  rewrite drop_0 in Ht. apply (f_equal reverse) in Ht. rewrite reverse_involutive, reverse_app in Ht.
  exists p, (reverse q). 
  split; [unfold TrimSpace, TrimRightSpace; rewrite <- Ht; exact Hs|].
  split; [done|]. apply Forall_reverse. eapply Forall_impl; [|exact Hq]. intros b Hb.
  assert (forallb (fun b => bool_decide (b ∈ space_bytes)) (concat (reverse <$> space_encodings)) = true)
    as Hall by by vm_compute.
  rewrite forallb_forall in Hall. apply list_elem_of_In, Hall, bool_decide_eq_true in Hb. done.
Qed.

Lemma TrimSpace_nil s : TrimSpace s = [] -> Forall (fun b => b ∈ space_bytes) s.
Proof.
  intros H. destruct (TrimSpace_split s) as (p & q & E & Hp & Hq). rewrite H in E. rewrite E.
  by apply Forall_app_2.
Qed.

(** ** Case folding

    [strings.EqualFold s t] when one of the two is ASCII: besides upper and lower
    case, the long s (U+017F) folds to s and the Kelvin sign (U+212A) to k. *)
Definition fold_case (s : bytes) : bytes :=
  lower1 <$> ReplaceAll (ReplaceAll s [xc5; xbf] $"s") [xe2; x84; xaa] $"k".

Definition EqualFold (s t : bytes) : bool := bool_decide (fold_case s = fold_case t).

(** ** Splitting at a byte *)

Lemma Split1_plain w c : c ∉ w -> Split1 w c = [w].
Proof.
  induction w as [|x w IH]; [done|]. intros [Hx Hw]%not_elem_of_cons. cbn [Split1]. rewrite byte_eqb_ne by congruence. by rewrite IH.
Qed.

Lemma Split1_app w c r : c ∉ w -> Split1 (w ++ c :: r) c = w :: Split1 r c.
Proof.
  induction w as [|x w IH]; cbn [app Split1]; [by rewrite byte_eqb_refl|]. intros [Hx Hw]%not_elem_of_cons.
  rewrite byte_eqb_ne by congruence. by rewrite IH.
Qed.

Lemma Split1_Join (ts : list bytes) (c : byte) :
  ts <> [] -> Forall (fun t => c ∉ t) ts -> Split1 (Join ts [c]) c = ts.
Proof.
  intros Hne Hall. induction Hall as [|t ts Ht Hall IH]; [done|]. destruct ts as [|t' ts]; cbn [Join]; [by apply Split1_plain|].
  cbn [app]. rewrite Split1_app by done. f_equal. by apply IH.
Qed.
