(* ===== verification/GoFloat.v ===== *)
(** * Floating point conversions (package strconv)

    What the source uses of [strconv.ParseFloat] (which strings it accepts, and
    the class of the value) and of [strconv.FormatFloat(x, 'f', -1, w)] (the
    shortest decimal that reads back as [x]), on exact integers. *)

From S2P Require Import Prelude GoStrings.

Inductive fclass := FFinite | FNaN | FPosInf | FNegInf.

(** ** ParseFloat *)

Definition is_digit (b : byte) : bool := byte_in "0" "9" b.
Definition is_hex_letter (b : byte) : bool := byte_in "a" "f" (lower1 b).

(** [special]: infinities with an optional sign, and NaN without one. *)
Definition special (s : bytes) : option fclass :=
  if EqualFoldASCII s $"nan" then Some FNaN
  else
    let inf t := EqualFoldASCII t $"inf" || EqualFoldASCII t $"infinity" in
    match s with
    | [] => None
    | c :: t =>
        if (c =b "-") then (if inf t then Some FNegInf else None)
        else if (c =b "+") then (if inf t then Some FPosInf else None)
        else if inf s then Some FPosInf
        else None
    end.

Definition drop_sign (s : bytes) : bytes :=
  match s with
  | c :: t => if (c =b "+") || (c =b "-") then t else s
  | [] => []
  end.

(** The mantissa loop of [readFloat]: the digits read as one integer, how many
    follow the point, whether there was a digit, and the rest of the input. *)
Fixpoint read_mantissa (hex sawdot sawdigits : bool) (mant frac : Z) (s : bytes)
  : Z * Z * bool * bytes :=
  let base := if hex then 16%Z else 10%Z in
  let frac' := if sawdot then (frac + 1)%Z else frac in
  match s with
  | [] => (mant, frac, sawdigits, [])
  | c :: s' =>
      if (c =b "_") then read_mantissa hex sawdot sawdigits mant frac s'
      else if (c =b ".") then
        if sawdot then (mant, frac, sawdigits, s)
        else read_mantissa hex true sawdigits mant frac s'
      else if is_digit c then
        read_mantissa hex sawdot true (mant * base + (bz c - 48)) frac' s'
      else if hex && is_hex_letter c then
        read_mantissa hex sawdot true (mant * base + (bz (lower1 c) - 87)) frac' s'
      else (mant, frac, sawdigits, s)
  end.

(** The exponent loop: the exponent stops growing at 10000. *)
Fixpoint read_exponent (e : Z) (s : bytes) : Z * bytes :=
  match s with
  | [] => (e, [])
  | c :: s' =>
      if (c =b "_") then read_exponent e s'
      else if is_digit c then
        read_exponent (if (e <? 10000)%Z then e * 10 + (bz c - 48) else e)%Z s'
      else (e, s)
  end.

(** [underscoreOK]: underscores separate digits only. *)
Inductive saw := SawStart | SawDigit | SawUnderscore | SawOther.

Fixpoint underscore_loop (hex : bool) (sw : saw) (s : bytes) : bool :=
  match s with
  | [] => match sw with SawUnderscore => false | _ => true end
  | c :: s' =>
      if is_digit c || (hex && is_hex_letter c) then underscore_loop hex SawDigit s'
      else if (c =b "_") then
        match sw with SawDigit => underscore_loop hex SawUnderscore s' | _ => false end
      else match sw with SawUnderscore => false | _ => underscore_loop hex SawOther s' end
  end.

Definition underscoreOK (s : bytes) : bool :=
  match drop_sign s with
  | z :: x :: s' =>
      let l := lower1 x in
      if (z =b "0") && ((l =b "b") || (l =b "o") || (l =b "x"))
      then underscore_loop (l =b "x") SawDigit s'
      else underscore_loop false SawStart (drop_sign s)
  | s1 => underscore_loop false SawStart s1
  end.

(** [mant * base ^ exp] rounds to a finite float64: it is below the midpoint
    between the largest one and [2 ^ 1024]. *)
Definition in_range64 (mant base exp : Z) : bool :=
  let limit := (2 ^ 1024 - 2 ^ 970)%Z in
  if (0 <=? exp)%Z then (mant * base ^ exp <? limit)%Z else (mant <? limit * base ^ (- exp))%Z.

Definition is_hex_prefix (s : bytes) : bool :=
  match s with
  | z :: x :: _ :: _ => (z =b "0") && (lower1 x =b "x")
  | _ => false
  end.

(** The exponent part of the number [s] is followed by nothing else. *)
Definition read_exp_part (hex : bool) (s : bytes) : option Z :=
  match s with
  | [] => if hex then None else Some 0%Z
  | c :: s1 =>
      if (lower1 c =b (if hex then "p" else "e")) then
        match drop_sign s1 with
        | d :: _ =>
            if is_digit d then
              let '(e, rest) := read_exponent 0 (drop_sign s1) in
              match rest with
              | [] => Some (if HasPrefix s1 $"-" then - e else e)%Z
              | _ => None
              end
            else None
        | [] => None
        end
      else None
  end.

(** [readFloat] on the whole input: does it denote a finite float64? *)
Definition parse_finite (s : bytes) : bool :=
  let s1 := drop_sign s in
  let hex := is_hex_prefix s1 in
  let '(mant, frac, sawdigits, rest) :=
    read_mantissa hex false false 0 0 (if hex then drop 2 s1 else s1) in
  match read_exp_part hex rest with
  | Some e =>
      sawdigits
      && (if existsb (Byte.eqb "_") s then underscoreOK s else true)
      && (if hex then in_range64 mant 2 (e - 4 * frac) else in_range64 mant 10 (e - frac))
  | None => false
  end.

(** The class of [strconv.ParseFloat(s, 64)], [None] for its errors. *)
Definition ParseFloat64 (s : bytes) : option fclass :=
  match special s with
  | Some c => Some c
  | None => if parse_finite s then Some FFinite else None
  end.

(** ** FormatFloat *)

(** The digits of a natural number of any size, most significant first. *)
Fixpoint big_digits (fuel : nat) (n : Z) (acc : bytes) : bytes :=
  match fuel with
  | O => acc
  | S f => let acc' := digit_char (n mod 10) :: acc in
           if (n <? 10)%Z then acc' else big_digits f (n / 10) acc'
  end.

Fixpoint trim_zeros (r : bytes) : bytes :=
  match r with
  | c :: r' => if (c =b "0") then trim_zeros r' else r
  | [] => []
  end.

(** [c / 10 ^ s] in positional notation, without trailing zeros. *)
Definition print_scaled (c : Z) (s : nat) : bytes :=
  let p := (10 ^ Z.of_nat s)%Z in
  let ip := big_digits 400 (c / p) [] in
  let fd := big_digits 1200 (c mod p) [] in
  let frac := reverse (trim_zeros (reverse (replicate (s - length fd) "0"%byte ++ fd))) in
  match frac with
  | [] => ip
  | _ => ip ++ "."%byte :: frac
  end.

(** The shortest decimal between [lo] and [hi], the closest to [v] of them:
    cut [v] at the power [10 ^ k] for the largest [k] that stays inside. *)
Fixpoint shortest (incl : bool) (lo v hi : Z) (k : nat) : Z :=
  let p := (10 ^ Z.of_nat k)%Z in
  let down := (v / p * p)%Z in
  let up := (down + p)%Z in
  let okdown := if incl then (lo <=? down)%Z else (lo <? down)%Z in
  let okup := if incl then (up <=? hi)%Z else (up <? hi)%Z in
  let closest :=
    if (2 * (v - down) <? p)%Z then down
    else if (p <? 2 * (v - down))%Z then up
    else if Z.even (v / p) then down else up in
  match k with
  | O => v
  | S k' =>
      if okdown && okup then closest
      else if okdown then down
      else if okup then up
      else shortest incl lo v hi k'
  end.

(** The shortest decimal [c / 10 ^ s] that reads back as the finite float with the bits [bits],
    with [ew] bits of exponent and [fw] bits of fraction, without its sign. *)
Definition shortest_decimal (ew fw bits : Z) : Z * Z :=
  let frac := (bits mod 2 ^ fw)%Z in
  let expo := (bits / 2 ^ fw mod 2 ^ ew)%Z in
  let mant := if (expo =? 0)%Z then frac else (frac + 2 ^ fw)%Z in
  let e := (Z.max expo 1 - (2 ^ (ew - 1) - 1) - fw - 2)%Z in
  let low := if (frac =? 0)%Z && (1 <? expo)%Z then (4 * mant - 1)%Z else (4 * mant - 2)%Z in
  let '(m, s) := if (0 <=? e)%Z then (2 ^ e, 0)%Z else (5 ^ (- e), - e)%Z in
  let hi := ((4 * mant + 2) * m)%Z in
  let k := length (big_digits 1200 hi []) in
  (if (mant =? 0)%Z then 0 else shortest (Z.even mant) (low * m) (4 * mant * m) hi k, s)%Z.

(** [FormatFloat(x, 'f', -1, w)]. *)
Definition format_finite (ew fw bits : Z) : bytes :=
  let '(c, s) := shortest_decimal ew fw bits in
  let body := if (c =? 0)%Z then $"0" else print_scaled c (Z.to_nat s) in
  if (bits / 2 ^ (fw + ew) =? 0)%Z then body else "-"%byte :: body.

(** [w] is 32 or 64. *)
Definition FormatFloat (bits w : Z) : bytes :=
  if (w =? 32)%Z then format_finite 8 23 bits else format_finite 11 52 bits.
