(* ===== verification/Wire.v ===== *)
(** * The PostgreSQL wire protocol (internal/protocol/message.go)

    Framing ([ReadMessage], [ReadMessageReuse], [WriteMessage], [ForwardRaw],
    the startup packet) and the payload decoders of the extended query protocol
    (Parse, Bind, Close).  A reader is the list of bytes the peer will still
    deliver before the end of the stream; a writer is the list of bytes written.
    Slices are taken with their bounds checks: an out-of-range slice is [Panic]. *)

From S2P Require Import Prelude GoStrings.

(** ** Byte order *)

Definition be_value (l : bytes) : Z := fold_left (fun a b => a * 256 + bz b)%Z l 0%Z.

Fixpoint be_bytes (n : nat) (z : Z) : bytes :=
  match n with
  | O => []
  | S k => zb (z / 256 ^ Z.of_nat k) :: be_bytes k z
  end.

(** [binary.BigEndian.PutUint32(buf, uint32(z))], [AppendUint16] likewise. *)
Definition PutUint32 (z : Z) : bytes := be_bytes 4 (wrapU 32 z).
Definition PutUint16 (z : Z) : bytes := be_bytes 2 (wrapU 16 z).

(** The slice expression [p[lo:hi]]. *)
Definition slice {E} (p : bytes) (lo hi : nat) : res E bytes :=
  if (lo <=? hi) && (hi <=? length p) then Ok (take (hi - lo) (drop lo p)) else Panic.

(** ** Messages *)

Module Msg.
Definition Query : byte := "Q".
Definition Terminate : byte := "X".
Definition Parse : byte := "P".
Definition Bind : byte := "B".
Definition Describe : byte := "D".
Definition Execute : byte := "E".
Definition Sync : byte := "S".
Definition Close : byte := "C".
Definition CopyData : byte := "d".
Definition CopyDone : byte := "c".
Definition CopyFail : byte := "f".
Definition Authentication : byte := "R".
Definition ParameterStatus : byte := "S".
Definition BackendKeyData : byte := "K".
Definition ReadyForQuery : byte := "Z".
Definition RowDescription : byte := "T".
Definition DataRow : byte := "D".
Definition CommandComplete : byte := "C".
Definition ErrorResponse : byte := "E".
Definition NoticeResponse : byte := "N".
Definition CopyInResponse : byte := "G".
Definition CopyOutResponse : byte := "H".
Definition CopyBothResponse : byte := "W".
End Msg.

Definition MaxMessageSize : Z := 16 * 1024 * 1024.

Record Message := mkMessage {
  mType : byte;
  mPayload : bytes;
  mRaw : option bytes   (* [None] is the nil slice *)
}.

Inductive WireErr :=
| ErrReadLength
| ErrReadHeader
| ErrReadPayload
| ErrInvalidLength (n : Z)
| ErrTooLarge (n : Z).

(** [io.ReadFull] of [n] bytes. *)
Definition ReadFull (n : nat) (r : bytes) : option (bytes * bytes) :=
  if n <=? length r then Some (take n r, drop n r) else None.

Definition ReadStartupMessage (r : bytes) : res WireErr (Message * bytes) :=
  match ReadFull 4 r with
  | None => Err ErrReadLength
  | Some (lenBuf, r1) =>
      let length := be_value lenBuf in
      if (length <? 4)%Z || (10000 <? length)%Z then Err (ErrInvalidLength length)
      else match ReadFull (Z.to_nat (length - 4)) r1 with
           | None => Err ErrReadPayload
           | Some (payload, r2) => Ok (mkMessage x00 payload None, r2)
           end
  end.

Definition ReadMessage (r : bytes) : res WireErr (Message * bytes) :=
  match ReadFull 5 r with
  | None => Err ErrReadHeader
  | Some (hdr, r1) =>
      let length := be_value (drop 1 hdr) in
      if (length <? 4)%Z then Err (ErrInvalidLength length)
      else
        let payloadLen := (length - 4)%Z in
        if (MaxMessageSize <? payloadLen)%Z then Err (ErrTooLarge payloadLen)
        else match ReadFull (Z.to_nat payloadLen) r1 with
             | None => Err ErrReadPayload
             | Some (body, r2) =>
                 let raw := hdr ++ body in
                 Ok (mkMessage (hd x00 raw) (drop 5 raw) (Some raw), r2)
             end
  end.

(** [copy(buf, src)] into a backing array: the first bytes are replaced. *)
Definition overwrite (src buf : bytes) : bytes :=
  take (length buf) src ++ drop (length src) buf.

(** [ReadMessageReuse] returns the message, the rest of the stream and the
    buffer to keep, whose backing array is given with its full capacity.  The
    message's [Raw] is the prefix of the buffer. *)
Definition ReadMessageReuse (r buf : bytes) : res WireErr (Message * bytes) * bytes :=
  match ReadFull 5 r with
  | None => (Err ErrReadHeader, buf)
  | Some (hdr, r1) =>
      let len := be_value (drop 1 hdr) in
      if (len <? 4)%Z then (Err (ErrInvalidLength len), buf)
      else
        let payloadLen := (len - 4)%Z in
        if (MaxMessageSize <? payloadLen)%Z then (Err (ErrTooLarge payloadLen), buf)
        else
          let wireLen := 5 + Z.to_nat payloadLen in
          let buf1 := if wireLen <=? length buf then buf else replicate wireLen x00 in
          let buf2 := overwrite hdr buf1 in
          match ReadFull (Z.to_nat payloadLen) r1 with
          | None => (Err ErrReadPayload, overwrite (hdr ++ r1) buf2)
          | Some (body, r2) =>
              let buf3 := overwrite (hdr ++ body) buf2 in
              (Ok (mkMessage (hd x00 buf3) (take (wireLen - 5) (drop 5 buf3))
                     (Some (take wireLen buf3)), r2), buf3)
          end
  end.

Definition WriteMessage (msgType : byte) (payload : bytes) : bytes :=
  msgType :: PutUint32 (4 + Z.of_nat (length payload)) ++ payload.

Definition ForwardRaw (msg : Message) : bytes :=
  match mRaw msg with
  | Some raw => raw
  | None => WriteMessage (mType msg) (mPayload msg)
  end.

(** [CopyMessage] reads [raw[0]] and [raw[5:]]: a [Raw] of fewer than five
    bytes would panic. *)
Definition CopyMessage (msg : Message) : res WireErr Message :=
  match mRaw msg with
  | Some raw =>
      payload <-? slice raw 5 (length raw);
      Ok (mkMessage (hd x00 raw) payload (Some raw))
  | None => Ok (mkMessage (mType msg) (mPayload msg) None)
  end.

(** ** The startup packet *)

Definition indexOf (data : bytes) (b : byte) : option nat := IndexByte data b.

(** [BuildStartupMessage] ranges over a map; [params] lists its entries in the
    order of that iteration. *)
Definition startup_params (params : list (bytes * bytes)) : bytes :=
  concat ((fun kv => kv.1 ++ [x00] ++ kv.2 ++ [x00]) <$> params).

Definition BuildStartupMessage (params : list (bytes * bytes)) : bytes :=
  let body := PutUint16 3 ++ PutUint16 0 ++ startup_params params ++ [x00] in
  PutUint32 (4 + Z.of_nat (length body)) ++ body.

Fixpoint ParseStartupParams_loop (fuel : nat) (rest : bytes) (params : gmap bytes bytes)
    : gmap bytes bytes :=
  match fuel with
  | O => params
  | S f =>
      if (length rest <=? 1)%nat then params
      else match indexOf rest x00 with
           | None => params
           | Some keyEnd =>
               let key := take keyEnd rest in
               let rest1 := drop (S keyEnd) rest in
               match indexOf rest1 x00 with
               | None => params
               | Some valEnd =>
                   let val := take valEnd rest1 in
                   ParseStartupParams_loop f (drop (S valEnd) rest1) (<[key := val]> params)
               end
           end
  end.

(** The third component is the nil map when the payload is too short.  Each
    iteration consumes at least two bytes, so the length is enough fuel. *)
Definition ParseStartupParams (payload : bytes) : Z * Z * option (gmap bytes bytes) :=
  if (length payload <? 4)%nat then (0, 0, None)%Z
  else (be_value (take 2 payload), be_value (take 2 (drop 2 payload)),
        Some (ParseStartupParams_loop (length payload) (drop 4 payload) ∅)).

(** ** Query and extended-query payloads *)

Definition ExtractQueryText (payload : bytes) : bytes :=
  match indexOf payload x00 with
  | Some e => take e payload
  | None => payload
  end.

Definition ParseParseMessage (payload : bytes) : bytes * bytes :=
  match indexOf payload x00 with
  | None => ([], [])
  | Some nameEnd =>
      let stmtName := take nameEnd payload in
      let rest := drop (S nameEnd) payload in
      match indexOf rest x00 with
      | None => (stmtName, [])
      | Some queryEnd => (stmtName, take queryEnd rest)
      end
  end.

Inductive ParseErr :=
| ErrMissingName
| ErrMissingQuery
| ErrTruncatedOID (i : nat).

(** The loop over the [n] parameter OIDs, the [i]th being next: it returns the
    OIDs read and the error, if any. *)
Fixpoint readOIDs (n i : nat) (rest : bytes) : list Z * option ParseErr :=
  match n with
  | O => ([], None)
  | S k =>
      if (length rest <? 4)%nat then ([], Some (ErrTruncatedOID i))
      else let '(oids, e) := readOIDs k (S i) (drop 4 rest) in
           (be_value (take 4 rest) :: oids, e)
  end.

Record ParseFull := mkParseFull {
  pfName : bytes;
  pfQuery : bytes;
  pfOIDs : list Z;
  pfErr : option ParseErr
}.

Definition ParseParseMessageFull (payload : bytes) : ParseFull :=
  match indexOf payload x00 with
  | None => mkParseFull [] [] [] (Some ErrMissingName)
  | Some nameEnd =>
      let stmtName := take nameEnd payload in
      let rest := drop (S nameEnd) payload in
      match indexOf rest x00 with
      | None => mkParseFull stmtName [] [] (Some ErrMissingQuery)
      | Some queryEnd =>
          let query := take queryEnd rest in
          let rest1 := drop (S queryEnd) rest in
          if (length rest1 <? 2)%nat then mkParseFull stmtName query [] None
          else
            let numParams := Z.to_nat (be_value (take 2 rest1)) in
            let '(oids, e) := readOIDs numParams 0 (drop 2 rest1) in
            mkParseFull stmtName query oids e
      end
  end.

Definition BuildParsePayload (stmtName query : bytes) (paramOIDs : list Z) : bytes :=
  stmtName ++ [x00] ++ query ++ [x00] ++ PutUint16 (Z.of_nat (length paramOIDs)) ++
  concat (PutUint32 <$> paramOIDs).

Definition ParseBindMessage (payload : bytes) : bytes * bytes :=
  match indexOf payload x00 with
  | None => ([], [])
  | Some portalEnd =>
      let portal := take portalEnd payload in
      let rest := drop (S portalEnd) payload in
      match indexOf rest x00 with
      | None => (portal, [])
      | Some nameEnd => (portal, take nameEnd rest)
      end
  end.

Record BindMessageDetail := mkBind {
  Portal : bytes;
  StatementName : bytes;
  FormatCodes : list Z;
  Parameters : list (option bytes);   (* [None] is SQL NULL *)
  ResultFormatCodes : list Z
}.

Inductive BindErr :=
| ErrPortal
| ErrStatement
| ErrFmtCount
| ErrFmtAt (i : nat)
| ErrParamCount
| ErrParamLenAt (i : nat)
| ErrParamInvalid (len : Z) (i : nat)
| ErrResCount
| ErrResAt (i : nat).

(** A NUL-terminated string at [pos]: the string and the position after it. *)
Definition bindString (payload : bytes) (pos : nat) (e : BindErr) : res BindErr (bytes * nat) :=
  tail <-? slice payload pos (length payload);
  match indexOf tail x00 with
  | None => Err e
  | Some n =>
      s <-? slice payload pos (pos + n);
      Ok (s, pos + n + 1)
  end.

(** A 16-bit big-endian integer at [pos], with the source's length check. *)
Definition bindUint16 (payload : bytes) (pos : nat) (e : BindErr) : res BindErr (Z * nat) :=
  if (length payload <? pos + 2)%nat then Err e
  else s <-? slice payload pos (pos + 2); Ok (be_value s, pos + 2).

(** The loop over [n] format codes, the [i]th being next. *)
Fixpoint bindCodes (payload : bytes) (n i pos : nat) (e : nat -> BindErr)
    : res BindErr (list Z * nat) :=
  match n with
  | O => Ok ([], pos)
  | S k =>
      '(v, pos1) <-? bindUint16 payload pos (e i);
      '(vs, pos2) <-? bindCodes payload k (S i) pos1 e;
      Ok (wrapS 16 v :: vs, pos2)
  end.

Fixpoint bindParams (payload : bytes) (n i pos : nat)
    : res BindErr (list (option bytes) * nat) :=
  match n with
  | O => Ok ([], pos)
  | S k =>
      if (length payload <? pos + 4)%nat then Err (ErrParamLenAt i)
      else
        s <-? slice payload pos (pos + 4);
        let paramLen := wrapS 32 (be_value s) in
        let pos1 := pos + 4 in
        if (paramLen =? -1)%Z then
          '(ps, pos2) <-? bindParams payload k (S i) pos1;
          Ok (None :: ps, pos2)
        else if (paramLen <? 0)%Z || (Z.of_nat (length payload) <? Z.of_nat pos1 + paramLen)%Z
        then Err (ErrParamInvalid paramLen i)
        else
          v <-? slice payload pos1 (pos1 + Z.to_nat paramLen);
          '(ps, pos2) <-? bindParams payload k (S i) (pos1 + Z.to_nat paramLen);
          Ok (Some v :: ps, pos2)
  end.

Definition ParseBindMessageFull (payload : bytes) : res BindErr BindMessageDetail :=
  '(portal, pos1) <-? bindString payload 0 ErrPortal;
  '(stmt, pos2) <-? bindString payload pos1 ErrStatement;
  '(numFmt, pos3) <-? bindUint16 payload pos2 ErrFmtCount;
  '(fmts, pos4) <-? bindCodes payload (Z.to_nat numFmt) 0 pos3 ErrFmtAt;
  '(numParams, pos5) <-? bindUint16 payload pos4 ErrParamCount;
  '(params, pos6) <-? bindParams payload (Z.to_nat numParams) 0 pos5;
  '(numRes, pos7) <-? bindUint16 payload pos6 ErrResCount;
  '(rfmts, _) <-? bindCodes payload (Z.to_nat numRes) 0 pos7 ErrResAt;
  Ok (mkBind portal stmt fmts params rfmts).

Definition ParseCloseMessage (payload : bytes) : byte * bytes :=
  if (length payload <? 2)%nat then (x00, [])
  else
    let closeType := hd x00 payload in
    match indexOf (drop 1 payload) x00 with
    | None => (closeType, [])
    | Some nameEnd => (closeType, take nameEnd (drop 1 payload))
    end.

(** ** Lemmas *)

Lemma length_be_bytes n z : length (be_bytes n z) = n.
Proof. induction n; simpl; congruence. Qed.

Lemma be_value_acc l a :
  fold_left (fun a b => a * 256 + bz b)%Z l a =
    (a * 256 ^ Z.of_nat (length l) + be_value l)%Z.
Proof.
  unfold be_value. revert a. induction l as [|b l IH]; intros a; cbn [fold_left length];
    [lia|].
  rewrite (IH (a * 256 + bz b)%Z), (IH (0 * 256 + bz b)%Z), Nat2Z.inj_succ, Z.pow_succ_r by lia.
  lia.
Qed.

Lemma be_value_cons b l : be_value (b :: l) = (bz b * 256 ^ Z.of_nat (length l) + be_value l)%Z.
Proof. unfold be_value at 1. simpl. by rewrite be_value_acc. Qed.

Lemma be_value_range l : (0 <= be_value l < 256 ^ Z.of_nat (length l))%Z.
Proof.
  induction l as [|b l IH]; [done|]. rewrite be_value_cons. pose proof (bz_range b).
  simpl length. rewrite Nat2Z.inj_succ, Z.pow_succ_r by lia. nia.
Qed.

Lemma be_value_be_bytes n z : be_value (be_bytes n z) = (z mod 256 ^ Z.of_nat n)%Z.
Proof.
  induction n as [|n IH]; [by rewrite Z.mod_1_r|].
  simpl be_bytes. rewrite be_value_cons, length_be_bytes, bz_zb, IH.
  rewrite Nat2Z.inj_succ, Z.pow_succ_r, (Z.mul_comm 256) by lia.
  assert (0 < 256 ^ Z.of_nat n)%Z by (apply Z.pow_pos_nonneg; lia).
  rewrite Z.rem_mul_r by lia. lia.
Qed.

Lemma length_PutUint32 z : length (PutUint32 z) = 4.
Proof. apply length_be_bytes. Qed.

Lemma length_PutUint16 z : length (PutUint16 z) = 2.
Proof. apply length_be_bytes. Qed.

Lemma be_value_PutUint32 z : (0 <= z < 2 ^ 32)%Z -> be_value (PutUint32 z) = z.
Proof.
  intros H. unfold PutUint32. rewrite be_value_be_bytes, wrapU_small by done.
  by apply Z.mod_small.
Qed.

Lemma be_value_PutUint16 z : (0 <= z < 2 ^ 16)%Z -> be_value (PutUint16 z) = z.
Proof.
  intros H. unfold PutUint16. rewrite be_value_be_bytes, wrapU_small by done.
  by apply Z.mod_small.
Qed.

#[export] Hint Rewrite length_be_bytes length_PutUint32 length_PutUint16 : pgmux.

Lemma ReadFull_app s r : ReadFull (length s) (s ++ r) = Some (s, r).
Proof.
  unfold ReadFull. rewrite (proj2 (Nat.leb_le _ _)) by (rewrite length_app; lia).
  by rewrite take_app_length, drop_app_length.
Qed.

Lemma ReadFull_Some n r s r' :
  ReadFull n r = Some (s, r') -> r = s ++ r' /\ length s = n.
Proof.
  unfold ReadFull. destruct (Nat.leb_spec n (length r)); [|done]. intros [= <- <-].
  split; [by rewrite take_drop | by rewrite length_take_le].
Qed.

(** ** Framing *)

Lemma ReadMessage_frame t p rest :
  (Z.of_nat (length p) <= MaxMessageSize)%Z ->
  ReadMessage (WriteMessage t p ++ rest) =
    Ok (mkMessage t p (Some (WriteMessage t p)), rest).
Proof.
  unfold MaxMessageSize. intros Hp. unfold ReadMessage, WriteMessage.
  set (n := (4 + Z.of_nat (length p))%Z).
  change (t :: PutUint32 n ++ p) with ((t :: PutUint32 n) ++ p). rewrite <- app_assoc.
  change 5 with (length (t :: PutUint32 n)) at 1. rewrite ReadFull_app.
  cbn [drop]. rewrite drop_0, be_value_PutUint32 by lia.
  destruct (Z.ltb_spec n 4); [lia|].
  destruct (Z.ltb_spec MaxMessageSize (n - 4)); [unfold MaxMessageSize in *; lia|].
  replace (Z.to_nat (n - 4)) with (length p) by lia. by rewrite ReadFull_app.
Qed.

(** C38: a message written by [WriteMessage] whose payload fits the protocol
    limit is read back by [ReadMessage], from any stream it starts, with its
    type and payload, its wire bytes kept for zero-copy forwarding, and exactly
    the rest of the stream left to read. *)
Theorem ReadMessage_WriteMessage t p rest :
  (Z.of_nat (length p) <= MaxMessageSize)%Z ->
  ReadMessage (WriteMessage t p ++ rest) =
    Ok (mkMessage t p (Some (WriteMessage t p)), rest).
Proof. apply ReadMessage_frame. Qed.

Lemma ReadMessage_Ok r m rest :
  ReadMessage r = Ok (m, rest) ->
  exists t len body, r = (t :: len) ++ body ++ rest /\ length len = 4 /\
    (be_value len = 4 + Z.of_nat (length body))%Z /\
    (Z.of_nat (length body) <= MaxMessageSize)%Z /\
    m = mkMessage t body (Some ((t :: len) ++ body)).
Proof.
  unfold ReadMessage. destruct (ReadFull 5 r) as [[hdr r1]|] eqn:E1; [|done].
  destruct (ReadFull_Some _ _ _ _ E1) as [-> Hh].
  destruct hdr as [|t len]; [done|]. cbn [drop]. rewrite drop_0.
  destruct (Z.ltb_spec (be_value len) 4); [done|].
  destruct (Z.ltb_spec MaxMessageSize (be_value len - 4)); [done|].
  destruct (ReadFull (Z.to_nat (be_value len - 4)) r1) as [[body r2]|] eqn:E2; [|done].
  destruct (ReadFull_Some _ _ _ _ E2) as [-> Hb]. intros [= <- <-].
  exists t, len, body. simpl in Hh. repeat split; try lia.
  do 4 (destruct len as [|? len]; [done|]). by destruct len.
Qed.

(** whatever [ReadMessage] accepts is forwarded verbatim: the bytes
    [ForwardRaw] writes followed by the rest of the stream are the stream that
    was read, the payload respects the size limit that protects the proxy's
    memory, and [CopyMessage] reproduces the message without panicking. *)
Theorem ReadMessage_transparent r m rest :
  ReadMessage r = Ok (m, rest) ->
  ForwardRaw m ++ rest = r /\
  (Z.of_nat (length (mPayload m)) <= MaxMessageSize)%Z /\
  CopyMessage m = Ok m.
Proof.
  intros (t & len & body & -> & Hlen & Hv & Hmax & ->)%ReadMessage_Ok.
  unfold ForwardRaw, CopyMessage, slice. simpl. rewrite <- app_assoc.
  split; [done|]. split; [done|].
  do 4 (destruct len as [|? len]; [done|]). destruct len; [|done]. simpl.
  rewrite Nat.leb_refl. simpl. do 3 f_equal. rewrite Nat.sub_0_r. apply firstn_all.
Qed.

Lemma overwrite_prefix src buf :
  length src <= length buf -> overwrite src buf = src ++ drop (length src) buf.
Proof. intros H. unfold overwrite. by rewrite take_ge. Qed.

Lemma length_overwrite src buf : length (overwrite src buf) = length buf.
Proof. unfold overwrite. rewrite length_app, length_take, length_drop. lia. Qed.

(** the allocation-free reader is the plain reader: for every stream and
    whatever the reused buffer holds, [ReadMessageReuse] returns the message, the
    rest of the stream or the error that [ReadMessage] returns, and on success
    the message's wire bytes are the prefix of the buffer it hands back. *)
Theorem ReadMessageReuse_ReadMessage r buf :
  (ReadMessageReuse r buf).1 = ReadMessage r /\
  (forall m rest, (ReadMessageReuse r buf).1 = Ok (m, rest) ->
     exists old, (ReadMessageReuse r buf).2 = ForwardRaw m ++ old).
Proof.
  unfold ReadMessageReuse, ReadMessage.
  destruct (ReadFull 5 r) as [[hdr r1]|] eqn:E1; [|done].
  destruct (ReadFull_Some _ _ _ _ E1) as [_ Hh].
  set (n := be_value (drop 1 hdr)). destruct (n <? 4)%Z; [done|].
  destruct (MaxMessageSize <? n - 4)%Z; [done|].
  set (k := Z.to_nat (n - 4)). destruct (ReadFull k r1) as [[body r2]|] eqn:E2; [|done].
  destruct (ReadFull_Some _ _ _ _ E2) as [_ Hb].
  set (buf1 := if 5 + k <=? length buf then buf else replicate (5 + k) x00).
  assert (Hl : 5 + k <= length buf1).
  { unfold buf1. case_match eqn:Hc; [by apply Nat.leb_le in Hc|].
    rewrite length_replicate. lia. }
  assert (Hraw : length (hdr ++ body) = 5 + k) by (rewrite length_app; lia).
  rewrite overwrite_prefix by (rewrite length_overwrite; lia).
  rewrite (take_app_length' (hdr ++ body)) by lia.
  assert (Hhd : forall (x : byte) l1 l2, length l1 = 5 + k -> hd x (l1 ++ l2) = hd x l1)
    by (intros x [|??] ? ?; [simpl in *; lia | done]).
  rewrite Hhd by done. rewrite drop_app_le by lia.
  rewrite take_app_length' by (rewrite length_drop; lia).
  split; [done|]. intros m rest [= <- <-]. simpl. eauto.
Qed.

(** ** The startup packet *)

Definition NulFree (s : bytes) : Prop := x00 ∉ s.

Lemma startup_loop_params kvs fuel m :
  Forall (fun kv => NulFree kv.1 /\ NulFree kv.2) kvs -> length kvs < fuel ->
  ParseStartupParams_loop fuel (startup_params kvs ++ [x00]) m =
    fold_left (fun m kv => <[kv.1 := kv.2]> m) kvs m.
Proof.
  intros H. revert fuel m. induction H as [|[k v] kvs [Hk Hv] _ IH]; intros fuel m Hf;
    (destruct fuel as [|fuel]; [simpl in *; lia|]).
  - done.
  - cbn [ParseStartupParams_loop fold_left fst snd].
    unfold startup_params. cbn [fmap list_fmap concat fst snd].
    fold (startup_params kvs). cbn [fst snd] in *. unfold indexOf.
    rewrite <- !app_assoc.
    destruct (Nat.leb_spec (length (k ++ [x00] ++ v ++ [x00] ++ startup_params kvs ++ [x00])) 1)
      as [Hl|_]; [rewrite !length_app in Hl; simpl in Hl; lia|].
    cbn [app]. rewrite (IndexByte_app k) by done. rewrite take_app_length.
    replace (drop (S (length k)) _) with (v ++ x00 :: startup_params kvs ++ [x00])
      by (rewrite <- Nat.add_1_r, <- drop_drop, drop_app_length; done).
    rewrite (IndexByte_app v) by done.
    rewrite take_app_length.
    replace (drop (S (length v)) _) with (startup_params kvs ++ [x00])
      by (rewrite <- Nat.add_1_r, <- drop_drop, drop_app_length; done).
    apply IH. simpl in *. lia.
Qed.

Lemma fold_insert_map_to_list (kvs : list (bytes * bytes)) (m : gmap bytes bytes) :
  NoDup kvs.*1 -> (fold_left (fun m kv => <[kv.1 := kv.2]> m) kvs m) = list_to_map kvs ∪ m.
Proof.
  revert m. induction kvs as [|[k v] kvs IH]; intros m Hnd; simpl.
  - by rewrite (left_id_L ∅ (∪)).
  - apply list.NoDup_cons in Hnd as [Hk Hnd]. rewrite IH by done.
    rewrite <- insert_union_l. rewrite insert_union_r; [done|].
    by apply not_elem_of_list_to_map_1.
Qed.

(** the startup packet round trip.  Whatever order the map iteration takes,
    the packet [BuildStartupMessage] builds is accepted by [ReadStartupMessage]
    when it respects the server's 10000 byte limit, and [ParseStartupParams]
    recovers protocol version 3.0 and exactly the parameter map, provided no key
    or value contains a NUL byte. *)
Theorem Startup_roundtrip (params : gmap bytes bytes) kvs rest :
  kvs ≡ₚ map_to_list params ->
  Forall (fun kv => NulFree kv.1 /\ NulFree kv.2) kvs ->
  (Z.of_nat (length (BuildStartupMessage kvs)) <= 10000)%Z ->
  exists payload,
    ReadStartupMessage (BuildStartupMessage kvs ++ rest) = Ok (mkMessage x00 payload None, rest) /\
    ParseStartupParams payload = (3, 0, Some params)%Z.
Proof.
  intros Hp Hnul. unfold BuildStartupMessage.
  set (body := PutUint16 3 ++ PutUint16 0 ++ startup_params kvs ++ [x00]).
  set (n := (4 + Z.of_nat (length body))%Z). rewrite length_app, length_PutUint32. intros Hlen.
  exists body. split.
  - unfold ReadStartupMessage. rewrite <- app_assoc.
    replace 4 with (length (PutUint32 n)) at 1 by apply length_PutUint32.
    rewrite ReadFull_app, be_value_PutUint32 by lia.
    destruct (Z.ltb_spec n 4); [lia|]. destruct (Z.ltb_spec 10000 n); [lia|]. cbn [orb].
    replace (Z.to_nat (n - 4)) with (length body) by lia. by rewrite ReadFull_app.
  - assert (Hk : length kvs <= length (startup_params kvs)).
    { clear. unfold startup_params. induction kvs as [|kv kvs IH]; [done|].
      cbn [fmap list_fmap concat]. rewrite !length_app. simpl in *. lia. }
    assert (Hf : 4 + length kvs < length body)
      by (unfold body; rewrite !length_app, !length_PutUint16; simpl; lia).
    unfold ParseStartupParams. destruct (Nat.ltb_spec (length body) 4); [lia|].
    set (fuel := length body) in *. clearbody fuel. simpl.
    rewrite drop_0, startup_loop_params by (done || lia).
    assert (Hnd : NoDup kvs.*1) by (rewrite Hp; apply NoDup_fst_map_to_list).
    rewrite fold_insert_map_to_list, (right_id_L ∅ (∪)) by done.
    rewrite (list_to_map_proper _ _ Hnd Hp), list_to_map_to_list. done.
Qed.

(** ** Parse *)

Lemma readOIDs_build oids i r :
  Forall (fun o => 0 <= o < 2 ^ 32)%Z oids ->
  readOIDs (length oids) i (concat (PutUint32 <$> oids) ++ r) = (oids, None).
Proof.
  intros H. revert i. induction H as [|o oids Ho _ IH]; intros i; [done|].
  cbn [length readOIDs fmap list_fmap concat]. rewrite <- app_assoc.
  destruct (Nat.ltb_spec (length (PutUint32 o ++ concat (PutUint32 <$> oids) ++ r)) 4) as [Hl|_];
    [rewrite length_app, length_PutUint32 in Hl; lia|].
  rewrite drop_app_length', take_app_length' by (by rewrite length_PutUint32).
  by rewrite IH, be_value_PutUint32.
Qed.

Lemma cstring_head s r :
  NulFree s -> indexOf (s ++ [x00] ++ r) x00 = Some (length s) /\
  take (length s) (s ++ [x00] ++ r) = s /\ drop (S (length s)) (s ++ [x00] ++ r) = r.
Proof.
  intros H. unfold indexOf. simpl. rewrite IndexByte_app by done. split; [done|].
  split; [apply take_app_length|].
  rewrite <- Nat.add_1_r, <- drop_drop, drop_app_length. done.
Qed.

(** the Parse payload the proxy rebuilds after rewriting a query decodes to
    the same statement name, query and parameter types, for both decoders, when
    the name and the query are NUL-free and there are fewer than 65536 types. *)
Theorem ParsePayload_roundtrip name query oids :
  NulFree name -> NulFree query -> (Z.of_nat (length oids) < 2 ^ 16)%Z ->
  Forall (fun o => 0 <= o < 2 ^ 32)%Z oids ->
  ParseParseMessageFull (BuildParsePayload name query oids) =
    mkParseFull name query oids None /\
  ParseParseMessage (BuildParsePayload name query oids) = (name, query).
Proof.
  intros Hn Hq Hl Ho. unfold ParseParseMessageFull, ParseParseMessage, BuildParsePayload.
  set (tail := PutUint16 _ ++ _).
  destruct (cstring_head name (query ++ [x00] ++ tail) Hn) as (-> & -> & ->).
  destruct (cstring_head query tail Hq) as (-> & -> & ->).
  split; [|done]. destruct (Nat.ltb_spec (length tail) 2) as [H|_].
  { unfold tail in H. rewrite length_app, length_PutUint16 in H. lia. }
  unfold tail. rewrite drop_app_length', take_app_length' by (by rewrite length_PutUint16).
  rewrite be_value_PutUint16 by lia. rewrite Nat2Z.id.
  rewrite <- (app_nil_r (concat _)), readOIDs_build by done. done.
Qed.

(** ** Bind *)

Lemma slice_no_panic {E} p lo hi :
  lo <= hi <= length p -> exists s, @slice E p lo hi = Ok s.
Proof.
  intros H. unfold slice. rewrite !(proj2 (Nat.leb_le _ _)) by lia. simpl. eauto.
Qed.

Lemma slice_mid {E} a b c : @slice E (a ++ b ++ c) (length a) (length a + length b) = Ok b.
Proof.
  unfold slice. rewrite !(proj2 (Nat.leb_le _ _)) by (rewrite ?length_app; lia). simpl.
  rewrite drop_app_length. replace (length a + length b - length a) with (length b) by lia.
  by rewrite take_app_length.
Qed.

Lemma IndexByte_lt s c i : IndexByte s c = Some i -> i < length s.
Proof.
  intros H. destruct (IndexByte_Some _ _ _ H) as [Hs _]. apply (f_equal length) in Hs.
  rewrite length_app in Hs. simpl in Hs. rewrite length_take, length_drop in Hs. lia.
Qed.

(** Every step of the Bind decoder keeps the position within the payload. *)
Lemma bindString_safe payload pos e :
  pos <= length payload ->
  is_panic (bindString payload pos e) = false /\
  forall s pos', bindString payload pos e = Ok (s, pos') -> pos' <= length payload.
Proof.
  intros H. unfold bindString, slice at 1 3.
  rewrite (proj2 (Nat.leb_le pos _) H), Nat.leb_refl. simpl.
  unfold indexOf. destruct (IndexByte _ x00) as [n|] eqn:E; [|done].
  apply IndexByte_lt in E. rewrite length_take, length_drop in E.
  destruct (@slice_no_panic BindErr payload pos (pos + n)) as [s Hs]; [lia|].
  rewrite Hs. simpl. split; [done|]. intros s' pos' [= <- <-]. lia.
Qed.

Lemma bindUint16_safe payload pos e :
  is_panic (bindUint16 payload pos e) = false /\
  forall v pos', bindUint16 payload pos e = Ok (v, pos') -> pos' <= length payload.
Proof.
  unfold bindUint16. destruct (Nat.ltb_spec (length payload) (pos + 2)); [done|].
  destruct (@slice_no_panic BindErr payload pos (pos + 2)) as [s Hs]; [lia|].
  rewrite Hs. simpl. split; [done|]. intros v pos' [= <- <-]. lia.
Qed.

Lemma bindCodes_safe payload n i pos e :
  pos <= length payload ->
  is_panic (bindCodes payload n i pos e) = false /\
  forall vs pos', bindCodes payload n i pos e = Ok (vs, pos') -> pos' <= length payload.
Proof.
  revert i pos. induction n as [|n IH]; intros i pos H; simpl.
  { split; [done|]. by intros vs pos' [= <- <-]. }
  destruct (bindUint16_safe payload pos (e i)) as [H1 H2].
  destruct (bindUint16 payload pos (e i)) as [[v pos1]| |]; try done. simpl.
  destruct (IH (S i) pos1 (H2 _ _ eq_refl)) as [H3 H4].
  destruct (bindCodes payload n (S i) pos1 e) as [[vs pos2]| |]; try done. simpl.
  split; [done|]. intros ? ? [= <- <-]. by eapply H4.
Qed.

Lemma bindParams_safe payload n i pos :
  pos <= length payload ->
  is_panic (bindParams payload n i pos) = false /\
  forall ps pos', bindParams payload n i pos = Ok (ps, pos') -> pos' <= length payload.
Proof.
  revert i pos. induction n as [|n IH]; intros i pos H; cbn [bindParams].
  { split; [done|]. by intros vs pos' [= <- <-]. }
  destruct (Nat.ltb_spec (length payload) (pos + 4)); [done|].
  destruct (@slice_no_panic BindErr payload pos (pos + 4)) as [s Hs]; [lia|].
  rewrite Hs. cbn [res_bind].
  destruct (wrapS 32 (be_value s) =? -1)%Z.
  - destruct (IH (S i) (pos + 4) ltac:(lia)) as [H3 H4].
    destruct (bindParams payload n (S i) (pos + 4)) as [[ps pos2]| |]; try done. simpl.
    split; [done|]. intros ? ? [= <- <-]. by eapply H4.
  - destruct (_ || _) eqn:Hc; [done|]. bool_to_prop.
    destruct (@slice_no_panic BindErr payload (pos + 4)
                (pos + 4 + Z.to_nat (wrapS 32 (be_value s)))) as [v Hv]; [lia|].
    rewrite Hv. cbn [res_bind].
    destruct (IH (S i) (pos + 4 + Z.to_nat (wrapS 32 (be_value s))) ltac:(lia)) as [H3 H4].
    destruct (bindParams _ _ _ _) as [[ps pos2]| |]; try done. simpl.
    split; [done|]. intros ? ? [= <- <-]. by eapply H4.
Qed.

(** no Bind message can crash the proxy: whatever bytes a client sends as
    its payload, decoding it returns a value or an error, never an
    out-of-range slice. *)
Theorem ParseBindMessageFull_no_panic payload :
  is_panic (ParseBindMessageFull payload) = false.
Proof.
  unfold ParseBindMessageFull.
  destruct (bindString_safe payload 0 ErrPortal) as [Hp1 Hb1]; [lia|].
  apply res_bind_no_panic; [done|]. intros [portal pos1] E1. specialize (Hb1 _ _ E1).
  destruct (bindString_safe payload pos1 ErrStatement Hb1) as [Hp2 Hb2].
  apply res_bind_no_panic; [done|]. intros [stmt pos2] E2. specialize (Hb2 _ _ E2).
  destruct (bindUint16_safe payload pos2 ErrFmtCount) as [Hp3 Hb3].
  apply res_bind_no_panic; [done|]. intros [nf pos3] E3. specialize (Hb3 _ _ E3).
  destruct (bindCodes_safe payload (Z.to_nat nf) 0 pos3 ErrFmtAt Hb3) as [Hp4 Hb4].
  apply res_bind_no_panic; [done|]. intros [fs pos4] E4. specialize (Hb4 _ _ E4).
  destruct (bindUint16_safe payload pos4 ErrParamCount) as [Hp5 Hb5].
  apply res_bind_no_panic; [done|]. intros [np pos5] E5. specialize (Hb5 _ _ E5).
  destruct (bindParams_safe payload (Z.to_nat np) 0 pos5 Hb5) as [Hp6 Hb6].
  apply res_bind_no_panic; [done|]. intros [ps pos6] E6. specialize (Hb6 _ _ E6).
  destruct (bindUint16_safe payload pos6 ErrResCount) as [Hp7 Hb7].
  apply res_bind_no_panic; [done|]. intros [nr pos7] E7. specialize (Hb7 _ _ E7).
  destruct (bindCodes_safe payload (Z.to_nat nr) 0 pos7 ErrResAt Hb7) as [Hp8 _].
  apply res_bind_no_panic; [done|]. by intros [rs pos8] _.
Qed.

(** The Bind payload of the PostgreSQL protocol documentation, as a reference
    encoder: the decoder is proved against it. *)
Definition encodeParam (p : option bytes) : bytes :=
  match p with
  | None => PutUint32 (-1)
  | Some v => PutUint32 (Z.of_nat (length v)) ++ v
  end.

Definition encodeCodes (cs : list Z) : bytes :=
  PutUint16 (Z.of_nat (length cs)) ++ concat (PutUint16 <$> cs).

Definition encodeBind (d : BindMessageDetail) : bytes :=
  Portal d ++ [x00] ++ StatementName d ++ [x00] ++ encodeCodes (FormatCodes d) ++
  PutUint16 (Z.of_nat (length (Parameters d))) ++ concat (encodeParam <$> Parameters d) ++
  encodeCodes (ResultFormatCodes d).

Definition int16 (z : Z) : Prop := (- 2 ^ 15 <= z < 2 ^ 15)%Z.

Definition valid_bind (d : BindMessageDetail) : Prop :=
  NulFree (Portal d) /\ NulFree (StatementName d) /\
  (Z.of_nat (length (FormatCodes d)) < 2 ^ 16)%Z /\ Forall int16 (FormatCodes d) /\
  (Z.of_nat (length (Parameters d)) < 2 ^ 16)%Z /\
  Forall (fun p => match p with Some v => Z.of_nat (length v) < 2 ^ 31 | None => True end)%Z
    (Parameters d) /\
  (Z.of_nat (length (ResultFormatCodes d)) < 2 ^ 16)%Z /\ Forall int16 (ResultFormatCodes d).

Lemma bindString_at a s c e :
  NulFree s -> bindString (a ++ s ++ [x00] ++ c) (length a) e = Ok (s, length a + length s + 1).
Proof.
  intros H. unfold bindString.
  assert (slice (a ++ s ++ [x00] ++ c) (length a) (length (a ++ s ++ [x00] ++ c))
            = @Ok BindErr _ (s ++ [x00] ++ c)) as ->.
  { rewrite length_app. rewrite <- (app_nil_r (s ++ _)) at 1. apply slice_mid. }
  cbn [res_bind]. destruct (cstring_head s c H) as (-> & _). by rewrite slice_mid.
Qed.

Lemma bindUint16_at a v c e :
  (0 <= v < 2 ^ 16)%Z -> bindUint16 (a ++ PutUint16 v ++ c) (length a) e = Ok (v, length a + 2).
Proof.
  intros H. unfold bindUint16.
  destruct (Nat.ltb_spec (length (a ++ PutUint16 v ++ c)) (length a + 2)) as [Hl|_].
  { rewrite !length_app, length_PutUint16 in Hl. lia. }
  rewrite <- (length_PutUint16 v) at 1. rewrite slice_mid. cbn [res_bind].
  by rewrite be_value_PutUint16.
Qed.

Lemma wrapS_wrapU w z : (0 < w)%Z -> wrapS w (wrapU w z) = wrapS w z.
Proof.
  intros H. unfold wrapS, wrapU. f_equal. rewrite Z.add_mod_idemp_l; [done|].
  apply Z.pow_nonzero; lia.
Qed.

Lemma be_value_PutUint16_wrap z : be_value (PutUint16 z) = wrapU 16 z.
Proof.
  unfold PutUint16. rewrite be_value_be_bytes. apply Z.mod_small, wrapU_range. lia.
Qed.

Lemma be_value_PutUint32_wrap z : be_value (PutUint32 z) = wrapU 32 z.
Proof.
  unfold PutUint32. rewrite be_value_be_bytes. apply Z.mod_small, wrapU_range. lia.
Qed.

Lemma bindCodes_at a cs c i e :
  Forall int16 cs ->
  bindCodes (a ++ concat (PutUint16 <$> cs) ++ c) (length cs) i (length a) e =
    Ok (cs, length a + length (concat (PutUint16 <$> cs))).
Proof.
  intros H. revert a i. induction H as [|z cs Hz _ IH]; intros a i.
  { simpl. by rewrite Nat.add_0_r. }
  cbn [length bindCodes fmap list_fmap concat]. rewrite <- app_assoc.
  assert (bindUint16 (a ++ PutUint16 z ++ concat (PutUint16 <$> cs) ++ c) (length a) (e i)
            = Ok (wrapU 16 z, length a + 2)) as ->.
  { unfold bindUint16. rewrite !length_app, length_PutUint16.
    destruct (Nat.ltb_spec (length a + (2 + (length (concat (PutUint16 <$> cs)) + length c)))
                (length a + 2)); [lia|].
    rewrite <- (length_PutUint16 z) at 1. rewrite slice_mid. cbn [res_bind].
    by rewrite be_value_PutUint16_wrap. }
  cbn [res_bind]. specialize (IH (a ++ PutUint16 z) (S i)).
  rewrite <- app_assoc, length_app, length_PutUint16 in IH. rewrite IH. cbn [res_bind].
  rewrite wrapS_wrapU, wrapS_small, length_app, length_PutUint16 by (done || lia).
  do 2 f_equal. lia.
Qed.

Lemma uint32_at a v c :
  (length (a ++ PutUint32 v ++ c) <? length a + 4)%nat = false /\
  @slice BindErr (a ++ PutUint32 v ++ c) (length a) (length a + 4) = Ok (PutUint32 v).
Proof.
  split.
  - apply Nat.ltb_ge. rewrite !length_app, length_PutUint32. lia.
  - rewrite <- (length_PutUint32 v) at 1. apply slice_mid.
Qed.

Lemma bindParams_at a ps c i :
  Forall (fun p => match p with Some v => Z.of_nat (length v) < 2 ^ 31 | None => True end)%Z ps ->
  bindParams (a ++ concat (encodeParam <$> ps) ++ c) (length ps) i (length a) =
    Ok (ps, length a + length (concat (encodeParam <$> ps))).
Proof.
  intros H. revert a i. induction H as [|p ps Hp _ IH]; intros a i.
  { simpl. by rewrite Nat.add_0_r. }
  cbn [length bindParams fmap list_fmap concat]. set (rest := concat (encodeParam <$> ps)) in *.
  destruct p as [v|]; unfold encodeParam; rewrite <- ?app_assoc.
  - destruct (uint32_at a (Z.of_nat (length v)) (v ++ rest ++ c)) as [-> ->].
    cbn [res_bind]. rewrite be_value_PutUint32_wrap, wrapS_wrapU, wrapS_small by lia.
    destruct (Z.eqb_spec (Z.of_nat (length v)) (-1)); [lia|].
    destruct (Z.ltb_spec (Z.of_nat (length v)) 0); [lia|]. cbn [orb].
    destruct (Z.ltb_spec (Z.of_nat (length (a ++ PutUint32 (Z.of_nat (length v)) ++ v ++ rest ++ c)))
                (Z.of_nat (length a + 4) + Z.of_nat (length v))) as [Hl|_].
    { rewrite !length_app, length_PutUint32 in Hl. lia. }
    set (a1 := a ++ PutUint32 (Z.of_nat (length v))).
    assert (Ha1 : length a1 = length a + 4)
      by (unfold a1; rewrite length_app, length_PutUint32; done).
    rewrite app_assoc. fold a1. rewrite <- Ha1, Nat2Z.id, slice_mid. cbn [res_bind].
    specialize (IH (a1 ++ v) (S i)). rewrite length_app, <- app_assoc in IH. rewrite IH.
    cbn [res_bind]. rewrite !length_app, length_PutUint32, Ha1. do 2 f_equal. lia.
  - destruct (uint32_at a (-1) (rest ++ c)) as [-> ->].
    cbn [res_bind]. rewrite be_value_PutUint32_wrap, wrapS_wrapU, wrapS_small by lia.
    cbn [Z.eqb Pos.eqb]. specialize (IH (a ++ PutUint32 (-1)) (S i)).
    rewrite <- app_assoc, length_app, length_PutUint32 in IH. rewrite IH. cbn [res_bind].
    rewrite length_app, length_PutUint32. do 2 f_equal. lia.
Qed.

(** C37: the Bind decoder implements the protocol: every valid Bind message,
    NULL parameters, negative codes and empty values included, decodes from its
    reference encoding (whatever follows it) to exactly the message encoded. *)
Theorem ParseBindMessageFull_encodeBind d rest :
  valid_bind d -> ParseBindMessageFull (encodeBind d ++ rest) = Ok d.
Proof.
  destruct d as [portal stmt fmts params rfmts].
  unfold valid_bind, encodeBind, encodeCodes, ParseBindMessageFull. simpl Portal.
  cbn [Portal StatementName FormatCodes Parameters ResultFormatCodes].
  intros (Hp & Hs & Hlf & Hf & Hlp & Hps & Hlr & Hr).
  rewrite <- !app_assoc.
  set (tail3 := PutUint16 (Z.of_nat (length rfmts)) ++ concat (PutUint16 <$> rfmts) ++ rest).
  set (tail2 := PutUint16 (Z.of_nat (length params)) ++ concat (encodeParam <$> params) ++ tail3).
  set (tail1 := PutUint16 (Z.of_nat (length fmts)) ++ concat (PutUint16 <$> fmts) ++ tail2).
  set (pl := portal ++ [x00] ++ stmt ++ [x00] ++ tail1).
  pose proof (bindString_at [] portal (stmt ++ [x00] ++ tail1) ErrPortal Hp) as E1.
  cbn [app length] in E1. change (bindString pl 0 ErrPortal = Ok (portal, length portal + 1)) in E1.
  rewrite E1. cbn [res_bind].
  set (a1 := portal ++ [x00]).
  replace (length portal + 1) with (length a1) by (unfold a1; by rewrite length_app).
  replace pl with (a1 ++ stmt ++ [x00] ++ tail1) by (unfold pl, a1; by rewrite <- app_assoc).
  rewrite bindString_at by done. cbn [res_bind].
  set (a2 := a1 ++ stmt ++ [x00]).
  replace (length a1 + length stmt + 1) with (length a2)
    by (unfold a2; rewrite !length_app; simpl; lia).
  replace (a1 ++ stmt ++ [x00] ++ tail1) with (a2 ++ tail1)
    by (unfold a2; by rewrite <- !app_assoc).
  unfold tail1. rewrite bindUint16_at by lia. cbn [res_bind]. rewrite Nat2Z.id.
  rewrite <- (length_PutUint16 (Z.of_nat (length fmts))). rewrite <- length_app, app_assoc.
  rewrite bindCodes_at by done. cbn [res_bind]. rewrite <- length_app, app_assoc.
  unfold tail2. rewrite bindUint16_at by lia. cbn [res_bind]. rewrite Nat2Z.id.
  rewrite <- (length_PutUint16 (Z.of_nat (length params))). rewrite <- length_app, app_assoc.
  rewrite bindParams_at by done. cbn [res_bind]. rewrite <- length_app, app_assoc.
  unfold tail3. rewrite bindUint16_at by lia. cbn [res_bind]. rewrite Nat2Z.id.
  rewrite <- (length_PutUint16 (Z.of_nat (length rfmts))). rewrite <- length_app, app_assoc.
  by rewrite bindCodes_at.
Qed.

(** ** Witnesses *)

Lemma ReadMessage_WriteMessage_witness :
  ReadMessage (WriteMessage Msg.Query $"SELECT 1" ++ [x00]) =
    Ok (mkMessage Msg.Query $"SELECT 1" (Some (WriteMessage Msg.Query $"SELECT 1")), [x00]).
Proof. apply (ReadMessage_WriteMessage Msg.Query $"SELECT 1" [x00]). by vm_compute. Defined.

Lemma ReadMessage_transparent_witness :
  ForwardRaw (mkMessage "Z"%byte $"I" (Some [x5a; x00; x00; x00; x05; x49])) ++ [x01] =
    [x5a; x00; x00; x00; x05; x49; x01].
Proof.
  apply (ReadMessage_transparent [x5a; x00; x00; x00; x05; x49; x01]
           (mkMessage "Z"%byte $"I" (Some [x5a; x00; x00; x00; x05; x49])) [x01]).
  by vm_compute.
Defined.

Definition sample_params : gmap bytes bytes :=
  <[$"user" := $"alice"]> (<[$"database" := $"shop"]> ∅).

Lemma Startup_roundtrip_witness :
  exists payload,
    ReadStartupMessage (BuildStartupMessage (map_to_list sample_params) ++ $"next") =
      Ok (mkMessage x00 payload None, $"next") /\
    ParseStartupParams payload = (3, 0, Some sample_params)%Z.
Proof.
  apply (Startup_roundtrip sample_params (map_to_list sample_params) $"next").
  - reflexivity.
  - apply (bool_decide_unpack _). by vm_compute.
  - by vm_compute.
Defined.

Lemma ParsePayload_roundtrip_witness :
  ParseParseMessageFull (BuildParsePayload $"s1" $"SELECT $1" [23; 25]%Z) =
    mkParseFull $"s1" $"SELECT $1" [23; 25]%Z None /\
  ParseParseMessage (BuildParsePayload $"s1" $"SELECT $1" [23; 25]%Z) = ($"s1", $"SELECT $1").
Proof.
  apply (ParsePayload_roundtrip $"s1" $"SELECT $1" [23; 25]%Z);
    try (apply (bool_decide_unpack _); by vm_compute); by vm_compute.
Defined.

Definition sample_bind : BindMessageDetail :=
  mkBind [] $"s1" [0; 1; -1]%Z [None; Some $"x"; Some []] [1]%Z.

Lemma ParseBindMessageFull_encodeBind_witness :
  ParseBindMessageFull (encodeBind sample_bind ++ $"tail") = Ok sample_bind.
Proof.
  apply (ParseBindMessageFull_encodeBind sample_bind $"tail").
  unfold valid_bind, NulFree, int16, sample_bind; simpl.
  repeat split; try (apply (bool_decide_unpack _); by vm_compute); repeat constructor; lia.
Defined.
