(* ===== verification/Literal.v ===== *)
(** * SQL literals from bound parameters (internal/protocol/literal.go)

    In multiplex mode the proxy replaces the parameters of a prepared statement
    by literals; this file models that conversion and proves that no parameter
    value can escape from the literal it is put in: the text is a constant of SQL's
    lexical grammar, which is written here apart from the conversion. *)

From S2P Require Import Prelude GoStrings GoFloat Wire.

(** ** Type OIDs *)

Module OID.
Definition Boolean := 16%Z.
Definition Int2 := 21%Z.
Definition Int4 := 23%Z.
Definition Int8 := 20%Z.
Definition Float4 := 700%Z.
Definition Float8 := 701%Z.
Definition Numeric := 1700%Z.
Definition Bytea := 17%Z.
Definition UUID := 2950%Z.
Definition Oid := 26%Z.
End OID.

Inductive LitErr :=
| ErrBoolean | ErrInteger | ErrFloat | ErrNumeric | ErrUUID | ErrBinaryLength (n : nat).

(** ** Text format *)

(** The loop of [escapeStringLiteral]: double the quotes, drop the NULs. *)
Fixpoint escape_body (s : bytes) : bytes :=
  match s with
  | [] => []
  | ch :: s' =>
      if (ch =b "'") then "'"%byte :: "'"%byte :: escape_body s'
      else if (ch =b x00) then escape_body s'
      else ch :: escape_body s'
  end.

Definition escapeStringLiteral (s : bytes) : bytes := "'"%byte :: escape_body s ++ ["'"%byte].

(** Skip the digits at the start of [s]: was there one, and what follows. *)
Fixpoint skip_digits (s : bytes) : bool * bytes :=
  match s with
  | [] => (false, [])
  | c :: s' => if is_digit c then (true, (skip_digits s').2) else (false, s)
  end.

Definition isValidNumeric (s : bytes) : bool :=
  match s with
  | [] => false
  | c :: s' =>
      if EqualFoldASCII s $"NaN" || EqualFoldASCII s $"Infinity" || EqualFoldASCII s $"-Infinity"
      then true
      else
        let s1 := if (c =b "+") || (c =b "-") then s' else s in
        match s1 with
        | [] => false
        | _ =>
            let '(d1, s2) := skip_digits s1 in
            let '(d2, s3) :=
              match s2 with
              | p :: s2' => if (p =b ".") then skip_digits s2' else (false, s2)
              | [] => (false, [])
              end in
            let hasDigit := d1 || d2 in
            match s3 with
            | e :: s3' =>
                if (e =b "e") || (e =b "E") then
                  let s4 := match s3' with
                            | g :: s3'' => if (g =b "+") || (g =b "-") then s3'' else s3'
                            | [] => []
                            end in
                  let '(d3, s5) := skip_digits s4 in
                  if d3 then hasDigit && bool_decide (s5 = []) else false
                else false   (* hasDigit && i == len(s): there is input left *)
            | [] => hasDigit
            end
        end
  end.

(** Byte [i] of a UUID: a dash at four positions, a hexadecimal digit elsewhere. *)
Definition uuid_char_ok (i : nat) (c : byte) : bool :=
  if (i =? 8)%nat || (i =? 13)%nat || (i =? 18)%nat || (i =? 23)%nat then (c =b "-")
  else byte_in "0" "9" c || byte_in "a" "f" c || byte_in "A" "F" c.

Fixpoint uuid_loop (i : nat) (s : bytes) : bool :=
  match s with
  | [] => true
  | c :: s' => uuid_char_ok i c && uuid_loop (S i) s'
  end.

Definition isValidUUID (s : bytes) : bool := (length s =? 36)%nat && uuid_loop 0 s.

Definition hex_literal (data : bytes) : bytes := $"E'\\x" ++ EncodeToString data ++ $"'".

Section Literals.
Context `{UnicodeCase}.

Definition float_literal (c : fclass) (finite ty : bytes) : bytes :=
  match c with
  | FNaN => $"'NaN'::" ++ ty
  | FPosInf => $"'Infinity'::" ++ ty
  | FNegInf => $"'-Infinity'::" ++ ty
  | FFinite => finite
  end.

Definition textParamToLiteral (text : bytes) (oid : Z) : res LitErr bytes :=
  if (oid =? OID.Boolean)%Z then
    let l := ToLower text in
    if bool_decide (l ∈ [$"t"; $"true"; $"1"; $"yes"; $"on"]) then Ok $"TRUE"
    else if bool_decide (l ∈ [$"f"; $"false"; $"0"; $"no"; $"off"]) then Ok $"FALSE"
    else Err ErrBoolean
  else if (oid =? OID.Int2)%Z || (oid =? OID.Int4)%Z || (oid =? OID.Int8)%Z || (oid =? OID.Oid)%Z
  then match ParseInt text with
       | None => Err ErrInteger
       | Some _ => Ok text
       end
  else if (oid =? OID.Float4)%Z || (oid =? OID.Float8)%Z then
    match ParseFloat64 text with
    | None => Err ErrFloat
    | Some c => Ok (float_literal c text $"float8")
    end
  else if (oid =? OID.Numeric)%Z then
    if isValidNumeric text then Ok text else Err ErrNumeric
  else if (oid =? OID.Bytea)%Z then Ok (hex_literal text)
  else if (oid =? OID.UUID)%Z then
    if isValidUUID text then Ok (escapeStringLiteral text) else Err ErrUUID
  else Ok (escapeStringLiteral text).

(** ** Binary format *)

(** [int16(data[0])<<8 | int16(data[1])] and its wider variants: a shift at
    width [w] of each byte to its place, then a bitwise or. *)
Fixpoint or_shifted (w : Z) (data : bytes) : Z :=
  match data with
  | [] => 0
  | b :: rest => Z.lor (wrapS w (Z.shiftl (bz b) (8 * Z.of_nat (length rest)))) (or_shifted w rest)
  end.

(** The loop of the eight-byte case: [v = v<<8 | int64(data[i])]. *)
Definition shift_or_loop (data : bytes) : Z :=
  fold_left (fun v b => Z.lor (wrapS 64 (Z.shiftl v 8)) (bz b)) data 0%Z.

(** The class of an IEEE 754 number from its bits, with an exponent field of
    [ew] bits and a fraction of [fw] bits ([math.IsNaN], [math.IsInf]). *)
Definition float_class (ew fw bits : Z) : fclass :=
  let frac := (bits mod 2 ^ fw)%Z in
  let expo := (bits / 2 ^ fw mod 2 ^ ew)%Z in
  if (expo =? 2 ^ ew - 1)%Z then
    if (frac =? 0)%Z then (if (bits / 2 ^ (fw + ew) =? 0)%Z then FPosInf else FNegInf)
    else FNaN
  else FFinite.

Definition binaryParamToLiteral (data : bytes) (oid : Z) : res LitErr bytes :=
  let n := length data in
  if (oid =? OID.Boolean)%Z then
    match data with
    | [b] => Ok (if (b =b x00) then $"FALSE" else $"TRUE")
    | _ => Err (ErrBinaryLength n)
    end
  else if (oid =? OID.Int2)%Z then
    if (n =? 2)%nat then Ok (FormatInt (or_shifted 16 data)) else Err (ErrBinaryLength n)
  else if (oid =? OID.Int4)%Z then
    if (n =? 4)%nat then Ok (FormatInt (or_shifted 32 data)) else Err (ErrBinaryLength n)
  else if (oid =? OID.Int8)%Z then
    if (n =? 8)%nat then Ok (FormatInt (shift_or_loop data)) else Err (ErrBinaryLength n)
  else if (oid =? OID.Float4)%Z then
    if (n =? 4)%nat then
      let bits := be_value data in
      Ok (float_literal (float_class 8 23 bits) (FormatFloat bits 32) $"float4")
    else Err (ErrBinaryLength n)
  else if (oid =? OID.Float8)%Z then
    if (n =? 8)%nat then
      let bits := be_value data in
      Ok (float_literal (float_class 11 52 bits) (FormatFloat bits 64) $"float8")
    else Err (ErrBinaryLength n)
  else if (oid =? OID.Bytea)%Z then Ok (hex_literal data)
  else Ok (escapeStringLiteral data).

(** [None] is the nil slice, SQL NULL. *)
Definition ParamToLiteral (value : option bytes) (oid formatCode : Z) : res LitErr bytes :=
  match value with
  | None => Ok $"NULL"
  | Some v => if (formatCode =? 1)%Z then binaryParamToLiteral v oid else textParamToLiteral v oid
  end.
End Literals.

(** ** What the server's lexer makes of a literal

    The states of the lexer of the server (with [standard_conforming_strings]
    on) while it reads a literal: outside a quoted string (was the last
    character a dash, was it the letter that introduces an escape string), inside
    one, after a backslash of an escape string, and after a quote that either
    ends the string or is the first half of a doubled one. *)
Inductive lexst :=
| Outside (dash esc : bool)
| InString (esc : bool)
| Backslash
| QuoteSeen (esc : bool).

#[export] Instance lexst_eq_dec : EqDecision lexst.
Proof. solve_decision. Defined.

(** Characters of a keyword, a number or a cast. *)
Definition plain (c : byte) : bool :=
  byte_in "0" "9" c || byte_in "a" "z" (lower1 c)
  || (c =b ".") || (c =b "_") || (c =b "+") || (c =b ":").

(** [None]: a character that could start something else than a literal
    (a comment, a separator, an operator, a dollar quote), or a NUL. *)
Definition outside_step (dash esc : bool) (c : byte) : option lexst :=
  if (c =b "'") then Some (InString esc)
  else if (c =b "-") then if dash then None else Some (Outside true false)
  else if plain c then Some (Outside false (lower1 c =b "e"))
  else None.

Definition lex_step (st : lexst) (c : byte) : option lexst :=
  match st with
  | Outside dash esc => outside_step dash esc c
  | InString esc =>
      if (c =b "'") then Some (QuoteSeen esc)
      else if (c =b x00) then None
      else if esc && (c =b "\") then Some Backslash
      else Some (InString esc)
  | Backslash => if (c =b x00) then None else Some (InString true)
  | QuoteSeen esc => if (c =b "'") then Some (InString esc) else outside_step false false c
  end.

Fixpoint lex (st : lexst) (s : bytes) : option lexst :=
  match s with
  | [] => Some st
  | c :: s' => match lex_step st c with Some st' => lex st' s' | None => None end
  end.

(** The lexer is outside any string again. *)
Definition lex_closed (st : option lexst) : bool :=
  match st with
  | Some (Outside _ _) | Some (QuoteSeen _) => true
  | _ => false
  end.

(** The value of a standard-conforming string from its first character after
    the opening quote, and the text after its closing quote. *)
Fixpoint string_value (s : bytes) : option (bytes * bytes) :=
  match s with
  | [] => None
  | c :: s' =>
      if (c =b "'") then
        match s' with
        | d :: s'' =>
            if (d =b "'") then
              match string_value s'' with Some (v, r) => Some (c :: v, r) | None => None end
            else Some ([], s')
        | [] => Some ([], [])
        end
      else match string_value s' with Some (v, r) => Some (c :: v, r) | None => None end
  end.

(** ** Constants

    What may stand in the place of a parameter, written down without the code. *)

Definition sign (s : bytes) : Prop := s = [] \/ s = $"+" \/ s = $"-".

(** Digits, which underscores may separate. *)
Definition numeral_run (hex : bool) (s : bytes) : bool := forallb (fun c => is_digit c || (hex && is_hex_letter c) || (c =b "_")) s.
Definition has_digit (hex : bool) (s : bytes) : bool := existsb (fun c => is_digit c || (hex && is_hex_letter c)) s.

(** Digits with at most one point among them, at least one digit. *)
Definition mantissa (hex : bool) (m : bytes) : Prop :=
  has_digit hex m = true /\
  exists whole, numeral_run hex whole = true /\ (m = whole \/ exists frac, m = whole ++ "."%byte :: frac /\ numeral_run hex frac = true).

Definition exponent (e : bytes) : Prop :=
  e = [] \/ exists c sg d ds, e = c :: sg ++ d :: ds /\ ((lower1 c =b "e") || (lower1 c =b "p")) = true /\ sign sg /\ is_digit d = true /\ numeral_run false ds = true.

(** One number: the only signs are in front of it and in front of its exponent. *)
Definition numeral (s : bytes) : Prop :=
  exists sg m e, s = sg ++ m ++ e /\ sign sg /\ exponent e /\
    (mantissa false m \/ exists x m', m = "0"%byte :: x :: m' /\ (lower1 x =b "x") = true /\ mantissa true m').

Inductive constant : bytes -> Prop :=
| K_word w : w ∈ [$"NULL"; $"TRUE"; $"FALSE"] -> constant w
| K_number s : numeral s -> constant s
| K_string body v : string_value body = Some (v, []) -> constant ("'"%byte :: body)
| K_bytes s : forallb (fun c => is_digit c || is_hex_letter c) s = true -> constant ($"E'\\x" ++ s ++ $"'")
| K_cast w ty : w ∈ [$"NaN"; $"Infinity"; $"-Infinity"] -> ty ∈ [$"float4"; $"float8"] -> constant ("'"%byte :: w ++ $"'::" ++ ty)
| K_name s w : w ∈ [$"NaN"; $"Infinity"; $"-Infinity"] -> EqualFoldASCII s w = true -> constant s.

(** ** Binary integers *)

Lemma lor_wrapS w k x y :
  (0 <= k < w)%Z -> (0 <= y < 2 ^ k)%Z ->
  Z.lor (wrapS w (x * 2 ^ k)) y = wrapS w (x * 2 ^ k + y).
Proof.
  intros Hk Hy. unfold wrapS.
  replace (2 ^ w)%Z with (2 ^ k * 2 ^ (w - k))%Z by (rewrite <- Z.pow_add_r by lia; f_equal; lia).
  replace (2 ^ (w - 1))%Z with (2 ^ k * 2 ^ (w - 1 - k))%Z
    by (rewrite <- Z.pow_add_r by lia; f_equal; lia).
  set (h := (2 ^ (w - 1 - k))%Z). set (m := (2 ^ (w - k))%Z).
  assert (0 < 2 ^ k)%Z by lia. assert (0 < m)%Z by (apply Z.pow_pos_nonneg; lia).
  replace (x * 2 ^ k + 2 ^ k * h)%Z with (2 ^ k * (x + h))%Z by lia.
  replace (x * 2 ^ k + y + 2 ^ k * h)%Z with (2 ^ k * (x + h) + y)%Z by lia.
  rewrite Z.mul_mod_distr_l, Z.rem_mul_r by lia.
  rewrite (Z.add_comm (2 ^ k * (x + h))), (Z.mul_comm (2 ^ k) (x + h)).
  rewrite Z.mod_add, Z.div_add, (Z.mod_small y), (Z.div_small y), Z.add_0_l by lia.
  rewrite <- Z.mul_sub_distr_l, lor_low by lia. lia.
Qed.

Lemma pow256 n : (256 ^ Z.of_nat n = 2 ^ (8 * Z.of_nat n))%Z.
Proof. by rewrite Z.pow_mul_r by lia. Qed.

Lemma or_shifted_value w data :
  (8 * Z.of_nat (length data) <= w)%Z -> (0 < w)%Z -> or_shifted w data = wrapS w (be_value data).
Proof.
  intros Hl Hw. induction data as [|b rest IH].
  { simpl. symmetry. apply wrapS_small; [|done]. assert (0 < 2 ^ (w - 1))%Z; lia. }
  cbn [or_shifted length] in *. rewrite IH by lia. clear IH.
  pose proof (be_value_range rest) as Hr. rewrite pow256 in Hr.
  assert (2 ^ (8 * Z.of_nat (length rest)) <= 2 ^ (w - 1))%Z by (apply Z.pow_le_mono_r; lia).
  rewrite (wrapS_small w (be_value rest)) by lia.
  rewrite Z.shiftl_mul_pow2, lor_wrapS by lia. by rewrite be_value_cons, pow256.
Qed.

Lemma shift_or_loop_value data : shift_or_loop data = wrapS 64 (be_value data).
Proof.
  unfold shift_or_loop, be_value.
  assert (forall v u, v = wrapS 64 u ->
    fold_left (fun v b => Z.lor (wrapS 64 (Z.shiftl v 8)) (bz b)) data v =
    wrapS 64 (fold_left (fun a b => a * 256 + bz b)%Z data u)) as Hgen; [|by apply Hgen].
  induction data as [|b data IH]; intros v u ->; [done|]. cbn [fold_left].
  apply IH. pose proof (bz_range b).
  rewrite Z.shiftl_mul_pow2, lor_wrapS by lia. unfold wrapS at 1 3. f_equal.
  unfold wrapS. set (M := (2 ^ 64)%Z). set (h := (2 ^ (64 - 1))%Z).
  rewrite (Z.mod_eq (u + h) M) by done.
  replace ((u + h - M * ((u + h) / M) - h) * 2 ^ 8 + bz b + h)%Z
    with (u * 256 + bz b + h + (- (256 * ((u + h) / M))) * M)%Z by lia.
  by rewrite Z.mod_add.
Qed.

(** The width in bytes of the binary integer types. *)
Definition int_width (oid : Z) : option nat :=
  if (oid =? OID.Int2)%Z then Some 2
  else if (oid =? OID.Int4)%Z then Some 4
  else if (oid =? OID.Int8)%Z then Some 8
  else None.

Lemma wrapS_range w z : (0 < w)%Z -> (- 2 ^ (w - 1) <= wrapS w z < 2 ^ (w - 1))%Z.
Proof.
  intros H. unfold wrapS.
  assert (2 ^ w = 2 * 2 ^ (w - 1))%Z by (rewrite <- Z.pow_succ_r by lia; f_equal; lia).
  pose proof (Z.mod_pos_bound (z + 2 ^ (w - 1)) (2 ^ w) ltac:(lia)). lia.
Qed.

Lemma wrapS_int64 w z : (0 < w <= 64)%Z -> (MinInt64 <= wrapS w z <= MaxInt64)%Z.
Proof.
  intros Hw. unfold MinInt64, MaxInt64. pose proof (wrapS_range w z ltac:(lia)).
  assert (2 ^ (w - 1) <= 2 ^ 63)%Z by (apply Z.pow_le_mono_r; lia). lia.
Qed.

(** ** Containment of literals *)

Lemma lex_app st s t :
  lex st (s ++ t) = match lex st s with Some st' => lex st' t | None => None end.
Proof. revert st. induction s as [|c s IH]; intros st; simpl; [done|]. by case_match. Qed.

Lemma plain_step d e c : plain c = true -> lex_step (Outside d e) c = Some (Outside false (lower1 c =b "e")).
Proof.
  intros H. simpl. unfold outside_step. rewrite H.
  pose proof (forall_bytes (fun c => negb (plain c) || negb ((c =b "'") || (c =b "-")))
    ltac:(by vm_compute) c) as Hc. cbn beta in Hc. rewrite H in Hc. cbn [negb orb] in Hc.
  destruct (c =b "'"), (c =b "-"); done.
Qed.

(** The text of a number: only its characters, no two dashes in a row. *)
Definition number_char (c : byte) : bool := plain c || (c =b "-").

Definition stays_outside (s : bytes) : Prop :=
  forallb number_char s = true /\
  forall e, exists d' e', lex (Outside false e) s = Some (Outside d' e').

Lemma plain_number s : forallb plain s = true -> forallb number_char s = true.
Proof.
  induction s as [|c s IH]; [done|]. cbn [forallb]. intros [Hc Hs]%andb_prop.
  unfold number_char at 1. by rewrite Hc, IH.
Qed.

Lemma signed_number s : forallb plain (drop_sign s) = true -> forallb number_char s = true.
Proof.
  destruct s as [|c s]; [done|]. cbn [drop_sign]. intros H.
  destruct (byte_eqb_spec c "-"%byte) as [->|]; [by apply (plain_number s)|].
  apply plain_number. by destruct (byte_eqb_spec c "+"%byte) as [->|].
Qed.

Lemma lex_plain s d e :
  forallb plain s = true -> exists e', lex (Outside d e) s = Some (Outside (d && bool_decide (s = [])) e').
Proof.
  revert d e. induction s as [|c s IH]; intros d e H; cbn [forallb] in H.
  - exists e. simpl. by rewrite andb_true_r.
  - apply andb_prop in H as [Hc Hs]. cbn [lex]. rewrite plain_step by done.
    rewrite (bool_decide_eq_false_2 (c :: s = [])), andb_false_r by done. by apply IH.
Qed.

Lemma lex_signed s : forallb plain (drop_sign s) = true -> stays_outside s.
Proof.
  intros H. split; [by apply signed_number|]. intros e.
  destruct s as [|c s]; [by exists false, e|]. cbn [drop_sign] in H.
  destruct (byte_eqb_spec c "-"%byte) as [->|].
  - change (forallb plain s = true) in H. cbn [lex lex_step].
    destruct (lex_plain s true false H) as [e' He]. eauto.
  - assert (forallb plain (c :: s) = true) as Hp.
    { destruct (byte_eqb_spec c "+"%byte) as [->|]; exact H. }
    destruct (lex_plain (c :: s) false e Hp) as [e' He]. eauto.
Qed.

Lemma lex_signed_exp s c t :
  forallb plain (drop_sign s) = true -> plain c = true -> forallb plain (drop_sign t) = true ->
  stays_outside (s ++ c :: t).
Proof.
  intros Hs Hc Ht. destruct (lex_signed s Hs) as [Hns Hls]. destruct (lex_signed t Ht) as [Hnt Hlt]. split.
  { rewrite forallb_app. cbn [forallb]. unfold number_char at 2. by rewrite Hns, Hc, Hnt. }
  intros e. destruct (Hls e) as (d' & e' & He).
  rewrite lex_app, He. cbn [lex]. rewrite plain_step by done. apply Hlt.
Qed.

Lemma stays_outside_closed s : stays_outside s -> lex_closed (lex (Outside false false) s) = true.
Proof. intros [_ H]. by destruct (H false) as (d & e & ->). Qed.

(** *** Integers and numerics *)

Lemma parse_digits_plain base acc s n : parse_digits base acc s = Some n -> forallb plain s = true.
Proof.
  revert acc. induction s as [|c s IH]; intros acc; [done|]. cbn [parse_digits forallb].
  destruct (digit_val c) eqn:E; [|done]. case_match; [|done]. intros Hp. apply andb_true_intro.
  split; [|by eapply IH]. unfold digit_val in E. unfold plain.
  destruct (byte_in "0" "9" c); [done|]. by destruct (byte_in "a" "z" (lower1 c)).
Qed.

Lemma ParseUint_plain s base bits n : ParseUint s base bits = Some n -> forallb plain s = true.
Proof.
  unfold ParseUint. intros H. destruct s; [done|]. case_match; [|done]. by eapply parse_digits_plain.
Qed.

Lemma ParseInt_outside s n : ParseInt s = Some n -> stays_outside s.
Proof.
  intros H. apply lex_signed. destruct s as [|c s]; [done|]. cbn [ParseInt drop_sign] in *.
  destruct (c =b "-").
  - rewrite orb_true_r. destruct (ParseUint s 10 64) eqn:E; [|done]. by eapply ParseUint_plain.
  - rewrite orb_false_r. destruct (c =b "+"); (destruct (ParseUint _ 10 64) eqn:E; [|done]);
      by eapply ParseUint_plain.
Qed.

Lemma skip_digits_split s d r :
  skip_digits s = (d, r) -> exists p, s = p ++ r /\ forallb plain p = true.
Proof.
  revert d r. induction s as [|c s IH]; intros d r; cbn [skip_digits].
  { intros [= <- <-]. by exists []. }
  destruct (is_digit c) eqn:E.
  - destruct (skip_digits s) as [d' r'] eqn:Es. intros [= <- <-].
    destruct (IH _ _ eq_refl) as (p & -> & Hp). exists (c :: p). split; [done|].
    cbn [forallb]. rewrite Hp. unfold plain. unfold is_digit in E. by rewrite E.
  - intros [= <- <-]. by exists [].
Qed.

Lemma EqualFold_plain s t :
  EqualFoldASCII s t = true -> forallb plain (drop_sign (lower1 <$> t)) = true ->
  stays_outside s.
Proof.
  unfold EqualFoldASCII. intros H Ht. apply bool_decide_eq_true in H. rewrite <- H in Ht. clear t H.
  apply lex_signed.
  assert (forall s, forallb plain (lower1 <$> s) = true -> forallb plain s = true) as Hlow.
  { intros u. induction u as [|b u IH]; [done|]. cbn [fmap list_fmap forallb]. intros [Hb Hu]%andb_prop.
    rewrite IH by done. rewrite andb_true_r.
    pose proof (forall_bytes (fun b => implb (plain (lower1 b)) (plain b)) ltac:(by vm_compute) b) as Hx.
    cbn beta in Hx. by rewrite Hb in Hx. }
  destruct s as [|c s]; [done|]. cbn [fmap list_fmap drop_sign] in *.
  pose proof (forall_bytes (fun b => Bool.eqb ((lower1 b =b "+") || (lower1 b =b "-"))
     ((b =b "+") || (b =b "-"))) ltac:(by vm_compute) c) as Hx. cbn beta in Hx.
  apply Bool.eqb_prop in Hx. rewrite Hx in Ht.
  destruct ((c =b "+") || (c =b "-")); [by apply Hlow | by apply (Hlow (c :: s))].
Qed.

Lemma plain_drop_sign p : forallb plain p = true -> forallb plain (drop_sign p) = true.
Proof.
  intros Hp. destruct p as [|c p]; [done|]. cbn [drop_sign]. case_match; [|done].
  by apply andb_prop in Hp as [_ ?].
Qed.

Lemma drop_sign_split s p r :
  drop_sign s = p ++ r -> forallb plain p = true ->
  exists q, s = q ++ r /\ forallb plain (drop_sign q) = true.
Proof.
  intros H Hp.
  pose proof (plain_drop_sign p Hp).
  destruct s as [|c s]; cbn [drop_sign] in H; [by exists p|].
  destruct ((c =b "+") || (c =b "-")) eqn:E; [|by exists p].
  exists (c :: p). split; [by rewrite H|]. cbn [drop_sign]. by rewrite E.
Qed.

(** A mantissa with an optional sign and an optional exponent with its own. *)
Lemma number_outside s p r :
  drop_sign s = p ++ r -> forallb plain p = true ->
  (r = [] \/ exists c t, r = c :: t /\ plain c = true /\ forallb plain (drop_sign t) = true) ->
  stays_outside s.
Proof.
  intros H Hp Hr. destruct (drop_sign_split _ _ _ H Hp) as (q & -> & Hq).
  destruct Hr as [->|(c & t & -> & Hc & Ht)].
  - rewrite app_nil_r. by apply lex_signed.
  - by apply lex_signed_exp.
Qed.

Lemma plain_app p q : forallb plain p = true -> forallb plain q = true -> forallb plain (p ++ q) = true.
Proof. intros Hp Hq. by rewrite forallb_app, Hp, Hq. Qed.

Lemma isValidNumeric_outside s : isValidNumeric s = true -> stays_outside s.
Proof.
  destruct s as [|c0 s0]; [done|]. unfold isValidNumeric. intros H.
  destruct (EqualFoldASCII (c0 :: s0) $"NaN" || _ || _) eqn:Ef.
  { rewrite !orb_true_iff in Ef. destruct Ef as [[Ef|Ef]|Ef]; by eapply EqualFold_plain. }
  change (if (c0 =b "+") || (c0 =b "-") then s0 else c0 :: s0) with (drop_sign (c0 :: s0)) in H.
  destruct (skip_digits (drop_sign (c0 :: s0))) as [d1 s2] eqn:E1.
  apply skip_digits_split in E1 as (p1 & E1 & Hp1).
  assert (exists d2 p2 s3, s2 = p2 ++ s3 /\ forallb plain p2 = true /\
    match s3 with
    | e :: s3' => ((e =b "e") || (e =b "E")) && bool_decide ((skip_digits (drop_sign s3')).2 = [])
    | [] => d1 || d2
    end = true) as (d2 & p2 & s3 & -> & Hp2 & Hs3).
  { destruct (drop_sign (c0 :: s0)) as [|b0 l0]; [done|].
    destruct (match s2 with [] => _ | _ => _ end) as [d2 s3] eqn:E2.
    assert (exists p2, s2 = p2 ++ s3 /\ forallb plain p2 = true) as (p2 & -> & Hp2).
    { destruct s2 as [|b s2]; [by exists []; simplify_eq|].
      destruct (byte_eqb_spec b "."%byte) as [->|]; [|by exists []; simplify_eq].
      apply skip_digits_split in E2 as (p & -> & Hp). by exists ("."%byte :: p). }
    exists d2, p2, s3. split; [done|]. split; [done|].
    destruct s3 as [|e t]; [done|]. destruct ((e =b "e") || (e =b "E")); [|done].
    unfold drop_sign. destruct (skip_digits _) as [[] s5]; [|done].
    by apply andb_prop in H as [_ H]. }
  apply (number_outside _ (p1 ++ p2) s3); [by rewrite E1, app_assoc | by apply plain_app |].
  destruct s3 as [|e t]; [by left | right]. exists e, t. split; [done|].
  apply andb_prop in Hs3 as [He Ht]. apply bool_decide_eq_true in Ht.
  split; [by apply orb_prop in He as [He|He]; apply Byte.byte_dec_bl in He as ->|].
  destruct (skip_digits (drop_sign t)) as [d r] eqn:E. simpl in Ht. subst r.
  apply skip_digits_split in E as (p & -> & Hp). by rewrite app_nil_r.
Qed.

(** *** Floats *)

Lemma is_digit_plain c : is_digit c = true -> plain c = true.
Proof. unfold is_digit, plain. by intros ->. Qed.

Lemma is_hex_letter_plain c : is_hex_letter c = true -> plain c = true.
Proof.
  intros H. pose proof (forall_bytes (fun c => implb (is_hex_letter c) (plain c)) ltac:(by vm_compute) c) as Hx.
  cbn beta in Hx. by rewrite H in Hx.
Qed.

Lemma read_mantissa_split hex sd sg m f s m' f' sg' r :
  read_mantissa hex sd sg m f s = (m', f', sg', r) ->
  exists p, s = p ++ r /\ forallb plain p = true.
Proof.
  revert sd sg m f. induction s as [|c s IH]; intros sd sg m f; cbn [read_mantissa].
  { intros [= <- <- <- <-]. by exists []. }
  assert (forall sd sg m f, plain c = true -> read_mantissa hex sd sg m f s = (m', f', sg', r) ->
    exists p, c :: s = p ++ r /\ forallb plain p = true) as Hgo.
  { intros sd1 sg1 m1 f1 Hc Hr. apply IH in Hr as (p & -> & Hp). exists (c :: p).
    cbn [forallb]. by rewrite Hc. }
  destruct (byte_eqb_spec c "_"%byte) as [->|]; [by apply Hgo|].
  destruct (byte_eqb_spec c "."%byte) as [->|].
  { destruct sd; [|by apply Hgo]. intros [= <- <- <- <-]. by exists []. }
  destruct (is_digit c) eqn:Ed; [by apply Hgo, is_digit_plain|].
  destruct (hex && is_hex_letter c) eqn:Eh.
  - apply andb_prop in Eh as [_ Eh]. by apply Hgo, is_hex_letter_plain.
  - intros [= <- <- <- <-]. by exists [].
Qed.

Lemma read_exponent_split e s e' : read_exponent e s = (e', []) -> forallb plain s = true.
Proof.
  revert e. induction s as [|c s IH]; intros e; [done|]. cbn [read_exponent forallb].
  destruct (byte_eqb_spec c "_"%byte) as [->|]; [by apply IH|].
  destruct (is_digit c) eqn:Ed; [|done]. rewrite (is_digit_plain _ Ed). apply IH.
Qed.

Lemma read_exp_part_plain hex s e :
  read_exp_part hex s = Some e ->
  s = [] \/ exists c t, s = c :: t /\ plain c = true /\ forallb plain (drop_sign t) = true.
Proof.
  destruct s as [|c t]; [by left|]. intros H. right. exists c, t. split; [done|].
  unfold read_exp_part in H.
  destruct (lower1 c =b _) eqn:E; [|done].
  destruct (drop_sign t) as [|d u] eqn:Et; [done|]. destruct (is_digit d); [|done].
  destruct (read_exponent 0 (d :: u)) as [e' []] eqn:Er; [|done].
  split; [|by eapply read_exponent_split].
  pose proof (forall_bytes (fun c => implb ((lower1 c =b "p") || (lower1 c =b "e")) (plain c))
    ltac:(by vm_compute) c) as Hx. cbn beta in Hx.
  destruct hex; rewrite E, ?orb_true_r in Hx; done.
Qed.

Lemma parse_finite_outside s : parse_finite s = true -> stays_outside s.
Proof.
  unfold parse_finite. set (s1 := drop_sign s). intros H.
  destruct (read_mantissa _ _ _ _ _ _) as [[[m f] sg] r] eqn:Em.
  apply read_mantissa_split in Em as (p & Ep & Hp).
  destruct (read_exp_part _ r) as [ev|] eqn:Er; [|done]. apply read_exp_part_plain in Er.
  destruct (is_hex_prefix s1) eqn:Eh; [|by eapply number_outside].
  apply (number_outside _ (take 2 s1 ++ p) r); [|apply plain_app; [|done]|done].
  - rewrite <- app_assoc, <- Ep. symmetry. apply take_drop.
  - destruct s1 as [|z [|x [|y u]]]; [done..|]. apply andb_prop in Eh as [Hz%Byte.byte_dec_bl Hx].
    pose proof (forall_bytes (fun c => implb (lower1 c =b "x") (plain c)) ltac:(by vm_compute) x) as Hx'.
    cbn beta in Hx'. rewrite Hx in Hx'. cbn [implb] in Hx'. cbn -[plain]. by rewrite Hz, Hx'.
Qed.

Lemma ParseFloat64_finite s : ParseFloat64 s = Some FFinite -> parse_finite s = true.
Proof.
  unfold ParseFloat64. intros H.
  assert (special s <> Some FFinite) as Hs by (unfold special; repeat case_match; congruence).
  destruct (special s) as [c|]; [congruence|]. by destruct (parse_finite s).
Qed.

Lemma digit_char_plain d : (0 <= d < 10)%Z -> plain (digit_char d) = true.
Proof.
  intros H. assert (forallb (fun d => plain (digit_char d)) (seqZ 0 10) = true) as Hall by by vm_compute.
  rewrite forallb_forall in Hall. apply Hall, list_elem_of_In, elem_of_seqZ. lia.
Qed.

Lemma big_digits_plain fuel n acc : forallb plain acc = true -> forallb plain (big_digits fuel n acc) = true.
Proof.
  revert n acc. induction fuel as [|f IH]; intros n acc H; [done|]. cbn [big_digits].
  assert (forallb plain (digit_char (n mod 10) :: acc) = true) as H'
    by (cbn [forallb]; rewrite H, digit_char_plain; [done | apply Z.mod_pos_bound; lia]).
  case_match; [done | by apply IH].
Qed.

Lemma forallb_reverse {A} (P : A -> bool) l : forallb P (reverse l) = forallb P l.
Proof.
  induction l as [|x l IH]; [done|].
  rewrite reverse_cons, forallb_app, IH. simpl. rewrite andb_true_r. apply andb_comm.
Qed.

Lemma print_scaled_plain c s : forallb plain (print_scaled c s) = true.
Proof.
  unfold print_scaled.
  assert (forall r, forallb plain r = true -> forallb plain (trim_zeros r) = true) as Htrim.
  { intros r. induction r as [|b r IH]; [done|]. cbn [trim_zeros]. case_match; [|done].
    intros [_ Hr]%andb_prop. by apply IH. }
  set (fd := big_digits 1200 _ _). set (frac := reverse _).
  assert (forallb plain frac = true) as Hf.
  { unfold frac. rewrite forallb_reverse. apply Htrim. rewrite forallb_reverse. apply plain_app.
    - induction (s - length fd) as [|k IH]; [done|]. cbn [replicate forallb]. by rewrite IH.
    - by apply big_digits_plain. }
  assert (forallb plain (big_digits 400 (c / 10 ^ Z.of_nat s) []) = true) by by apply big_digits_plain.
  destruct frac as [|b u]; [done|]. by apply plain_app.
Qed.

Lemma FormatFloat_outside bits w : stays_outside (FormatFloat bits w).
Proof.
  assert (forall ew fw, stays_outside (format_finite ew fw bits)) as Hf; [|by unfold FormatFloat; case_match].
  intros ew fw. unfold format_finite. destruct (shortest_decimal ew fw bits) as [c s].
  set (body := if (_ =? 0)%Z then $"0" else _).
  assert (forallb plain body = true) as Hb by (unfold body; case_match; [done | apply print_scaled_plain]).
  clearbody body. apply lex_signed. case_match; [by apply plain_drop_sign | done].
Qed.

Lemma FormatInt_outside v : (MinInt64 <= v <= MaxInt64)%Z -> stays_outside (FormatInt v).
Proof. intros H. eapply ParseInt_outside, ParseInt_FormatInt, H. Qed.

(** *** Quoted strings *)

Lemma escape_body_lex s : lex (InString false) (escape_body s) = Some (InString false).
Proof.
  induction s as [|c s IH]; [done|]. cbn [escape_body].
  destruct (byte_eqb_spec c "'"%byte) as [->|]; [done|].
  destruct (byte_eqb_spec c x00) as [->|]; [done|].
  cbn [lex lex_step andb]. by rewrite !byte_eqb_ne.
Qed.

Lemma escapeStringLiteral_closed s : lex_closed (lex (Outside false false) (escapeStringLiteral s)) = true.
Proof. unfold escapeStringLiteral. cbn [lex lex_step]. cbn. by rewrite lex_app, escape_body_lex. Qed.

Lemma hex_literal_closed s : lex_closed (lex (Outside false false) (hex_literal s)) = true.
Proof.
  unfold hex_literal. rewrite lex_app. cbn [lex lex_step].
  change (lex (Outside false false) $"E'\\x") with (Some (InString true)). cbn match. rewrite lex_app.
  assert (lex (InString true) (EncodeToString s) = Some (InString true)) as ->; [|done].
  unfold EncodeToString. induction s as [|b s IH]; [done|]. cbn [fmap list_fmap concat]. rewrite lex_app.
  pose proof (forall_bytes (fun b => bool_decide (lex (InString true) (hex1 b) = Some (InString true)))
    ltac:(by vm_compute) b) as Hx. cbn beta in Hx. apply bool_decide_eq_true in Hx. by rewrite Hx.
Qed.

Lemma string_value_escape s rest :
  HasPrefix rest $"'" = false ->
  string_value (escape_body s ++ "'"%byte :: rest) = Some (filter (fun c => c <> x00) s, rest).
Proof.
  intros Hr. induction s as [|c s IH].
  - cbn. destruct rest as [|d rest]; [done|]. cbn in Hr. rewrite andb_true_r in Hr.
    assert ((d =b "'") = false) as ->; [|done].
    destruct (byte_eqb_spec d "'"%byte) as [->|]; done.
  - cbn [escape_body]. rewrite filter_cons.
    destruct (byte_eqb_spec c "'"%byte) as [->|Hc].
    { cbn [app string_value]. change ("'" =b "'") with true. cbn match. by rewrite IH. }
    destruct (byte_eqb_spec c x00) as [->|Hz]; [by rewrite decide_False by auto|].
    rewrite decide_True by done. cbn [app string_value]. rewrite byte_eqb_ne by done. by rewrite IH.
Qed.

(** *** Constants *)

Lemma numeral_run_app hex s t : numeral_run hex (s ++ t) = numeral_run hex s && numeral_run hex t.
Proof. apply forallb_app. Qed.

Lemma numeral_run_digits s : forallb is_digit s = true -> numeral_run false s = true.
Proof. induction s as [|c s IH]; [done|]. cbn. intros [-> Hs]%andb_prop. by apply IH. Qed.

Lemma has_digit_digits s : forallb is_digit s = true -> s <> [] -> has_digit false s = true.
Proof. destruct s as [|c s]; [done|]. cbn. by intros [-> _]%andb_prop. Qed.

Lemma has_digit_app hex s t : has_digit hex (s ++ t) = has_digit hex s || has_digit hex t.
Proof. apply existsb_app. Qed.

Lemma sign_drop s : exists sg, s = sg ++ drop_sign s /\ sign sg.
Proof.
  destruct s as [|c s]; [by exists []; split; [|left]|]. cbn [drop_sign].
  destruct (byte_eqb_spec c "+"%byte) as [->|]; [by exists $"+"; split; [|right; left]|].
  destruct (byte_eqb_spec c "-"%byte) as [->|]; [by exists $"-"; split; [|right; right]|].
  rewrite ?byte_eqb_ne by done. by exists []; split; [|left].
Qed.

Lemma numeral_digits s : forallb is_digit (drop_sign s) = true -> drop_sign s <> [] -> numeral s.
Proof.
  intros Hd Hn. destruct (sign_drop s) as (sg & E & Hsg). exists sg, (drop_sign s), []. rewrite app_nil_r. split_and!; [done|done|by left|].
  left. split; [by apply has_digit_digits|]. exists (drop_sign s). split; [by apply numeral_run_digits|by left].
Qed.

Lemma parse_digits_digits acc s n : parse_digits 10 acc s = Some n -> forallb is_digit s = true.
Proof.
  revert acc. induction s as [|c s IH]; intros acc; [done|]. cbn [parse_digits forallb].
  destruct (digit_val c) as [d|] eqn:E; [|done]. destruct (Z.ltb_spec d 10); [|done]. intros Hp%IH. rewrite Hp, andb_true_r.
  pose proof (forall_bytes (fun c => match digit_val c with Some d => implb (d <? 10)%Z (is_digit c) | None => true end) ltac:(by vm_compute) c) as Hx.
  cbn beta in Hx. rewrite E in Hx. by rewrite (proj2 (Z.ltb_lt _ _)) in Hx.
Qed.

Lemma ParseInt_numeral s n : ParseInt s = Some n -> numeral s.
Proof.
  assert (forall u m, ParseUint u 10 64 = Some m -> forallb is_digit u = true /\ u <> []) as Hu.
  { intros u m. unfold ParseUint. destruct u as [|c u]; [done|]. destruct (parse_digits 10 0 (c :: u)) eqn:E; [|done]. intros _. split; [by eapply parse_digits_digits|done]. }
  destruct s as [|c s]; [done|]. cbn [ParseInt]. intros E. apply numeral_digits; cbn [drop_sign];
    destruct (c =b "-"); rewrite ?orb_true_r, ?orb_false_r; [|destruct (c =b "+")| |destruct (c =b "+")];
    (destruct (ParseUint _ 10 64) eqn:Ep; [|done]); by apply Hu in Ep as [? ?].
Qed.

Lemma skip_digits_run s d rest : skip_digits s = (d, rest) -> exists p, s = p ++ rest /\ forallb is_digit p = true /\ (d = true -> p <> []).
Proof.
  revert d rest. induction s as [|c s IH]; intros d rest; cbn [skip_digits]; [intros [= <- <-]; by exists []|].
  destruct (is_digit c) eqn:E; [|intros [= <- <-]; by exists []].
  destruct (skip_digits s) as [d' r'] eqn:Es. intros [= <- <-]. destruct (IH _ _ eq_refl) as (p & -> & Hp & _). exists (c :: p). cbn. by rewrite E.
Qed.

Lemma is_exponent t c d rest :
  ((lower1 c =b "e") || (lower1 c =b "p")) = true -> drop_sign t = d :: rest -> is_digit d = true -> numeral_run false rest = true -> exponent (c :: t).
Proof. intros Hc Et Hd Hr. destruct (sign_drop t) as (sg & E & Hsg). right. exists c, sg, d, rest. rewrite Et in E. by rewrite E. Qed.

Lemma isValidNumeric_exponent e t :
  (e =b "e") || (e =b "E") = true -> skip_digits (drop_sign t) = (true, []) -> exponent (e :: t).
Proof.
  intros He (p & E & Hp & Hn)%skip_digits_run. specialize (Hn eq_refl). rewrite app_nil_r in E. destruct p as [|d p]; [done|]. cbn in Hp. apply andb_prop in Hp as [Hd Hp].
  eapply is_exponent; [|exact E|done|by apply numeral_run_digits]. apply orb_prop in He as [He|He]; by apply Byte.byte_dec_bl in He as ->.
Qed.

(** The body of a number that [isValidNumeric] accepts. *)
Definition numeric_tail (s : bytes) : bool :=
  let '(d1, s2) := skip_digits s in
  let '(d2, s3) := match s2 with p :: s2' => if (p =b ".") then skip_digits s2' else (false, s2) | [] => (false, []) end in
  match s3 with
  | e :: s3' => ((e =b "e") || (e =b "E")) && (d1 || d2) && bool_decide (skip_digits (drop_sign s3') = (true, []))
  | [] => d1 || d2
  end.

Lemma numeric_tail_numeral s : numeric_tail (drop_sign s) = true -> numeral s.
Proof.
  unfold numeric_tail. destruct (skip_digits (drop_sign s)) as [d1 s2] eqn:E1. apply skip_digits_run in E1 as (p1 & E1 & Hp1 & Hn1).
  destruct (match s2 with p :: s2' => if (p =b ".") then skip_digits s2' else (false, s2) | [] => (false, []) end) as [d2 s3] eqn:E2. intros H.
  assert (exponent s3 /\ d1 || d2 = true) as [He Hd].
  { destruct s3 as [|e t]; [by split; [left|]|]. rewrite !andb_true_iff in H. destruct H as [[He Hd] Hs%bool_decide_eq_true]. split; [by apply isValidNumeric_exponent|done]. }
  assert (exists m, s2 = m ++ s3 /\ mantissa false (p1 ++ m)) as (m & -> & Hm).
  { assert (s2 = s3 /\ d2 = false \/ exists p2, s2 = "."%byte :: p2 ++ s3 /\ forallb is_digit p2 = true /\ (d2 = true -> p2 <> [])) as [[-> ->]|(p2 & -> & Hp2 & Hn2)].
    { destruct s2 as [|b s2]; [left; by simplify_eq|]. destruct (byte_eqb_spec b "."%byte) as [->|]; [|left; by simplify_eq].
      right. apply skip_digits_run in E2 as (p2 & -> & ?). by exists p2. }
    - exists []. rewrite app_nil_r. split; [done|]. rewrite orb_false_r in Hd. split; [apply has_digit_digits; auto|].
      exists p1. split; [by apply numeral_run_digits|by left].
    - exists ("."%byte :: p2). split; [done|]. split.
      + rewrite has_digit_app. apply orb_prop in Hd as [Hd|Hd]; [by rewrite (has_digit_digits p1) by auto|].
        apply orb_true_intro. right. cbn. apply has_digit_digits; auto.
      + exists p1. split; [by apply numeral_run_digits|]. right. exists p2. split; [done|by apply numeral_run_digits]. }
  destruct (sign_drop s) as (sg & E & Hsg). exists sg, (p1 ++ m), s3. rewrite <- app_assoc, <- E1. split_and!; [done..|by left].
Qed.

Lemma isValidNumeric_constant s : isValidNumeric s = true -> constant s.
Proof.
  destruct s as [|c0 s0]; [done|]. unfold isValidNumeric. intros H.
  destruct (EqualFoldASCII (c0 :: s0) $"NaN" || _ || _) eqn:Ef.
  { rewrite !orb_true_iff in Ef. destruct Ef as [[Ef|Ef]|Ef]; (eapply K_name; [|exact Ef]); set_solver. }
  change (if (c0 =b "+") || (c0 =b "-") then s0 else c0 :: s0) with (drop_sign (c0 :: s0)) in H.
  apply K_number, numeric_tail_numeral. destruct (drop_sign (c0 :: s0)) as [|b0 l0]; [done|]. unfold numeric_tail.
  destruct (skip_digits (b0 :: l0)) as [d1 s2]. destruct (match s2 with [] => _ | _ => _ end) as [d2 s3]. destruct s3 as [|e t]; [done|].
  destruct ((e =b "e") || (e =b "E")); [|done]. cbn [andb]. fold (drop_sign t) in H. destruct (skip_digits (drop_sign t)) as [[] s5]; [|done].
  apply andb_prop in H as [-> ->%bool_decide_eq_true]. done.
Qed.

(** The mantissa loop of the float parser: the point is there once. *)
Lemma read_mantissa_shape hex sd sg m f s m' f' sg' rest :
  read_mantissa hex sd sg m f s = (m', f', sg', rest) ->
  exists p, s = p ++ rest /\ sg' = sg || has_digit hex p /\
    exists whole, numeral_run hex whole = true /\ (p = whole \/ (sd = false /\ exists frac, p = whole ++ "."%byte :: frac /\ numeral_run hex frac = true)).
Proof.
  revert sd sg m f. induction s as [|c s IH]; intros sd sg m f; cbn [read_mantissa].
  { intros [= <- <- <- <-]. exists []. rewrite orb_false_r. split_and!; [done..|]. exists []. by split; [|left]. }
  assert (Hstop : (m, f, sg, c :: s) = (m', f', sg', rest) -> exists p, c :: s = p ++ rest /\ sg' = sg || has_digit hex p /\
    exists whole, numeral_run hex whole = true /\ (p = whole \/ (sd = false /\ exists frac, p = whole ++ "."%byte :: frac /\ numeral_run hex frac = true))).
  { intros [= <- <- <- <-]. exists []. rewrite orb_false_r. split_and!; [done..|]. exists []. by split; [|left]. }
  assert (Hgo : forall sg1 m1 f1, numeral_run hex [c] = true -> (sg1 = sg || has_digit hex [c]) -> read_mantissa hex sd sg1 m1 f1 s = (m', f', sg', rest) ->
    exists p, c :: s = p ++ rest /\ sg' = sg || has_digit hex p /\
    exists whole, numeral_run hex whole = true /\ (p = whole \/ (sd = false /\ exists frac, p = whole ++ "."%byte :: frac /\ numeral_run hex frac = true))).
  { intros sg1 m1 f1 Hc -> (p & -> & -> & whole & Hw & Hp)%IH. exists (c :: p). split; [done|]. split.
    { change (c :: p) with ([c] ++ p). rewrite has_digit_app. by rewrite orb_assoc. }
    exists (c :: whole). split; [change (c :: whole) with ([c] ++ whole); by rewrite numeral_run_app, Hc|].
    destruct Hp as [->|(-> & frac & -> & Hf)]; [by left|right]. split; [done|]. by exists frac. }
  destruct (byte_eqb_spec c "_"%byte) as [->|Hu].
  { apply Hgo; [cbn; by destruct hex|]. cbn. destruct hex; by rewrite orb_false_r. }
  destruct (byte_eqb_spec c "."%byte) as [->|Hdot].
  { destruct sd; [done|]. intros (p & -> & -> & whole & Hw & Hp)%IH. destruct Hp as [->|[? _]]; [|done]. exists ("."%byte :: whole).
    split; [done|]. split; [by destruct hex|]. exists []. split; [done|]. right. split; [done|]. by exists whole. }
  destruct (is_digit c) eqn:Ed; [apply Hgo; cbn; rewrite Ed; [done|by rewrite orb_true_r]|].
  destruct (hex && is_hex_letter c) eqn:Eh; [|done]. apply Hgo; cbn; rewrite Ed, Eh; [done|by rewrite orb_true_r].
Qed.

Lemma read_exponent_run e s e' : read_exponent e s = (e', []) -> numeral_run false s = true.
Proof.
  revert e. induction s as [|c s IH]; intros e; [done|]. cbn [read_exponent]. intros E. change (c :: s) with ([c] ++ s). rewrite numeral_run_app.
  destruct (byte_eqb_spec c "_"%byte) as [->|]; [by rewrite (IH _ E)|]. destruct (is_digit c) eqn:Ed; [|done]. rewrite (IH _ E). cbn. by rewrite Ed.
Qed.

Lemma read_exp_part_exponent hex s e : read_exp_part hex s = Some e -> exponent s.
Proof.
  destruct s as [|c t]; [by left|]. unfold read_exp_part. destruct (lower1 c =b _) eqn:E; [|done].
  destruct (drop_sign t) as [|d u] eqn:Et; [done|]. destruct (is_digit d) eqn:Ed; [|done].
  destruct (read_exponent 0 (d :: u)) as [e' []] eqn:Er; [|done]. intros _. apply read_exponent_run in Er.
  change (d :: u) with ([d] ++ u) in Er. rewrite numeral_run_app in Er. apply andb_prop in Er as [_ Er].
  eapply is_exponent; [|exact Et|done|done]. destruct hex; rewrite E; [by rewrite orb_true_r|done].
Qed.

Lemma parse_finite_numeral s : parse_finite s = true -> numeral s.
Proof.
  unfold parse_finite. intros H. destruct (read_mantissa _ _ _ _ _ _) as [[[m f] sg] rest] eqn:Em.
  apply read_mantissa_shape in Em as (p & Ep & -> & whole & Hw & Hp). destruct (read_exp_part _ rest) as [ev|] eqn:Er; [|done].
  apply read_exp_part_exponent in Er. rewrite !andb_true_iff in H. destruct H as [[Hd _] _]. cbn [orb] in Hd.
  assert (mantissa (is_hex_prefix (drop_sign s)) p) as Hm.
  { split; [done|]. exists whole. split; [done|]. destruct Hp as [->|(_ & frac & -> & Hf)]; [by left|right]. by exists frac. }
  destruct (sign_drop s) as (sn & E & Hsn). destruct (is_hex_prefix (drop_sign s)) eqn:Eh.
  - destruct (drop_sign s) as [|z [|x u]]; [done..|]. exists sn, (z :: x :: p), rest. change (drop 2 (z :: x :: u)) with u in Ep. split_and!; [by rewrite E, Ep|done|done|]. right.
    destruct u; [done|]. apply andb_prop in Eh as [->%Byte.byte_dec_bl Hx]. by exists x, p.
  - exists sn, p, rest. rewrite <- Ep. split_and!; [done..|by left].
Qed.

Lemma digit_char_is_digit d : (0 <= d < 10)%Z -> is_digit (digit_char d) = true.
Proof.
  intros H. assert (forallb (fun d => is_digit (digit_char d)) (seqZ 0 10) = true) as Hall by by vm_compute.
  rewrite forallb_forall in Hall. apply Hall, list_elem_of_In, elem_of_seqZ. lia.
Qed.

Lemma big_digits_digits fuel n acc : forallb is_digit acc = true -> forallb is_digit (big_digits fuel n acc) = true.
Proof.
  revert n acc. induction fuel as [|f IH]; intros n acc H; [done|]. cbn [big_digits].
  assert (forallb is_digit (digit_char (n mod 10) :: acc) = true) as H'
    by (cbn [forallb]; rewrite H, digit_char_is_digit; [done | apply Z.mod_pos_bound; lia]).
  case_match; [done | by apply IH].
Qed.

Lemma big_digits_cons fuel n acc : acc <> [] \/ fuel <> O -> big_digits fuel n acc <> [].
Proof.
  revert n acc. induction fuel as [|f IH]; intros n acc [H|H]; try done; cbn [big_digits]; (case_match; [done|]; apply IH; by left).
Qed.

Lemma print_scaled_mantissa c k : mantissa false (print_scaled c k).
Proof.
  unfold print_scaled. set (ip := big_digits 400 _ _). set (fd := big_digits 1200 _ _). set (frac := reverse _).
  assert (forallb is_digit ip = true) as Hi by by apply big_digits_digits. assert (ip <> []) as Hne by (apply big_digits_cons; by right).
  assert (forallb is_digit frac = true) as Hf.
  { unfold frac. rewrite forallb_reverse.
    assert (forall r, forallb is_digit r = true -> forallb is_digit (trim_zeros r) = true) as Htrim.
    { intros r. induction r as [|b r IH]; [done|]. cbn [trim_zeros]. case_match; [|done]. intros [_ Hr]%andb_prop. by apply IH. }
    apply Htrim. rewrite forallb_reverse, forallb_app. apply andb_true_intro. split; [|by apply big_digits_digits]. by induction (k - length fd). }
  clearbody ip frac. destruct frac as [|b u].
  - split; [by apply has_digit_digits|]. exists ip. split; [by apply numeral_run_digits|by left].
  - split; [rewrite has_digit_app; by rewrite has_digit_digits|]. exists ip. split; [by apply numeral_run_digits|]. right. exists (b :: u). split; [done|by apply numeral_run_digits].
Qed.

Lemma FormatFloat_numeral bits w : numeral (FormatFloat bits w).
Proof.
  assert (forall ew fw, numeral (format_finite ew fw bits)) as Hf; [|by unfold FormatFloat; case_match].
  intros ew fw. unfold format_finite. destruct (shortest_decimal ew fw bits) as [c k].
  set (body := if (_ =? 0)%Z then $"0" else _).
  assert (mantissa false body) as Hb.
  { unfold body. case_match; [|apply print_scaled_mantissa]. split; [done|]. exists $"0". by split; [|left]. }
  clearbody body. case_match; [exists []|exists $"-"]; exists body, []; rewrite app_nil_r; (split_and!; [done| |by left|by left]); [by left|by right; right].
Qed.

Lemma escapeStringLiteral_constant v : constant (escapeStringLiteral v).
Proof. eapply K_string. by apply (string_value_escape v []). Qed.

Lemma hex_literal_constant v : constant (hex_literal v).
Proof.
  apply K_bytes. unfold EncodeToString. induction v as [|b v IH]; [done|]. cbn [fmap list_fmap concat]. rewrite forallb_app, IH, andb_true_r.
  apply (forall_bytes (fun b => forallb (fun c => is_digit c || is_hex_letter c) (hex1 b)) ltac:(by vm_compute) b).
Qed.

Lemma float_literal_constant c fin ty : (c = FFinite -> numeral fin) -> ty ∈ [$"float4"; $"float8"] -> constant (float_literal c fin ty).
Proof.
  intros Hf Ht. destruct c; cbn [float_literal]; [by apply K_number, Hf|apply (K_cast $"NaN")|apply (K_cast $"Infinity")|apply (K_cast $"-Infinity")]; set_solver.
Qed.

Section Props.
Context `{UnicodeCase}.

Lemma ParamToLiteral_constant value oid formatCode lit : ParamToLiteral value oid formatCode = Ok lit -> constant lit.
Proof.
  assert (forall v, (MinInt64 <= v <= MaxInt64)%Z -> constant (FormatInt v)) as Hint by (intros v Hv; by eapply K_number, ParseInt_numeral, ParseInt_FormatInt).
  unfold ParamToLiteral. destruct value as [v|]; [|intros [= <-]; apply K_word; set_solver].
  destruct (formatCode =? 1)%Z; unfold binaryParamToLiteral, textParamToLiteral.
  - repeat case_match; intros [= <-]; first
      [ apply escapeStringLiteral_constant | apply hex_literal_constant | apply float_literal_constant; [intros _; apply FormatFloat_numeral|set_solver]
      | apply K_word; set_solver | idtac ];
      apply Hint; rewrite ?shift_or_loop_value; bool_to_prop; rewrite ?or_shifted_value by lia; by apply wrapS_int64.
  - repeat case_match; intros [= <-]; first
      [ apply escapeStringLiteral_constant | apply hex_literal_constant | by apply isValidNumeric_constant
      | by eapply K_number, ParseInt_numeral | apply K_word; set_solver | idtac ].
    apply float_literal_constant; [intros ->; by apply parse_finite_numeral, ParseFloat64_finite|set_solver].
Qed.

(** C4: whatever value, type and format the client binds, the text put in the
    place of the parameter is one constant: NULL, TRUE or FALSE, a number whose only signs
    are in front of it and of its exponent, a quoted string with its quotes doubled, a bytea in
    hexadecimal, or a float that is no number, quoted and cast, except that such a numeric is a bare word. Read from
    outside a string, the server's lexer meets no separator, comment, dollar quote or NUL in it, and every
    string it opens is closed when the constant ends. *)
Theorem ParamToLiteral_contained value oid formatCode lit :
  ParamToLiteral value oid formatCode = Ok lit ->
  constant lit /\ lex_closed (lex (Outside false false) lit) = true.
Proof.
  intros E. split; [by eapply ParamToLiteral_constant|]. revert E.
  unfold ParamToLiteral. destruct value as [v|]; [|by intros [= <-]].
  destruct (formatCode =? 1)%Z; unfold binaryParamToLiteral, textParamToLiteral, float_literal.
  - repeat case_match; intros [= <-]; first
      [ done | apply escapeStringLiteral_closed | apply hex_literal_closed
      | by apply stays_outside_closed, FormatFloat_outside | idtac ];
      apply stays_outside_closed, FormatInt_outside;
      rewrite ?shift_or_loop_value; bool_to_prop; rewrite ?or_shifted_value by lia;
      by apply wrapS_int64.
  - repeat case_match; intros [= <-]; first
      [ done | apply escapeStringLiteral_closed | apply hex_literal_closed
      | by apply stays_outside_closed, isValidNumeric_outside
      | by eapply stays_outside_closed, ParseInt_outside | idtac ].
    apply stays_outside_closed, parse_finite_outside.
    eapply ParseFloat64_finite; eassumption.
Qed.

(** the escaped form of a text parameter, followed by any text that does not
    start with a quote, is one string constant whose value is the parameter
    without its NUL bytes, and the text after it is untouched. *)
Theorem escapeStringLiteral_value s rest :
  HasPrefix rest $"'" = false ->
  exists body, escapeStringLiteral s ++ rest = "'"%byte :: body /\
    string_value body = Some (filter (fun c => c <> x00) s, rest).
Proof.
  intros Hr. exists (escape_body s ++ "'"%byte :: rest). split; [|by apply string_value_escape].
  unfold escapeStringLiteral. cbn [app]. by rewrite <- app_assoc.
Qed.

(** a binary-format integer parameter of the right length becomes the
    decimal numeral of its two's complement big-endian value, and a parameter of
    any other length is rejected: the literal read back as an integer is the
    value the client sent. *)
Theorem binary_int_literal oid w data :
  int_width oid = Some w ->
  (length data = w -> exists lit,
     ParamToLiteral (Some data) oid 1 = Ok lit /\
     ParseInt lit = Some (wrapS (8 * Z.of_nat w) (be_value data))) /\
  (length data <> w -> ParamToLiteral (Some data) oid 1 = Err (ErrBinaryLength (length data))).
Proof.
  intros Hw.
  assert ((oid = OID.Int2 /\ w = 2) \/ (oid = OID.Int4 /\ w = 4) \/ (oid = OID.Int8 /\ w = 8))
    as [[-> ->]|[[-> ->]|[-> ->]]].
  { unfold int_width in Hw. repeat case_match; bool_to_prop; simplify_eq; auto. }
  all: cbn -[Nat.eqb wrapS be_value FormatInt]; split; intros Hl;
    [ rewrite Hl; cbn [Nat.eqb]; eexists; split; [done|];
      rewrite ?or_shifted_value, ?shift_or_loop_value by lia; apply ParseInt_FormatInt, wrapS_int64; lia
    | by rewrite (proj2 (Nat.eqb_neq _ _) Hl) ].
Qed.
End Props.

Lemma ParamToLiteral_contained_witness :
  constant $"'it''s; -- x'" /\ lex_closed (lex (Outside false false) $"'it''s; -- x'") = true.
Proof.
  apply (ParamToLiteral_contained (H := ascii_case) (Some $"it's; -- x") 25 0). by vm_compute.
Defined.

Lemma escapeStringLiteral_value_witness :
  exists body, escapeStringLiteral $"a'b" ++ $" AND x" = "'"%byte :: body /\
    string_value body = Some ($"a'b", $" AND x").
Proof. apply (escapeStringLiteral_value $"a'b" $" AND x"). by vm_compute. Defined.

Lemma binary_int_literal_witness :
  exists lit, ParamToLiteral (H := ascii_case) (Some [xff; xfe]) OID.Int2 1 = Ok lit /\
    ParseInt lit = Some (-2)%Z.
Proof. apply (binary_int_literal (H := ascii_case) OID.Int2 2 [xff; xfe]); by vm_compute. Defined.
