(* ===== verification/SqlLex.v ===== *)
(** * Scanning SQL text (internal/router/router.go, internal/router/parser.go)

    The byte-level scanners the router is built on: statement splitting, removal
    of comments and of string literals, dollar-quote tags, leading noise, and the
    prefix test for transaction control.

    Each loop of the source walks an index over the query. Here it is recursion on
    the rest of the query; where the source advances the index by more than one,
    the loop carries the number of bytes still to pass over ([skip]). *)

From S2P Require Import Prelude GoStrings.

(** ** Bytes *)

Definition isSpace (b : byte) : bool := (b =b " ") || (b =b x09) || (b =b x0a) || (b =b x0d).
Definition isTagStart (c : byte) : bool := byte_in "a" "z" c || byte_in "A" "Z" c || (c =b "_").
Definition isTagChar (c : byte) : bool := isTagStart c || byte_in "0" "9" c.

(** The rest of the query starts with the two bytes [a b]. *)
Definition at2 (a b : byte) (s : bytes) : bool :=
  match s with
  | x :: y :: _ => (x =b a) && (y =b b)
  | _ => false
  end.

(** ** Comments *)

(** What follows a block comment entered at nesting [depth]; the inner loop that
    [stripComments], [extractHint], [splitStatements] and [SkipLeadingNoise] share. *)
Fixpoint block_rest (depth : nat) (s : bytes) : bytes :=
  match depth with
  | O => s
  | S d =>
      match s with
      | [] => []
      | a :: t =>
          match t with
          | b :: u =>
              if (a =b "/") && (b =b "*") then block_rest (S depth) u
              else if (a =b "*") && (b =b "/") then block_rest d u
              else block_rest depth t
          | [] => block_rest depth t
          end
      end
  end.

(** The length of the block comment that starts [s]. *)
Definition block_len (s : bytes) : nat := length s - length (block_rest 1 (drop 2 s)).

(** The number of bytes before the end of the line. *)
Fixpoint line_len (s : bytes) : nat :=
  match s with
  | [] => 0
  | c :: s' => if (c =b x0a) then 0 else S (line_len s')
  end.

Fixpoint stripComments_loop (skip : nat) (s : bytes) : bytes :=
  match s with
  | [] => []
  | c :: s' =>
      match skip with
      | S k => stripComments_loop k s'
      | O =>
          if at2 "/" "*" s then stripComments_loop (block_len s - 1) s'
          else if at2 "-" "-" s then stripComments_loop (line_len s - 1) s'
          else c :: stripComments_loop 0 s'
      end
  end.

Definition stripComments (query : bytes) : bytes := stripComments_loop 0 query.

(** ** Dollar quotes *)

(** The bytes of a tag at the start of [s]. *)
Fixpoint tag_len (s : bytes) : nat :=
  match s with
  | [] => 0
  | c :: s' => if isTagChar c then S (tag_len s') else 0
  end.

(** [parseDollarTag query i] on [s = query[i:]]. *)
Definition parseDollarTag (s : bytes) : option bytes :=
  match s with
  | [] => None
  | c :: s' =>
      if negb (c =b "$") then None
      else
        match s' with
        | [] => None
        | d :: s'' =>
            if (d =b "$") then Some $"$$"
            else if negb (isTagStart d) then None
            else
              let n := S (tag_len s'') in
              match drop n s' with
              | e :: _ => if (e =b "$") then Some (take (S (S n)) s) else None
              | [] => None
              end
        end
  end.

(** The length of the dollar-quoted string that [tag] opens at the start of
    [s], up to its closing tag or, without one, to the end of the query. *)
Definition dollar_len (tag s : bytes) : nat :=
  match Index (drop (length tag) s) tag with
  | Some e => length tag + e + length tag
  | None => length s
  end.

(** ** String literals *)

Fixpoint stripStringLiterals_loop (skip : nat) (inSingle inDouble : bool) (s : bytes) : bytes :=
  match s with
  | [] => []
  | ch :: s' =>
      match skip with
      | S k => stripStringLiterals_loop k inSingle inDouble s'
      | O =>
          match (if (ch =b "$") && negb inSingle && negb inDouble then parseDollarTag s else None) with
          | Some tag =>
              tag ++ tag ++ stripStringLiterals_loop (dollar_len tag s - 1) inSingle inDouble s'
          | None =>
              if (ch =b "'") && negb inDouble then
                if inSingle then
                  if HasPrefix s' $"'"
                  then ch :: "'"%byte :: stripStringLiterals_loop 1 inSingle inDouble s'
                  else ch :: stripStringLiterals_loop 0 false inDouble s'
                else ch :: stripStringLiterals_loop 0 true inDouble s'
              else if (ch =b x22) && negb inSingle then
                ch :: stripStringLiterals_loop 0 inSingle (negb inDouble) s'
              else if inSingle || inDouble then stripStringLiterals_loop 0 inSingle inDouble s'
              else ch :: stripStringLiterals_loop 0 inSingle inDouble s'
          end
      end
  end.

Definition stripStringLiterals (query : bytes) : bytes := stripStringLiterals_loop 0 false false query.

(** ** Statements *)

(** [append(stmts, s)] of a trimmed statement that is not empty. *)
Definition emit (current : bytes) (stmts : list bytes) : list bytes :=
  match TrimSpace current with
  | [] => stmts
  | s => s :: stmts
  end.

Fixpoint split_loop (skip : nat) (inSingle inDouble : bool) (current s : bytes) : list bytes :=
  match s with
  | [] => emit current []
  | ch :: s' =>
      match skip with
      | S k => split_loop k inSingle inDouble current s'
      | O =>
          let outside := negb inSingle && negb inDouble in
          match (if (ch =b "$") && outside then parseDollarTag s else None) with
          | Some tag =>
              let n := dollar_len tag s in
              split_loop (n - 1) inSingle inDouble (current ++ take n s) s'
          | None =>
              if at2 "-" "-" s && outside then
                let n := S (line_len s) in
                split_loop (n - 1) inSingle inDouble (current ++ take n s) s'
              else if at2 "/" "*" s && outside then
                let n := block_len s in
                split_loop (n - 1) inSingle inDouble (current ++ take n s) s'
              else if (ch =b "'") && negb inDouble then
                if inSingle then
                  if HasPrefix s' $"'"
                  then split_loop 1 inSingle inDouble (current ++ [ch; "'"%byte]) s'
                  else split_loop 0 false inDouble (current ++ [ch]) s'
                else split_loop 0 true inDouble (current ++ [ch]) s'
              else if (ch =b x22) && negb inSingle then
                split_loop 0 inSingle (negb inDouble) (current ++ [ch]) s'
              else if (ch =b ";") && outside then
                emit current (split_loop 0 inSingle inDouble [] s')
              else split_loop 0 inSingle inDouble (current ++ [ch]) s'
          end
      end
  end.

Definition splitStatements (query : bytes) : list bytes := split_loop 0 false false [] query.

Definition isSingleStatement (query : bytes) : bool :=
  match IndexByte query ";" with
  | None => true
  | Some idx => bool_decide (TrimSpace (drop (S idx) query) = [])
  end.

(** ** Leading noise and transaction control *)

Fixpoint noise_loop (skip : nat) (s : bytes) : bytes :=
  match s with
  | [] => []
  | c :: s' =>
      match skip with
      | S k => noise_loop k s'
      | O =>
          if isSpace c then noise_loop 0 s'
          else if at2 "/" "*" s then noise_loop (block_len s - 1) s'
          else if at2 "-" "-" s then noise_loop (line_len s) s'
          else s
      end
  end.

(** The query from the index that [SkipLeadingNoise] returns. *)
Definition after_noise (query : bytes) : bytes := noise_loop 0 query.
Definition SkipLeadingNoise (query : bytes) : nat := length query - length (after_noise query).

(** [eqFold3], [eqFold5], [eqFold6] and [eqFoldN] compare the first
    [length target] bytes up to the case bit. *)
Fixpoint eqFoldN (s target : bytes) {struct target} : bool :=
  match target with
  | [] => true
  | t :: target' =>
      match s with
      | [] => false
      | c :: s' => (or20 c =b or20 t) && eqFoldN s' target'
      end
  end.

(** The byte after the keyword ends it: there is none, a space or a semicolon. *)
Definition ends_tx (rest : bytes) (n : nat) : bool :=
  match drop n rest with
  | [] => true
  | c :: _ => isSpace c || (c =b ";")
  end.

Definition tx_word (rest kw : bytes) : bool := eqFoldN rest kw && ends_tx rest (length kw).

Inductive tx_kind := TxNone | TxBegin | TxEnd.

Definition hasTxPrefix (query : bytes) : tx_kind :=
  match after_noise query with
  | [] => TxNone
  | (c :: _) as rest =>
      let ch := or20 c in
      if (ch =b "b") then if tx_word rest $"BEGIN" then TxBegin else TxNone
      else if (ch =b "s") then if tx_word rest $"START TRANSACTION" then TxBegin else TxNone
      else if (ch =b "c") then if tx_word rest $"COMMIT" then TxEnd else TxNone
      else if (ch =b "r") then if tx_word rest $"ROLLBACK" then TxEnd else TxNone
      else if (ch =b "e") then if tx_word rest $"END" then TxEnd else TxNone
      else if (ch =b "a") then if tx_word rest $"ABORT" then TxEnd else TxNone
      else TxNone
  end.

Definition IsTxControl (query : bytes) : bool * bool :=
  match hasTxPrefix query with
  | TxBegin => (true, false)
  | TxEnd => (false, true)
  | TxNone => (false, false)
  end.

(** ** The lexical structure of SQL text

    A grammar of SQL text, independent of the scanners: single- and
    double-quoted strings, dollar-quoted strings, line comments, nested block
    comments and other characters. *)

(** The inside of a block comment after its opening: a character, a nested
    comment, or the end. *)
Inductive cbody :=
| CEnd
| CChar (c : byte) (k : cbody)
| CNest (inner k : cbody).

Fixpoint render_cbody (b : cbody) : bytes :=
  match b with
  | CEnd => $"*/"
  | CChar c k => c :: render_cbody k
  | CNest inner k => $"/*" ++ render_cbody inner ++ render_cbody k
  end.

(** A character of a comment is one: it does not open or close a comment with
    the character after it. *)
Fixpoint wf_cbody (b : cbody) : bool :=
  match b with
  | CEnd => true
  | CChar c k =>
      negb (at2 "/" "*" (c :: render_cbody k)) && negb (at2 "*" "/" (c :: render_cbody k)) && wf_cbody k
  | CNest inner k => wf_cbody inner && wf_cbody k
  end.

Inductive chunk :=
| Char (c : byte)
| SingleQuoted (v : bytes)
| DoubleQuoted (v : bytes)
| DollarQuoted (tag body : bytes)
| LineComment (text : bytes)
| BlockComment (b : cbody).

Fixpoint double_quotes (v : bytes) : bytes :=
  match v with
  | [] => []
  | c :: v' => if (c =b "'") then c :: c :: double_quotes v' else c :: double_quotes v'
  end.

Definition render1 (k : chunk) : bytes :=
  match k with
  | Char c => [c]
  | SingleQuoted v => "'"%byte :: double_quotes v ++ $"'"
  | DoubleQuoted v => x22 :: v ++ [x22]
  | DollarQuoted tag body => "$"%byte :: tag ++ $"$" ++ body ++ "$"%byte :: tag ++ $"$"
  | LineComment text => $"--" ++ text ++ [x0a]
  | BlockComment b => $"/*" ++ render_cbody b
  end.

Definition render (ks : list chunk) : bytes := concat (render1 <$> ks).

Definition wf_tag (tag : bytes) : bool :=
  match tag with
  | [] => true
  | c :: t => isTagStart c && forallb isTagChar t
  end.

(** [k] followed by [next] is lexed as written. *)
Definition wf_chunk (k : chunk) (next : bytes) : bool :=
  match k with
  | Char c =>
      negb (existsb (Byte.eqb c) ["'"%byte; x22; ";"%byte])
      && negb (at2 "-" "-" (c :: next)) && negb (at2 "/" "*" (c :: next))
      && match parseDollarTag (c :: next) with Some _ => false | None => true end
  | SingleQuoted v => negb (HasPrefix next $"'")
  | DoubleQuoted v => negb (existsb (Byte.eqb x22) v)
  | DollarQuoted tag body =>
      (* the closing tag is the first occurrence of the tag after the opening one *)
      let t := "$"%byte :: tag ++ $"$" in
      wf_tag tag && bool_decide (Index (body ++ t ++ next) t = Some (length body))
  | LineComment text => negb (existsb (Byte.eqb x0a) text)
  | BlockComment b => wf_cbody b
  end.

(** A chunk list followed by [next]. *)
Fixpoint wf_chunks (ks : list chunk) (next : bytes) : bool :=
  match ks with
  | [] => true
  | k :: ks' => wf_chunk k (render ks' ++ next) && wf_chunks ks' next
  end.

(** PostgreSQL, with [standard_conforming_strings] on, reads a chunk as the grammar does unless: the string
    is one with escapes ([E] before it) in which a backslash escapes a quote; a dollar quote
    follows the byte of an identifier, whose part it then is; a dollar sign starts a tag with a
    byte outside ASCII; a carriage return ends a line comment before its line feed. *)
Definition ident_byte (c : byte) : bool := isTagChar c || (c =b "$") || (128 <=? bz c)%Z.
Definition pg_tag_start (c : byte) : bool := isTagStart c || (128 <=? bz c)%Z.

Fixpoint pg_tag_rest (s : bytes) : bool :=
  match s with [] => false | c :: s' => (c =b "$") || ((isTagChar c || (128 <=? bz c)%Z) && pg_tag_rest s') end.
Definition pg_tag (s : bytes) : bool :=
  match s with [] => false | c :: s' => (c =b "$") || (pg_tag_start c && pg_tag_rest s') end.

Fixpoint escapes_plain (v : bytes) : bool :=
  match v with
  | [] => true
  | c :: v' => if (c =b x5c) then match v' with d :: v'' => negb (d =b "'") && escapes_plain v'' | [] => false end else escapes_plain v'
  end.

Definition reads_alike (prev : byte) (k : chunk) (next : bytes) : bool :=
  match k with
  | Char c => negb ((c =b "$") && pg_tag next)
  | SingleQuoted v => negb ((prev =b "E") || (prev =b "e")) || escapes_plain v
  | DollarQuoted _ _ => negb (ident_byte prev)
  | LineComment text => match rev text with _ :: t => negb (existsb (Byte.eqb x0d) t) | [] => true end
  | DoubleQuoted _ | BlockComment _ => true
  end.

Fixpoint reads_alike_chunks (prev : byte) (ks : list chunk) (next : bytes) : bool :=
  match ks with
  | [] => true
  | k :: ks' => reads_alike prev k (render ks' ++ next) && reads_alike_chunks (List.last (render1 k) prev) ks' next
  end.

Definition is_comment (k : chunk) : bool :=
  match k with LineComment _ | BlockComment _ => true | _ => false end.
Definition is_string (k : chunk) : bool :=
  match k with SingleQuoted _ | DoubleQuoted _ | DollarQuoted _ _ => true | _ => false end.

(** Statements separated by semicolons. *)
Fixpoint render_stmts (stmts : list (list chunk)) : bytes :=
  match stmts with
  | [] => []
  | [ks] => render ks
  | ks :: stmts' => render ks ++ ";"%byte :: render_stmts stmts'
  end.

(** The chunks of each statement are lexed as written. *)
Fixpoint lexed_stmts (stmts : list (list chunk)) : bool :=
  match stmts with
  | [] => true
  | [ks] => wf_chunks ks []
  | ks :: stmts' => wf_chunks ks (";"%byte :: render_stmts stmts') && lexed_stmts stmts'
  end.

(** And PostgreSQL reads them alike. *)
Fixpoint postgres_stmts (stmts : list (list chunk)) : bool :=
  match stmts with
  | [] => true
  | [ks] => reads_alike_chunks ";" ks []
  | ks :: stmts' => reads_alike_chunks ";" ks (";"%byte :: render_stmts stmts') && postgres_stmts stmts'
  end.

Definition wf_stmts (stmts : list (list chunk)) : bool := lexed_stmts stmts && postgres_stmts stmts.

(** ** Passing over bytes *)

Lemma split_loop_skip k a b cur s : split_loop k a b cur s = split_loop 0 a b cur (drop k s).
Proof. revert k. induction s as [|c s IH]; intros [|k]; try done. apply IH. Qed.

Lemma stripComments_loop_skip k s : stripComments_loop k s = stripComments_loop 0 (drop k s).
Proof. revert k. induction s as [|c s IH]; intros [|k]; try done. apply IH. Qed.

Lemma stripStringLiterals_loop_skip k a b s :
  stripStringLiterals_loop k a b s = stripStringLiterals_loop 0 a b (drop k s).
Proof. revert k. induction s as [|c s IH]; intros [|k]; try done. apply IH. Qed.

Lemma noise_loop_skip k s : noise_loop k s = noise_loop 0 (drop k s).
Proof. revert k. induction s as [|c s IH]; intros [|k]; try done. apply IH. Qed.

Lemma drop_tail_app (c : byte) s t n :
  n = length (c :: s) -> drop (n - 1) (s ++ t) = t.
Proof. intros ->. simpl. rewrite Nat.sub_0_r. apply drop_app_length. Qed.

(** ** Comments *)

Lemma at2_app a b s t : 2 <= length s -> at2 a b (s ++ t) = at2 a b s.
Proof. destruct s as [|x [|y s]]; simpl; [lia|lia|done]. Qed.

Lemma at2_head a b c s : (c =b a) = false -> at2 a b (c :: s) = false.
Proof. intros H. cbn [at2]. by destruct s; rewrite ?H. Qed.

Lemma render_cbody_length b : 2 <= length (render_cbody b).
Proof. induction b; simpl; rewrite ?length_app; lia. Qed.

Lemma block_rest_0 s : block_rest 0 s = s.
Proof. by destruct s. Qed.

Lemma block_rest_cbody b d r :
  wf_cbody b = true -> block_rest (S d) (render_cbody b ++ r) = block_rest d r.
Proof.
  revert d r. induction b as [|c k IH|inner IHi k IHk]; intros d r H; [done|..].
  - cbn [wf_cbody] in H. rewrite !andb_true_iff in H. destruct H as [[H1 H2] Hk].
    cbn [render_cbody app]. rewrite <- (IH d r Hk).
    destruct (render_cbody k) as [|x t] eqn:E; [pose proof (render_cbody_length k); rewrite E in *; simpl in *; lia|].
    cbn [at2] in H1, H2. apply negb_true_iff in H1, H2. cbn [block_rest app]. by rewrite H1, H2.
  - cbn [wf_cbody] in H. apply andb_prop in H as [Hi Hk].
    cbn [render_cbody]. rewrite <- !app_assoc.
    change (block_rest (S d) ($"/*" ++ render_cbody inner ++ render_cbody k ++ r))
      with (block_rest (S (S d)) (render_cbody inner ++ render_cbody k ++ r)).
    by rewrite IHi, IHk.
Qed.

Lemma block_len_cbody b r :
  wf_cbody b = true -> block_len ($"/*" ++ render_cbody b ++ r) = length ($"/*" ++ render_cbody b).
Proof.
  intros H. unfold block_len.
  change (drop 2 ($"/*" ++ render_cbody b ++ r)) with (render_cbody b ++ r).
  rewrite block_rest_cbody, block_rest_0 by done. rewrite !length_app. lia.
Qed.

Lemma line_len_app t r : existsb (Byte.eqb x0a) t = false -> line_len (t ++ x0a :: r) = length t.
Proof.
  induction t as [|c t IH]; [done|]. cbn [existsb]. intros [Hc Ht]%orb_false_iff.
  cbn [app line_len length]. destruct (byte_eqb_spec c x0a) as [->|]; [done|]. by rewrite IH.
Qed.

(** ** Dollar quotes *)

Lemma tag_len_app t r :
  forallb isTagChar t = true -> tag_len (t ++ "$"%byte :: r) = length t.
Proof.
  induction t as [|c t IH]; [done|]. cbn [forallb]. intros [Hc Ht]%andb_prop.
  cbn [app tag_len length]. by rewrite Hc, IH.
Qed.

Lemma parseDollarTag_app tag r :
  wf_tag tag = true ->
  parseDollarTag ("$"%byte :: tag ++ "$"%byte :: r) = Some ("$"%byte :: tag ++ $"$").
Proof.
  destruct tag as [|c t]; [done|]. cbn [wf_tag]. intros [Hc Ht]%andb_prop.
  unfold parseDollarTag. cbn [app].
  change (negb ("$" =b "$")) with false. cbn match.
  assert ((c =b "$") = false) as ->.
  { destruct (byte_eqb_spec c "$"%byte) as [->|]; done. }
  rewrite Hc. cbn [negb]. rewrite tag_len_app by done.
  cbn [drop]. rewrite drop_app_length. change ("$" =b "$") with true. cbn match.
  f_equal. cbn [take]. do 2 f_equal.
  change (t ++ "$"%byte :: r) with (t ++ ($"$" ++ r)). rewrite app_assoc.
  apply take_app_length'. rewrite length_app. simpl. lia.
Qed.

Lemma dollar_len_app tag body r :
  let t := "$"%byte :: tag ++ $"$" in
  Index (body ++ t ++ r) t = Some (length body) ->
  dollar_len t (t ++ body ++ t ++ r) = length (t ++ body ++ t).
Proof.
  intros t H. unfold dollar_len. rewrite drop_app_length, H, !length_app. lia.
Qed.

(** ** Splitting *)

Lemma split_single v cur next :
  HasPrefix next $"'" = false ->
  split_loop 0 true false cur (double_quotes v ++ "'"%byte :: next) =
  split_loop 0 false false (cur ++ double_quotes v ++ $"'") next.
Proof.
  intros Hn. revert cur. induction v as [|c v IH]; intros cur.
  { cbn [double_quotes app split_loop negb andb]. rewrite !andb_false_r.
    change ("'" =b "'") with true. cbn [andb]. by rewrite Hn. }
  cbn [double_quotes]. destruct (byte_eqb_spec c "'"%byte) as [->|Hc].
  - cbn [app split_loop negb andb]. rewrite !andb_false_r.
    change ("'" =b "'") with true. cbn [andb HasPrefix].
    rewrite split_loop_skip. cbn [drop]. rewrite IH. by rewrite <- !app_assoc.
  - cbn [app split_loop negb andb]. rewrite !andb_false_r, byte_eqb_ne by done. cbn [andb].
    rewrite IH. by rewrite <- !app_assoc.
Qed.

Lemma split_double v cur next :
  existsb (Byte.eqb x22) v = false ->
  split_loop 0 false true cur (v ++ x22 :: next) = split_loop 0 false false (cur ++ v ++ [x22]) next.
Proof.
  revert cur. induction v as [|c v IH]; intros cur H; cbn [existsb] in H.
  { cbn [app split_loop negb andb]. by rewrite !andb_false_r. }
  apply orb_false_iff in H as [Hc Hv].
  cbn [app split_loop negb andb]. rewrite !andb_false_r.
  destruct (byte_eqb_spec c x22) as [->|]; [done|]. cbn [andb]. rewrite IH by done. by rewrite <- !app_assoc.
Qed.

Lemma render1_dollar tag body :
  let t := "$"%byte :: tag ++ $"$" in render1 (DollarQuoted tag body) = t ++ body ++ t.
Proof. intros t. unfold t. cbn [render1 app]. by rewrite <- !app_assoc. Qed.

(** The head of a chunk's text, for loops that look at it first. *)
Lemma split_dollar tag body cur next :
  wf_chunk (DollarQuoted tag body) next = true ->
  split_loop 0 false false cur (render1 (DollarQuoted tag body) ++ next) =
  split_loop 0 false false (cur ++ render1 (DollarQuoted tag body)) next.
Proof.
  cbn [wf_chunk]. intros [Ht Hi%bool_decide_eq_true]%andb_prop.
  rewrite render1_dollar. set (t := "$"%byte :: tag ++ $"$") in *.
  pose proof (dollar_len_app tag body next Hi) as Hl. fold t in Hl.
  replace (t ++ body ++ t ++ next) with ((t ++ body ++ t) ++ next) in Hl by by rewrite <- !app_assoc.
  assert (parseDollarTag ((t ++ body ++ t) ++ next) = Some t) as Hp.
  { unfold t. rewrite <- !app_assoc. cbn [app]. rewrite <- !app_assoc. by apply parseDollarTag_app. }
  destruct ((t ++ body ++ t)) as [|c u] eqn:E; [done|].
  assert (c = "$"%byte) as -> by by injection E.
  cbn [app] in *. cbn [split_loop]. change ("$" =b "$") with true. cbn [negb andb].
  rewrite Hp, Hl. change ("$"%byte :: u ++ next) with (("$"%byte :: u) ++ next).
  rewrite take_app_length, split_loop_skip, (drop_tail_app "$"%byte) by done. done.
Qed.

Lemma split_char c cur next :
  wf_chunk (Char c) next = true ->
  split_loop 0 false false cur (c :: next) = split_loop 0 false false (cur ++ [c]) next.
Proof.
  cbn [wf_chunk]. rewrite !andb_true_iff, !negb_true_iff. intros [[[Hq Hl] Hb] Hd].
  cbn [existsb] in Hq. rewrite !orb_false_iff in Hq. destruct Hq as (H1 & H2 & H3 & _).
  cbn [split_loop negb andb]. destruct (parseDollarTag (c :: next)); [done|].
  rewrite Hl, Hb, H1, H2, H3. cbn [andb]. by destruct (c =b "$").
Qed.

Lemma split_line text cur next :
  existsb (Byte.eqb x0a) text = false ->
  split_loop 0 false false cur (render1 (LineComment text) ++ next) =
  split_loop 0 false false (cur ++ render1 (LineComment text)) next.
Proof.
  intros H. set (u := "-"%byte :: text ++ [x0a]).
  change (render1 (LineComment text)) with ("-"%byte :: u).
  assert (line_len ("-"%byte :: u ++ next) = length u) as Hl.
  { unfold u. cbn [app line_len]. change ("-" =b x0a) with false. cbn match.
    rewrite <- app_assoc. cbn [app]. rewrite line_len_app by done. simpl. rewrite length_app. simpl. lia. }
  cbn [app split_loop]. change (at2 "-" "-" ("-"%byte :: u ++ next)) with true.
  change ("-" =b "$") with false. cbn [negb andb]. rewrite Hl.
  change ("-"%byte :: u ++ next) with (("-"%byte :: u) ++ next).
  rewrite take_app_length' by done. rewrite split_loop_skip, (drop_tail_app "-"%byte) by done. done.
Qed.

Lemma split_block b cur next :
  wf_cbody b = true ->
  split_loop 0 false false cur (render1 (BlockComment b) ++ next) =
  split_loop 0 false false (cur ++ render1 (BlockComment b)) next.
Proof.
  intros H. pose proof (block_len_cbody b next H) as Hl. cbn [render1].
  rewrite app_assoc in Hl. set (u := "*"%byte :: render_cbody b).
  change ($"/*" ++ render_cbody b) with ("/"%byte :: u) in *.
  cbn [app split_loop]. change (at2 "/" "*" ("/"%byte :: u ++ next)) with true.
  rewrite (at2_head "-" "-") by done. change ("/" =b "$") with false. cbn [negb andb].
  change ("/"%byte :: u ++ next) with (("/"%byte :: u) ++ next). rewrite Hl.
  rewrite take_app_length' by done. rewrite split_loop_skip, (drop_tail_app "/"%byte) by done. done.
Qed.

Lemma split_chunk k cur next :
  wf_chunk k next = true ->
  split_loop 0 false false cur (render1 k ++ next) = split_loop 0 false false (cur ++ render1 k) next.
Proof.
  intros H. destruct k as [c|v|v|tag body|text|b].
  - by apply split_char.
  - apply negb_true_iff in H. cbn [render1 app]. rewrite <- app_assoc.
    change ($"'" ++ next) with ("'"%byte :: next). cbn [split_loop]. rewrite !at2_head by done.
    cbn -[split_loop double_quotes app]. rewrite split_single by done. by rewrite <- !app_assoc.
  - apply negb_true_iff in H. cbn [render1 app]. rewrite <- app_assoc.
    cbn [app split_loop]. rewrite !at2_head by done.
    cbn -[split_loop app]. rewrite split_double by done. by rewrite <- !app_assoc.
  - by apply split_dollar.
  - apply negb_true_iff in H. by apply split_line.
  - by apply split_block.
Qed.

Lemma split_chunks ks cur next :
  wf_chunks ks next = true ->
  split_loop 0 false false cur (render ks ++ next) = split_loop 0 false false (cur ++ render ks) next.
Proof.
  revert cur. induction ks as [|k ks IH]; intros cur H; [by rewrite app_nil_r|].
  cbn [wf_chunks] in H. apply andb_prop in H as [Hk Hks].
  change (render (k :: ks)) with (render1 k ++ render ks).
  rewrite <- app_assoc, split_chunk, IH by done. by rewrite <- app_assoc.
Qed.

Lemma split_lexed stmts :
  lexed_stmts stmts = true ->
  splitStatements (render_stmts stmts) = filter (fun s => s <> []) (TrimSpace ∘ render <$> stmts).
Proof.
  unfold splitStatements.
  assert (Hemit : forall ks l, emit (render ks) (filter (fun s => s <> []) l) =
    filter (fun s => s <> []) (TrimSpace (render ks) :: l)).
  { intros ks l. unfold emit. rewrite filter_cons. destruct (TrimSpace (render ks)).
    - by rewrite decide_False by auto.
    - by rewrite decide_True. }
  induction stmts as [|ks stmts IH]; [done|]. intros H.
  destruct stmts as [|ks2 stmts].
  - cbn [render_stmts lexed_stmts] in *. pose proof (split_chunks ks [] [] H) as E.
    rewrite app_nil_r in E. rewrite E. apply (Hemit ks []).
  - set (rest := ks2 :: stmts) in *.
    change (wf_chunks ks (";"%byte :: render_stmts rest) && lexed_stmts rest = true) in H.
    apply andb_prop in H as [Hk Hs].
    change (render_stmts (ks :: rest)) with (render ks ++ ";"%byte :: render_stmts rest).
    rewrite split_chunks by done. cbn [split_loop app]. rewrite !at2_head by done.
    cbn -[split_loop render_stmts emit rest render]. rewrite IH by done. apply Hemit.
Qed.

(** C18: splitting a query into statements respects the lexical structure of SQL.
    For any sequence of statements built from strings, dollar-quoted strings,
    line comments, nested block comments and other characters, separated by
    semicolons, the statements come back one by one, trimmed and without the empty
    ones: a semicolon inside a string or a comment never splits. The structure is the one
    PostgreSQL sees; texts that it reads in another way than the grammar ([reads_alike]) are left out, and a
    semicolon in the body of a routine (BEGIN ATOMIC) or between rule actions is a separator here. *)
Theorem splitStatements_correct stmts :
  wf_stmts stmts = true ->
  splitStatements (render_stmts stmts) = filter (fun s => s <> []) (TrimSpace ∘ render <$> stmts).
Proof. intros [Hl _]%andb_prop. by apply split_lexed. Qed.

Definition example_stmts : list (list chunk) :=
  [ (Char <$> $"SELECT ") ++ [SingleQuoted $";"; Char " "; LineComment $" a;b"];
    Char <$> $"  ";
    [Char " "; BlockComment (CChar " " (CChar "x" (CChar ";" (CChar " "
       (CNest (CChar " " (CChar ";" (CChar " " CEnd))) (CChar " " CEnd))))))] ++ (Char <$> $" COMMIT");
    [] ].

Lemma splitStatements_correct_witness :
  splitStatements $"SELECT ';' -- a;b
;  ; /* x; /* ; */ */ COMMIT;"
  = [$"SELECT ';' -- a;b"; $"/* x; /* ; */ */ COMMIT"].
Proof.
  transitivity (splitStatements (render_stmts example_stmts)); [by vm_compute|].
  rewrite (splitStatements_correct example_stmts); by vm_compute.
Defined.

(** Where PostgreSQL reads the text in another way. The first text is one statement with two strings for it and
    is cut inside a string; the second is two statements for it, since the carriage return ends the comment, and
    comes back as one; the third is one statement with a dollar-quoted string. *)
Example split_elsewhere :
  splitStatements $"SELECT E'it\'s; ok', E'it\'s'" = [$"SELECT E'it\'s"; $"ok', E'it\'s'"] /\
  splitStatements ($"SELECT 1 -- x" ++ x0d :: $"; DELETE FROM t") = [$"SELECT 1 -- x" ++ x0d :: $"; DELETE FROM t"] /\
  splitStatements ($"SELECT $" ++ xc3 :: xa9 :: $"$a;b$" ++ xc3 :: xa9 :: $"$") =
    [$"SELECT $" ++ xc3 :: xa9 :: $"$a"; $"b$" ++ xc3 :: xa9 :: $"$"].
Proof. by vm_compute. Qed.

(** ** Removing strings and comments *)

Definition blank (k : chunk) : chunk :=
  match k with
  | SingleQuoted v => SingleQuoted (filter (fun c => c = "'"%byte) v)
  | DoubleQuoted _ => DoubleQuoted []
  | DollarQuoted tag _ => DollarQuoted tag []
  | _ => k
  end.

Definition uncomment (k : chunk) : list chunk :=
  match k with
  | LineComment _ => [Char x0a]
  | BlockComment _ => []
  | _ => [k]
  end.

(** The text of [k] has none of the bytes [cs]. *)
Definition free_of (cs : bytes) (k : chunk) : bool :=
  forallb (fun c => negb (existsb (Byte.eqb c) cs)) (render1 k).

#[local] Abbreviation strip := (stripStringLiterals_loop 0).

Lemma quote_prefix s : HasPrefix ("'"%byte :: s) $"'" = true.
Proof. apply (HasPrefix_app $"'"). Qed.

Lemma strip_single v next :
  HasPrefix next $"'" = false ->
  strip true false (double_quotes v ++ "'"%byte :: next) =
  double_quotes (filter (fun c => c = "'"%byte) v) ++ "'"%byte :: strip false false next.
Proof.
  intros Hn. induction v as [|c v IH].
  { cbn [double_quotes app stripStringLiterals_loop negb andb]. rewrite !andb_false_r.
    change ("'" =b "'") with true. cbn [andb]. by rewrite Hn. }
  cbn [double_quotes]. rewrite filter_cons. destruct (byte_eqb_spec c "'"%byte) as [->|Hc].
  - cbn [app stripStringLiterals_loop negb andb]. rewrite !andb_false_r, decide_True by done.
    change ("'" =b "'") with true. cbn [andb]. rewrite quote_prefix, stripStringLiterals_loop_skip.
    cbn [drop]. by rewrite drop_0, IH.
  - cbn [app stripStringLiterals_loop negb andb].
    rewrite !andb_false_r, decide_False, byte_eqb_ne by done. cbn [andb orb]. apply IH.
Qed.

Lemma strip_double v next :
  existsb (Byte.eqb x22) v = false ->
  strip false true (v ++ x22 :: next) = x22 :: strip false false next.
Proof.
  induction v as [|c v IH]; cbn [existsb]; intros H.
  { cbn [app stripStringLiterals_loop negb andb]. by rewrite !andb_false_r. }
  apply orb_false_iff in H as [Hc Hv].
  cbn [app stripStringLiterals_loop negb andb orb]. rewrite !andb_false_r.
  destruct (byte_eqb_spec c x22) as [->|]; [done|]. cbn [andb]. by apply IH.
Qed.

Lemma strip_dollar tag body next :
  wf_chunk (DollarQuoted tag body) next = true ->
  strip false false (render1 (DollarQuoted tag body) ++ next) =
  render1 (DollarQuoted tag []) ++ strip false false next.
Proof.
  cbn [wf_chunk]. intros [Ht Hi%bool_decide_eq_true]%andb_prop.
  rewrite !render1_dollar. set (t := "$"%byte :: tag ++ $"$") in *.
  pose proof (dollar_len_app tag body next Hi) as Hl. fold t in Hl.
  replace (t ++ body ++ t ++ next) with ((t ++ body ++ t) ++ next) in Hl by by rewrite <- !app_assoc.
  assert (parseDollarTag ((t ++ body ++ t) ++ next) = Some t) as Hp.
  { unfold t. rewrite <- !app_assoc. cbn [app]. rewrite <- !app_assoc. by apply parseDollarTag_app. }
  destruct ((t ++ body ++ t)) as [|c u] eqn:E; [done|].
  assert (c = "$"%byte) as -> by by injection E.
  cbn [app] in *. cbn [stripStringLiterals_loop]. change ("$" =b "$") with true. cbn [negb andb].
  rewrite Hp, Hl, stripStringLiterals_loop_skip, (drop_tail_app "$"%byte) by done.
  by rewrite <- !app_assoc.
Qed.

Lemma strip_plain c next :
  (c =b "'") = false -> (c =b x22) = false ->
  (if (c =b "$") then parseDollarTag (c :: next) else None) = None ->
  strip false false (c :: next) = c :: strip false false next.
Proof.
  intros H1 H2 H3. cbn [stripStringLiterals_loop negb]. rewrite !andb_true_r, H3, H1, H2. done.
Qed.

Definition quote_bytes : bytes := ["'"%byte; x22; "$"%byte].
Definition comment_bytes : bytes := ["-"%byte; "/"%byte].

Lemma strip_free s next :
  forallb (fun c => negb (existsb (Byte.eqb c) quote_bytes)) s = true ->
  strip false false (s ++ next) = s ++ strip false false next.
Proof.
  induction s as [|c s IH]; [done|]. cbn [forallb]. intros [Hc Hs]%andb_prop.
  apply negb_true_iff in Hc. cbn in Hc. rewrite !orb_false_iff in Hc.
  destruct Hc as (H1 & H2 & H3 & _). cbn [app]. rewrite strip_plain, IH; auto. by rewrite H3.
Qed.

Lemma strip_chunk k next :
  wf_chunk k next = true -> negb (is_comment k) || free_of quote_bytes k = true ->
  strip false false (render1 k ++ next) = render1 (blank k) ++ strip false false next.
Proof.
  intros H Hf. destruct k as [c|v|v|tag body|text|b]; try by apply strip_free.
  - cbn [wf_chunk] in H. rewrite !andb_true_iff, !negb_true_iff in H. destruct H as [[[Hq _] _] Hd].
    cbn [existsb] in Hq. rewrite !orb_false_iff in Hq. destruct Hq as (H1 & H2 & _).
    apply strip_plain; [done..|]. destruct (parseDollarTag _); [done|]. by case_match.
  - apply negb_true_iff in H. cbn [render1 blank app]. rewrite <- !app_assoc.
    change (strip false false ("'"%byte :: ?s)) with ("'"%byte :: strip true false s).
    f_equal. by apply (strip_single v next).
  - apply negb_true_iff in H. cbn [render1 blank app]. rewrite <- !app_assoc.
    change (strip false false (x22 :: ?s)) with (x22 :: strip false true s). cbn [app].
    by rewrite strip_double.
  - by apply strip_dollar.
Qed.

Lemma render_cons k ks : render (k :: ks) = render1 k ++ render ks.
Proof. done. Qed.

(** removing string literals empties exactly the strings. On text whose
    comments contain no quote and no dollar sign, every string keeps its
    delimiters and its doubled quotes and loses the rest, dollar-quoted strings
    included, and everything else is unchanged. *)
Theorem stripStringLiterals_correct ks :
  wf_chunks ks [] = true ->
  forallb (fun k => negb (is_comment k) || free_of quote_bytes k) ks = true ->
  stripStringLiterals (render ks) = render (blank <$> ks).
Proof.
  unfold stripStringLiterals. induction ks as [|k ks IH]; [done|]. cbn [wf_chunks forallb].
  rewrite app_nil_r. intros [Hk Hks]%andb_prop [Hf Hfs]%andb_prop. cbn [fmap list_fmap].
  rewrite !render_cons, strip_chunk by done. by rewrite IH.
Qed.

Lemma stripComments_free s next :
  forallb (fun c => negb (existsb (Byte.eqb c) comment_bytes)) s = true ->
  stripComments_loop 0 (s ++ next) = s ++ stripComments_loop 0 next.
Proof.
  induction s as [|c s IH]; [done|]. cbn [forallb]. intros [Hc Hs]%andb_prop.
  apply negb_true_iff in Hc. cbn in Hc. rewrite !orb_false_iff in Hc. destruct Hc as (H1 & H2 & _).
  cbn [app stripComments_loop]. rewrite !at2_head by done. by rewrite IH.
Qed.

Lemma stripComments_chunk k next :
  wf_chunk k next = true -> negb (is_string k) || free_of comment_bytes k = true ->
  stripComments_loop 0 (render1 k ++ next) = render (uncomment k) ++ stripComments_loop 0 next.
Proof.
  intros H Hf. destruct k as [c|v|v|tag body|text|b];
    try (change (render (uncomment ?k)) with (render1 k ++ []); rewrite app_nil_r;
         by apply stripComments_free).
  - cbn [wf_chunk] in H. rewrite !andb_true_iff, !negb_true_iff in H. destruct H as [[[_ Hl] Hb] _].
    cbn [render1 app stripComments_loop]. by rewrite Hl, Hb.
  - apply negb_true_iff in H. change (render (uncomment (LineComment text))) with [x0a].
    set (u := "-"%byte :: text).
    replace (render1 (LineComment text) ++ next) with (("-"%byte :: u) ++ x0a :: next)
      by (cbn [render1]; rewrite <- !app_assoc; done).
    cbn [app stripComments_loop]. change (at2 "-" "-" ("-"%byte :: u ++ x0a :: next)) with true.
    rewrite at2_head by done. cbn match.
    assert (line_len ("-"%byte :: u ++ x0a :: next) = length ("-"%byte :: u)) as ->
      by (apply (line_len_app ("-"%byte :: u)); done).
    rewrite stripComments_loop_skip, (drop_tail_app "-"%byte) by done.
    cbn [stripComments_loop]. by rewrite !at2_head.
  - pose proof (block_len_cbody b next H) as Hl. cbn [render1].
    rewrite app_assoc in Hl. set (u := "*"%byte :: render_cbody b).
    change ($"/*" ++ render_cbody b) with ("/"%byte :: u) in *.
    cbn [app stripComments_loop] in *. change (at2 "/" "*" ("/"%byte :: u ++ next)) with true.
    rewrite Hl. by rewrite stripComments_loop_skip, (drop_tail_app "/"%byte).
Qed.

(** removing comments removes exactly the comments. On text whose strings
    contain no dash and no slash, block comments with all that is nested in them
    disappear, a line comment leaves its end of line, and everything else is
    unchanged. *)
Theorem stripComments_correct ks :
  wf_chunks ks [] = true ->
  forallb (fun k => negb (is_string k) || free_of comment_bytes k) ks = true ->
  stripComments (render ks) = render (concat (uncomment <$> ks)).
Proof.
  unfold stripComments. induction ks as [|k ks IH]; [done|]. cbn [wf_chunks forallb].
  rewrite app_nil_r. intros [Hk Hks]%andb_prop [Hf Hfs]%andb_prop. cbn [fmap list_fmap concat].
  rewrite render_cons, stripComments_chunk, IH by done.
  unfold render. by rewrite fmap_app, concat_app.
Qed.

Definition example_strings : list chunk :=
  (Char <$> $"SELECT ") ++ [SingleQuoted $"it's"] ++ (Char <$> $", ")
  ++ [DollarQuoted $"q" $"a;b"; Char " "; BlockComment (CChar " " (CChar "c" (CChar " " CEnd)))].

Lemma stripStringLiterals_correct_witness :
  stripStringLiterals $"SELECT 'it''s', $q$a;b$q$ /* c */" = $"SELECT '''', $q$$q$ /* c */".
Proof.
  transitivity (stripStringLiterals (render example_strings)); [by vm_compute|].
  rewrite (stripStringLiterals_correct example_strings); by vm_compute.
Defined.

Definition example_comments : list chunk :=
  (Char <$> $"SELECT ")
  ++ [BlockComment (CChar " " (CChar "a" (CChar " " (CNest (CChar " " (CChar "b" (CChar " " CEnd)))
       (CChar " " CEnd))))); Char "1"].

Lemma stripComments_correct_witness :
  stripComments $"SELECT /* a /* b */ */1" = $"SELECT 1".
Proof.
  transitivity (stripComments (render example_comments)); [by vm_compute|].
  rewrite (stripComments_correct example_comments); by vm_compute.
Defined.

(** ** Single statements *)

Lemma emit_length cur l : length (emit cur l) <= S (length l).
Proof. unfold emit. case_match; simpl; lia. Qed.

Lemma split_no_semicolon k a b cur s : ";"%byte ∉ s -> length (split_loop k a b cur s) <= 1.
Proof.
  revert k a b cur. induction s as [|c s IH]; intros k a b cur H; [apply (emit_length cur [])|].
  assert (";"%byte ∉ s) as Hs by set_solver. assert (c <> ";"%byte) as Hc by set_solver.
  destruct k as [|k]; cbn [split_loop]; [|by apply IH]. rewrite (byte_eqb_ne c ";") by done.
  cbn [andb]. repeat case_match; by apply IH.
Qed.

(** A byte of white space is none of the bytes the splitter looks for. *)
Lemma space_byte_inert c :
  c ∈ space_bytes -> existsb (Byte.eqb c) (";"%byte :: quote_bytes ++ comment_bytes) = false.
Proof.
  intros Hc.
  assert (forallb (fun c => negb (existsb (Byte.eqb c) (";"%byte :: quote_bytes ++ comment_bytes))) space_bytes = true)
    as Hall by by vm_compute.
  rewrite forallb_forall in Hall. by apply list_elem_of_In, Hall, negb_true_iff in Hc.
Qed.

Lemma split_white s cur :
  Forall (fun b => b ∈ space_bytes) s -> split_loop 0 false false cur s = emit (cur ++ s) [].
Proof.
  revert cur. induction s as [|c s IH]; intros cur H; [by rewrite app_nil_r|].
  apply list.Forall_cons in H as [Hc%space_byte_inert Hs]. cbn in Hc.
  rewrite !orb_false_iff in Hc. destruct Hc as (H0 & H1 & H2 & H3 & H4 & H5 & _).
  cbn [split_loop]. rewrite !at2_head by done. rewrite H0, H1, H2, H3. cbn [andb].
  rewrite IH by done. by rewrite <- app_assoc.
Qed.

Lemma split_trailing k a b cur p w :
  ";"%byte ∉ p -> TrimSpace w = [] -> length (split_loop k a b cur (p ++ ";"%byte :: w)) <= 1.
Proof.
  intros Hp Hw. pose proof (TrimSpace_nil w Hw) as Hsp.
  assert (";"%byte ∉ w) as Hns.
  { intros Hin. rewrite Forall_forall in Hsp. apply list_elem_of_In, Hsp, space_byte_inert in Hin.
    by vm_compute in Hin. }
  revert k a b cur. induction p as [|c p IH]; intros k a b cur.
  - destruct k as [|k]; [|by apply (split_no_semicolon k)]. cbn [app split_loop]. rewrite !at2_head by done.
    change (";" =b ";") with true. cbn -[split_loop emit].
    destruct a, b; cbn -[split_loop emit]; try by apply split_no_semicolon.
    rewrite split_white by done. cbn [app]. unfold emit at 2. rewrite Hw. apply (emit_length cur []).
  - assert (c <> ";"%byte) as Hc by set_solver. assert (";"%byte ∉ p) as Hp' by set_solver.
    specialize (IH Hp'). destruct k as [|k]; cbn [app split_loop]; [|by apply IH].
    rewrite (byte_eqb_ne c ";") by done. cbn [andb]. repeat case_match; by apply IH.
Qed.

(** the cheap test for a single statement is sound: when it succeeds the full
    splitter finds at most one statement, so that looking at the first keyword only
    sees every statement of the query. *)
Theorem isSingleStatement_sound query :
  isSingleStatement query = true -> length (splitStatements query) <= 1.
Proof.
  unfold isSingleStatement, splitStatements.
  destruct (IndexByte query ";") as [idx|] eqn:E.
  2:{ intros _. apply split_no_semicolon. by apply IndexByte_None. }
  intros Hr%bool_decide_eq_true. apply IndexByte_Some in E as [Hq Hp]. rewrite Hq. by apply split_trailing.
Qed.

Lemma isSingleStatement_sound_witness : length (splitStatements $"SELECT 1 ; ") <= 1.
Proof. apply (isSingleStatement_sound $"SELECT 1 ; "). by vm_compute. Defined.

(** ** Substrings

    Deleting the contents of strings creates no new text: what the result
    contains, delimiters aside, the query contains. *)

Definition infix (p s : bytes) : Prop := exists a r, s = a ++ p ++ r.

Lemma infix_cons p c s : infix p s -> infix p (c :: s).
Proof. intros (a & r & ->). by exists (c :: a), r. Qed.

Lemma infix_drop p k s : infix p (drop k s) -> infix p s.
Proof.
  intros (a & r & E). exists (take k s ++ a), r. rewrite <- app_assoc, <- E. symmetry. apply take_drop.
Qed.

Lemma infix_cons_inv p c s :
  p <> [] -> infix p (c :: s) -> (exists p' r, p = c :: p' /\ s = p' ++ r) \/ infix p s.
Proof.
  intros Hp (a & r & E). destruct a as [|x a].
  - destruct p as [|y p]; [done|]. simpl in E. injection E as <- ->. left. by exists p, r.
  - injection E as <- ->. right. by exists a, r.
Qed.

Lemma infix_app_free p t s c :
  p <> [] -> c ∉ p -> infix p (t ++ c :: s) -> infix p t \/ infix p s.
Proof.
  intros Hp Hc. induction t as [|x t IH]; intros H.
  - apply infix_cons_inv in H as [(p' & r & -> & _)|H]; [set_solver|by right|done].
  - cbn [app] in H. apply infix_cons_inv in H as [(p' & r & -> & E)|H]; [|..|done].
    + left. exists []. assert (c ∉ p') as Hc' by set_solver. clear IH Hp Hc.
      assert (exists u, t = p' ++ u) as (u & ->); [|by exists u].
      revert t E. induction p' as [|y p' IHp]; intros t E; [by exists t|].
      destruct t as [|z t]; simpl in E; injection E as ->; [set_solver|].
      destruct (IHp ltac:(set_solver) t ltac:(done)) as (u & ->). by exists u.
    + apply IH in H as [H|H]; [left; by apply infix_cons|by right].
Qed.

Lemma parseDollarTag_form s tag :
  parseDollarTag s = Some tag -> (exists t, tag = "$"%byte :: t ++ $"$") /\ exists r, s = tag ++ r.
Proof.
  destruct s as [|c s']; [done|]. unfold parseDollarTag.
  destruct (byte_eqb_spec c "$"%byte) as [->|]; [|done]. cbn [negb].
  destruct s' as [|d s'']; [done|].
  destruct (byte_eqb_spec d "$"%byte) as [->|].
  { intros [= <-]. split; [by exists []|by exists s'']. }
  destruct (isTagStart d); [|done]. cbn [negb].
  destruct (drop (S (tag_len s'')) (d :: s'')) as [|e u] eqn:E; [done|].
  destruct (byte_eqb_spec e "$"%byte) as [->|]; [|done]. intros Htag. apply (inj Some) in Htag as <-.
  assert (d :: s'' = take (S (tag_len s'')) (d :: s'') ++ "$"%byte :: u) as Hs
    by (rewrite <- E; symmetry; apply take_drop).
  assert (length (take (S (tag_len s'')) (d :: s'')) = S (tag_len s'')) as Hl.
  { rewrite length_take. apply (f_equal length) in E. rewrite length_drop in E. simpl in *. lia. }
  set (t := take (S (tag_len s'')) (d :: s'')) in *.
  assert (take (S (S (S (tag_len s'')))) ("$"%byte :: d :: s'') = "$"%byte :: t ++ $"$") as ->.
  { rewrite Hs. cbn [take]. f_equal. change (t ++ "$"%byte :: u) with (t ++ $"$" ++ u).
    rewrite app_assoc. apply take_app_length'. rewrite length_app, Hl. simpl. lia. }
  split; [by exists t|]. exists u. rewrite Hs. cbn [app]. by rewrite <- app_assoc.
Qed.

Definition quote_free (p : bytes) : Prop := Forall (fun c => (c ∉ quote_bytes)) p.

Lemma quote_free_cons c p : quote_free (c :: p) -> c <> "'"%byte /\ c <> x22 /\ c <> "$"%byte /\ quote_free p.
Proof.
  intros [Hc Hp]%list.Forall_cons. unfold quote_bytes in Hc. split_and!; [set_solver..|done].
Qed.

Lemma strip_prefix p s r :
  quote_free p -> strip false false s = p ++ r -> exists r', s = p ++ r'.
Proof.
  revert s. induction p as [|c p IH]; intros s Hf E; [by exists s|].
  apply quote_free_cons in Hf as (H1 & H2 & H3 & Hf).
  destruct s as [|ch s']; [done|]. cbn [stripStringLiterals_loop negb orb] in E. rewrite !andb_true_r in E.
  destruct (if (ch =b "$") then parseDollarTag (ch :: s') else None) as [tag|] eqn:Et.
  - destruct (ch =b "$"); [|done]. apply parseDollarTag_form in Et as [(t & ->) _]. by injection E as <- _.
  - destruct (byte_eqb_spec ch "'"%byte) as [->|]; [by injection E as <- _|].
    destruct (byte_eqb_spec ch x22) as [->|]; [by injection E as <- _|].
    injection E as -> E. apply IH in E as (r' & ->); [|done]. by exists r'.
Qed.

Lemma strip_infix p k a b s :
  p <> [] -> quote_free p -> infix p (stripStringLiterals_loop k a b s) -> infix p s.
Proof.
  intros Hp Hf. assert (forall c, c ∈ quote_bytes -> (c ∉ p)) as Hd.
  { intros c Hc Hin. unfold quote_free in Hf. rewrite Forall_forall in Hf.
    apply list_elem_of_In, Hf in Hin. done. }
  assert (forall c s, c ∈ quote_bytes -> infix p (c :: s) -> infix p s) as Hq.
  { intros c u Hc [(p' & r & -> & _)|H]%infix_cons_inv; [|done|done]. apply Hd in Hc. set_solver. }
  assert ("'"%byte ∈ quote_bytes /\ x22 ∈ quote_bytes /\ "$"%byte ∈ quote_bytes) as (Q1 & Q2 & Q3)
    by (unfold quote_bytes; set_solver).
  revert k a b. induction s as [|ch s' IH]; intros k a b; [done|].
  destruct k as [|k]; cbn [stripStringLiterals_loop]; [|intros H; eapply infix_cons, IH, H].
  destruct (if (ch =b "$") && negb a && negb b then _ else _) as [tag|] eqn:Et.
  - destruct ((ch =b "$") && negb a && negb b); [|done].
    apply parseDollarTag_form in Et as [(t & Ht) (r & Hr)]. rewrite Ht. cbn [app]. rewrite <- !app_assoc.
    cbn [app B String.list_byte_of_string]. intros H%Hq; [|done].
    assert (infix p t -> infix p (ch :: s')) as Hin.
    { intros (u & v & ->). rewrite Hr, Ht. exists ("$"%byte :: u), (v ++ $"$" ++ r).
      cbn [app]. by rewrite <- !app_assoc. }
    apply infix_app_free in H as [H|H]; [by auto| |done|by auto].
    apply Hq in H; [|done]. apply infix_app_free in H as [H|H]; [by auto| |done|by auto].
    eapply infix_cons, IH, H.
  - clear Et. assert (forall k a b, infix p (stripStringLiterals_loop k a b s') -> infix p (ch :: s')) as Hgo
      by (intros k a' b' H; eapply infix_cons, IH, H).
    destruct (byte_eqb_spec ch "'"%byte) as [->|].
    { cbn [andb]. repeat case_match; intros Hi; repeat (apply Hq in Hi; [|done]); by eapply Hgo. }
    destruct (byte_eqb_spec ch x22) as [->|].
    { cbn [andb]. repeat case_match; intros Hi; repeat (apply Hq in Hi; [|done]); by eapply Hgo. }
    cbn [andb]. destruct (a || b) eqn:Eab; [apply Hgo|]. apply orb_false_iff in Eab as [-> ->].
    intros [(p' & r & -> & E)|H]%infix_cons_inv; [|by eapply Hgo|done].
    apply quote_free_cons in Hf as (_ & _ & _ & Hf). apply strip_prefix in E as (r' & ->); [|done].
    by exists [], r'.
Qed.

Lemma stripStringLiterals_infix p s :
  p <> [] -> quote_free p -> infix p (stripStringLiterals s) -> infix p s.
Proof. apply strip_infix. Qed.

(** Text without comments is unchanged by [stripComments]. *)
Lemma stripComments_none s : ~ infix $"/*" s -> ~ infix $"--" s -> stripComments s = s.
Proof.
  unfold stripComments. induction s as [|c s IH]; intros H1 H2; [done|]. cbn [stripComments_loop].
  rewrite IH by (intros H; by eapply infix_cons in H).
  assert (forall a b, at2 a b (c :: s) = true -> infix [a; b] (c :: s)) as Hat.
  { intros a b. destruct s as [|d s]; [done|]. cbn [at2]. intros [Ha Hb]%andb_prop.
    apply Byte.byte_dec_bl in Ha, Hb. subst. by exists [], s. }
  destruct (at2 "/" "*" (c :: s)) eqn:E1; [destruct (H1 (Hat _ _ E1))|].
  destruct (at2 "-" "-" (c :: s)) eqn:E2; [destruct (H2 (Hat _ _ E2))|done].
Qed.

(** ** One statement, exactly *)

Lemma elem_of_drop_2 n (c : byte) s : c ∈ drop n s -> c ∈ s.
Proof. intros H. rewrite <- (take_drop n s). set_solver. Qed.

Lemma block_rest_length d s : length (block_rest d s) <= length s.
Proof.
  remember (length s) as n eqn:En. assert (length s <= n) as Hn by lia. clear En.
  revert d s Hn. induction n as [|n IH]; intros d s Hn.
  { destruct s; [|simpl in Hn; lia]. by destruct d. }
  destruct d as [|d]; [by rewrite block_rest_0|].
  destruct s as [|a [|b u]]; [simpl; lia..|]. cbn [block_rest length] in *.
  assert (forall d, length (block_rest d u) <= S n) as Hu
    by (intros d'; etransitivity; [apply IH|]; lia).
  destruct ((a =b "/") && (b =b "*")); [apply Hu|].
  destruct ((a =b "*") && (b =b "/")); [apply Hu|].
  etransitivity; [apply (IH (S d) (b :: u)); simpl; lia|lia].
Qed.

Lemma block_len_pos s : s <> [] -> 1 <= block_len s.
Proof.
  intros H. unfold block_len. pose proof (block_rest_length 1 (drop 2 s)). rewrite length_drop in *.
  destruct s; [done|]. simpl length in *. lia.
Qed.

Lemma dollar_len_pos s tag : parseDollarTag s = Some tag -> 1 <= dollar_len tag s.
Proof.
  intros [(t & ->) (r & ->)]%parseDollarTag_form. unfold dollar_len.
  case_match; rewrite ?length_app; simpl; lia.
Qed.

Lemma split_jump n a b cur c s :
  1 <= n -> split_loop (n - 1) a b cur s = split_loop 0 a b cur (drop n (c :: s)).
Proof. intros H. destruct n as [|n]; [lia|]. rewrite split_loop_skip. simpl. by rewrite Nat.sub_0_r. Qed.

(** The step of the splitter at a byte that is not a semicolon: it moves some
    bytes, at least one, to the current statement. *)
Lemma split_step a b cur c s :
  c <> ";"%byte ->
  exists n a' b', 1 <= n /\
    split_loop 0 a b cur (c :: s) = split_loop 0 a' b' (cur ++ take n (c :: s)) (drop n (c :: s)).
Proof.
  intros Hc. cbn [split_loop]. rewrite (byte_eqb_ne c ";") by done. cbn [andb].
  destruct (if _ && _ then parseDollarTag _ else None) as [tag|] eqn:Et.
  { destruct (_ && _) in Et; [|done]. apply dollar_len_pos in Et.
    exists (dollar_len tag (c :: s)), a, b. split; [done|]. by apply split_jump. }
  destruct (at2 "-" "-" (c :: s) && _).
  { exists (S (line_len (c :: s))), a, b. split; [lia|]. apply split_jump. lia. }
  destruct (at2 "/" "*" (c :: s) && _).
  { exists (block_len (c :: s)), a, b. pose proof (block_len_pos (c :: s) ltac:(done)). split; [done|].
    by apply split_jump. }
  destruct (byte_eqb_spec c "'"%byte) as [->|].
  - destruct b; cbn [negb andb]; [by exists 1, a, true; cbn [take drop]; rewrite drop_0; destruct a|].
    destruct a; [|by exists 1, true, false; cbn [take drop]; rewrite drop_0].
    destruct (HasPrefix s $"'") eqn:Es; [|by exists 1, false, false; cbn [take drop]; rewrite drop_0].
    apply HasPrefix_spec in Es as (r & ->).
    exists 2, true, false. split; [lia|]. by rewrite split_loop_skip.
  - exists 1. cbn [andb]. destruct ((c =b x22) && negb a); eexists a, _; (split; [lia|]); cbn [take drop]; by rewrite drop_0.
Qed.

Lemma split_no_semicolon_eq a b cur s :
  ";"%byte ∉ s -> split_loop 0 a b cur s = emit (cur ++ s) [].
Proof.
  remember (length s) as n eqn:En. assert (length s <= n) as Hn by lia. clear En.
  revert a b cur s Hn. induction n as [|n IH]; intros a b cur s Hn Hs.
  { destruct s; [|simpl in Hn; lia]. by rewrite app_nil_r. }
  destruct s as [|c s]; [by rewrite app_nil_r|].
  destruct (split_step a b cur c s) as (m & a' & b' & Hm & ->); [set_solver|].
  rewrite IH, <- app_assoc, take_drop; [done|rewrite length_drop; simpl in *; lia|].
  intros Hin. by apply Hs, (elem_of_drop_2 m).
Qed.

Lemma split_trailing_eq a b cur p w :
  ";"%byte ∉ p -> TrimSpace w = [] ->
  split_loop 0 a b cur (p ++ ";"%byte :: w) = emit (cur ++ p) [] \/
  split_loop 0 a b cur (p ++ ";"%byte :: w) = emit (cur ++ p ++ ";"%byte :: w) [].
Proof.
  intros Hp Hw. pose proof (TrimSpace_nil w Hw) as Hsp.
  assert (";"%byte ∉ w) as Hns.
  { intros Hin. rewrite Forall_forall in Hsp. apply list_elem_of_In, Hsp, space_byte_inert in Hin.
    by vm_compute in Hin. }
  remember (length p) as n eqn:En. assert (length p <= n) as Hn by lia. clear En.
  revert a b cur p Hn Hp. induction n as [|n IH]; intros a b cur p Hn Hp; destruct p as [|c p];
    try (simpl in Hn; lia).
  1,2: cbn [app split_loop]; rewrite !at2_head by done;
    change (";" =b ";") with true; destruct a, b; cbn -[split_loop emit];
    rewrite ?split_no_semicolon_eq, <- ?app_assoc by done; auto;
    left; cbn [app]; unfold emit at 2; rewrite Hw, app_nil_r; done.
  destruct (split_step a b cur c (p ++ ";"%byte :: w)) as (m & a' & b' & Hm & E); [set_solver|].
  cbn [app]. rewrite E. change (c :: p ++ ?x) with ((c :: p) ++ x).
  destruct (decide (m <= length (c :: p))).
  - rewrite take_app_le, drop_app_le by done.
    destruct (IH a' b' (cur ++ take m (c :: p)) (drop m (c :: p))) as [->| ->].
    + rewrite length_drop. simpl in *. lia.
    + intros Hin. by apply Hp, (elem_of_drop_2 m).
    + left. by rewrite <- app_assoc, take_drop.
    + right. by rewrite <- !app_assoc, (app_assoc (take m _)), take_drop.
  - right. rewrite split_no_semicolon_eq, <- app_assoc, take_drop; [done|].
    rewrite drop_app_ge by lia. destruct (m - length (c :: p)) as [|k] eqn:Ek; [lia|]. cbn [drop].
    intros Hin. by apply Hns, (elem_of_drop_2 k).
Qed.

(** A query that passes [isSingleStatement] is one statement, with or without
    the trailing semicolon. *)
Lemma isSingleStatement_split query :
  isSingleStatement query = true ->
  exists body w, query = body ++ w /\ splitStatements query = emit body [] /\
    (w = [] \/ exists w', w = ";"%byte :: w' /\ TrimSpace w' = []).
Proof.
  unfold isSingleStatement, splitStatements.
  destruct (IndexByte query ";") as [idx|] eqn:E; intros H.
  - apply bool_decide_eq_true in H. apply IndexByte_Some in E as [Hq Hp].
    destruct (split_trailing_eq false false [] _ _ Hp H) as [Hs|Hs]; rewrite <- Hq in Hs; rewrite Hs.
    + exists (take idx query), (";"%byte :: drop (S idx) query). cbn [app]. eauto 6.
    + exists query, []. rewrite app_nil_r. cbn [app]. auto.
  - exists query, []. rewrite app_nil_r, split_no_semicolon_eq by by apply IndexByte_None. auto.
Qed.
