(* ===== verification/Classify.v ===== *)
(** * Read/write classification (internal/router/parser.go)

    Which statements are writes: routing hints in comments, write keywords,
    write CTEs, locking clauses and functions with side effects, EXPLAIN ANALYZE,
    with the fast path of [Classify]. *)

From S2P Require Import Prelude GoStrings SqlLex.

Inductive QueryType := QueryRead | QueryWrite.

#[export] Instance QueryType_eq_dec : EqDecision QueryType.
Proof. solve_decision. Defined.

Definition writeKeywords : list bytes :=
  [$"INSERT"; $"UPDATE"; $"DELETE"; $"CREATE"; $"ALTER"; $"DROP"; $"TRUNCATE";
   $"GRANT"; $"REVOKE"; $"MERGE"; $"COPY"; $"CALL"; $"COMMENT"].

Definition is_write_kw (w : bytes) : bool := bool_decide (w ∈ writeKeywords).

(** ** Routing hints *)

(** [\s] of the regular expressions. *)
Definition re_space (b : byte) : bool :=
  (b =b x09) || (b =b x0a) || (b =b x0c) || (b =b x0d) || (b =b " ").

Fixpoint skip_re_space (s : bytes) : bytes :=
  match s with
  | c :: s' => if re_space c then skip_re_space s' else s
  | [] => []
  end.

Inductive hint := HintWriter | HintReader.

(** [hintRegex] matched at the start of [s]. *)
Definition hint_at (s : bytes) : option hint :=
  if HasPrefix s $"/*" then
    let s1 := skip_re_space (drop 2 s) in
    if HasPrefix s1 $"route:" then
      let s2 := drop 6 s1 in
      let ends r := HasPrefix (skip_re_space r) $"*/" in
      if HasPrefix s2 $"writer" then if ends (drop 6 s2) then Some HintWriter else None
      else if HasPrefix s2 $"reader" then if ends (drop 6 s2) then Some HintReader else None
      else None
    else None
  else None.

(** [hintRegex.FindStringSubmatch]: the leftmost match. *)
Fixpoint find_hint (s : bytes) : option hint :=
  match hint_at s with
  | Some h => Some h
  | None => match s with [] => None | _ :: s' => find_hint s' end
  end.

(** The hint of a comment, looked for unless the comment is nested. *)
Definition comment_hint (comment : bytes) : option hint :=
  if negb (Contains comment $"/* ") || (Count comment $"/*" =? 1)%nat
  then find_hint comment else None.

Fixpoint extractHint_loop (skip : nat) (s : bytes) : option hint :=
  match s with
  | [] => None
  | _ :: s' =>
      match skip with
      | S k => extractHint_loop k s'
      | O =>
          if at2 "/" "*" s then
            let n := block_len s in
            match comment_hint (take n s) with
            | Some h => Some h
            | None => extractHint_loop (n - 1) s'
            end
          else extractHint_loop 0 s'
      end
  end.

Definition extractHint (query : bytes) : option hint :=
  extractHint_loop 0 (stripStringLiterals query).

(** ** Keywords *)

(** Occurrences of a keyword in [s], with the byte before each ([prev], [None]
    at the start): does one of them have boundaries on both sides? *)
Fixpoint bounded_occurrence (before after : byte -> bool) (kw : bytes) (prev : option byte) (s : bytes) : bool :=
  (HasPrefix s kw
   && match prev with None => true | Some c => before c end
   && match drop (length kw) s with [] => true | c :: _ => after c end)
  || match s with
     | [] => false
     | c :: s' => bounded_occurrence before after kw (Some c) s'
     end.

Definition kw_before (c : byte) : bool := (c =b " ") || (c =b "(") || (c =b x0a).
Definition kw_after (c : byte) : bool := (c =b " ") || (c =b x0a) || (c =b "(").

Definition sideEffectFuncs : list bytes :=
  [$"NEXTVAL("; $"SETVAL("; $"CURRVAL("; $"SET_CONFIG("; $"PG_ADVISORY_LOCK(";
   $"PG_ADVISORY_XACT_LOCK("; $"PG_ADVISORY_UNLOCK("; $"PG_ADVISORY_UNLOCK_ALL(";
   $"PG_TRY_ADVISORY_LOCK("; $"PG_TRY_ADVISORY_XACT_LOCK("; $"LO_CREATE("; $"LO_UNLINK(";
   $"PG_NOTIFY("; $"TXID_CURRENT("].

Definition hasSideEffectFunc (upperQuery : bytes) : bool := existsb (Contains upperQuery) sideEffectFuncs.

Definition lockingClauses : list bytes :=
  [$"FOR UPDATE"; $"FOR NO KEY UPDATE"; $"FOR SHARE"; $"FOR KEY SHARE"].

Definition clause_before (c : byte) : bool := (c =b " ") || (c =b x0a) || (c =b x09) || (c =b ")").
Definition clause_after (c : byte) : bool := (c =b " ") || (c =b x0a) || (c =b x09) || (c =b ";").

(** The first occurrence of [clause], the only one the source looks at. *)
Definition has_clause (upper clause : bytes) : bool :=
  match Index upper clause with
  | None => false
  | Some idx =>
      match idx with
      | O => true
      | S j => match upper !! j with Some c => clause_before c | None => false end
      end
      && match drop (idx + length clause) upper with [] => true | c :: _ => clause_after c end
  end.

Section Classify.
Context `{UnicodeCase}.

Definition firstKeyword (query : bytes) : bytes :=
  match Fields (TrimSpace (stripComments query)) with
  | [] => []
  | w :: _ => ToUpper w
  end.

(** The text the checks below look at: no string contents, no comments, upper case. *)
Definition cleaned (query : bytes) : bytes := ToUpper (stripComments (stripStringLiterals query)).

Definition containsWriteKeyword (query : bytes) : bool :=
  existsb (fun kw => bounded_occurrence kw_before kw_after kw None (cleaned query)) writeKeywords.

Definition isSideEffectfulSelect (query : bytes) : bool :=
  existsb (has_clause (cleaned query)) lockingClauses || hasSideEffectFunc (cleaned query).

Definition isExplainAnalyzeWrite (stmt : bytes) : bool :=
  Contains (cleaned stmt) $"ANALYZE"
  && existsb (fun kw => negb (bool_decide (kw ∈ [$"COPY"; $"COMMENT"])) && Contains (cleaned stmt) kw)
       writeKeywords.

Definition ContainsCopyStatement (query : bytes) : bool :=
  existsb (fun stmt => bool_decide (firstKeyword stmt = $"COPY")) (splitStatements query).

(** ** Classification *)

(** One round of the loop of [Classify]. *)
Definition stmt_writes (stmt : bytes) : bool :=
  let keyword := firstKeyword stmt in
  is_write_kw keyword
  || (bool_decide (keyword = $"WITH") && containsWriteKeyword stmt)
  || (bool_decide (keyword = $"SELECT") && isSideEffectfulSelect stmt)
  || (bool_decide (keyword = $"EXPLAIN") && isExplainAnalyzeWrite stmt).

(** [Classify] without its fast path. *)
Definition classifyFull (query : bytes) : QueryType :=
  match extractHint query with
  | Some HintWriter => QueryWrite
  | Some HintReader => QueryRead
  | None => if existsb stmt_writes (splitStatements query) then QueryWrite else QueryRead
  end.

Fixpoint skip_space (s : bytes) : bytes :=
  match s with
  | c :: s' => if isSpace c then skip_space s' else s
  | [] => []
  end.

(** The first word of the fast path ends at a space, tab, newline or parenthesis. *)
Fixpoint fast_word (s : bytes) : bytes :=
  match s with
  | [] => []
  | c :: s' =>
      if (c =b " ") || (c =b x09) || (c =b x0a) || (c =b "(") then [] else c :: fast_word s'
  end.

(** [None]: the full parser is needed. *)
Definition classifyFast (query : bytes) : option QueryType :=
  match skip_space query with
  | [] => Some QueryRead
  | q =>
      if Contains query $"/*" || Contains query $"--" then None
      else if match IndexByte query ";" with
              | Some idx => negb (bool_decide (TrimSpace (drop (S idx) query) = []))
              | None => false
              end then None
      else
        match fast_word q with
        | [] => Some QueryRead
        | w =>
            let kw := ToUpper w in
            if is_write_kw kw then Some QueryWrite
            else if bool_decide (kw = $"WITH") || bool_decide (kw = $"EXPLAIN") then None
            else if bool_decide (kw = $"SELECT") then
              let upper := ToUpper query in
              if Contains upper $"FOR UPDATE" || Contains upper $"FOR SHARE"
                 || Contains upper $"FOR NO KEY UPDATE" || Contains upper $"FOR KEY SHARE"
                 || hasSideEffectFunc upper
              then None else Some QueryRead
            else Some QueryRead
        end
  end.

Definition Classify (query : bytes) : QueryType :=
  match classifyFast query with
  | Some qt => qt
  | None => classifyFull query
  end.
End Classify.

(** ** The first word *)

(** ASCII text whose only white space is space, tab and newline. *)
Definition simple_byte (b : byte) : bool := is_ascii b && negb (existsb (Byte.eqb b) [x0b; x0c; x0d]).
Definition simple_text (s : bytes) : bool := forallb simple_byte s.

Fixpoint word (s : bytes) : bytes :=
  match s with
  | [] => []
  | c :: s' => if isSpace c then [] else c :: word s'
  end.

Definition first_word (query : bytes) : bytes := word (skip_space query).

Lemma simple_text_app s t : simple_text (s ++ t) = simple_text s && simple_text t.
Proof. apply forallb_app. Qed.

Lemma space_len_simple c s :
  simple_byte c = true -> space_len space_encodings (c :: s) = if isSpace c then 1 else 0.
Proof. intros H. destruct c; first [discriminate H | reflexivity]. Qed.

Lemma space_byte_simple c : simple_byte c = true -> c ∈ space_bytes -> isSpace c = true.
Proof.
  intros Hs Hc.
  assert (forallb (fun c => implb (simple_byte c) (isSpace c)) space_bytes = true) as Hall by by vm_compute.
  rewrite forallb_forall in Hall. apply list_elem_of_In, Hall in Hc. by rewrite Hs in Hc.
Qed.

Lemma Fields_aux_word cur s :
  simple_text s = true -> cur <> [] ->
  exists l, Fields_aux 0 cur s = (reverse cur ++ word s) :: l.
Proof.
  revert cur. induction s as [|c s IH]; intros cur Hs Hc; cbn [Fields_aux word].
  { rewrite app_nil_r. destruct cur; [done|]. by eexists. }
  apply andb_prop in Hs as [H1 H2]. rewrite space_len_simple by done. destruct (isSpace c).
  - destruct cur; [done|]. rewrite app_nil_r. by eexists.
  - destruct (IH (c :: cur) H2 ltac:(done)) as (l & ->). exists l. by rewrite reverse_cons, <- app_assoc.
Qed.

Lemma Fields_first s :
  simple_text s = true -> match Fields s with [] => [] | w :: _ => w end = first_word s.
Proof.
  unfold Fields, first_word. induction s as [|c s IH]; [done|]. intros [H1 H2]%andb_prop.
  cbn [Fields_aux skip_space]. rewrite space_len_simple by done.
  destruct (isSpace c) eqn:E; [by apply IH|].
  destruct (Fields_aux_word [c] s H2 ltac:(done)) as (l & ->). cbn [word]. by rewrite E.
Qed.

Lemma skip_space_app p s : forallb isSpace p = true -> skip_space (p ++ s) = skip_space s.
Proof. induction p as [|c p IH]; [done|]. cbn. intros [-> H]%andb_prop. by apply IH. Qed.

(** Text that starts with white space ends a word. *)
Definition ends_word (r : bytes) : Prop := match r with [] => True | c :: _ => isSpace c = true end.

Lemma word_app t r : ends_word r -> word (t ++ r) = word t.
Proof.
  intros Hr. induction t as [|c t IH]; cbn [app word]; [|by rewrite IH].
  destruct r as [|c r]; [done|]. cbn [word]. simpl in Hr. by rewrite Hr.
Qed.

Lemma skip_space_suffix s : exists p, s = p ++ skip_space s.
Proof.
  induction s as [|c s [p IH]]; [by exists []|]. cbn [skip_space].
  destruct (isSpace c); [exists (c :: p); simpl; congruence|by exists []].
Qed.

Lemma skip_space_word t r :
  word (skip_space (t ++ r)) = word (skip_space t ++ (if forallb isSpace t then skip_space r else r)).
Proof.
  induction t as [|c t IH]; [done|]. cbn [app skip_space forallb]. by destruct (isSpace c).
Qed.

Lemma first_word_space t r : forallb isSpace r = true -> first_word (t ++ r) = first_word t.
Proof.
  intros Hr. unfold first_word. rewrite skip_space_word. apply word_app.
  pose proof (skip_space_app r [] Hr) as E. rewrite app_nil_r in E.
  destruct (forallb isSpace t); [by rewrite E|].
  destruct r as [|c r]; [done|]. by apply andb_prop in Hr as [? _].
Qed.

Lemma space_bytes_isSpace s :
  simple_text s = true -> Forall (fun b => b ∈ space_bytes) s -> forallb isSpace s = true.
Proof.
  induction s as [|c s IH]; [done|]. intros [H1 H2]%andb_prop [Hc Hs]%list.Forall_cons.
  cbn [forallb]. by rewrite (space_byte_simple c), IH.
Qed.

Lemma first_word_TrimSpace s : simple_text s = true -> first_word (TrimSpace s) = first_word s.
Proof.
  intros H. destruct (TrimSpace_split s) as (p & q & E & Hp & Hq). pose proof H as H'. rewrite E in H'.
  rewrite !simple_text_app, !andb_true_iff in H'. destruct H' as (H1 & H2 & H3).
  rewrite E at 2. unfold first_word at 2. rewrite skip_space_app by by apply space_bytes_isSpace.
  symmetry. apply first_word_space. by apply space_bytes_isSpace.
Qed.

Lemma simple_TrimSpace s : simple_text s = true -> simple_text (TrimSpace s) = true.
Proof.
  intros H. destruct (TrimSpace_split s) as (p & q & E & _). rewrite E in H.
  rewrite !simple_text_app, !andb_true_iff in H. tauto.
Qed.

Lemma fast_word_word s : simple_text s = true -> "("%byte ∉ word s -> fast_word s = word s.
Proof.
  induction s as [|c s IH]; [done|]. intros [H1 H2]%andb_prop. cbn [word fast_word].
  pose proof (forall_bytes (fun c => implb (simple_byte c)
    (Bool.eqb (isSpace c) ((c =b " ") || (c =b x09) || (c =b x0a)))) ltac:(by vm_compute) c) as Hx.
  cbn beta in Hx. rewrite H1 in Hx. apply Bool.eqb_prop in Hx. rewrite <- Hx.
  destruct (isSpace c); [done|]. intros Hn. cbn [orb].
  rewrite byte_eqb_ne by set_solver. by rewrite IH by set_solver.
Qed.

(** ** Comments and strings of simple text *)

Lemma Contains_infix s p : Contains s p = true <-> infix p s.
Proof. apply Contains_spec. Qed.

Lemma infix_trans p s t : infix p s -> infix s t -> infix p t.
Proof. intros (a & b & ->) (c & d & ->). exists (c ++ a), (b ++ d). by rewrite <- !app_assoc. Qed.

Lemma infix_elem p s c : infix p s -> c ∈ p -> c ∈ s.
Proof. intros (a & b & ->). set_solver. Qed.

Definition no_comment (s : bytes) : Prop := ~ infix $"/*" s /\ ~ infix $"--" s.

Lemma no_comment_infix s t : infix s t -> no_comment t -> no_comment s.
Proof. intros Hi [H1 H2]. split; intros H; [apply H1|apply H2]; by eapply infix_trans. Qed.

Lemma no_comment_strip s : no_comment s -> no_comment (stripStringLiterals s).
Proof.
  intros [H1 H2]. split; intros H; [apply H1|apply H2]; (apply stripStringLiterals_infix; [done| |done]);
    apply (bool_decide_unpack _); by vm_compute.
Qed.

Lemma extractHint_none s : no_comment s -> extractHint s = None.
Proof.
  intros [H _]%no_comment_strip. unfold extractHint. revert H.
  generalize (stripStringLiterals s). intros u. induction u as [|c u IH]; [done|]. intros H.
  cbn [extractHint_loop]. destruct (at2 "/" "*" (c :: u)) eqn:E.
  - destruct H. destruct u as [|d u]; [done|]. apply andb_prop in E as [Ha Hb].
    apply Byte.byte_dec_bl in Ha, Hb. subst. by exists [], u.
  - apply IH. intros Hi. by apply H, infix_cons.
Qed.

Lemma infix_fmap u s : infix u (upper1 <$> s) -> exists p, infix p s /\ upper1 <$> p = u.
Proof.
  intros (a & b & E). apply fmap_app_inv in E as (a' & r & -> & E & ->).
  symmetry in E. apply fmap_app_inv in E as (p & b' & -> & -> & ->). exists p. split; [by exists a', b'|done].
Qed.

Lemma strip_ascii s : forallb is_ascii s = true -> forallb is_ascii (stripStringLiterals s) = true.
Proof.
  rewrite !forallb_forall. intros H c Hc. destruct (decide (c ∈ quote_bytes)) as [Hq|Hq].
  - unfold quote_bytes in Hq. apply list_elem_of_In in Hq. simpl in Hq.
    destruct Hq as [<-|[<-|[<-|[]]]]; by vm_compute.
  - apply H. apply list_elem_of_In in Hc. apply list_elem_of_In.
    apply (infix_elem [c]); [|set_solver]. apply stripStringLiterals_infix; [done| |].
    + by apply Forall_singleton.
    + apply list_elem_of_split in Hc as (a & b & ->). by exists a, b.
Qed.

Lemma simple_ascii s : simple_text s = true -> forallb is_ascii s = true.
Proof.
  unfold simple_text. rewrite !forallb_forall. intros H c Hc. apply H in Hc.
  by apply andb_prop in Hc as [? _].
Qed.

Section Agreement.
Context `{UnicodeCase}.

Lemma ToUpper_ascii s : forallb is_ascii s = true -> ToUpper s = upper1 <$> s.
Proof. intros Hs. unfold ToUpper. by rewrite Hs. Qed.

(** A pattern found in the cleaned text of a statement is in the upper-case query. *)
Lemma cleaned_Contains stmt query u :
  simple_text query = true -> no_comment query -> infix stmt query ->
  u <> [] -> quote_free u ->
  Contains (cleaned stmt) u = true -> Contains (ToUpper query) u = true.
Proof.
  intros Hs Hc Hi Hu Hf. assert (forallb is_ascii stmt = true) as Ha.
  { apply simple_ascii in Hs. destruct Hi as (a & b & ->). rewrite !forallb_app, !andb_true_iff in Hs. tauto. }
  assert (no_comment (stripStringLiterals stmt)) as [H1 H2]
    by (by eapply no_comment_strip, no_comment_infix).
  unfold cleaned. rewrite stripComments_none by done.
  rewrite !ToUpper_ascii, !Contains_infix by auto using strip_ascii, simple_ascii.
  intros (p & Hp & <-)%infix_fmap.
  assert (infix p stmt) as Hps.
  { apply stripStringLiterals_infix; [by destruct p| |done]. unfold quote_free in *.
    rewrite Forall_fmap in Hf. eapply Forall_impl; [|exact Hf]. intros c Hn Hc'. apply Hn. simpl.
    unfold quote_bytes in *. apply list_elem_of_In in Hc'. simpl in Hc'.
    destruct Hc' as [<-|[<-|[<-|[]]]]; apply (bool_decide_unpack _); by vm_compute. }
  destruct (infix_trans _ _ _ Hps Hi) as (a & b & ->). rewrite !fmap_app. by exists (upper1 <$> a), (upper1 <$> b).
Qed.

Lemma has_clause_Contains upper clause : has_clause upper clause = true -> Contains upper clause = true.
Proof. unfold has_clause, Contains. by destruct (Index upper clause). Qed.
End Agreement.

Lemma word_before_semicolon t w :
  ";"%byte ∉ word (t ++ ";"%byte :: w) -> word (t ++ ";"%byte :: w) = word t.
Proof.
  induction t as [|c t IH]; cbn [app word]; [intros []; set_solver|].
  destruct (isSpace c); [done|]. intros Hn. rewrite IH; [done|set_solver].
Qed.

Lemma first_word_body body w query :
  query = body ++ w -> (w = [] \/ exists w', w = ";"%byte :: w' /\ TrimSpace w' = []) ->
  ";"%byte ∉ first_word query -> first_word body = first_word query.
Proof.
  intros -> [->|(w' & -> & _)]; [by rewrite app_nil_r|]. unfold first_word. rewrite skip_space_word.
  replace (if forallb isSpace body then _ else _) with (";"%byte :: w') by by case_match.
  intros Hn. by rewrite word_before_semicolon.
Qed.

Section Fast.
Context `{UnicodeCase}.
Variable query : bytes.
Hypothesis Hsimple : simple_text query = true.
Hypothesis Hparen : "("%byte ∉ first_word query.
Hypothesis Hsemi : ";"%byte ∉ first_word query.
Hypothesis Hcomment : no_comment query.

Lemma firstKeyword_stmt body w :
  query = body ++ w -> (w = [] \/ exists w', w = ";"%byte :: w' /\ TrimSpace w' = []) ->
  firstKeyword (TrimSpace body) = ToUpper (first_word query) /\ infix (TrimSpace body) query.
Proof.
  intros Hq Hw. assert (infix (TrimSpace body) query) as Hi.
  { destruct (TrimSpace_split body) as (p & r & E & _). rewrite Hq. exists p, (r ++ w).
    rewrite E at 1. by rewrite <- !app_assoc. }
  split; [|done]. pose proof (no_comment_infix _ _ Hi Hcomment) as [H1 H2].
  assert (simple_text body = true) as Hb.
  { rewrite Hq, simple_text_app in Hsimple. by apply andb_prop in Hsimple as [? _]. }
  unfold firstKeyword. rewrite stripComments_none by done.
  pose proof (Fields_first (TrimSpace (TrimSpace body)) ltac:(auto using simple_TrimSpace)) as Hf.
  rewrite !first_word_TrimSpace, (first_word_body body w query Hq Hw Hsemi) in Hf by auto using simple_TrimSpace.
  rewrite <- Hf. by case_match.
Qed.

(** The checks of a statement that starts with SELECT find something only if the
    fast path sent the query to the full parser. *)
Lemma select_checks stmt :
  infix stmt query -> isSideEffectfulSelect stmt = true ->
  (Contains (ToUpper query) $"FOR UPDATE" || Contains (ToUpper query) $"FOR SHARE"
   || Contains (ToUpper query) $"FOR NO KEY UPDATE" || Contains (ToUpper query) $"FOR KEY SHARE"
   || hasSideEffectFunc (ToUpper query)) = true.
Proof.
  intros Hi Hs.
  assert (forall u, forallb (fun c => negb (existsb (Byte.eqb c) quote_bytes)) u && negb (bool_decide (u = [])) = true ->
    Contains (cleaned stmt) u = true -> Contains (ToUpper query) u = true) as Hgo.
  { intros u [Hu Hne]%andb_prop. apply cleaned_Contains; [done..| |].
    - apply negb_true_iff, bool_decide_eq_false in Hne. done.
    - apply Forall_forall. intros c Hc Hin. rewrite forallb_forall in Hu. apply Hu in Hc.
      apply negb_true_iff in Hc. assert (existsb (Byte.eqb c) quote_bytes = true) as Ht; [|congruence].
      apply existsb_exists. exists c. split; [by apply list_elem_of_In|apply byte_eqb_refl]. }
  unfold isSideEffectfulSelect in Hs. apply orb_prop in Hs as [Hs|Hs].
  - apply existsb_exists in Hs as (cl & Hcl & Hc%has_clause_Contains). simpl in Hcl.
    destruct Hcl as [<-|[<-|[<-|[<-|[]]]]]; (apply Hgo in Hc; [|by vm_compute]); by rewrite Hc, ?orb_true_r.
  - unfold hasSideEffectFunc in *. apply existsb_exists in Hs as (f & Hf & Hc).
    assert (forallb (fun u => forallb (fun c => negb (existsb (Byte.eqb c) quote_bytes)) u
      && negb (bool_decide (u = []))) sideEffectFuncs = true) as Hall by by vm_compute.
    rewrite forallb_forall in Hall. apply (Hgo f (Hall f Hf)) in Hc.
    assert (existsb (Contains (ToUpper query)) sideEffectFuncs = true) as ->; [|by rewrite orb_true_r].
    apply existsb_exists. eauto.
Qed.
End Fast.

Lemma stmt_writes_nil `{UnicodeCase} stmt : firstKeyword stmt = [] -> stmt_writes stmt = false.
Proof. intros E. unfold stmt_writes. by rewrite E. Qed.

Lemma spaces_no_comment query : skip_space query = [] -> no_comment query /\ ";"%byte ∉ query.
Proof.
  intros E. assert (forall c, c ∈ query -> isSpace c = true) as Hall.
  { induction query as [|c q IH]; [set_solver|]. cbn [skip_space] in E.
    destruct (isSpace c) eqn:Ec; [|done]. intros d [->|Hd]%elem_of_cons; [done|by apply IH]. }
  split; [split; intros Hi|intros Hi%Hall; done].
  - assert ("/"%byte ∈ query) as Hx%Hall by (eapply infix_elem; [done|]; by apply (bool_decide_unpack _)). done.
  - assert ("-"%byte ∈ query) as Hx%Hall by (eapply infix_elem; [done|]; by apply (bool_decide_unpack _)). done.
Qed.

(** What the fast path has established when it answers. *)
Lemma classifyFast_inv `{UnicodeCase} query qt :
  simple_text query = true -> "("%byte ∉ first_word query -> classifyFast query = Some qt ->
  no_comment query /\ isSingleStatement query = true /\
  match qt with
  | QueryWrite => is_write_kw (ToUpper (first_word query)) = true
  | QueryRead => forall stmt, firstKeyword stmt = ToUpper (first_word query) ->
      infix stmt query -> stmt_writes stmt = false
  end.
Proof.
  intros Hs Hp Hfast. unfold classifyFast in Hfast.
  destruct (skip_space query) as [|c q] eqn:Eq.
  { injection Hfast as <-. apply spaces_no_comment in Eq as Hn. destruct Hn as [Hn Hsemi].
    split; [done|]. split; [unfold isSingleStatement; by apply IndexByte_None in Hsemi as ->|].
    intros stmt E _. apply stmt_writes_nil. rewrite E. unfold first_word. by rewrite Eq. }
  destruct (Contains query $"/*" || Contains query $"--") eqn:Ec; [done|].
  apply orb_false_iff in Ec as [Ec1 Ec2].
  assert (no_comment query) as Hc
    by (split; rewrite <- Contains_infix; congruence).
  split; [done|]. unfold isSingleStatement. clear Ec1 Ec2.
  destruct (match IndexByte query ";" with Some _ => _ | None => _ end) eqn:Es; [done|]. split.
  { destruct (IndexByte query ";"); [by apply negb_false_iff|done]. }
  assert (fast_word (c :: q) = first_word query) as Ew.
  { unfold first_word in *. rewrite Eq in *. apply fast_word_word; [|done].
    destruct (skip_space_suffix query) as [p E]. rewrite E, Eq, simple_text_app in Hs.
    by apply andb_prop in Hs as [_ ?]. }
  rewrite Ew in Hfast. clear Ew.
  destruct (first_word query) as [|c0 w0].
  { injection Hfast as <-. intros stmt E _. by apply stmt_writes_nil. }
  set (kw := ToUpper (c0 :: w0)) in *.
  destruct (is_write_kw kw) eqn:Ek; [by injection Hfast as <-|].
  destruct (bool_decide (kw = $"WITH") || bool_decide (kw = $"EXPLAIN")) eqn:Ewe; [done|].
  apply orb_false_iff in Ewe as [Ew Ee].
  assert (qt = QueryRead /\ (bool_decide (kw = $"SELECT") = true ->
    forall stmt, infix stmt query -> isSideEffectfulSelect stmt = false)) as [-> Hsel].
  { destruct (bool_decide (kw = $"SELECT")); [|by injection Hfast as <-].
    destruct (_ || hasSideEffectFunc _) eqn:Eo; [done|]. injection Hfast as <-. split; [done|].
    intros _ stmt Hi. destruct (isSideEffectfulSelect stmt) eqn:Ei; [|done].
    apply (select_checks query Hs Hc stmt Hi) in Ei. congruence. }
  intros stmt E Hi. unfold stmt_writes. rewrite E, Ek, Ew, Ee. cbn [andb orb]. rewrite orb_false_r.
  destruct (bool_decide (kw = $"SELECT")); [|done]. by apply Hsel.
Qed.

(** C39: the fast path of the classifier decides like the full one. For ASCII
    queries whose white space is spaces, tabs and newlines, and whose first word
    has no parenthesis and no semicolon attached, whenever the fast path answers,
    the full parser (hints, statement splitting, comment and string removal, CTE,
    locking and side-effect checks) gives the same answer. *)
Theorem classifyFast_agrees `{UnicodeCase} query qt :
  simple_text query = true -> "("%byte ∉ first_word query -> ";"%byte ∉ first_word query ->
  classifyFast query = Some qt -> classifyFull query = qt.
Proof.
  intros Hs Hp Hsemi (Hc & H1 & Hq)%classifyFast_inv; [|done..].
  destruct (isSingleStatement_split query H1) as (body & w & Eq & Hsplit & Hw).
  destruct (firstKeyword_stmt query Hs Hsemi Hc body w Eq Hw) as [Hkw Hi].
  unfold classifyFull. rewrite extractHint_none, Hsplit by done. unfold emit.
  destruct (TrimSpace body) as [|c t] eqn:Et.
  - destruct qt; [done|]. exfalso.
    assert (simple_text body = true) as Hb
      by (rewrite Eq, simple_text_app in Hs; by apply andb_prop in Hs as [? _]).
    rewrite <- (first_word_body body w query Eq Hw Hsemi), <- first_word_TrimSpace, Et in Hq by done. done.
  - cbn [existsb]. destruct qt; [by rewrite Hq|]. unfold stmt_writes. by rewrite Hkw, Hq.
Qed.

Lemma classifyFast_agrees_witness :
  classifyFull (H := ascii_case) $"select * from t where note = 'DROP TABLE';" = QueryRead.
Proof.
  apply (classifyFast_agrees (H := ascii_case)); try by vm_compute.
  all: apply (bool_decide_unpack _); by vm_compute.
Defined.

(** ** Writes taken for reads

    Queries outside the hypotheses above that the classifier sends to a reader. *)

(** The fast path does not end the first word at a carriage return. *)
Example carriage_return_missed :
  Classify (H := ascii_case) ($"DELETE" ++ [x0d; x0a] ++ $"FROM t") = QueryRead /\
  classifyFull (H := ascii_case) ($"DELETE" ++ [x0d; x0a] ++ $"FROM t") = QueryWrite.
Proof. by vm_compute. Qed.

(** [firstKeyword] does not end a word at a parenthesis, the fast path does. *)
Example explain_paren_missed :
  Classify (H := ascii_case) $"EXPLAIN(ANALYZE) DELETE FROM t" = QueryRead /\
  Classify (H := ascii_case) $"EXPLAIN (ANALYZE) DELETE FROM t" = QueryWrite.
Proof. by vm_compute. Qed.

(** An apostrophe in a comment opens a string for [stripStringLiterals]. *)
Example comment_apostrophe_missed :
  Classify (H := ascii_case) $"WITH x AS ( /* it's */ DELETE FROM t RETURNING 1) SELECT 1" = QueryRead /\
  Classify (H := ascii_case) $"WITH x AS ( /* it is */ DELETE FROM t RETURNING 1) SELECT 1" = QueryWrite.
Proof. by vm_compute. Qed.

(** A tab is not a word boundary of [containsWriteKeyword]. *)
Example tab_boundary_missed :
  Classify (H := ascii_case) ($"WITH x AS (" ++ [x09] ++ $"DELETE FROM t RETURNING 1) SELECT 1") = QueryRead.
Proof. by vm_compute. Qed.
