(* ===== verification/Tables.v ===== *)
(** * Table names of a query (internal/router/parser.go)

    The tables a read query reads and a write query changes, which decide what
    the cache stores under and what a write invalidates. The source searches the
    upper-case text and slices the original at the indices it finds; a slice out of
    range is a [Panic]. *)

From S2P Require Import Prelude GoStrings SqlLex.

(** [s[n:]]. *)
Definition slice_from (s : bytes) (n : nat) : res unit bytes :=
  if (n <=? length s)%nat then Ok (drop n s) else Panic.

(** ** Identifiers *)

(** Where [extractIdentifier] is: at the start of a part, in a quoted part, or
    after the closing quote of one. *)
Inductive imode := PartStart | InQuoted | AfterQuoted.

(** The bytes an unquoted part ends at. *)
Definition ident_stop (c : byte) : bool :=
  existsb (Byte.eqb c) [" "%byte; x09; x0a; "("%byte; ";"%byte; ","%byte; "."%byte; x22].

Fixpoint ident_loop (m : imode) (unq : bool) (s : bytes) : bytes :=
  match s with
  | [] => []
  | c :: s' =>
      match m with
      | PartStart =>
          (* [unq]: some bytes of an unquoted part were read *)
          if (c =b x22) then (if unq then [] else c :: ident_loop InQuoted false s')
          else if (c =b ".") then c :: ident_loop PartStart false s'
          else if ident_stop c then []
          else c :: ident_loop PartStart true s'
      | InQuoted =>
          if (c =b x22) then
            match s' with
            | d :: s'' =>
                if (d =b x22) then c :: d :: ident_loop InQuoted false s''
                else c :: ident_loop AfterQuoted false s'
            | [] => [c]
            end
          else c :: ident_loop InQuoted false s'
      | AfterQuoted =>
          if (c =b ".") then c :: ident_loop PartStart false s' else []
      end
  end.

Definition extractIdentifier (s : bytes) : bytes := ident_loop PartStart false s.

Definition stripQuotes (s : bytes) : bytes :=
  match s with
  | c :: s' =>
      if (2 <=? length s)%nat && (c =b x22) && bool_decide (s !! (length s - 1) = Some x22)
      then ReplaceAll (take (length s - 2) s') [x22; x22] [x22]
      else s
  | [] => s
  end.

(** [parts[len(parts)-1]] of [strings.Split(name, ".")]. *)
Definition last_part (name : bytes) : bytes := let parts := Split1 name "." in default [] (parts !! (length parts - 1)).

Section Tables.
Context `{UnicodeCase}.

Definition final_name (name : bytes) : bytes := ToLower (stripQuotes (last_part name)).

(** ** Tables of reads *)

Definition from_before (c : byte) : bool := existsb (Byte.eqb c) [" "%byte; x0a; x09; "("%byte; ","%byte].
Definition from_after (c : byte) : bool := existsb (Byte.eqb c) [" "%byte; x0a; x09; "("%byte].

Definition not_a_table : list bytes := [$"SELECT"; $"LATERAL"; $"UNNEST"; $"GENERATE_SERIES"].

(** What an occurrence of the keyword does: nothing, ends the search, or a table. *)
Inductive occurrence := Skip | Stop | Table (t : bytes).

(** The occurrence that ends at [end_] of the upper-case text; [prev] and [next]
    are the bytes around it. *)
Definition read_occurrence (sanitized : bytes) (prev next : option byte) (end_ : nat) : res unit occurrence :=
  if match prev with Some c => negb (from_before c) | None => false end then Ok Skip
  else if match next with Some c => negb (from_after c) | None => false end then Ok Skip
  else
    tail <-? slice_from sanitized end_ ;
    match TrimSpace tail with
    | [] => Ok Stop
    | (c :: _) as rest =>
        if (c =b "(") then Ok Skip
        else
          match extractIdentifier rest with
          | [] => Ok Skip
          | name =>
              let t := final_name name in
              if bool_decide (ToUpper t ∈ not_a_table) then Ok Skip else Ok (Table t)
          end
    end.

(** The loop over the occurrences of [kw] in the upper-case text [u], which
    starts at [pos]. *)
Fixpoint read_loop (sanitized kw : bytes) (skip pos : nat) (prev : option byte) (u : bytes)
  : res unit (list bytes) :=
  match u with
  | [] => Ok []
  | c :: u' =>
      match skip with
      | S k => read_loop sanitized kw k (S pos) (Some c) u'
      | O =>
          if HasPrefix u kw then
            o <-? read_occurrence sanitized prev (u !! length kw) (pos + length kw) ;
            match o with
            | Stop => Ok []
            | Skip => read_loop sanitized kw (length kw - 1) (S pos) (Some c) u'
            | Table t =>
                ts <-? read_loop sanitized kw (length kw - 1) (S pos) (Some c) u' ;
                Ok (t :: ts)
            end
          else read_loop sanitized kw 0 (S pos) (Some c) u'
      end
  end.

Definition extractReadTablesFromStmt (stmt : bytes) : res unit (list bytes) :=
  let q := TrimSpace stmt in
  let upper := ToUpper q in
  if negb (HasPrefix upper $"SELECT") && negb (HasPrefix upper $"WITH") then Ok []
  else
    let sanitized := stripStringLiterals q in
    let upperSanitized := ToUpper sanitized in
    from <-? read_loop sanitized $"FROM" 0 0 None upperSanitized ;
    join <-? read_loop sanitized $"JOIN" 0 0 None upperSanitized ;
    Ok (from ++ join).

(** [if t != "" && !seen[t]]: in order, without duplicates and empty names. *)
Fixpoint dedup (seen : list bytes) (ts : list bytes) : list bytes :=
  match ts with
  | [] => []
  | t :: ts' =>
      if bool_decide (t = []) || bool_decide (t ∈ seen) then dedup seen ts'
      else t :: dedup (t :: seen) ts'
  end.

Fixpoint concat_res (rs : list (res unit (list bytes))) : res unit (list bytes) :=
  match rs with
  | [] => Ok []
  | r :: rs' => ts <-? r ; us <-? concat_res rs' ; Ok (ts ++ us)
  end.

Definition ExtractReadTables (query : bytes) : res unit (list bytes) :=
  ts <-? concat_res (extractReadTablesFromStmt <$> splitStatements query) ;
  Ok (dedup [] ts).

(** ** Tables of writes *)

Definition extractAfter (query keyword : bytes) : res unit bytes :=
  tail <-? slice_from query (length keyword) ;
  let rest := TrimSpace tail in
  rest' <-? (if HasPrefix (ToUpper rest) $"TABLE "
             then t <-? slice_from rest 6 ; Ok (TrimSpace t)
             else Ok rest) ;
  match extractIdentifier rest' with
  | [] => Ok []
  | name => Ok (final_name name)
  end.

(** The loop of [extractCTETables] for one keyword. *)
Fixpoint cte_loop (sanitized kw : bytes) (skip pos : nat) (u : bytes) : res unit (list bytes) :=
  match u with
  | [] => Ok []
  | _ :: u' =>
      match skip with
      | S k => cte_loop sanitized kw k (S pos) u'
      | O =>
          if HasPrefix u kw then
            sub <-? slice_from sanitized pos ;
            t <-? extractAfter sub kw ;
            ts <-? cte_loop sanitized kw (length kw - 1) (S pos) u' ;
            Ok (if bool_decide (t = []) then ts else t :: ts)
          else cte_loop sanitized kw 0 (S pos) u'
      end
  end.

Definition extractCTETables (query : bytes) : res unit (list bytes) :=
  let sanitized := stripStringLiterals query in
  let upper := ToUpper sanitized in
  concat_res ((fun kw => cte_loop sanitized kw 0 0 upper) <$> [$"INSERT INTO"; $"UPDATE"; $"DELETE FROM"]).

Definition extractCopyTable (q : bytes) : res unit (list bytes) :=
  tail <-? slice_from q 4 ;
  match TrimSpace tail with
  | [] => Ok []
  | (c :: _) as rest =>
      if (c =b "(") then Ok []
      else match extractIdentifier rest with
           | [] => Ok []
           | name => match final_name name with [] => Ok [] | f => Ok [f] end
           end
  end.

(** The first of the keywords that gives a table. *)
Fixpoint explain_loop (q upper : bytes) (kws : list bytes) : res unit (list bytes) :=
  match kws with
  | [] => Ok []
  | kw :: kws' =>
      match Index upper kw with
      | None => explain_loop q upper kws'
      | Some idx =>
          sub <-? slice_from q idx ;
          t <-? extractAfter sub kw ;
          match t with
          | [] => explain_loop q upper kws'
          | _ => Ok [t]
          end
      end
  end.

Definition extractExplainTables (q upper : bytes) : res unit (list bytes) :=
  if negb (Contains upper $"ANALYZE") then Ok []
  else explain_loop q upper [$"INSERT INTO"; $"UPDATE"; $"DELETE FROM"; $"MERGE INTO"; $"MERGE"].

Definition extractTablesFromStmt (stmt : bytes) : res unit (list bytes) :=
  let q := TrimSpace stmt in
  let upper := ToUpper q in
  let after kw := t <-? extractAfter q kw ; Ok [t] in
  if HasPrefix upper $"INSERT INTO" then after $"INSERT INTO"
  else if HasPrefix upper $"UPDATE" then after $"UPDATE"
  else if HasPrefix upper $"DELETE FROM" then after $"DELETE FROM"
  else if HasPrefix upper $"TRUNCATE" then after $"TRUNCATE"
  else if HasPrefix upper $"MERGE INTO" then after $"MERGE INTO"
  else if HasPrefix upper $"MERGE" then after $"MERGE"
  else if HasPrefix upper $"COPY" then extractCopyTable q
  else if HasPrefix upper $"EXPLAIN" then extractExplainTables q upper
  else if HasPrefix upper $"WITH" then extractCTETables q
  else Ok [].

Definition ExtractTables (query : bytes) : res unit (list bytes) :=
  ts <-? concat_res (extractTablesFromStmt <$> splitStatements query) ;
  Ok (dedup [] ts).
End Tables.

(** ** ASCII queries *)

Definition ascii (s : bytes) : Prop := Forall (fun c => is_ascii c = true) s.

Lemma ascii_forallb s : ascii s <-> forallb is_ascii s = true.
Proof.
  unfold ascii. rewrite forallb_forall, Forall_forall. done.
Qed.

Lemma ascii_app s t : ascii (s ++ t) <-> ascii s /\ ascii t.
Proof. apply Forall_app. Qed.

Lemma ascii_drop n s : ascii s -> ascii (drop n s).
Proof. apply Forall_drop. Qed.

Lemma ascii_TrimSpace s : ascii s -> ascii (TrimSpace s).
Proof.
  intros H. destruct (TrimSpace_split s) as (p & q & E & _). rewrite E, !ascii_app in H. tauto.
Qed.

Lemma ascii_take n s : ascii s -> ascii (take n s).
Proof. apply Forall_take. Qed.

Lemma emit_Forall (P : bytes -> Prop) cur l :
  P (TrimSpace cur) -> Forall P l -> Forall P (emit cur l).
Proof. unfold emit. case_match; auto. Qed.

Lemma ascii_split k a b cur s : ascii s -> ascii cur -> Forall ascii (split_loop k a b cur s).
Proof.
  revert k a b cur. induction s as [|c s IH]; intros k a b cur Hs Hc.
  { apply emit_Forall; [by apply ascii_TrimSpace|done]. }
  pose proof Hs as [H1 H2]%list.Forall_cons.
  assert (forall n, ascii (cur ++ take n (c :: s))) as Ht
    by (intros n; apply ascii_app; split; [done|by apply ascii_take]).
  assert (ascii (cur ++ [c])) as H1' by (apply ascii_app; split; [done|by apply Forall_singleton]).
  assert (ascii (cur ++ [c; "'"%byte])) as H2'
    by (apply ascii_app; split; [done|by repeat constructor]).
  destruct k as [|k]; cbn [split_loop]; [|by apply IH].
  repeat case_match; first
    [ by apply IH
    | apply emit_Forall; [by apply ascii_TrimSpace | apply IH; [done|constructor]] ].
Qed.

Lemma strip_bytes (P : byte -> Prop) k a b s :
  Forall P s -> Forall P quote_bytes -> Forall P (stripStringLiterals_loop k a b s).
Proof.
  intros Hs Hq. apply Forall_forall. intros c Hc. destruct (decide (c ∈ quote_bytes)) as [Hin|Hn].
  { rewrite Forall_forall in Hq. by apply Hq, list_elem_of_In. }
  rewrite Forall_forall in Hs. apply Hs, list_elem_of_In.
  apply list_elem_of_In, list_elem_of_split in Hc as (x & y & E).
  destruct (strip_infix [c] k a b s) as (u & v & ->); [done|by apply Forall_singleton|by exists x, y|set_solver].
Qed.

Lemma ascii_strip s : ascii s -> ascii (stripStringLiterals s).
Proof. intros H. apply strip_bytes; [done|]. by repeat constructor. Qed.

Section Total.
Context `{UnicodeCase}.

Lemma ToUpper_length s : ascii s -> length (ToUpper s) = length s.
Proof. intros Hs%ascii_forallb. unfold ToUpper. rewrite Hs. apply length_fmap. Qed.

Lemma slice_from_Ok s n : n <= length s -> slice_from s n = Ok (drop n s).
Proof. intros Hn. unfold slice_from. by rewrite (proj2 (Nat.leb_le _ _) Hn). Qed.

Lemma read_occurrence_Ok sanitized prev next n :
  n <= length sanitized -> exists o, read_occurrence sanitized prev next n = Ok o.
Proof.
  intros Hn. unfold read_occurrence. rewrite slice_from_Ok by done. cbn [res_bind].
  repeat case_match; eauto.
Qed.

Lemma read_loop_Ok sanitized kw skip pos prev u :
  pos + length u <= length sanitized -> exists ts, read_loop sanitized kw skip pos prev u = Ok ts.
Proof.
  revert skip pos prev. induction u as [|c u IH]; intros skip pos prev Hl; [by eexists|].
  simpl in Hl. assert (forall k, exists ts, read_loop sanitized kw k (S pos) (Some c) u = Ok ts) as Hgo
    by (intros k; apply IH; lia).
  destruct skip as [|k]; cbn [read_loop]; [|apply Hgo].
  destruct (HasPrefix (c :: u) kw) eqn:E; [|apply Hgo]. apply HasPrefix_length in E. simpl in E.
  destruct (read_occurrence_Ok sanitized prev ((c :: u) !! length kw) (pos + length kw)) as (o & ->); [lia|].
  cbn [res_bind]. destruct (Hgo (length kw - 1)) as (ts & ->). destruct o; eauto.
Qed.

Lemma extractReadTablesFromStmt_Ok stmt : ascii stmt -> exists ts, extractReadTablesFromStmt stmt = Ok ts.
Proof.
  intros Ha. unfold extractReadTablesFromStmt. case_match; [eauto|].
  assert (length (ToUpper (stripStringLiterals (TrimSpace stmt))) = length (stripStringLiterals (TrimSpace stmt)))
    as Hl by auto using ToUpper_length, ascii_strip, ascii_TrimSpace.
  destruct (read_loop_Ok (stripStringLiterals (TrimSpace stmt)) $"FROM" 0 0 None
    (ToUpper (stripStringLiterals (TrimSpace stmt)))) as (f & ->); [lia|].
  destruct (read_loop_Ok (stripStringLiterals (TrimSpace stmt)) $"JOIN" 0 0 None
    (ToUpper (stripStringLiterals (TrimSpace stmt)))) as (j & ->); [lia|].
  eauto.
Qed.

Lemma extractAfter_Ok query kw :
  ascii query -> length kw <= length query -> exists t, extractAfter query kw = Ok t.
Proof.
  intros Ha Hl. unfold extractAfter. rewrite slice_from_Ok by done. cbn [res_bind].
  assert (ascii (TrimSpace (drop (length kw) query))) as Ht by auto using ascii_TrimSpace, ascii_drop.
  destruct (HasPrefix (ToUpper _) $"TABLE ") eqn:E.
  - apply HasPrefix_length in E. rewrite ToUpper_length in E by done.
    rewrite slice_from_Ok by done. cbn [res_bind]. case_match; eauto.
  - cbn [res_bind]. case_match; eauto.
Qed.

Lemma cte_loop_Ok sanitized kw skip pos u :
  ascii sanitized -> pos + length u <= length sanitized -> exists ts, cte_loop sanitized kw skip pos u = Ok ts.
Proof.
  intros Ha. revert skip pos. induction u as [|c u IH]; intros skip pos Hl; [by eexists|]. simpl in Hl.
  assert (forall k, exists ts, cte_loop sanitized kw k (S pos) u = Ok ts) as Hgo by (intros k; apply IH; lia).
  destruct skip as [|k]; cbn [cte_loop]; [|apply Hgo].
  destruct (HasPrefix (c :: u) kw) eqn:E; [|apply Hgo]. apply HasPrefix_length in E. simpl in E.
  rewrite slice_from_Ok by lia. cbn [res_bind].
  destruct (extractAfter_Ok (drop pos sanitized) kw) as (t & ->); [by apply ascii_drop|rewrite length_drop; lia|].
  cbn [res_bind]. destruct (Hgo (length kw - 1)) as (ts & ->). cbn [res_bind]. case_match; eauto.
Qed.

Lemma explain_loop_Ok q kws : ascii q -> exists ts, explain_loop q (ToUpper q) kws = Ok ts.
Proof.
  intros Ha. induction kws as [|kw kws IH]; [by eexists|]. cbn [explain_loop].
  destruct (Index (ToUpper q) kw) as [i|] eqn:E; [|done]. apply Index_le in E. rewrite ToUpper_length in E by done.
  rewrite slice_from_Ok by lia. cbn [res_bind].
  destruct (extractAfter_Ok (drop i q) kw) as (t & ->); [by apply ascii_drop|rewrite length_drop; lia|].
  cbn [res_bind]. case_match; eauto.
Qed.

Lemma concat_res_Ok {A} (f : A -> res unit (list bytes)) (l : list A) :
  Forall (fun x => exists ts, f x = Ok ts) l -> exists ts, concat_res (f <$> l) = Ok ts.
Proof.
  induction 1 as [|x l (ts & E) Hl (us & IH)]; [by eexists|]. cbn [fmap list_fmap concat_res].
  rewrite E. cbn [res_bind]. rewrite IH. by eexists.
Qed.

Lemma extractTablesFromStmt_Ok stmt : ascii stmt -> exists ts, extractTablesFromStmt stmt = Ok ts.
Proof.
  intros Ha%ascii_TrimSpace. unfold extractTablesFromStmt. set (q := TrimSpace stmt) in *.
  assert (forall kw, HasPrefix (ToUpper q) kw = true -> exists t, extractAfter q kw = Ok t) as Hk.
  { intros kw Hp%HasPrefix_length. rewrite ToUpper_length in Hp by done. by apply extractAfter_Ok. }
  repeat match goal with
  | |- context [if HasPrefix _ ?kw then (_ <-? extractAfter q _ ; _) else _] =>
      destruct (HasPrefix (ToUpper q) kw) eqn:?;
      [destruct (Hk kw) as (? & ->); [done|by eexists]|]
  end.
  destruct (HasPrefix (ToUpper q) $"COPY") eqn:E.
  { apply HasPrefix_length in E. rewrite ToUpper_length in E by done.
    unfold extractCopyTable. rewrite slice_from_Ok by done. cbn [res_bind]. repeat case_match; eauto. }
  clear E. case_match; [unfold extractExplainTables; case_match; [by eexists|by apply explain_loop_Ok]|].
  case_match; [|by eexists]. apply concat_res_Ok, Forall_forall. intros kw _.
  apply cte_loop_Ok; [by apply ascii_strip|]. rewrite ToUpper_length by by apply ascii_strip. done.
Qed.

(** on ASCII queries finding the tables never slices out of range: the tables
    a query reads and those it writes are always a list. *)
Theorem ExtractTables_total query :
  forallb is_ascii query = true ->
  (exists ts, ExtractReadTables query = Ok ts) /\ (exists ts, ExtractTables query = Ok ts).
Proof.
  intros Ha%ascii_forallb. unfold ExtractReadTables, ExtractTables.
  assert (Forall ascii (splitStatements query)) as Hs by (apply ascii_split; [done|constructor]).
  destruct (concat_res_Ok extractReadTablesFromStmt (splitStatements query)) as (r & ->).
  { eapply Forall_impl; [|exact Hs]. apply extractReadTablesFromStmt_Ok. }
  destruct (concat_res_Ok extractTablesFromStmt (splitStatements query)) as (w & ->).
  { eapply Forall_impl; [|exact Hs]. apply extractTablesFromStmt_Ok. }
  split; by eexists.
Qed.
End Total.

Lemma ExtractTables_total_witness :
  (exists ts, ExtractReadTables (H := ascii_case) $"SELECT a FROM t" = Ok ts) /\
  (exists ts, ExtractTables (H := ascii_case) $"SELECT a FROM t" = Ok ts).
Proof. apply (ExtractTables_total (H := ascii_case)). by vm_compute. Defined.

(** ** Every table is found *)

(** The last byte before the position [A] ends at. *)
Definition prev_byte (prev : option byte) (A : bytes) : option byte :=
  match A with [] => prev | _ => A !! (length A - 1) end.

Lemma prev_byte_cons prev c A : prev_byte prev (c :: A) = prev_byte (Some c) A.
Proof. destruct A as [|d A]; [done|]. cbn [prev_byte length Nat.sub]. by rewrite Nat.sub_0_r. Qed.

(** FROM and JOIN do not overlap themselves. *)
Lemma kw_no_overlap kw c A B :
  kw ∈ [$"FROM"; $"JOIN"] -> HasPrefix (c :: A ++ kw ++ B) kw = true -> length kw - 1 <= length A.
Proof.
  intros Hkw Hp. apply list_elem_of_In in Hkw. simpl in Hkw.
  destruct Hkw as [<-|[<-|[]]]; (destruct A as [|? [|? [|? A]]]; [..|simpl; lia]);
    exfalso; cbn in Hp; rewrite ?andb_false_r in Hp; discriminate.
Qed.

Lemma head_after_kw (kw B : bytes) : (kw ++ B) !! length kw = head B.
Proof. rewrite lookup_app_r, Nat.sub_diag by done. by destruct B. Qed.

Section Complete.
Context `{UnicodeCase}.
Variables (sanitized kw A0 B : bytes) (t : bytes).
Hypothesis Hkw : kw ∈ [$"FROM"; $"JOIN"].
Hypothesis Hup : upper1 <$> sanitized = A0 ++ kw ++ B.

(** An earlier occurrence does not end the search: the keyword is after it. *)
Lemma earlier_not_stop prev next n :
  n <= length A0 -> read_occurrence sanitized prev next n <> Ok Stop.
Proof.
  intros Hn E. unfold read_occurrence in E. repeat (case_match; [done|]).
  assert (length sanitized = length (A0 ++ kw ++ B)) as Hl by by rewrite <- Hup, length_fmap.
  rewrite slice_from_Ok in E by (rewrite Hl, length_app; lia). cbn [res_bind] in E.
  destruct (TrimSpace (drop n sanitized)) eqn:Et; [|by repeat case_match].
  apply TrimSpace_nil in Et.
  assert (exists c, c ∈ drop n sanitized /\ upper1 c ∈ kw) as (c & Hc & Hcu).
  { apply (f_equal (drop n)) in Hup. rewrite <- fmap_drop, drop_app_le in Hup by done.
    destruct kw as [|k ks]; [set_solver|].
    assert (k ∈ upper1 <$> drop n sanitized) as (c & -> & Hc)%list_elem_of_fmap by (rewrite Hup; set_solver).
    exists c. set_solver. }
  rewrite Forall_forall in Et. apply list_elem_of_In, Et in Hc.
  assert (forallb (fun c => negb (existsb (Byte.eqb (upper1 c)) ($"FROM" ++ $"JOIN"))) space_bytes = true) as Hall
    by by vm_compute.
  rewrite forallb_forall in Hall. apply list_elem_of_In, Hall, negb_true_iff in Hc.
  assert (existsb (Byte.eqb (upper1 c)) ($"FROM" ++ $"JOIN") = true) as Ht; [|congruence].
  apply existsb_exists. exists (upper1 c). split; [|apply byte_eqb_refl]. apply list_elem_of_In.
  apply list_elem_of_In in Hkw. simpl in Hkw. apply elem_of_app. destruct Hkw as [<-|[<-|[]]]; auto.
Qed.

Lemma read_loop_found skip pos prev A :
  skip <= length A -> pos + length A = length A0 ->
  read_occurrence sanitized (prev_byte prev A) (head B) (length A0 + length kw) = Ok (Table t) ->
  forall ts, read_loop sanitized kw skip pos prev (A ++ kw ++ B) = Ok ts -> t ∈ ts.
Proof.
  assert (length kw = 4) as Hk4 by (apply list_elem_of_In in Hkw; simpl in Hkw; by destruct Hkw as [<-|[<-|[]]]).
  revert skip pos prev. induction A as [|c A IH]; intros skip pos prev Hskip Hpos Ho ts.
  - simpl in Hskip, Hpos. assert (skip = 0) as -> by lia. assert (pos = length A0) as -> by lia.
    cbn [app prev_byte] in *. destruct (kw ++ B) as [|k u] eqn:Eu; [by destruct kw|].
    cbn [read_loop]. rewrite <- Eu, HasPrefix_app, head_after_kw, Ho. cbn [res_bind].
    destruct (read_loop _ _ _ _ _ u) as [us| |]; cbn [res_bind]; intros [= <-]. set_solver.
  - cbn [app]. destruct skip as [|k]; cbn [read_loop].
    2:{ apply IH; [simpl in *; lia..|]. by rewrite <- (prev_byte_cons prev). }
    assert (forall k us, k <= length A -> read_loop sanitized kw k (S pos) (Some c) (A ++ kw ++ B) = Ok us -> t ∈ us)
      as Hgo by (intros k us Hk; apply IH; [done|simpl in *; lia|by rewrite <- (prev_byte_cons prev)]).
    destruct (HasPrefix (c :: A ++ kw ++ B) kw) eqn:Ep; [|apply Hgo; lia].
    apply kw_no_overlap in Ep; [|done].
    pose proof (earlier_not_stop prev ((c :: A ++ kw ++ B) !! length kw) (pos + length kw)
      ltac:(simpl in *; lia)) as Hns.
    destruct (read_occurrence sanitized prev _ (pos + length kw)) as [[| |t']| |]; cbn [res_bind]; try done.
    + by apply Hgo.
    + destruct (read_loop _ _ _ _ _ (A ++ kw ++ B)) as [us| |] eqn:Er; cbn [res_bind]; intros [= <-].
      apply Hgo in Er; [set_solver|done].
Qed.
End Complete.

(** the tables of a read are complete. In an ASCII SELECT or WITH statement,
    every FROM or JOIN outside a string, delimited as the source requires and
    followed by an identifier that is not a keyword, puts that identifier (its last
    part, unquoted, in lower case) among the tables, whatever comes before it. *)
Theorem extractReadTables_complete `{UnicodeCase} stmt kw A B name :
  let q := TrimSpace stmt in
  let sanitized := stripStringLiterals q in
  let rest := TrimSpace (drop (length A + length kw) sanitized) in
  forallb is_ascii stmt = true ->
  HasPrefix (ToUpper q) $"SELECT" || HasPrefix (ToUpper q) $"WITH" = true ->
  kw ∈ [$"FROM"; $"JOIN"] ->
  ToUpper sanitized = A ++ kw ++ B ->
  match prev_byte None A with Some c => from_before c | None => true end = true ->
  match head B with Some c => from_after c | None => true end = true ->
  HasPrefix rest $"(" = false -> extractIdentifier rest = name -> name <> [] ->
  bool_decide (ToUpper (final_name name) ∈ not_a_table) = false ->
  exists ts, extractReadTablesFromStmt stmt = Ok ts /\ final_name name ∈ ts.
Proof.
  intros q sanitized rest Ha%ascii_forallb Hsel Hkw Hup Hb Haf Hpar Hname Hne Hnt.
  assert (ascii sanitized) as Has by (by apply ascii_strip, ascii_TrimSpace).
  destruct (extractReadTablesFromStmt_Ok stmt Ha) as (ts & Hts). exists ts. split; [done|].
  unfold extractReadTablesFromStmt in Hts. fold q sanitized in Hts.
  rewrite <- negb_orb, Hsel in Hts. cbn [negb] in Hts.
  assert (upper1 <$> sanitized = A ++ kw ++ B) as Hup'
    by (rewrite <- Hup; unfold ToUpper; apply ascii_forallb in Has; by rewrite Has).
  assert (length sanitized = length (A ++ kw ++ B)) as Hl by by rewrite <- Hup', length_fmap.
  assert (read_occurrence sanitized (prev_byte None A) (head B) (length A + length kw)
    = Ok (Table (final_name name))) as Ho.
  { unfold read_occurrence. replace (match prev_byte None A with Some _ => _ | None => _ end) with false
      by (destruct (prev_byte None A); [by rewrite Hb|done]).
    replace (match head B with Some _ => _ | None => _ end) with false by (destruct (head B); [by rewrite Haf|done]).
    rewrite slice_from_Ok by (rewrite Hl, !length_app; lia). cbn [res_bind]. fold rest.
    destruct rest as [|c r]; [by subst name|].
    assert ((c =b "(") = false) as -> by (destruct (byte_eqb_spec c "("%byte) as [->|]; done).
    rewrite Hname. destruct name; [done|]. by rewrite Hnt. }
  pose proof (read_loop_found sanitized kw A B (final_name name) Hkw Hup' 0 0 None A
    ltac:(lia) ltac:(done) Ho) as Hfound. rewrite <- Hup in Hfound.
  apply list_elem_of_In in Hkw. simpl in Hkw.
  destruct (read_loop sanitized $"FROM" _ _ _ _) as [f| |] eqn:Ef; [|done..].
  destruct (read_loop sanitized $"JOIN" _ _ _ _) as [j| |] eqn:Ej; [|done..].
  injection Hts as <-. apply elem_of_app. destruct Hkw as [<-|[<-|[]]]; auto.
Qed.

Lemma extractReadTables_complete_witness :
  exists ts, extractReadTablesFromStmt (H := ascii_case) $"select * from a join s.B on 1=1" = Ok ts /\ $"b" ∈ ts.
Proof.
  apply (extractReadTables_complete (H := ascii_case) $"select * from a join s.B on 1=1" $"JOIN"
    $"SELECT * FROM A " $" S.B ON 1=1" $"s.B"); try by vm_compute.
  apply (bool_decide_unpack _); by vm_compute.
Defined.

(** ** What is not found *)

(** Double-quoted identifiers are emptied before the search. *)
Example quoted_read_table_missed :
  ExtractReadTables (H := ascii_case) ($"SELECT * FROM " ++ [x22] ++ $"Users" ++ [x22]) = Ok [] /\
  ExtractTables (H := ascii_case) ($"UPDATE " ++ [x22] ++ $"Users" ++ [x22] ++ $" SET a = 1") = Ok [$"users"].
Proof. by vm_compute. Qed.

(** Only the first table of a comma-separated list is found. *)
Example comma_read_table_missed :
  ExtractReadTables (H := ascii_case) $"SELECT * FROM a, b" = Ok [$"a"].
Proof. by vm_compute. Qed.

(** The parenthesis that closes a subquery becomes part of the name. *)
Example paren_read_table_missed :
  ExtractReadTables (H := ascii_case) $"SELECT * FROM (SELECT 1 FROM t) x" = Ok [$"t)"].
Proof. by vm_compute. Qed.

(** Upper-casing can lengthen the text (U+0250 takes two bytes, its upper case
    U+2C6F three), and then an index into the upper-case text is past the end of
    the original. *)
Definition latin_case : UnicodeCase :=
  {| unicode_upper := fun s => ReplaceAll (upper1 <$> s) [xc9; x90] [xe2; xb1; xaf];
     unicode_lower := fun s => ReplaceAll (lower1 <$> s) [xe2; xb1; xaf] [xc9; x90] |}.

Example non_ascii_panic :
  ExtractReadTables (H := latin_case)
    ($"SELECT " ++ concat (replicate 7 [xc9; x90]) ++ $" FROM t") = Panic.
Proof. by vm_compute. Qed.
