(* ===== verification/Ast.v ===== *)
(** * Parse trees (internal/router/ast.go, parsed_query.go, parser_ast.go)

    The parts of the parse trees of pg_query that the router looks at, the tree
    walk, and the classification and table extraction on trees. The parser and the
    lexer themselves are the interface [PgQuery]. *)

From S2P Require Import Prelude GoStrings SqlLex Classify Tables.

(** ** Trees *)

Record RangeVar := { schemaname : bytes; relname : bytes; relpersistence : bytes }.

(** Statements of which the router only looks at the kind. *)
Inductive plain_stmt :=
| AlterTableStmt | GrantStmt | GrantRoleStmt | CreateSchemaStmt | IndexStmt | CreateSeqStmt
| AlterSeqStmt | ViewStmt | CreateFunctionStmt | CreateTrigStmt | RenameStmt | CommentStmt
| CallStmt | ListenStmt | UnlistenStmt | DeclareCursorStmt | PrepareStmt.

Inductive BoolOp := AND_EXPR | OR_EXPR | NOT_EXPR.

(** A node, with the fields the source reads. [OtherNode] is any node type the
    source has no case for. The optional lists are the with clauses ([None]: no
    clause). *)
#[warnings="-register-all"]
Inductive node :=
| SelectStmt (targets from : list node) (where_ : option node) (windows values groups : list node)
    (having : option node) (larg rarg : option node) (ctes : option (list node)) (locking : list node)
| InsertStmt (rel : option RangeVar) (select : option node) (ctes : option (list node))
| UpdateStmt (rel : option RangeVar) (targets : list node) (where_ : option node) (from : list node)
    (ctes : option (list node))
| DeleteStmt (rel : option RangeVar) (where_ : option node) (using_ : list node) (ctes : option (list node))
| MergeStmt (rel : option RangeVar)
| CreateStmt (rel : option RangeVar)
| CopyStmt (rel : option RangeVar) (is_from : bool)
| TruncateStmt (relations : list node)
| DropStmt (objects : list node)
| ExplainStmt (options : list node) (query : option node)
| VariableSetStmt (name : bytes) (is_local : bool)
| PlainStmt (k : plain_stmt)
| CommonTableExpr (query : option node)
| JoinExpr (larg rarg quals : option node)
| SubLink (subselect testexpr : option node)
| BoolExpr (op : BoolOp) (args : list node)
| AExpr (lexpr rexpr : option node)
| ResTarget (val : option node)
| FuncCall (funcname args : list node)
| ListNode (items : list node)
| RangeVarNode (rv : RangeVar)
| ColumnRef (fields : list node)
| StringNode (sval : bytes)
| DefElem (defname : bytes)
| OtherNode (children : list node)
| NilNode.  (* a nil pointer in a list of nodes *)

(** The statements of a parse result ([None]: a raw statement without one). *)
Definition tree := list (option node).

(** The package pg_query: the parser, and the comments the lexer finds, as byte
    offsets of the query. [None] is an error. *)
Class PgQuery := {
  pg_parse : bytes -> option tree;
  pg_scan_comments : bytes -> option (list (Z * Z))
}.

Definition ParseSQL `{PgQuery} (query : bytes) : option tree := pg_parse query.

Record ParsedQuery := { pq_SQL : bytes; pq_Tree : tree }.

Definition NewParsedQuery `{PgQuery} (sql : bytes) : option ParsedQuery :=
  match pg_parse sql with
  | Some t => Some {| pq_SQL := sql; pq_Tree := t |}
  | None => None
  end.

(** ** The walk

    The callback may change the node it is given in place: the rewriter does, and
    only RangeVar and ColumnRef nodes, which have no children to visit. The walk
    returns the tree as it is afterwards. [state * bool] is the state of the
    callback and whether the walk goes on. *)
Section Walk.
Context {St : Type} (fn : node -> St -> node * St * bool).
Local Abbreviation walker A := (A -> St * bool -> A * (St * bool)).

Definition walk_opt (w : walker node) : walker (option node) := fun o st =>
  match o with
  | None => (None, st)
  | Some n => let '(n', st') := w n st in (Some n', st')
  end.

Definition walk_list (w : walker node) : walker (list node) :=
  fix go l st :=
    match l with
    | [] => ([], st)
    | n :: l' => let '(n', st1) := w n st in let '(l'', st2) := go l' st1 in (n' :: l'', st2)
    end.

Definition walk_ctes (w : walker node) : walker (option (list node)) := fun o st =>
  match o with
  | None => (None, st)
  | Some l => let '(l', st') := walk_list w l st in (Some l', st')
  end.

(** The relation of an INSERT, UPDATE or DELETE, visited as a node that shares it. *)
Definition walk_rel (o : option RangeVar) (st : St * bool) : option RangeVar * (St * bool) :=
  match o, st with
  | Some rv, (s, true) =>
      let '(n', s', ok) := fn (RangeVarNode rv) s in
      (match n' with RangeVarNode rv' => Some rv' | _ => Some rv end, (s', ok))
  | _, _ => (o, st)
  end.

Fixpoint walkNode (n : node) (st : St * bool) {struct n} : node * (St * bool) :=
  let '(s, go) := st in
  if negb go then (n, st)
  else if match n with NilNode => true | _ => false end then (n, st)
  else
    let '(n1, s1, ok) := fn n s in
    let st1 := (s1, ok) in
    match n with
    | SelectStmt targets from where_ windows values groups having larg rarg ctes locking =>
        let '(targets, st) := walk_list walkNode targets st1 in
        let '(from, st) := walk_list walkNode from st in
        let '(where_, st) := walk_opt walkNode where_ st in
        let '(windows, st) := walk_list walkNode windows st in
        let '(values, st) := walk_list walkNode values st in
        let '(groups, st) := walk_list walkNode groups st in
        let '(having, st) := walk_opt walkNode having st in
        let '(larg, st) := walk_opt walkNode larg st in
        let '(rarg, st) := walk_opt walkNode rarg st in
        let '(ctes, st) := walk_ctes walkNode ctes st in
        (SelectStmt targets from where_ windows values groups having larg rarg ctes locking, st)
    | InsertStmt rel select ctes =>
        let '(rel, st) := walk_rel rel st1 in
        let '(select, st) := walk_opt walkNode select st in
        let '(ctes, st) := walk_ctes walkNode ctes st in
        (InsertStmt rel select ctes, st)
    | UpdateStmt rel targets where_ from ctes =>
        let '(rel, st) := walk_rel rel st1 in
        let '(targets, st) := walk_list walkNode targets st in
        let '(where_, st) := walk_opt walkNode where_ st in
        let '(from, st) := walk_list walkNode from st in
        let '(ctes, st) := walk_ctes walkNode ctes st in
        (UpdateStmt rel targets where_ from ctes, st)
    | DeleteStmt rel where_ using_ ctes =>
        let '(rel, st) := walk_rel rel st1 in
        let '(where_, st) := walk_opt walkNode where_ st in
        let '(using_, st) := walk_list walkNode using_ st in
        let '(ctes, st) := walk_ctes walkNode ctes st in
        (DeleteStmt rel where_ using_ ctes, st)
    | CommonTableExpr query =>
        let '(query, st) := walk_opt walkNode query st1 in (CommonTableExpr query, st)
    | JoinExpr larg rarg quals =>
        let '(larg, st) := walk_opt walkNode larg st1 in
        let '(rarg, st) := walk_opt walkNode rarg st in
        let '(quals, st) := walk_opt walkNode quals st in
        (JoinExpr larg rarg quals, st)
    | SubLink subselect testexpr =>
        let '(subselect, st) := walk_opt walkNode subselect st1 in
        let '(testexpr, st) := walk_opt walkNode testexpr st in
        (SubLink subselect testexpr, st)
    | BoolExpr op args => let '(args, st) := walk_list walkNode args st1 in (BoolExpr op args, st)
    | AExpr lexpr rexpr =>
        let '(lexpr, st) := walk_opt walkNode lexpr st1 in
        let '(rexpr, st) := walk_opt walkNode rexpr st in
        (AExpr lexpr rexpr, st)
    | ResTarget val => let '(val, st) := walk_opt walkNode val st1 in (ResTarget val, st)
    | FuncCall funcname args =>
        let '(args, st) := walk_list walkNode args st1 in (FuncCall funcname args, st)
    | ListNode items => let '(items, st) := walk_list walkNode items st1 in (ListNode items, st)
    | _ => (n1, st1)   (* nodes without children to visit *)
    end.

(** [WalkNodes]: the statements in order, until the callback stops the walk. *)
Fixpoint WalkNodes (t : tree) (st : St * bool) : tree * (St * bool) :=
  match t with
  | [] => ([], st)
  | o :: t' =>
      let '(o', st1) := walk_opt walkNode o st in
      let '(t'', st2) := WalkNodes t' st1 in
      (o' :: t'', st2)
  end.
End Walk.

(** The callback of the searches ([hasSideEffectFuncCalls], [tablesMatchRule]): stop
    at the first node that has the property; the state is [found]. *)
Definition search_fn (p : node -> bool) (n : node) (found : bool) : node * bool * bool :=
  if found then (n, found, false)
  else if p n then (n, true, false)
  else (n, found, true).

(** ** Classification *)

Section Classify.
Context `{UnicodeCase} `{PgQuery}.

(** The first hint of the block comments the lexer found ([start <= end] for
    each of them). *)
Fixpoint hint_in_comments (query : bytes) (toks : list (Z * Z)) : option hint :=
  match toks with
  | [] => None
  | (start, end_) :: toks' =>
      match (if (0 <=? start)%Z && (end_ <=? Z.of_nat (length query))%Z
             then find_hint (take (Z.to_nat (end_ - start)) (drop (Z.to_nat start) query))
             else None) with
      | Some h => Some h
      | None => hint_in_comments query toks'
      end
  end.

Definition extractHintAST (query : bytes) : option hint :=
  match pg_scan_comments query with
  | None => extractHint query
  | Some toks => hint_in_comments query toks
  end.

Definition sideEffectFuncNames : list bytes :=
  [$"nextval"; $"setval"; $"currval"; $"set_config"; $"pg_advisory_lock"; $"pg_advisory_xact_lock";
   $"pg_advisory_unlock"; $"pg_advisory_unlock_all"; $"pg_try_advisory_lock";
   $"pg_try_advisory_xact_lock"; $"lo_create"; $"lo_unlink"; $"pg_notify"; $"txid_current"].

Definition is_side_effect_name (n : node) : bool :=
  match n with
  | StringNode s => bool_decide (ToLower s ∈ sideEffectFuncNames)
  | _ => false
  end.

Definition is_side_effect_call (n : node) : bool :=
  match n with FuncCall funcname _ => existsb is_side_effect_name funcname | _ => false end.

Definition hasSideEffectFuncCalls (n : node) : bool := (walkNode (search_fn is_side_effect_call) n (false, true)).2.1.

Definition is_analyze (opt : node) : bool :=
  match opt with DefElem d => bool_decide (ToLower d = $"analyze") | _ => false end.

Fixpoint isWriteNode (n : node) : bool :=
  match n with
  | InsertStmt _ _ _ | UpdateStmt _ _ _ _ _ | DeleteStmt _ _ _ _ | CreateStmt _ | DropStmt _
  | TruncateStmt _ | MergeStmt _ => true
  | PlainStmt k =>
      match k with
      | ListenStmt | UnlistenStmt | DeclareCursorStmt | PrepareStmt => false
      | _ => true
      end
  | CopyStmt _ is_from => is_from
  | ExplainStmt options query =>
      existsb is_analyze options && match query with Some q => isWriteNode q | None => false end
  | SelectStmt _ _ _ _ _ _ _ _ _ ctes locking =>
      match ctes with
      | Some l => existsb (fun cte => match cte with CommonTableExpr (Some q) => isWriteNode q | _ => false end) l
      | None => false
      end
      || negb (Nat.eqb (length locking) 0)
      || hasSideEffectFuncCalls n
  | _ => false
  end.

Definition classifyTree (t : tree) : QueryType :=
  if existsb (fun o => match o with Some n => isWriteNode n | None => false end) t
  then QueryWrite else QueryRead.

Definition ClassifyAST (query : bytes) : QueryType :=
  match extractHintAST query with
  | Some HintWriter => QueryWrite
  | Some HintReader => QueryRead
  | None =>
      match ParseSQL query with
      | None => Classify query
      | Some t => classifyTree t
      end
  end.

Definition ClassifyASTWithTree (query : bytes) (pq : ParsedQuery) : QueryType :=
  match extractHintAST query with
  | Some HintWriter => QueryWrite
  | Some HintReader => QueryRead
  | None => classifyTree (pq_Tree pq)
  end.

(** ** Tables *)

(** [add]: the table in lower case, once. The state is [tables]; [seen] has the
    same elements. *)
Definition add_table (tables : list bytes) (table : bytes) : list bytes :=
  let t := ToLower table in
  if bool_decide (t = []) || bool_decide (t ∈ tables) then tables else tables ++ [t].

Definition rel_names (o : option RangeVar) : list bytes :=
  match o with Some rv => [relname rv] | None => [] end.

Definition string_name (n : node) : list bytes := match n with StringNode s => [s] | _ => [] end.

(** The names [extractWriteTables] calls [add] with, in order. *)
Fixpoint extractWriteTables (n : node) : list bytes :=
  let ctes_names (ctes : option (list node)) :=
    match ctes with
    | Some l => flat_map (fun cte => match cte with
                                     | CommonTableExpr (Some q) => extractWriteTables q
                                     | _ => []
                                     end) l
    | None => []
    end in
  match n with
  | InsertStmt rel _ ctes => ctes_names ctes ++ rel_names rel
  | UpdateStmt rel _ _ _ ctes => ctes_names ctes ++ rel_names rel
  | DeleteStmt rel _ _ ctes => ctes_names ctes ++ rel_names rel
  | TruncateStmt relations =>
      flat_map (fun a => match a with RangeVarNode rv => [relname rv] | _ => [] end) relations
  | DropStmt objects =>
      flat_map (fun o => match o with ListNode items => flat_map string_name items | _ => [] end) objects
  | MergeStmt rel => rel_names rel
  | CopyStmt rel _ => rel_names rel
  | ExplainStmt _ query => match query with Some q => extractWriteTables q | None => [] end
  | SelectStmt _ _ _ _ _ _ _ _ _ ctes _ => ctes_names ctes
  | _ => []
  end.

Definition extractTablesFromTree (t : tree) : list bytes :=
  fold_left add_table
    (flat_map (fun o => match o with Some n => extractWriteTables n | None => [] end) t) [].

Definition ExtractTablesAST (query : bytes) : res unit (list bytes) :=
  match ParseSQL query with
  | None => ExtractTables query
  | Some t => Ok (extractTablesFromTree t)
  end.

(** The callback of [extractReadTablesFromTree]. *)
Definition read_table_fn (n : node) (tables : list bytes) : node * list bytes * bool :=
  (n, match n with RangeVarNode rv => add_table tables (relname rv) | _ => tables end, true).

Definition extractReadTablesFromTree (t : tree) : list bytes := (WalkNodes read_table_fn t ([], true)).2.1.

Definition ExtractReadTablesAST (query : bytes) : res unit (list bytes) :=
  match ParseSQL query with
  | None => ExtractReadTables query
  | Some t => Ok (extractReadTablesFromTree t)
  end.
End Classify.

(** ** The nodes a walk visits *)

Definition rel_node (o : option RangeVar) : list node :=
  match o with Some rv => [RangeVarNode rv] | None => [] end.
Definition olist (o : option node) : list node := match o with Some n => [n] | None => [] end.

(** The children a walk goes to, in its order. *)
Definition kids (n : node) : list node :=
  match n with
  | SelectStmt targets from where_ windows values groups having larg rarg ctes _ =>
      targets ++ from ++ olist where_ ++ windows ++ values ++ groups ++ olist having
      ++ olist larg ++ olist rarg ++ default [] ctes
  | InsertStmt rel select ctes => rel_node rel ++ olist select ++ default [] ctes
  | UpdateStmt rel targets where_ from ctes =>
      rel_node rel ++ targets ++ olist where_ ++ from ++ default [] ctes
  | DeleteStmt rel where_ using_ ctes => rel_node rel ++ olist where_ ++ using_ ++ default [] ctes
  | CommonTableExpr query => olist query
  | JoinExpr larg rarg quals => olist larg ++ olist rarg ++ olist quals
  | SubLink subselect testexpr => olist subselect ++ olist testexpr
  | BoolExpr _ args => args
  | AExpr lexpr rexpr => olist lexpr ++ olist rexpr
  | ResTarget val => olist val
  | FuncCall _ args => args
  | ListNode items => items
  | _ => []
  end.

(** A measure that decreases from a node to its children. *)
Fixpoint size (n : node) : nat :=
  let sz := sum_list_with size in
  let so (o : option node) := match o with Some m => size m | None => 0 end in
  let sc (o : option (list node)) := match o with Some l => sz l | None => 0 end in
  match n with
  | SelectStmt targets from where_ windows values groups having larg rarg ctes _ =>
      2 + (sz targets + sz from + so where_ + sz windows + sz values + sz groups + so having
           + so larg + so rarg + sc ctes)
  | InsertStmt _ select ctes => 2 + (so select + sc ctes)
  | UpdateStmt _ targets where_ from ctes => 2 + (sz targets + so where_ + sz from + sc ctes)
  | DeleteStmt _ where_ using_ ctes => 2 + (so where_ + sz using_ + sc ctes)
  | CommonTableExpr query => 2 + so query
  | JoinExpr larg rarg quals => 2 + (so larg + so rarg + so quals)
  | SubLink subselect testexpr => 2 + (so subselect + so testexpr)
  | BoolExpr _ args => 2 + sz args
  | AExpr lexpr rexpr => 2 + (so lexpr + so rexpr)
  | ResTarget val => 2 + so val
  | FuncCall _ args => 2 + sz args
  | ListNode items => 2 + sz items
  | ExplainStmt _ query => 2 + so query
  | _ => 1
  end.

Definition sizes (l : list node) : nat := sum_list_with size l.

Lemma sizes_kids n : sizes (kids n) < size n.
Proof.
  assert (forall l1 l2, sizes (l1 ++ l2) = sizes l1 + sizes l2) as Happ
    by (intros; apply sum_list_with_app).
  assert (forall o, sizes (olist o) = match o with Some m => size m | None => 0 end) as Ho
    by (intros [m|]; simpl; lia).
  assert (forall o, sizes (rel_node o) <= 1) as Hr by (intros [m|]; simpl; lia).
  assert (forall o, sizes (default [] o) = match o with Some l => sizes l | None => 0 end) as Hc
    by (intros [l|]; done).
  destruct n; cbn [kids size]; rewrite ?Happ, ?Ho, ?Hc;
    try (specialize (Hr rel)); try (change (sizes []) with 0); unfold sizes in *; lia.
Qed.

(** Induction on the visited part of a tree. *)
Lemma node_ind_kids (P : node -> Prop) :
  (forall n, Forall P (kids n) -> P n) -> forall n, P n.
Proof.
  intros Hstep n. remember (size n) as k eqn:Ek. revert n Ek.
  induction (lt_wf k) as [k _ IH]. intros n ->. apply Hstep, Forall_forall. intros m Hm.
  eapply IH; [|done]. pose proof (sizes_kids n).
  assert (size m <= sizes (kids n)); [|lia]. unfold sizes.
  induction (kids n) as [|x l IHl]; [destruct Hm|]. simpl in *.
  destruct Hm as [->|Hm]; [lia|]. specialize (IHl Hm). lia.
Qed.

(** All the nodes a walk that is not stopped visits, in order. *)
Fixpoint visits (n : node) : list node :=
  let vl := flat_map visits in
  let vo (o : option node) := match o with Some m => visits m | None => [] end in
  let vc (o : option (list node)) := match o with Some l => vl l | None => [] end in
  match n with NilNode => [] | _ => [n] end
  ++ match n with
       | SelectStmt targets from where_ windows values groups having larg rarg ctes _ =>
           vl targets ++ vl from ++ vo where_ ++ vl windows ++ vl values ++ vl groups ++ vo having
           ++ vo larg ++ vo rarg ++ vc ctes
       | InsertStmt rel select ctes => rel_node rel ++ vo select ++ vc ctes
       | UpdateStmt rel targets where_ from ctes =>
           rel_node rel ++ vl targets ++ vo where_ ++ vl from ++ vc ctes
       | DeleteStmt rel where_ using_ ctes => rel_node rel ++ vo where_ ++ vl using_ ++ vc ctes
       | CommonTableExpr query => vo query
       | JoinExpr larg rarg quals => vo larg ++ vo rarg ++ vo quals
       | SubLink subselect testexpr => vo subselect ++ vo testexpr
       | BoolExpr _ args => vl args
       | AExpr lexpr rexpr => vo lexpr ++ vo rexpr
       | ResTarget val => vo val
       | FuncCall _ args => vl args
       | ListNode items => vl items
       | _ => []
       end.

Definition visits_opt (o : option node) : list node := match o with Some n => visits n | None => [] end.
Definition visits_ctes (o : option (list node)) : list node :=
  match o with Some l => flat_map visits l | None => [] end.
Definition visits_tree (t : tree) : list node := flat_map visits_opt t.

(** The tree after a walk that changes each visited RangeVar and ColumnRef by [g]. *)
Definition map_rel (g : node -> node) (o : option RangeVar) : option RangeVar :=
  match o with
  | Some rv => match g (RangeVarNode rv) with RangeVarNode rv' => Some rv' | _ => Some rv end
  | None => None
  end.

Fixpoint map_node (g : node -> node) (n : node) : node :=
  let mo := option_map (map_node g) in
  let ml := map (map_node g) in
  let mc := option_map ml in
  match n with
  | SelectStmt targets from where_ windows values groups having larg rarg ctes locking =>
      SelectStmt (ml targets) (ml from) (mo where_) (ml windows) (ml values) (ml groups) (mo having)
        (mo larg) (mo rarg) (mc ctes) locking
  | InsertStmt rel select ctes => InsertStmt (map_rel g rel) (mo select) (mc ctes)
  | UpdateStmt rel targets where_ from ctes =>
      UpdateStmt (map_rel g rel) (ml targets) (mo where_) (ml from) (mc ctes)
  | DeleteStmt rel where_ using_ ctes => DeleteStmt (map_rel g rel) (mo where_) (ml using_) (mc ctes)
  | CommonTableExpr query => CommonTableExpr (mo query)
  | JoinExpr larg rarg quals => JoinExpr (mo larg) (mo rarg) (mo quals)
  | SubLink subselect testexpr => SubLink (mo subselect) (mo testexpr)
  | BoolExpr op args => BoolExpr op (ml args)
  | AExpr lexpr rexpr => AExpr (mo lexpr) (mo rexpr)
  | ResTarget val => ResTarget (mo val)
  | FuncCall funcname args => FuncCall funcname (ml args)
  | ListNode items => ListNode (ml items)
  | NilNode => NilNode
  | _ => g n
  end.

Section WalkSpec.
Context {St : Type} (g : node -> node) (f : St -> node -> St).
Let fn (n : node) (s : St) := (g n, f s n, true).

Definition walks (n : node) : Prop :=
  forall s, walkNode fn n (s, true) = (map_node g n, (fold_left f (visits n) s, true)).

Lemma walk_list_spec l s :
  Forall walks l -> walk_list (walkNode fn) l (s, true) =
  (map (map_node g) l, (fold_left f (flat_map visits l) s, true)).
Proof.
  intros Hl. revert s. induction Hl as [|n l Hn Hl IH]; intros s; [done|].
  cbn [walk_list map flat_map]. rewrite Hn. fold (walk_list (walkNode fn)). by rewrite IH, fold_left_app.
Qed.

Lemma walk_opt_spec o s :
  Forall walks (olist o) -> walk_opt (walkNode fn) o (s, true) =
  (option_map (map_node g) o, (fold_left f (visits_opt o) s, true)).
Proof. destruct o as [n|]; [|done]. intros [Hn _]%list.Forall_cons. cbn [walk_opt]. by rewrite Hn. Qed.

Lemma walk_ctes_spec o s :
  Forall walks (default [] o) -> walk_ctes (walkNode fn) o (s, true) =
  (option_map (map (map_node g)) o, (fold_left f (visits_ctes o) s, true)).
Proof. destruct o as [l|]; [|done]. intros Hl. cbn [walk_ctes]. by rewrite walk_list_spec. Qed.

Lemma walk_rel_spec o s :
  walk_rel fn o (s, true) = (map_rel g o, (fold_left f (rel_node o) s, true)).
Proof. by destruct o. Qed.

Lemma walkNode_spec n : walks n.
Proof.
  induction n as [n Hk] using node_ind_kids. intros s. destruct n; try reflexivity; cbn [kids] in Hk;
    rewrite ?Forall_app in Hk; destruct_and?; cbn [walkNode negb];
    unfold fn at 1; cbn [fst snd];
    rewrite ?walk_rel_spec;
    repeat (rewrite ?walk_list_spec, ?walk_opt_spec, ?walk_ctes_spec by done);
    cbn [map_node visits app fold_left]; rewrite ?fold_left_app; reflexivity.
Qed.

Lemma WalkNodes_spec t s :
  WalkNodes fn t (s, true) = (map (option_map (map_node g)) t, (fold_left f (visits_tree t) s, true)).
Proof.
  revert s. induction t as [|o t IH]; intros s; [done|]. cbn [WalkNodes map].
  rewrite walk_opt_spec by (destruct o; repeat constructor; apply walkNode_spec).
  rewrite IH. unfold visits_tree. cbn [flat_map]. by rewrite fold_left_app.
Qed.
End WalkSpec.

Section SearchSpec.
Variable p : node -> bool.

Definition searches (n : node) : Prop := forall b,
  walkNode (search_fn p) n (b, negb b) = (n, (b || existsb p (visits n), negb (b || existsb p (visits n)))).

Lemma search_list l b :
  Forall searches l -> walk_list (walkNode (search_fn p)) l (b, negb b) =
  (l, (b || existsb p (flat_map visits l), negb (b || existsb p (flat_map visits l)))).
Proof.
  intros Hl. revert b. induction Hl as [|n l Hn Hl IH]; intros b; [by cbn; rewrite orb_false_r|].
  cbn [walk_list flat_map]. rewrite Hn. fold (walk_list (walkNode (search_fn p))).
  by rewrite IH, existsb_app, orb_assoc.
Qed.

Lemma search_opt o b :
  Forall searches (olist o) -> walk_opt (walkNode (search_fn p)) o (b, negb b) =
  (o, (b || existsb p (visits_opt o), negb (b || existsb p (visits_opt o)))).
Proof.
  destruct o as [n|]; [|by cbn; rewrite orb_false_r]. intros [Hn _]%list.Forall_cons. cbn [walk_opt]. by rewrite Hn.
Qed.

Lemma search_ctes o b :
  Forall searches (default [] o) -> walk_ctes (walkNode (search_fn p)) o (b, negb b) =
  (o, (b || existsb p (visits_ctes o), negb (b || existsb p (visits_ctes o)))).
Proof.
  destruct o as [l|]; [|by cbn; rewrite orb_false_r]. intros Hl. cbn [walk_ctes]. by rewrite search_list.
Qed.

Lemma search_rel o b :
  walk_rel (search_fn p) o (b, negb b) =
  (o, (b || existsb p (rel_node o), negb (b || existsb p (rel_node o)))).
Proof.
  destruct o as [rv|]; [|by cbn; rewrite orb_false_r]. destruct b; [done|]. cbn.
  unfold search_fn. by destruct (p (RangeVarNode rv)).
Qed.

Lemma walkNode_search n : searches n.
Proof.
  induction n as [n Hk] using node_ind_kids. intros b. destruct b; [by destruct n|].
  assert (search_fn p n false = (n, p n, negb (p n))) as Hfn by (unfold search_fn; by destruct (p n)).
  destruct n; try reflexivity; cbn [kids] in Hk; rewrite ?Forall_app in Hk; destruct_and?;
    cbn [walkNode negb]; rewrite Hfn; cbn [orb];
    rewrite ?search_rel;
    repeat (rewrite ?search_list, ?search_opt, ?search_ctes by done);
    cbn [visits app existsb]; rewrite ?existsb_app, ?orb_assoc, ?orb_false_r; reflexivity.
Qed.

Lemma WalkNodes_search t b :
  WalkNodes (search_fn p) t (b, negb b) =
  (t, (b || existsb p (visits_tree t), negb (b || existsb p (visits_tree t)))).
Proof.
  revert b. induction t as [|o t IH]; intros b; [by cbn; rewrite orb_false_r|]. cbn [WalkNodes].
  rewrite search_opt by (destruct o; repeat constructor; apply walkNode_search).
  rewrite IH. unfold visits_tree. cbn [flat_map]. by rewrite existsb_app, orb_assoc.
Qed.
End SearchSpec.

(** ** Writes *)

Section Writes.
Context `{UnicodeCase}.

Lemma hasSideEffectFuncCalls_spec n : hasSideEffectFuncCalls n = existsb is_side_effect_call (visits n).
Proof. unfold hasSideEffectFuncCalls. by rewrite (walkNode_search is_side_effect_call n false). Qed.

(** The statement kinds that always write. *)
Definition write_kind (n : node) : Prop :=
  match n with
  | InsertStmt _ _ _ | UpdateStmt _ _ _ _ _ | DeleteStmt _ _ _ _ | MergeStmt _ | CreateStmt _
  | DropStmt _ | TruncateStmt _ | CopyStmt _ true => True
  | PlainStmt k => k <> ListenStmt /\ k <> UnlistenStmt /\ k <> DeclareCursorStmt /\ k <> PrepareStmt
  | _ => False
  end.

(** What it means for a statement to write: by its kind, as an analyzed EXPLAIN
    of a write, through a CTE at any depth, by locking rows, or by calling a function
    with side effects anywhere the walk goes. *)
Inductive writes : node -> Prop :=
| writes_kind n : write_kind n -> writes n
| writes_explain options q :
    (exists d, DefElem d ∈ options /\ ToLower d = $"analyze") -> writes q ->
    writes (ExplainStmt options (Some q))
| writes_cte targets from wh ws vs gs hv la ra ctes lk q :
    CommonTableExpr (Some q) ∈ ctes -> writes q ->
    writes (SelectStmt targets from wh ws vs gs hv la ra (Some ctes) lk)
| writes_lock targets from wh ws vs gs hv la ra ctes lk :
    lk <> [] -> writes (SelectStmt targets from wh ws vs gs hv la ra ctes lk)
| writes_call targets from wh ws vs gs hv la ra ctes lk names args f :
    FuncCall names args ∈ visits (SelectStmt targets from wh ws vs gs hv la ra ctes lk) ->
    StringNode f ∈ names -> ToLower f ∈ sideEffectFuncNames ->
    writes (SelectStmt targets from wh ws vs gs hv la ra ctes lk).

Lemma existsb_elem {A} (f : A -> bool) l : existsb f l = true <-> exists x, x ∈ l /\ f x = true.
Proof. rewrite existsb_exists. by setoid_rewrite <- list_elem_of_In. Qed.

Lemma is_side_effect_call_spec n :
  is_side_effect_call n = true <->
  exists names args f, n = FuncCall names args /\ StringNode f ∈ names /\ ToLower f ∈ sideEffectFuncNames.
Proof.
  split.
  - destruct n; try done. cbn. intros (x & Hx & Hs)%existsb_elem. destruct x; try done.
    apply bool_decide_eq_true in Hs. eauto 10.
  - intros (names & args & f & -> & Hf & Hn). apply existsb_elem. exists (StringNode f).
    split; [done|]. by apply bool_decide_eq_true.
Qed.

Lemma size_elem m l : m ∈ l -> size m <= sizes l.
Proof.
  unfold sizes. induction l as [|x l IH]; [by intros ?%not_elem_of_nil|].
  intros [->|Hm]%elem_of_cons; simpl; [lia|]. specialize (IH Hm). lia.
Qed.

Lemma isWriteNode_complete n : isWriteNode n = true -> writes n.
Proof.
  remember (size n) as k eqn:Ek. revert n Ek. induction (lt_wf k) as [k _ IH]. intros n ->.
  destruct n; try done; try (intros _; by apply writes_kind).
  - cbn [isWriteNode]. rewrite !orb_true_iff. intros [[Hc|Hl]|Hf].
    + destruct ctes as [l|]; [|done]. apply existsb_elem in Hc as (x & Hx & Hw).
      destruct x as [| | | | | | | | | | | |[q|]| | | | | | | | | | | | |]; try done.
      eapply writes_cte; [done|]. eapply IH; [|done|done].
      pose proof (sizes_kids (SelectStmt targets from where_ windows values groups having larg rarg (Some l) locking)) as Hk.
      apply size_elem in Hx. change (size (CommonTableExpr (Some q))) with (2 + size q) in Hx.
      unfold sizes in *. cbn [kids] in Hk. rewrite !sum_list_with_app in Hk. cbn [default from_option id] in Hk. lia.
    + apply writes_lock. intros ->. done.
    + rewrite hasSideEffectFuncCalls_spec in Hf. apply existsb_elem in Hf as (x & Hx & Hs).
      apply is_side_effect_call_spec in Hs as (names & args & f & -> & Hn & Hin). by eapply writes_call.
  - cbn [isWriteNode]. intros ->. by apply writes_kind.
  - cbn [isWriteNode]. intros [Ha Hq]%andb_prop. destruct query as [q|]; [|done].
    apply existsb_elem in Ha as (x & Hx & Ha). destruct x; try done. apply bool_decide_eq_true in Ha.
    apply writes_explain; [eauto|]. eapply IH; [|done|done]. cbn. lia.
  - cbn [isWriteNode]. intros Hk. apply writes_kind. by destruct k.
Qed.

(** on a parse tree the classifier decides exactly whether some statement
    writes, in the inductive sense of [writes]. *)
Theorem classifyTree_spec t :
  classifyTree t = QueryWrite <-> exists n, Some n ∈ t /\ writes n.
Proof.
  unfold classifyTree.
  assert (forall n, isWriteNode n = true <-> writes n) as Hw.
  { intros n. split; [apply isWriteNode_complete|]. induction 1 as [n Hk|o q (d & Hd & Ha) Hq IH| | |].
    - destruct n as [| | | | | |? []| | | | |k| | | | | | | | | | | | | |]; try done. destruct Hk as (? & ? & ? & ?).
      by destruct k.
    - cbn [isWriteNode]. rewrite IH, andb_true_r. apply existsb_elem. exists (DefElem d).
      split; [done|by apply bool_decide_eq_true].
    - cbn [isWriteNode]. rewrite !orb_true_iff. left. left. apply existsb_elem. by eexists.
    - cbn [isWriteNode]. rewrite !orb_true_iff. left. right. by destruct lk.
    - cbn [isWriteNode]. rewrite !orb_true_iff. right. rewrite hasSideEffectFuncCalls_spec.
      apply existsb_elem. eexists. split; [done|]. apply is_side_effect_call_spec. eauto 10. }
  destruct (existsb _ t) eqn:E.
  - split; [|done]. intros _. apply existsb_elem in E as ([n|] & Hn & Hx); [|done]. rewrite Hw in Hx. eauto.
  - split; [done|]. intros (n & Hn & Hx%Hw).
    assert (existsb (fun o => match o with Some n => isWriteNode n | None => false end) t = true); [|congruence].
    apply existsb_elem. by exists (Some n).
Qed.
End Writes.

(** ** Tables of a tree *)

Section TreeTables.
Context `{UnicodeCase}.

Lemma add_tables_spec names acc :
  NoDup acc -> [] ∉ acc ->
  NoDup (fold_left add_table names acc) /\
  (forall x, x ∈ fold_left add_table names acc <-> x ∈ acc \/ (x <> [] /\ x ∈ ToLower <$> names)).
Proof.
  revert acc. induction names as [|n names IH]; intros acc Hnd Hne.
  { split; [done|]. intros x. simpl. split; [by left|]. intros [?|[_ ?%not_elem_of_nil]]; done. }
  cbn [fold_left fmap list_fmap]. unfold add_table at 2 4.
  destruct (decide (ToLower n = [] \/ ToLower n ∈ acc)) as [Hd|Hd].
  - replace (bool_decide (ToLower n = []) || bool_decide (ToLower n ∈ acc)) with true
      by (symmetry; apply orb_true_iff; rewrite !bool_decide_eq_true; tauto).
    destruct (IH acc Hnd Hne) as [H1 H2]. split; [done|]. intros x. rewrite H2, elem_of_cons.
    split; [tauto|]. intros [?|[Hx [->|?]]]; [tauto| |tauto]. destruct Hd; tauto.
  - replace (bool_decide (ToLower n = []) || bool_decide (ToLower n ∈ acc)) with false
      by (symmetry; apply orb_false_iff; rewrite !bool_decide_eq_false; tauto).
    destruct (IH (acc ++ [ToLower n])) as [H1 H2].
    + apply list.NoDup_app. split; [done|]. split; [|apply NoDup_singleton]. set_solver.
    + set_solver.
    + split; [done|]. intros x. rewrite H2, elem_of_app, !elem_of_cons, elem_of_nil.
      split; [intros [[?|[->|[]]]|?]; tauto|tauto].
Qed.

Lemma fold_read_tables l acc :
  fold_left (fun tables n => match n with RangeVarNode rv => add_table tables (relname rv) | _ => tables end) l acc =
  fold_left add_table (flat_map (fun n => match n with RangeVarNode rv => [relname rv] | _ => [] end) l) acc.
Proof.
  revert acc. induction l as [|n l IH]; intros acc; [done|]. cbn [fold_left flat_map].
  rewrite fold_left_app, IH. by destruct n.
Qed.

(** the tables a parsed query reads are exactly the relation names, in lower
    case, of the RangeVar nodes the walk visits, each once. *)
Theorem extractReadTablesFromTree_spec t :
  NoDup (extractReadTablesFromTree t) /\
  forall x, x ∈ extractReadTablesFromTree t <->
    x <> [] /\ exists rv, RangeVarNode rv ∈ visits_tree t /\ x = ToLower (relname rv).
Proof.
  unfold extractReadTablesFromTree, read_table_fn.
  rewrite (WalkNodes_spec (fun n => n)). cbn [fst snd]. rewrite fold_read_tables.
  destruct (add_tables_spec (flat_map (fun n => match n with RangeVarNode rv => [relname rv] | _ => [] end)
    (visits_tree t)) []) as [H1 H2]; [constructor|apply not_elem_of_nil|].
  split; [done|]. intros x. rewrite H2. split.
  - intros [?%not_elem_of_nil|[Hx (r & -> & Hr)%list_elem_of_fmap]]; [done|]. split; [done|].
    apply list_elem_of_In, in_flat_map in Hr as (n & Hn & Hr). destruct n; try done.
    destruct Hr as [<-|[]]. exists rv. split; [by apply list_elem_of_In|done].
  - intros [Hx (rv & Hn & ->)]. right. split; [done|]. apply list_elem_of_fmap_2.
    apply list_elem_of_In, in_flat_map. exists (RangeVarNode rv). split; [by apply list_elem_of_In|by left].
Qed.
End TreeTables.

(** ** What the walk does not reach *)

Definition select_of (targets from : list node) : node :=
  SelectStmt targets from None [] [] [] None None None None [].

(** A call under a node the walk has no case for, such as the cast of
    [SELECT nextval('s')::int], is not seen. *)
Example cast_hides_call :
  classifyTree (H := ascii_case) [Some (select_of [ResTarget (Some (FuncCall [StringNode $"nextval"] []))] [])] = QueryWrite /\
  classifyTree (H := ascii_case)
    [Some (select_of [ResTarget (Some (OtherNode [FuncCall [StringNode $"nextval"] []]))] [])] = QueryRead.
Proof. by vm_compute. Qed.

(** Nor is a table under one, such as the subselect of [FROM (SELECT 1 FROM t) x]. *)
Example subselect_hides_table :
  let rv := {| schemaname := []; relname := $"t"; relpersistence := $"p" |} in
  extractReadTablesFromTree (H := ascii_case) [Some (select_of [] [RangeVarNode rv])] = [$"t"] /\
  extractReadTablesFromTree (H := ascii_case) [Some (select_of [] [OtherNode [select_of [] [RangeVarNode rv]]])] = [].
Proof. by vm_compute. Qed.

(** A parser for examples: it knows one tree. *)
Definition one_tree (t : tree) : PgQuery := {| pg_parse := fun _ => Some t; pg_scan_comments := fun _ => Some [] |}.
