(* ===== verification/Firewall.v ===== *)
(** * Query firewall (internal/router/firewall.go)

    Which statements the firewall blocks, on parse trees. *)

From S2P Require Import Prelude GoStrings SqlLex Classify Tables Ast.

Inductive FirewallRule := RuleDeleteNoWhere | RuleUpdateNoWhere | RuleDropTable | RuleTruncate.

Record FirewallConfig := {
  fw_Enabled : bool;
  fw_BlockDeleteWithoutWhere : bool;
  fw_BlockUpdateWithoutWhere : bool;
  fw_BlockDropTable : bool;
  fw_BlockTruncate : bool
}.

(** A blocked query: the rule and the table the message names. *)
Record Blocked := { fw_rule : FirewallRule; fw_table : bytes }.

(** [FirewallResult]: [None] is not blocked. *)
Definition FirewallResult := option Blocked.

Definition rel_name (o : option RangeVar) : bytes :=
  match o with Some rv => relname rv | None => [] end.

Fixpoint checkNode (cfg : FirewallConfig) (n : node) : FirewallResult :=
  match n with
  | DeleteStmt rel where_ _ _ =>
      match where_ with
      | None => if fw_BlockDeleteWithoutWhere cfg
                then Some {| fw_rule := RuleDeleteNoWhere; fw_table := rel_name rel |} else None
      | Some _ => None
      end
  | UpdateStmt rel _ where_ _ _ =>
      match where_ with
      | None => if fw_BlockUpdateWithoutWhere cfg
                then Some {| fw_rule := RuleUpdateNoWhere; fw_table := rel_name rel |} else None
      | Some _ => None
      end
  | DropStmt _ => if fw_BlockDropTable cfg then Some {| fw_rule := RuleDropTable; fw_table := [] |} else None
  | TruncateStmt _ => if fw_BlockTruncate cfg then Some {| fw_rule := RuleTruncate; fw_table := [] |} else None
  | SelectStmt _ _ _ _ _ _ _ _ _ (Some ctes) _ =>
      (fix go (l : list node) : FirewallResult :=
         match l with
         | [] => None
         | CommonTableExpr (Some q) :: l' =>
             match checkNode cfg q with Some b => Some b | None => go l' end
         | _ :: l' => go l'
         end) ctes
  | _ => None
  end.

Fixpoint checkFirewallTree (t : tree) (cfg : FirewallConfig) : FirewallResult :=
  match t with
  | [] => None
  | None :: t' => checkFirewallTree t' cfg
  | Some stmt :: t' =>
      match checkNode cfg stmt with
      | Some b => Some b
      | None => checkFirewallTree t' cfg
      end
  end.

Definition CheckFirewallWithTree (pq : ParsedQuery) (cfg : FirewallConfig) : FirewallResult :=
  if negb (fw_Enabled cfg) then None else checkFirewallTree (pq_Tree pq) cfg.

(** A query that does not parse is let through. *)
Definition CheckFirewall `{PgQuery} (query : bytes) (cfg : FirewallConfig) : FirewallResult :=
  if negb (fw_Enabled cfg) then None
  else match ParseSQL query with
       | None => None
       | Some t => checkFirewallTree t cfg
       end.

(** ** What is blocked *)

(** A statement that an enabled rule forbids. *)
Definition forbidden (cfg : FirewallConfig) (n : node) : bool :=
  match n with
  | DeleteStmt _ None _ _ => fw_BlockDeleteWithoutWhere cfg
  | UpdateStmt _ _ None _ _ => fw_BlockUpdateWithoutWhere cfg
  | DropStmt _ => fw_BlockDropTable cfg
  | TruncateStmt _ => fw_BlockTruncate cfg
  | _ => false
  end.

(** [m] is [n], or the query of a CTE of [n], at any depth, of SELECTs. *)
Inductive in_ctes : node -> node -> Prop :=
| in_ctes_refl n : in_ctes n n
| in_ctes_step targets from wh ws vs gs hv la ra ctes lk q m :
    CommonTableExpr (Some q) ∈ ctes -> in_ctes q m ->
    in_ctes (SelectStmt targets from wh ws vs gs hv la ra (Some ctes) lk) m.

(** The loop over the CTEs of [checkNode]. *)
Definition check_ctes (cfg : FirewallConfig) : list node -> FirewallResult :=
  fix go l :=
    match l with
    | [] => None
    | CommonTableExpr (Some q) :: l' =>
        match checkNode cfg q with Some b => Some b | None => go l' end
    | _ :: l' => go l'
    end.

Lemma check_ctes_None cfg l :
  check_ctes cfg l = None <-> forall q, CommonTableExpr (Some q) ∈ l -> checkNode cfg q = None.
Proof.
  induction l as [|x l IH]; [split; [intros _ q Hq; by apply not_elem_of_nil in Hq|done]|].
  destruct x as [| | | | | | | | | | | |[q|]| | | | | | | | | | | | |]; cbn [check_ctes];
    fold (check_ctes cfg);
    try (rewrite IH; split; intros Hq q' Hin;
         [by apply elem_of_cons in Hin as [?|?]; [discriminate|apply Hq]|apply Hq, elem_of_cons; by right]).
  destruct (checkNode cfg q) as [b|] eqn:E.
  - split; [done|]. intros Hq. rewrite <- E. apply Hq, elem_of_cons. by left.
  - rewrite IH. split; intros Hq q' Hin.
    + apply elem_of_cons in Hin as [[= ->]|?]; [done|by apply Hq].
    + apply Hq, elem_of_cons. by right.
Qed.

Lemma checkNode_None cfg n :
  checkNode cfg n = None <-> forall m, in_ctes n m -> forbidden cfg m = false.
Proof.
  remember (size n) as k eqn:Ek. revert n Ek. induction (lt_wf k) as [k _ IH]. intros n ->.
  assert (forall n, (forall m, in_ctes n m -> m = n) ->
    (checkNode cfg n = None <-> forbidden cfg n = false) ->
    (checkNode cfg n = None <-> forall m, in_ctes n m -> forbidden cfg m = false)) as Hleaf.
  { intros n' Hm ->. split; [by intros Hf m ->%Hm|]. intros Hf. apply Hf, in_ctes_refl. }
  destruct n as [targets from wh ws vs gs hv la ra [ctes|] lk| | | | | | | | | | | | | | | | | | | | | | | | |];
    try (apply Hleaf; [by inversion 1|]; cbn; by repeat case_match).
  change (checkNode cfg (SelectStmt targets from wh ws vs gs hv la ra (Some ctes) lk)) with (check_ctes cfg ctes).
  rewrite check_ctes_None.
  assert (forall q, CommonTableExpr (Some q) ∈ ctes ->
    checkNode cfg q = None <-> forall m, in_ctes q m -> forbidden cfg m = false) as Hq.
  { intros q Hin. eapply IH; [|done].
    pose proof (sizes_kids (SelectStmt targets from wh ws vs gs hv la ra (Some ctes) lk)) as Hk.
    apply size_elem in Hin. change (size (CommonTableExpr (Some q))) with (2 + size q) in Hin.
    unfold sizes in *. cbn [kids] in Hk. rewrite !sum_list_with_app in Hk. cbn [default from_option id] in Hk. lia. }
  split.
  - intros Hc m Hm. inversion Hm as [|? ? ? ? ? ? ? ? ? ? ? q ? Hin Hqm]; subst; [done|].
    by apply (proj1 (Hq q Hin) (Hc q Hin)).
  - intros Hf q Hin. apply Hq; [done|]. intros m Hm. apply Hf. by eapply in_ctes_step.
Qed.

(** C13: an enabled firewall lets a parsed query through exactly when no statement of
    it, and no query of a CTE of its SELECTs at any depth, is one an enabled rule
    forbids (DELETE or UPDATE without WHERE, DROP, TRUNCATE). The CTEs of other statements are not looked at, and a query
    that does not parse is let through. *)
Theorem CheckFirewall_spec `{PgQuery} query cfg t :
  fw_Enabled cfg = true -> ParseSQL query = Some t ->
  (CheckFirewall query cfg = None <->
   forall n m, Some n ∈ t -> in_ctes n m -> forbidden cfg m = false).
Proof.
  intros He Ht. unfold CheckFirewall. rewrite He, Ht. cbn [negb]. clear Ht.
  induction t as [|[n|] t IH]; cbn [checkFirewallTree].
  - split; [|done]. intros _ n m Hn. by apply not_elem_of_nil in Hn.
  - destruct (checkNode cfg n) eqn:E.
    + split; [done|]. intros Hf. rewrite <- E. apply checkNode_None. intros m. apply Hf, elem_of_cons. by left.
    + rewrite IH. split; intros Hf n' m Hn.
      * apply elem_of_cons in Hn as [[= ->]|Hn]; [by apply checkNode_None|by apply Hf].
      * apply Hf, elem_of_cons. by right.
  - rewrite IH. split; intros Hf n' m Hn.
    + apply elem_of_cons in Hn as [?|Hn]; [done|by apply Hf].
    + apply Hf, elem_of_cons. by right.
Qed.

Definition all_rules : FirewallConfig := Build_FirewallConfig true true true true true.

Definition delete_all : node := DeleteStmt (Some {| schemaname := []; relname := $"t"; relpersistence := $"p" |}) None [] None.

Lemma CheckFirewall_spec_witness :
  CheckFirewall (H := one_tree [Some delete_all]) $"DELETE FROM t" all_rules = None <->
  forall n m, Some n ∈ [Some delete_all] -> in_ctes n m -> forbidden all_rules m = false.
Proof. by apply (CheckFirewall_spec (H := one_tree [Some delete_all])). Defined.

(** The CTEs of an INSERT and the query of an EXPLAIN ANALYZE are not checked. *)
Example firewall_bypass :
  checkNode all_rules (InsertStmt None None (Some [CommonTableExpr (Some delete_all)])) = None /\
  checkNode all_rules (ExplainStmt [DefElem $"analyze"] (Some delete_all)) = None /\
  checkNode all_rules delete_all = Some {| fw_rule := RuleDeleteNoWhere; fw_table := $"t" |}.
Proof. by vm_compute. Qed.
