(* ===== verification/Rewriter.v ===== *)
(** * Query rewriting (internal/router/rewriter.go)

    Rewrite rules applied to parse trees in place: renaming tables and columns,
    qualifying tables with a schema, and adding a condition to the WHERE clause of a statement. What the
    condition reaches is said with PostgreSQL's reading of the tree: a set operation and a VALUES list
    have no WHERE clause of their own. *)

From S2P Require Import Prelude GoStrings SqlLex Classify Tables Ast.

Inductive RewriteActionType :=
| ActionTableRename | ActionColumnRename | ActionAddWhere | ActionSchemaQualify | ActionUnknown.

Record RewriteRuleMatch := {
  m_Tables : list bytes;
  m_StatementType : list bytes;
  m_QueryPattern : bytes
}.

Record RewriteAction := { a_Type : RewriteActionType; a_From : bytes; a_To : bytes; a_Condition : bytes }.

Record RewriteRule := {
  r_Name : bytes;
  r_Enabled : bool;
  r_Match : RewriteRuleMatch;
  r_Actions : list RewriteAction
}.

Record RewriteResult := { Rewritten : bool; RewrittenSQL : bytes; AppliedRules : list bytes }.

(** [RewriteResult{}]. *)
Definition not_rewritten : RewriteResult := {| Rewritten := false; RewrittenSQL := []; AppliedRules := [] |}.

(** A rule with its compiled pattern, [None] when it has none. *)
Record compiledRule := { cr_rule : RewriteRule; cr_pattern : option (bytes -> bool) }.

(** What the rewriter uses of the packages regexp (a pattern of the configuration
    compiles to a matcher, or not) and pg_query. *)
Class RewriteDeps := {
  regexp_compile : bytes -> option (bytes -> bool);
  pg_deparse : tree -> option bytes
}.

Section Rewriter.
Context `{UnicodeCase} `{PgQuery} `{RewriteDeps}.

Fixpoint NewRewriter (rules : list RewriteRule) : list compiledRule :=
  match rules with
  | [] => []
  | r :: rules' =>
      if negb (r_Enabled r) then NewRewriter rules'
      else
        match m_QueryPattern (r_Match r) with
        | [] => {| cr_rule := r; cr_pattern := None |} :: NewRewriter rules'
        | p =>
            match regexp_compile p with
            | None => NewRewriter rules'
            | Some re => {| cr_rule := r; cr_pattern := Some re |} :: NewRewriter rules'
            end
        end
  end.

Definition Rules (rw : list compiledRule) : list bytes := (fun cr => r_Name (cr_rule cr)) <$> rw.

(** ** Matching *)

Definition nodeStmtType (n : node) : bytes :=
  match n with
  | SelectStmt _ _ _ _ _ _ _ _ _ _ _ => $"SELECT"
  | InsertStmt _ _ _ => $"INSERT"
  | UpdateStmt _ _ _ _ _ => $"UPDATE"
  | DeleteStmt _ _ _ _ => $"DELETE"
  | _ => []
  end.

Definition stmtTypeMatches (t : tree) (types : list bytes) : bool :=
  existsb (fun o => match o with
                    | Some stmt => existsb (EqualFold (nodeStmtType stmt)) types
                    | None => false
                    end) t.

(** The test of the callback of [tablesMatchRule]. *)
Definition table_matches (tables : list bytes) (n : node) : bool :=
  match n with
  | RangeVarNode rv =>
      let tableSet := ToLower <$> tables in
      let name := ToLower (relname rv) in
      bool_decide (name ∈ tableSet)
      || (negb (bool_decide (schemaname rv = []))
          && bool_decide (ToLower (schemaname rv) ++ "."%byte :: name ∈ tableSet))
  | _ => false
  end.

Definition tablesMatchRule (t : tree) (tables : list bytes) : bool :=
  (WalkNodes (search_fn (table_matches tables)) t (false, true)).2.1.

Definition ruleMatches (query : bytes) (t : tree) (cr : compiledRule) : bool :=
  let m := r_Match (cr_rule cr) in
  match cr_pattern cr with Some re => re query | None => true end
  && match m_StatementType m with [] => true | types => stmtTypeMatches t types end
  && match m_Tables m with [] => true | tables => tablesMatchRule t tables end.

(** ** Actions *)

(** The callback that changes the RangeVar nodes satisfying [c] by [f]: the node
    afterwards, and whether it was changed. The state is [changed]. *)
Definition change_rv (c : RangeVar -> bool) (f : RangeVar -> RangeVar) (n : node) : node :=
  match n with
  | RangeVarNode rv => if c rv then RangeVarNode (f rv) else n
  | _ => n
  end.
Definition rv_hit (c : RangeVar -> bool) (n : node) : bool :=
  match n with RangeVarNode rv => c rv | _ => false end.
Definition rv_fn (c : RangeVar -> bool) (f : RangeVar -> RangeVar) (n : node) (changed : bool) : node * bool * bool :=
  (change_rv c f n, changed || rv_hit c n, true).

Definition renames (oldName : bytes) (rv : RangeVar) : bool := bool_decide (ToLower (relname rv) = ToLower oldName).
Definition rename (newName : bytes) (rv : RangeVar) : RangeVar :=
  {| schemaname := schemaname rv; relname := newName; relpersistence := relpersistence rv |}.
Definition qualifies (tableName : bytes) (rv : RangeVar) : bool :=
  bool_decide (ToLower (relname rv) = ToLower tableName) && bool_decide (schemaname rv = []).
Definition qualify (schemaName : bytes) (rv : RangeVar) : RangeVar :=
  {| schemaname := schemaName; relname := relname rv; relpersistence := relpersistence rv |}.

Definition rewriteTableName (t : tree) (oldName newName : bytes) : tree * bool :=
  let '(t', (changed, _)) := WalkNodes (rv_fn (renames oldName) (rename newName)) t (false, true) in
  (t', changed).

Definition rewriteSchemaQualify (t : tree) (tableName schemaName : bytes) : tree * bool :=
  let '(t', (changed, _)) := WalkNodes (rv_fn (qualifies tableName) (qualify schemaName)) t (false, true) in
  (t', changed).

(** A field of a column reference, renamed. *)
Definition rename_field (oldName newName : bytes) (n : node) : node :=
  match n with
  | StringNode s => if bool_decide (ToLower s = ToLower oldName) then StringNode newName else n
  | _ => n
  end.
Definition field_matches (oldName : bytes) (n : node) : bool :=
  match n with StringNode s => bool_decide (ToLower s = ToLower oldName) | _ => false end.

Definition rename_column (oldName newName : bytes) (n : node) : node :=
  match n with ColumnRef fields => ColumnRef (map (rename_field oldName newName) fields) | _ => n end.
Definition column_hit (oldName : bytes) (n : node) : bool :=
  match n with ColumnRef fields => existsb (field_matches oldName) fields | _ => false end.
Definition column_fn (oldName newName : bytes) (n : node) (changed : bool) : node * bool * bool :=
  (rename_column oldName newName n, changed || column_hit oldName n, true).

Definition rewriteColumnName (t : tree) (oldName newName : bytes) : tree * bool :=
  let '(t', (changed, _)) := WalkNodes (column_fn oldName newName) t (false, true) in (t', changed).

(** [Err] is a parse error; [Ok None] a nil node without an error. *)
Definition parseCondition (condition : bytes) : res unit (option node) :=
  match pg_parse ($"SELECT 1 WHERE " ++ condition) with
  | None => Err tt
  | Some t =>
      Ok ((fix go (l : tree) : option node :=
             match l with
             | [] => None
             | Some (SelectStmt _ _ (Some wc) _ _ _ _ _ _ _ _) :: _ => Some wc
             | _ :: l' => go l'
             end) t)
  end.

Definition andWhere (existing newCond : option node) : option node :=
  match existing with
  | None => newCond
  | Some e => Some (BoolExpr AND_EXPR [e; default NilNode newCond])
  end.

(** The statement with the condition added, when it is of a kind that gets it. *)
Definition add_where_stmt (cond : option node) (n : node) : option node :=
  match n with
  | SelectStmt ts fr wh ws vs gs hv la ra ct lk => Some (SelectStmt ts fr (andWhere wh cond) ws vs gs hv la ra ct lk)
  | UpdateStmt rel ts wh fr ct => Some (UpdateStmt rel ts (andWhere wh cond) fr ct)
  | DeleteStmt rel wh us ct => Some (DeleteStmt rel (andWhere wh cond) us ct)
  | _ => None
  end.

(** The loop over the statements: a parse error of the condition ends it, with the
    result false. *)
Fixpoint rewriteAddWhere (t : tree) (condition : bytes) (changed : bool) : tree * bool :=
  match t with
  | [] => ([], changed)
  | None :: t' => let '(t'', c) := rewriteAddWhere t' condition changed in (None :: t'', c)
  | Some stmt :: t' =>
      match parseCondition condition with
      | Ok cond =>
          match add_where_stmt cond stmt with
          | Some stmt' => let '(t'', c) := rewriteAddWhere t' condition true in (Some stmt' :: t'', c)
          | None => let '(t'', c) := rewriteAddWhere t' condition changed in (Some stmt :: t'', c)
          end
      | _ => (t, false)
      end
  end.

Definition applyAction (t : tree) (action : RewriteAction) : tree * bool :=
  match a_Type action with
  | ActionTableRename => rewriteTableName t (a_From action) (a_To action)
  | ActionColumnRename => rewriteColumnName t (a_From action) (a_To action)
  | ActionAddWhere => rewriteAddWhere t (a_Condition action) false
  | ActionSchemaQualify => rewriteSchemaQualify t (a_From action) (a_To action)
  | ActionUnknown => (t, false)
  end.

(** The actions of a rule in order; [ruleModified]. *)
Fixpoint apply_actions (t : tree) (actions : list RewriteAction) (modified : bool) : tree * bool :=
  match actions with
  | [] => (t, modified)
  | a :: actions' => let '(t', m) := applyAction t a in apply_actions t' actions' (modified || m)
  end.

(** The loop of [Apply] over the rules, which share the tree. *)
Fixpoint apply_rules (query : bytes) (t : tree) (rules : list compiledRule) (applied : list bytes)
  : tree * list bytes :=
  match rules with
  | [] => (t, applied)
  | cr :: rules' =>
      if negb (ruleMatches query t cr) then apply_rules query t rules' applied
      else
        let '(t', m) := apply_actions t (r_Actions (cr_rule cr)) false in
        apply_rules query t' rules' (if m then applied ++ [r_Name (cr_rule cr)] else applied)
  end.

Definition Apply (rw : list compiledRule) (query : bytes) : RewriteResult :=
  match rw with
  | [] => not_rewritten
  | _ =>
      match ParseSQL query with
      | None => not_rewritten
      | Some t =>
          let '(t', applied) := apply_rules query t rw [] in
          match applied with
          | [] => not_rewritten
          | _ =>
              match pg_deparse t' with
              | None => not_rewritten
              | Some sql => {| Rewritten := true; RewrittenSQL := sql; AppliedRules := applied |}
              end
          end
      end
  end.
End Rewriter.

(** ** Renaming tables *)

Definition rangevars (l : list node) : list RangeVar :=
  flat_map (fun n => match n with RangeVarNode rv => [rv] | _ => [] end) l.

Lemma rangevars_app l1 l2 : rangevars (l1 ++ l2) = rangevars l1 ++ rangevars l2.
Proof. apply flat_map_app. Qed.

Definition apply_rv (c : RangeVar -> bool) (f : RangeVar -> RangeVar) (rv : RangeVar) : RangeVar :=
  if c rv then f rv else rv.

Section Rename.
Variables (c : RangeVar -> bool) (f : RangeVar -> RangeVar).
Let g := change_rv c f.
Let r := apply_rv c f.

Definition renamed (n : node) : Prop := rangevars (visits (map_node g n)) = r <$> rangevars (visits n).

Lemma renamed_list l :
  Forall renamed l -> rangevars (flat_map visits (map (map_node g) l)) = r <$> rangevars (flat_map visits l).
Proof.
  induction 1 as [|n l Hn Hl IH]; [done|]. cbn [map flat_map].
  by rewrite !rangevars_app, fmap_app, Hn, IH.
Qed.

Lemma renamed_opt o :
  Forall renamed (olist o) -> rangevars (visits_opt (option_map (map_node g) o)) = r <$> rangevars (visits_opt o).
Proof. destruct o as [n|]; [|done]. by intros [Hn _]%list.Forall_cons. Qed.

Lemma renamed_ctes o :
  Forall renamed (default [] o) ->
  rangevars (visits_ctes (option_map (map (map_node g)) o)) = r <$> rangevars (visits_ctes o).
Proof. destruct o as [l|]; [|done]. apply renamed_list. Qed.

Lemma renamed_rel o : rangevars (rel_node (map_rel g o)) = r <$> rangevars (rel_node o).
Proof. destruct o as [rv|]; [|done]. unfold g, r, apply_rv. cbn. by destruct (c rv). Qed.

Lemma map_node_rangevars n : renamed n.
Proof.
  induction n as [n Hk] using node_ind_kids. unfold renamed. destruct n; try reflexivity; cbn [kids] in Hk;
    rewrite ?Forall_app in Hk; destruct_and?; cbn [map_node visits app];
    try (match goal with |- rangevars (?m :: ?l) = _ <$> rangevars (?m' :: ?l') =>
           change (rangevars (m :: l)) with (rangevars l); change (rangevars (m' :: l')) with (rangevars l') end);
    repeat match goal with
    | |- context [match ?o with Some m => visits m | None => [] end] =>
        change (match o with Some m => visits m | None => [] end) with (visits_opt o)
    | |- context [match ?o with Some l => flat_map visits l | None => [] end] =>
        change (match o with Some l => flat_map visits l | None => [] end) with (visits_ctes o)
    end;
    rewrite ?rangevars_app, ?fmap_app, ?renamed_rel;
    repeat (rewrite ?renamed_list, ?renamed_opt, ?renamed_ctes by done); try done.
  unfold g, r, apply_rv. cbn. by destruct (c rv).
Qed.

Lemma map_tree_rangevars (t : tree) :
  rangevars (visits_tree (map (option_map (map_node g)) t)) = r <$> rangevars (visits_tree t).
Proof.
  induction t as [|o t IH]; [done|]. unfold visits_tree in *. cbn [map flat_map].
  rewrite !rangevars_app, fmap_app, IH, renamed_opt; [done|]. destruct o; repeat constructor. apply map_node_rangevars.
Qed.

Lemma rv_walk t :
  WalkNodes (rv_fn c f) t (false, true) =
  (map (option_map (map_node g)) t, (existsb c (rangevars (visits_tree t)), true)).
Proof.
  unfold rv_fn. rewrite (WalkNodes_spec (change_rv c f) (fun s n => s || rv_hit c n)). do 2 f_equal.
  assert (forall l s, fold_left (fun s n => s || rv_hit c n) l s = s || existsb c (rangevars l)) as Hf.
  { induction l as [|n l IH]; intros s; [by rewrite orb_false_r|]. cbn [fold_left].
    rewrite IH. change (n :: l) with ([n] ++ l). rewrite rangevars_app, existsb_app, orb_assoc.
    f_equal. f_equal. destruct n; try done. cbn. by rewrite orb_false_r. }
  apply (Hf _ false).
Qed.
End Rename.

(** renaming a table changes the references the walk visits, all of them and
    nothing else about them: the relations of the new tree are those of the old one,
    in order, with the new name where the old name matched up to case. It reports a
    change exactly when a reference matched, and afterwards none does, unless the new
    name itself does. *)
Theorem rewriteTableName_spec `{UnicodeCase} t oldName newName :
  let '(t', changed) := rewriteTableName t oldName newName in
  rangevars (visits_tree t') =
    (fun rv => if renames oldName rv then rename newName rv else rv) <$> rangevars (visits_tree t) /\
  changed = existsb (renames oldName) (rangevars (visits_tree t)) /\
  (ToLower newName <> ToLower oldName -> existsb (renames oldName) (rangevars (visits_tree t')) = false).
Proof.
  unfold rewriteTableName. rewrite rv_walk, map_tree_rangevars. split; [done|]. split; [done|].
  intros Hne. induction (rangevars (visits_tree t)) as [|rv l IH]; [done|]. cbn [fmap list_fmap existsb].
  rewrite IH, orb_false_r. unfold apply_rv. destruct (renames oldName rv) eqn:E; [|done].
  by apply bool_decide_eq_false.
Qed.

(** ** Adding conditions *)

(** The statements that get the condition, with another WHERE. *)
Definition with_where (wh : option node) (n : node) : node :=
  match n with
  | SelectStmt ts fr _ ws vs gs hv la ra ct lk => SelectStmt ts fr wh ws vs gs hv la ra ct lk
  | UpdateStmt rel ts _ fr ct => UpdateStmt rel ts wh fr ct
  | DeleteStmt rel _ us ct => DeleteStmt rel wh us ct
  | _ => n
  end.

Definition gets_where (n : node) : bool :=
  match n with SelectStmt _ _ _ _ _ _ _ _ _ _ _ | UpdateStmt _ _ _ _ _ | DeleteStmt _ _ _ _ => true | _ => false end.

(** The WHERE that filters the rows of a statement. A set operation (UNION and the like) and a VALUES
    list have none: the node has the field, but the rows are those of the two sides or of the list. *)
Definition where_of (n : node) : option (option node) :=
  match n with
  | SelectStmt _ _ wh _ [] _ _ None None _ _ => Some wh
  | UpdateStmt _ _ wh _ _ => Some wh
  | DeleteStmt _ wh _ _ => Some wh
  | _ => None
  end.

(** The rows a WHERE selects, given what a condition means on a row. *)
Definition selects {Row : Type} (holds : node -> Row -> Prop) (wh : option node) (x : Row) : Prop :=
  match wh with None => True | Some n => holds n x end.

(** A statement and what it becomes: a simple SELECT, an UPDATE or a DELETE is restricted to
    the rows of the condition and keeps the rest; of a set operation or a VALUES list the sides and
    the rows stay as they are; any other statement is left alone. *)
Definition restricted {Row : Type} (holds : node -> Row -> Prop) (cond : node) (o o' : option node) : Prop :=
  match o, o' with
  | Some n, Some n' =>
      if gets_where n then
        exists wh', n' = with_where wh' n /\
          match where_of n with Some wh => forall x, selects holds wh' x <-> selects holds wh x /\ holds cond x | None => True end
      else n' = n
  | None, None => True
  | _, _ => False
  end.

Section AddWhere.
Context `{PgQuery} {Row : Type} (holds : node -> Row -> Prop).
Hypothesis holds_and : forall a b x, holds (BoolExpr AND_EXPR [a; b]) x <-> holds a x /\ holds b x.

(** C14: when the condition parses, adding it restricts every top-level UPDATE, DELETE and
    SELECT that is neither a set operation nor a VALUES list to the rows that also satisfy the condition,
    changes nothing else of such a statement, and leaves every other
    statement as it is, for any meaning of conditions in which AND is conjunction;
    it reports a change exactly when there was a SELECT, UPDATE or DELETE. Subqueries, common
    table expressions and the sides of a set operation are not restricted. *)
Theorem rewriteAddWhere_restricts t condition cond :
  parseCondition condition = Ok (Some cond) ->
  let '(t', changed) := rewriteAddWhere t condition false in
  Forall2 (restricted holds cond) t t' /\
  changed = existsb (fun o => match o with Some n => gets_where n | None => false end) t.
Proof.
  intros Hc.
  assert (forall b, let '(t', changed) := rewriteAddWhere t condition b in
    Forall2 (restricted holds cond) t t' /\
    changed = b || existsb (fun o => match o with Some n => gets_where n | None => false end) t) as Hgen;
    [|apply (Hgen false)].
  assert (forall wh x, selects holds (andWhere wh (Some cond)) x <-> selects holds wh x /\ holds cond x) as Hand.
  { intros [n|] x; cbn; [apply holds_and|tauto]. }
  induction t as [|[n|] t IH]; intros b; cbn [rewriteAddWhere].
  - split; [constructor|by rewrite orb_false_r].
  - rewrite Hc.
    destruct n; cbn [add_where_stmt];
      match goal with |- context [rewriteAddWhere t condition ?b'] =>
        specialize (IH b'); destruct (rewriteAddWhere t condition b') as [t'' c'] end;
      destruct IH as [IH1 ->]; (split; [constructor; [|done]|]); try done; cbn; rewrite ?orb_true_r; try done;
      eexists; (split; [reflexivity|]); repeat case_match; simplify_eq; auto.
  - specialize (IH b). destruct (rewriteAddWhere t condition b) as [t'' c']. destruct IH as [IH1 ->].
    split; [by constructor|done].
Qed.
End AddWhere.

(** A meaning of conditions for the example: a column reference [x] holds of the
    rows that contain [x]. *)
Fixpoint in_row (n : node) (row : list bytes) : Prop :=
  match n with
  | BoolExpr AND_EXPR args => fold_right (fun a P => in_row a row /\ P) True args
  | ColumnRef [StringNode s] => s ∈ row
  | _ => False
  end.

Definition tenant_cond : node := ColumnRef [StringNode $"tenant"].

Definition tenant_tree : tree :=
  [Some (DeleteStmt None None [] None); Some (TruncateStmt [])].

Lemma rewriteAddWhere_restricts_witness :
  let P := one_tree [Some (SelectStmt [] [] (Some tenant_cond) [] [] [] None None None None [])] in
  let '(t', changed) := rewriteAddWhere (H0 := P) tenant_tree $"tenant" false in
  Forall2 (restricted in_row tenant_cond) tenant_tree t' /\ changed = true.
Proof.
  apply (rewriteAddWhere_restricts
    (H := one_tree [Some (SelectStmt [] [] (Some tenant_cond) [] [] [] None None None None [])]) in_row).
  - intros a b x. cbn. tauto.
  - reflexivity.
Defined.

(** The rows of a SELECT, a set operation being a UNION. *)
Fixpoint yields {Row : Type} (holds : node -> Row -> Prop) (n : node) (x : Row) : Prop :=
  match n with
  | SelectStmt _ _ wh _ _ _ _ la ra _ _ =>
      match la, ra with
      | Some l, Some r => yields holds l x \/ yields holds r x
      | _, _ => selects holds wh x
      end
  | _ => False
  end.

(** The condition does not reach the sides of a UNION: a row of another tenant is still read. *)
Example union_unrestricted :
  let P := one_tree [Some (SelectStmt [] [] (Some tenant_cond) [] [] [] None None None None [])] in
  let side := SelectStmt [] [] None [] [] [] None None None None [] in
  exists n', rewriteAddWhere (H0 := P) [Some (SelectStmt [] [] None [] [] [] None (Some side) (Some side) None [])] $"tenant" false = ([Some n'], true) /\
    yields in_row n' [$"other"] /\ ~ in_row tenant_cond [$"other"].
Proof.
  eexists. split; [reflexivity|]. split; [by left|]. intros Hin. by apply list_elem_of_singleton in Hin.
Qed.
