(* ===== verification/SessionCompat.v ===== *)
(** * Session-dependent features (internal/router/session_compat.go)

    Which statements depend on the backend session (LISTEN, SET, cursors, prepared
    statements, temporary tables, advisory locks), and so cannot be pooled. *)

From S2P Require Import Prelude GoStrings SqlLex Classify Tables Ast.

Inductive SessionFeature :=
| FeatureListen | FeatureUnlisten | FeatureSessionSet | FeatureDeclare | FeaturePrepare
| FeatureCreateTemp | FeatureAdvisoryLock.

#[export] Instance SessionFeature_eq_dec : EqDecision SessionFeature.
Proof. solve_decision. Defined.

(** [SessionDependencyResult]: [None] is not detected. *)
Definition SessionDependencyResult := option SessionFeature.

Definition is_blank (c : byte) : bool := (c =b " ") || (c =b x09).

Fixpoint skip_blank (s : bytes) : bytes :=
  match s with
  | c :: s' => if is_blank c then skip_blank s' else s
  | [] => []
  end.

(** [rest] starts with the keyword, at its end or before a byte that [after] accepts. *)
Definition kw_then (after : byte -> bool) (rest kw : bytes) : bool :=
  eqFoldN rest kw && match drop (length kw) rest with [] => true | c :: _ => after c end.

Definition detectSingleStmtDependency (query : bytes) : SessionDependencyResult :=
  match after_noise query with
  | [] => None
  | (c :: _) as rest =>
      let ch := or20 c in
      let n := length rest in
      if (ch =b "l") then if kw_then is_blank rest $"LISTEN" then Some FeatureListen else None
      else if (ch =b "u") then
        if kw_then (fun c => is_blank c || (c =b ";")) rest $"UNLISTEN" then Some FeatureUnlisten else None
      else if (ch =b "s") then
        if (4 <=? n)%nat && eqFoldN rest $"SET" && match rest !! 3 with Some c => is_blank c | None => false end
        then
          let r := skip_blank (drop 4 rest) in
          if eqFoldN r $"LOCAL" && match r !! 5 with Some c => is_blank c | None => false end then None
          else if (11 <? length r)%nat && eqFoldN r $"TRANSACTION" then None
          else if (11 <? length r)%nat && eqFoldN r $"CONSTRAINTS" then None
          else Some FeatureSessionSet
        else None
      else if (ch =b "d") then if kw_then is_blank rest $"DECLARE" then Some FeatureDeclare else None
      else if (ch =b "p") then if kw_then is_blank rest $"PREPARE" then Some FeaturePrepare else None
      else if (ch =b "c") then
        if eqFoldN rest $"CREATE" && eqFoldN (skip_blank (drop 6 rest)) $"TEMP"
        then Some FeatureCreateTemp else None
      else None
  end.

Section Compat.
Context `{UnicodeCase}.

Definition containsSessionAdvisoryLock (query : bytes) : bool :=
  if negb (Contains (ToLower query) $"advisory") then false
  else
    let cleaned := ToLower (stripComments (stripStringLiterals query)) in
    Contains cleaned $"advisory_lock" || Contains cleaned $"advisory_unlock".

(** The first statement with a dependency. *)
Fixpoint first_dependency (stmts : list bytes) : SessionDependencyResult :=
  match stmts with
  | [] => None
  | s :: stmts' =>
      match detectSingleStmtDependency s with
      | Some f => Some f
      | None => first_dependency stmts'
      end
  end.

Definition DetectSessionDependency (query : bytes) : SessionDependencyResult :=
  match detectSingleStmtDependency query with
  | Some f => Some f
  | None =>
      if containsSessionAdvisoryLock query then Some FeatureAdvisoryLock
      else if negb (isSingleStatement query) then first_dependency (splitStatements query)
      else None
  end.

Definition detectNodeDependency (n : node) : SessionDependencyResult :=
  match n with
  | PlainStmt ListenStmt => Some FeatureListen
  | PlainStmt UnlistenStmt => Some FeatureUnlisten
  | VariableSetStmt name is_local =>
      if is_local then None
      else if bool_decide (ToUpper name = $"TRANSACTION") || bool_decide (ToUpper name = $"CONSTRAINTS") then None
      else Some FeatureSessionSet
  | PlainStmt DeclareCursorStmt => Some FeatureDeclare
  | PlainStmt PrepareStmt => Some FeaturePrepare
  | CreateStmt (Some rel) => if bool_decide (relpersistence rel = $"t") then Some FeatureCreateTemp else None
  | _ => None
  end.

Fixpoint first_node_dependency (t : tree) : SessionDependencyResult :=
  match t with
  | [] => None
  | None :: t' => first_node_dependency t'
  | Some n :: t' =>
      match detectNodeDependency n with
      | Some f => Some f
      | None => first_node_dependency t'
      end
  end.

Definition DetectSessionDependencyAST (pq : option ParsedQuery) (query : bytes) : SessionDependencyResult :=
  match (match pq with Some p => first_node_dependency (pq_Tree p) | None => None end) with
  | Some f => Some f
  | None => if containsSessionAdvisoryLock query then Some FeatureAdvisoryLock else None
  end.
End Compat.
