(* ===== verification/Lsn.v ===== *)
(** * Log sequence numbers (internal/router/lsn.go) *)

From S2P Require Import Prelude GoStrings.

(** A [uint64]. *)
Definition LSN := Z.

Definition InvalidLSN : LSN := 0%Z.

Inductive LsnErr := ErrFormat | ErrHigh | ErrLow.

Definition ParseLSN (s : bytes) : res LsnErr LSN :=
  match SplitN2 s "/" with
  | [hi; lo] =>
      match ParseUint hi 16 32 with
      | None => Err ErrHigh
      | Some h =>
          match ParseUint lo 16 32 with
          | None => Err ErrLow
          | Some l => Ok (Z.lor (wrapU 64 (Z.shiftl h 32)) l)
          end
      end
  | _ => Err ErrFormat
  end.

(** [fmt.Sprintf("%X/%X", uint32(l>>32), uint32(l))]. *)
Definition LSN_String (l : LSN) : bytes :=
  FormatUint 16 (wrapU 32 (Z.shiftr l 32)) ++ "/"%byte :: FormatUint 16 (wrapU 32 l).

Definition IsZero (l : LSN) : bool := (l =? InvalidLSN)%Z.

Lemma FormatUint_no_slash n : (0 <= n < 2 ^ 64)%Z -> "/"%byte ∉ FormatUint 16 n.
Proof.
  intros Hn Hin. pose proof (FormatUint_digits 16 n ltac:(lia) Hn) as Hd.
  rewrite Forall_forall in Hd. apply list_elem_of_In, Hd in Hin as (d & Hd' & E).
  assert (forallb (fun d => negb (digit_char d =b "/")) (seqZ 0 16) = true) as Hall by by vm_compute.
  rewrite forallb_forall in Hall. specialize (Hall d). rewrite <- E in Hall.
  discriminate Hall. apply list_elem_of_In, elem_of_seqZ. lia.
Qed.

(** an LSN survives printing and parsing: [ParseLSN] of the text [String] prints
    is the number itself, for all of [uint64]. *)
Theorem ParseLSN_String l : (0 <= l < 2 ^ 64)%Z -> ParseLSN (LSN_String l) = Ok l.
Proof.
  intros Hl. unfold ParseLSN, LSN_String, SplitN2.
  assert (forall z, 0 <= wrapU 32 z < 2 ^ 32)%Z as Hw by (intros z; apply wrapU_range; lia).
  rewrite IndexByte_app by (apply FormatUint_no_slash; specialize (Hw (Z.shiftr l 32)); lia).
  rewrite take_app_length.
  assert (forall (a b : bytes) c, drop (S (length a)) (a ++ c :: b) = b) as Hdrop
    by (intros a b c; induction a; [apply drop_0|done]).
  rewrite Hdrop, !ParseUint_FormatUint by (lia || apply Hw). f_equal.
  rewrite Z.shiftr_div_pow2 by lia. unfold wrapU.
  assert (0 <= l / 2 ^ 32 < 2 ^ 32)%Z
    by (split; [apply Z.div_pos; lia|apply Z.div_lt_upper_bound; lia]).
  rewrite (Z.mod_small (l / 2 ^ 32)), Z.shiftl_mul_pow2, Z.mod_small, (Z.mul_comm _ (2 ^ 32)) by lia.
  rewrite lor_low by (lia || (apply Z.mod_pos_bound; lia)). symmetry. apply Z.div_mod. lia.
Qed.

Lemma ParseLSN_String_witness : ParseLSN (LSN_String 23803720%Z) = Ok 23803720%Z.
Proof. apply (ParseLSN_String 23803720%Z). lia. Defined.
