(* ===== verification/Session.v ===== *)
(** * Routing sessions (internal/router/router.go)

    The routing state of a client session: transaction and pinning state, the
    read-after-write window, the last write LSN, and the routes of prepared
    statements. Every method holds the session's mutex throughout, so a method is one
    step on the state; [now] is the clock it reads. *)

From S2P Require Import Prelude GoStrings SqlLex Classify Tables Ast Lsn.

Inductive Route_ := RouteWriter | RouteReader.

#[export] Instance Route_eq_dec : EqDecision Route_.
Proof. solve_decision. Defined.

Record Session := {
  inTransaction : bool;
  lastWriteTime : Time;
  readAfterWriteDelay : Duration;
  causalConsistency : bool;
  lastWriteLSN : LSN;
  astParser : bool;
  stmtRoutes : gmap bytes Route_;
  stmtWrite : gmap bytes bool;
  pinned : bool;
  pinnedReason : bytes
}.

Definition NewSession (delay : Duration) (causal ast : bool) : Session :=
  {| inTransaction := false; lastWriteTime := 0%Z; readAfterWriteDelay := delay;
     causalConsistency := causal; lastWriteLSN := InvalidLSN; astParser := ast;
     stmtRoutes := ∅; stmtWrite := ∅; pinned := false; pinnedReason := [] |}.

(** ** Field updates *)

Definition with_inTransaction (s : Session) (v : bool) : Session :=
  {| inTransaction := v; lastWriteTime := lastWriteTime s; readAfterWriteDelay := readAfterWriteDelay s;
     causalConsistency := causalConsistency s; lastWriteLSN := lastWriteLSN s; astParser := astParser s;
     stmtRoutes := stmtRoutes s; stmtWrite := stmtWrite s; pinned := pinned s; pinnedReason := pinnedReason s |}.

Definition with_lastWriteTime (s : Session) (t : Time) : Session :=
  {| inTransaction := inTransaction s; lastWriteTime := t; readAfterWriteDelay := readAfterWriteDelay s;
     causalConsistency := causalConsistency s; lastWriteLSN := lastWriteLSN s; astParser := astParser s;
     stmtRoutes := stmtRoutes s; stmtWrite := stmtWrite s; pinned := pinned s; pinnedReason := pinnedReason s |}.

Definition with_stmts (s : Session) (routes : gmap bytes Route_) (writes : gmap bytes bool) : Session :=
  {| inTransaction := inTransaction s; lastWriteTime := lastWriteTime s; readAfterWriteDelay := readAfterWriteDelay s;
     causalConsistency := causalConsistency s; lastWriteLSN := lastWriteLSN s; astParser := astParser s;
     stmtRoutes := routes; stmtWrite := writes; pinned := pinned s; pinnedReason := pinnedReason s |}.

Section Session.
Context `{UnicodeCase} `{PgQuery}.

Definition classify (s : Session) (query : bytes) : QueryType :=
  if astParser s then ClassifyAST query else Classify query.

(** ** Transaction control *)

Definition begins (upper : bytes) : bool :=
  HasPrefix upper $"BEGIN" || HasPrefix upper $"START TRANSACTION".
Definition ends (upper : bytes) : bool :=
  HasPrefix upper $"COMMIT" || HasPrefix upper $"ROLLBACK" || HasPrefix upper $"END" || HasPrefix upper $"ABORT".

Definition stmt_upper (stmt : bytes) : bytes := ToUpper (TrimSpace (stripComments stmt)).

(** [inTransaction] after one statement, and after all of them. *)
Definition tx_after (inTx : bool) (stmt : bytes) : bool :=
  let upper := stmt_upper stmt in
  let inTx := if begins upper then true else inTx in
  if ends upper then false else inTx.

Definition updateTransactionState (s : Session) (query : bytes) : Session :=
  with_inTransaction s (fold_left tx_after (splitStatements query) (inTransaction s)).

Definition containsTransactionKeyword (query : bytes) : bool :=
  existsb (fun stmt => begins (stmt_upper stmt) || ends (stmt_upper stmt)) (splitStatements query).

(** ** Routing *)

(** The timer of the read-after-write protection. *)
Definition within_delay (now : Time) (s : Session) : bool :=
  (0 <? readAfterWriteDelay s)%Z && negb (IsZeroTime (lastWriteTime s))
  && (Since now (lastWriteTime s) <? readAfterWriteDelay s)%Z.

(** [routeQueryLocked] from the classification on. *)
Definition route_classified (now : Time) (s : Session) (query : bytes) : Route_ * Session :=
  match classify s query with
  | QueryWrite => (RouteWriter, if causalConsistency s then s else with_lastWriteTime s now)
  | QueryRead =>
      if causalConsistency s then (RouteReader, s)
      else if within_delay now s then (RouteWriter, s)
      else (RouteReader, s)
  end.

Definition routeQueryLocked (now : Time) (s : Session) (query : bytes) : Route_ * Session :=
  if isSingleStatement query then
    let '(s', hasTxKeyword) :=
      match hasTxPrefix query with
      | TxBegin => (with_inTransaction s true, true)
      | TxEnd => (with_inTransaction s false, true)
      | TxNone => (s, false)
      end in
    if pinned s' || hasTxKeyword || inTransaction s' then (RouteWriter, s')
    else route_classified now s' query
  else
    let wasTx := inTransaction s in
    let s' := updateTransactionState s query in
    if pinned s' || wasTx || inTransaction s' then (RouteWriter, s')
    else if containsTransactionKeyword query then (RouteWriter, s')
    else route_classified now s' query.

Definition RouteWithTxState (now : Time) (s : Session) (query : bytes) : Route_ * bool * bool * Session :=
  let '(route, s') := routeQueryLocked now s query in
  (route, inTransaction s, inTransaction s', s').

Definition Route (now : Time) (s : Session) (query : bytes) : Route_ * Session := routeQueryLocked now s query.

Definition SetInTransaction (s : Session) (v : bool) : Session := with_inTransaction s v.

(** ** Prepared statements *)

Definition routeLocked (now : Time) (s : Session) (query : bytes) : Route_ :=
  let upper := stmt_upper query in
  if HasPrefix upper $"BEGIN" || HasPrefix upper $"START TRANSACTION"
     || HasPrefix upper $"COMMIT" || HasPrefix upper $"ROLLBACK" then RouteWriter
  else if pinned s || inTransaction s then RouteWriter
  else match classify s query with
       | QueryWrite => RouteWriter
       | QueryRead =>
           if causalConsistency s then RouteReader
           else if within_delay now s then RouteWriter
           else RouteReader
       end.

Definition RegisterStatement (now : Time) (s : Session) (name query : bytes) : Route_ * Session :=
  let route := routeLocked now s query in
  let isWrite := bool_decide (classify s query = QueryWrite) in
  (route, with_stmts s (<[name := route]> (stmtRoutes s)) (<[name := isWrite]> (stmtWrite s))).

Definition StatementRoute (s : Session) (name : bytes) : Route_ := default RouteWriter (stmtRoutes s !! name).

Definition StatementIsWrite (s : Session) (name : bytes) : bool := default true (stmtWrite s !! name).

Definition CloseStatement (s : Session) (name : bytes) : Session :=
  with_stmts s (delete name (stmtRoutes s)) (delete name (stmtWrite s)).

Definition SetLastWriteLSN (s : Session) (lsn : LSN) : Session :=
  {| inTransaction := inTransaction s; lastWriteTime := lastWriteTime s; readAfterWriteDelay := readAfterWriteDelay s;
     causalConsistency := causalConsistency s; lastWriteLSN := lsn; astParser := astParser s;
     stmtRoutes := stmtRoutes s; stmtWrite := stmtWrite s; pinned := pinned s; pinnedReason := pinnedReason s |}.

Definition Pin (s : Session) (reason : bytes) : Session :=
  if pinned s then s
  else {| inTransaction := inTransaction s; lastWriteTime := lastWriteTime s; readAfterWriteDelay := readAfterWriteDelay s;
          causalConsistency := causalConsistency s; lastWriteLSN := lastWriteLSN s; astParser := astParser s;
          stmtRoutes := stmtRoutes s; stmtWrite := stmtWrite s; pinned := true; pinnedReason := reason |}.
(** ** Histories of a session *)

Inductive op :=
| OpRoute (query : bytes)
| OpRegister (name query : bytes)
| OpSetInTransaction (v : bool)
| OpSetLastWriteLSN (lsn : LSN)
| OpPin (reason : bytes)
| OpClose (name : bytes).

(** A method call at time [now]: the route it returns, if it does, and the state. *)
Definition exec (now : Time) (o : op) (s : Session) : option Route_ * Session :=
  match o with
  | OpRoute q => let '(r, s') := Route now s q in (Some r, s')
  | OpRegister n q => let '(r, s') := RegisterStatement now s n q in (Some r, s')
  | OpSetInTransaction v => (None, SetInTransaction s v)
  | OpSetLastWriteLSN l => (None, SetLastWriteLSN s l)
  | OpPin r => (None, Pin s r)
  | OpClose n => (None, CloseStatement s n)
  end.

(** [history s h s']: the calls [h], with their times and the routes they
    returned, lead from [s] to [s']. *)
Inductive history : Session -> list (Time * op * option Route_) -> Session -> Prop :=
| history_nil s : history s [] s
| history_cons s now o r s1 h s2 :
    exec now o s = (r, s1) -> history s1 h s2 -> history s ((now, o, r) :: h) s2.

(** ** Routing *)

(** The query contains transaction control. *)
Definition tx_control (query : bytes) : bool :=
  if isSingleStatement query then match hasTxPrefix query with TxNone => false | _ => true end
  else containsTransactionKeyword query.

Lemma tx_after_unchanged stmts b :
  existsb (fun stmt => begins (stmt_upper stmt) || ends (stmt_upper stmt)) stmts = false ->
  fold_left tx_after stmts b = b.
Proof.
  revert b. induction stmts as [|st stmts IH]; intros b; [done|]. cbn [existsb fold_left].
  intros [[Hb He]%orb_false_iff Hs]%orb_false_iff. unfold tx_after at 2. rewrite Hb, He. by apply IH.
Qed.

Lemma route_classified_reader now s query :
  (route_classified now s query).1 = RouteReader <->
  classify s query = QueryRead /\ (causalConsistency s = true \/ within_delay now s = false).
Proof.
  unfold route_classified. destruct (classify s query); [|split; [done|by intros []]].
  destruct (causalConsistency s); [cbn; tauto|]. destruct (within_delay now s); cbn; [|tauto].
  split; [done|]. by intros [_ [?|?]].
Qed.

Lemma Route_reader_iff_aux now s query :
  (Route now s query).1 = RouteReader <->
  pinned s = false /\ inTransaction s = false /\ tx_control query = false /\
  classify s query = QueryRead /\ (causalConsistency s = true \/ within_delay now s = false).
Proof.
  unfold Route, routeQueryLocked, tx_control. destruct (isSingleStatement query).
  - destruct (hasTxPrefix query); cbn [orb].
    + destruct (pinned s) eqn:Ep; [cbn; naive_solver|]. destruct (inTransaction s) eqn:Et; [cbn; naive_solver|].
      cbn [orb]. rewrite route_classified_reader. tauto.
    + rewrite orb_true_r. cbn. naive_solver.
    + rewrite orb_true_r. cbn. naive_solver.
  - change (pinned (updateTransactionState s query)) with (pinned s).
    destruct (pinned s) eqn:Ep; [cbn; naive_solver|]. destruct (inTransaction s) eqn:Et; [cbn; naive_solver|].
    cbn [orb]. destruct (containsTransactionKeyword query) eqn:Ek.
    { destruct (inTransaction (updateTransactionState s query)); cbn; naive_solver. }
    assert (updateTransactionState s query = s) as ->.
    { unfold updateTransactionState. rewrite tx_after_unchanged, Et by done.
      unfold with_inTransaction. rewrite <- Et. by destruct s. }
    rewrite Et. rewrite route_classified_reader. tauto.
Qed.
(** C16: exactly when a query may go to a reader: the session is not pinned and not
    in a transaction, the query has no transaction control, it is classified as a
    read, and either consistency is tracked by LSN or no write is recent. Everything
    else goes to the writer. *)
Theorem Route_reader_iff now s query :
  (Route now s query).1 = RouteReader <->
  pinned s = false /\ inTransaction s = false /\ tx_control query = false /\
  classify s query = QueryRead /\ (causalConsistency s = true \/ within_delay now s = false).
Proof. apply Route_reader_iff_aux. Qed.

(** ** Pinning *)

(** What a call may change of the routing state, whatever the call. *)
Lemma exec_frame now o s r s' :
  exec now o s = (r, s') ->
  readAfterWriteDelay s' = readAfterWriteDelay s /\ causalConsistency s' = causalConsistency s /\
  astParser s' = astParser s /\ (pinned s = true -> pinned s' = true) /\
  (lastWriteTime s' = lastWriteTime s \/ lastWriteTime s' = now).
Proof.
  destruct o; cbn; try (intros [= <- <-]; cbn; tauto).
  - unfold Route, routeQueryLocked, route_classified, updateTransactionState.
    repeat case_match; intros; simplify_eq/=; tauto.
  - intros [= <- <-]. unfold Pin. destruct (pinned s) eqn:E; cbn; rewrite ?E; tauto.
Qed.

Lemma pinned_writer now s query : pinned s = true -> (Route now s query).1 = RouteWriter.
Proof.
  intros Hp. destruct (Route now s query).1 eqn:E; [done|]. apply Route_reader_iff_aux in E as [? _]. congruence.
Qed.

(** pinning is permanent and total: after a session is pinned, whatever calls
    follow, it stays pinned and every query and every prepared statement is routed
    to the writer. *)
Theorem Pin_permanent s h s' :
  pinned s = true -> history s h s' ->
  pinned s' = true /\ Forall (fun '(_, _, r) => r = None \/ r = Some RouteWriter) h.
Proof.
  intros Hp Hh. induction Hh as [s|s now o r s1 h s2 He Hh IH]; [by split|].
  assert (pinned s1 = true) as Hp1 by (apply exec_frame in He; naive_solver).
  destruct (IH Hp1) as [IH1 IH2]. split; [done|]. constructor; [|done].
  destruct o; cbn in He; try (injection He as <- <-; by left).
  - pose proof (pinned_writer now s query Hp) as Hw. destruct (Route now s query). simplify_eq/=. by right.
  - injection He as <- <-. right. unfold routeLocked. rewrite Hp. by case_match.
Qed.

(** ** Read after write *)

(** Within the delay the timer holds, however far the clock is. *)
Lemma within_delay_recent now s t :
  (0 < readAfterWriteDelay s)%Z -> (0 < t <= lastWriteTime s)%Z -> (now - t < readAfterWriteDelay s)%Z ->
  within_delay now s = true.
Proof.
  intros Hd Ht Hn. unfold within_delay, IsZeroTime, Since, MinInt64, MaxInt64.
  rewrite (proj2 (Z.ltb_lt 0 _)), (proj2 (Z.eqb_neq _ 0)) by lia. cbn [negb andb]. apply Z.ltb_lt. lia.
Qed.

Lemma history_frame s h s' t :
  history s h s' -> Forall (fun '(now, _, _) => (t <= now)%Z) h -> (t <= lastWriteTime s)%Z ->
  readAfterWriteDelay s' = readAfterWriteDelay s /\ causalConsistency s' = causalConsistency s /\
  (t <= lastWriteTime s')%Z.
Proof.
  induction 1 as [s|s now o r s1 h s2 He Hh IH]; [done|].
  intros [Ht Hall]%list.Forall_cons Hl. apply exec_frame in He as (E1 & E2 & _ & _ & E3).
  rewrite <- E1, <- E2. apply IH; [done|]. destruct E3; lia.
Qed.


(** ** Prepared statements *)

(** the routes of prepared statements are a map by name: the route and the
    write flag of a statement are those of its last Parse, whatever the session does
    to other names in between; a closed or unknown statement is a write that goes to
    the writer. *)
Theorem statement_routes now s name query h s1 s2 :
  (RegisterStatement now s name query).2 = s1 -> history s1 h s2 ->
  Forall (fun '(_, o, _) => match o with
                            | OpRegister n _ | OpClose n => n <> name
                            | _ => True
                            end) h ->
  StatementRoute s2 name = (RegisterStatement now s name query).1 /\
  StatementIsWrite s2 name = bool_decide (classify s query = QueryWrite) /\
  StatementRoute (CloseStatement s2 name) name = RouteWriter /\
  StatementIsWrite (CloseStatement s2 name) name = true.
Proof.
  intros H1 Hh Hall.
  assert (stmtRoutes s2 !! name = Some (RegisterStatement now s name query).1 /\
    stmtWrite s2 !! name = Some (bool_decide (classify s query = QueryWrite))) as [Hr Hw].
  { assert (stmtRoutes s1 !! name = Some (RegisterStatement now s name query).1 /\
      stmtWrite s1 !! name = Some (bool_decide (classify s query = QueryWrite))) as Hs1
      by (rewrite <- H1; cbn; by rewrite !lookup_insert_eq).
    clear H1. induction Hh as [s'|s' now' o r s1' h s2' He Hh IH]; [done|].
    apply list.Forall_cons in Hall as [Ho Hall]. apply IH; [done|]. clear IH.
    destruct o; cbn in He.
    - unfold Route, routeQueryLocked, route_classified, updateTransactionState in He.
      repeat case_match; simplify_eq/=; done.
    - injection He as <- <-. cbn. by rewrite !lookup_insert_ne.
    - by injection He as <- <-.
    - by injection He as <- <-.
    - injection He as <- <-. unfold Pin. by case_match.
    - injection He as <- <-. cbn. by rewrite !lookup_delete_ne. }
  unfold StatementRoute, StatementIsWrite. cbn. by rewrite Hr, Hw, !lookup_delete_eq.
Qed.
End Session.

(** ** Examples *)

Module Examples.
#[local] Existing Instance ascii_case.
Definition no_trees : PgQuery := {| pg_parse := fun _ => None; pg_scan_comments := fun _ => None |}.
#[local] Existing Instance no_trees.

(** A session with a delay of five seconds. *)
Definition s0 : Session := NewSession (5 * Second) false false.

(** The session after a list of calls at the given times. *)
Definition after (s : Session) (calls : list (Time * op)) : Session :=
  fold_left (fun s '(now, o) => (exec now o s).2) calls s.

Definition t0 : Time := (100 * Second)%Z.

Lemma Pin_permanent_witness :
  pinned (Pin s0 $"listen") = true /\
  Forall (fun '(_, _, r) => r = None \/ r = Some RouteWriter) [(t0, OpRoute $"SELECT 1", Some RouteWriter)].
Proof.
  apply (Pin_permanent (Pin s0 $"listen") [(t0, OpRoute $"SELECT 1", Some RouteWriter)] (Pin s0 $"listen")).
  - reflexivity.
  - eapply history_cons; [by vm_compute|constructor].
Defined.


Lemma statement_routes_witness :
  StatementRoute (RegisterStatement t0 s0 $"a" $"SELECT 1").2 $"a" = RouteReader /\
  StatementIsWrite (RegisterStatement t0 s0 $"a" $"SELECT 1").2 $"a" = false /\
  StatementRoute (CloseStatement (RegisterStatement t0 s0 $"a" $"SELECT 1").2 $"a") $"a" = RouteWriter /\
  StatementIsWrite (CloseStatement (RegisterStatement t0 s0 $"a" $"SELECT 1").2 $"a") $"a" = true.
Proof.
  apply (statement_routes t0 s0 $"a" $"SELECT 1" [] (RegisterStatement t0 s0 $"a" $"SELECT 1").2);
    [reflexivity|constructor|constructor].
Defined.

(** A write inside a transaction does not start the read-after-write window: the
    first read after the COMMIT can go to a reader. *)
Example transaction_write_unprotected :
  (Route t0 (after s0 [(t0, OpRoute $"BEGIN"); (t0, OpRoute $"UPDATE t SET a = 1"); (t0, OpRoute $"COMMIT")])
    $"SELECT a FROM t").1 = RouteReader.
Proof. by vm_compute. Qed.

(** Nor does a write registered as a prepared statement. *)
Example prepared_write_unprotected :
  (Route t0 (after s0 [(t0, OpRegister $"w" $"UPDATE t SET a = 1")]) $"SELECT a FROM t").1 = RouteReader.
Proof. by vm_compute. Qed.

(** ROLLBACK TO SAVEPOINT leaves the transaction open, the session says it ended. *)
Example rollback_to_savepoint :
  inTransaction (after s0 [(t0, OpRoute $"BEGIN"); (t0, OpRoute $"ROLLBACK TO SAVEPOINT a")]) = false.
Proof. by vm_compute. Qed.

(** END and ABORT as prepared statements are routed as reads. *)
Example prepared_end_reader :
  (RegisterStatement t0 s0 $"e" $"END").1 = RouteReader /\ (RegisterStatement t0 s0 $"c" $"COMMIT").1 = RouteWriter.
Proof. by vm_compute. Qed.

(** A form feed is white space for the server but not for [SkipLeadingNoise]. *)
Example form_feed_hides_begin :
  (Route t0 s0 (x0c :: $"BEGIN")).1 = RouteReader /\ inTransaction (Route t0 s0 (x0c :: $"BEGIN")).2 = false.
Proof. by vm_compute. Qed.
End Examples.
