(* ===== verification/Balancer.v ===== *)
(** * Load balancing over readers (internal/router/balancer.go)

    Backends are shared objects: the balancer keeps a slice of pointers to them,
    and a replaced slice keeps the pointers of the backends that stay. Here they
    live in a store and the slice holds locations. The flags and the index are atomics. Here a
    method runs by itself, from its first step to its last; [Handlers] runs the searches of
    [Next] and [NextWithLSN] step by step among other callers. *)

From S2P Require Import Prelude GoStrings Lsn.

Record Backend := { Addr : bytes; healthy : bool; replayLSN : LSN }.

Abbreviation loc := nat.

Record RoundRobin := {
  store : gmap loc Backend;
  next_loc : loc;          (* locations from here on are free *)
  backends : list loc;
  index : Z                (* uint64 *)
}.

Definition set_store (r : RoundRobin) (st : gmap loc Backend) : RoundRobin :=
  {| store := st; next_loc := next_loc r; backends := backends r; index := index r |}.

(** [b := &Backend{Addr: addr}; b.healthy.Store(true)]. *)
Definition new_backend (addr : bytes) : Backend := {| Addr := addr; healthy := true; replayLSN := 0%Z |}.

(** The list of backends of [addrs], reusing those that [existing] has. *)
Fixpoint alloc_backends (existing : gmap bytes loc) (st : gmap loc Backend) (next : loc) (addrs : list bytes)
  : gmap loc Backend * loc * list loc :=
  match addrs with
  | [] => (st, next, [])
  | a :: addrs' =>
      match existing !! a with
      | Some l => let '(st', next', ls) := alloc_backends existing st next addrs' in (st', next', l :: ls)
      | None =>
          let '(st', next', ls) := alloc_backends existing (<[next := new_backend a]> st) (S next) addrs' in
          (st', next', next :: ls)
      end
  end.

Definition NewRoundRobin (addrs : list bytes) : RoundRobin :=
  let '(st, next, ls) := alloc_backends ∅ ∅ 0 addrs in
  {| store := st; next_loc := next; backends := ls; index := 0%Z |}.

(** ** Selection *)

(** [int(r.index.Add(1)-1) % n] and the index afterwards: the conversion of a
    [uint64] to [int] keeps the bits, and the remainder has the sign of the dividend. *)
Definition next_idx (idx : Z) (n : nat) : Z * Z :=
  let idx' := wrapU 64 (idx + 1) in
  (Z.rem (wrapS 64 (wrapU 64 (idx' - 1))) (Z.of_nat n), idx').

(** [backends[i]]: a negative index panics. *)
Definition slice_at (slice : list loc) (i : Z) : option loc := if (i <? 0)%Z then None else slice !! Z.to_nat i.

Definition at_idx (r : RoundRobin) (i : Z) : option Backend := slice_at (backends r) i ≫= fun l => store r !! l.

(** The loop of [Next] and [NextWithLSN]: at most [k] tries for a backend that
    [ok] accepts. *)
Fixpoint next_loop (ok : Backend -> bool) (r : RoundRobin) (idx : Z) (k : nat) : res unit bytes * Z :=
  match k with
  | O => (Ok [], idx)
  | S k' =>
      let '(i, idx') := next_idx idx (length (backends r)) in
      match at_idx r i with
      | None => (Panic, idx')
      | Some b => if ok b then (Ok (Addr b), idx') else next_loop ok r idx' k'
      end
  end.

Definition set_index (r : RoundRobin) (idx : Z) : RoundRobin :=
  {| store := store r; next_loc := next_loc r; backends := backends r; index := idx |}.

(** The empty address: no backend. *)
Definition Next (r : RoundRobin) : res unit bytes * RoundRobin :=
  let '(a, idx) := next_loop healthy r (index r) (length (backends r)) in (a, set_index r idx).

Definition caught_up (minLSN : LSN) (b : Backend) : bool := healthy b && (minLSN <=? replayLSN b)%Z.

Definition NextWithLSN (r : RoundRobin) (minLSN : LSN) : res unit bytes * RoundRobin :=
  if IsZero minLSN then Next r
  else
    let '(a, idx) := next_loop (caught_up minLSN) r (index r) (length (backends r)) in (a, set_index r idx).

(** ** Updates *)

(** The first backend of the slice with this address. *)
Definition find_loc (r : RoundRobin) (addr : bytes) : option loc :=
  List.find (fun l => match store r !! l with Some b => bool_decide (Addr b = addr) | None => false end) (backends r).

Definition update_at (r : RoundRobin) (l : loc) (f : Backend -> Backend) : RoundRobin :=
  match store r !! l with
  | Some b => set_store r (<[l := f b]> (store r))
  | None => r
  end.

Definition set_healthy (v : bool) (b : Backend) : Backend := {| Addr := Addr b; healthy := v; replayLSN := replayLSN b |}.
Definition set_replay (lsn : LSN) (b : Backend) : Backend := {| Addr := Addr b; healthy := healthy b; replayLSN := lsn |}.

Definition MarkUnhealthy (r : RoundRobin) (addr : bytes) : RoundRobin :=
  match find_loc r addr with Some l => update_at r l (set_healthy false) | None => r end.

Definition SetReplayLSN (r : RoundRobin) (addr : bytes) (lsn : LSN) : RoundRobin :=
  match find_loc r addr with Some l => update_at r l (set_replay lsn) | None => r end.

(** [dial addr]: whether [net.DialTimeout] connects. *)
Definition check_backend (dial : bytes -> bool) (r : RoundRobin) (l : loc) : RoundRobin :=
  match store r !! l with
  | Some b => if negb (healthy b) && dial (Addr b) then update_at r l (set_healthy true) else r
  | None => r
  end.

Definition checkBackends (dial : bytes -> bool) (r : RoundRobin) : RoundRobin :=
  fold_left (check_backend dial) (backends r) r.

(** [existing[b.Addr] = b] over the old slice: the last one wins. *)
Definition existing_map (r : RoundRobin) : gmap bytes loc :=
  fold_left (fun m l => match store r !! l with Some b => <[Addr b := l]> m | None => m end) (backends r) ∅.

Definition UpdateBackends (r : RoundRobin) (addrs : list bytes) : RoundRobin :=
  let '(st, next, ls) := alloc_backends (existing_map r) (store r) (next_loc r) addrs in
  {| store := st; next_loc := next; backends := ls; index := index r |}.

(** ** Views *)

(** The backends of the slice, in order. *)
Definition view (r : RoundRobin) : list Backend := omap (fun l => store r !! l) (backends r).

Definition Backends (r : RoundRobin) : list bytes := Addr <$> view r.

Definition HealthyCount (r : RoundRobin) : nat := length (filter (fun b => healthy b = true) (view r)).

(** ** Well-formed balancers *)

Definition wf (r : RoundRobin) : Prop :=
  Forall (fun l => is_Some (store r !! l)) (backends r) /\
  (forall l b, store r !! l = Some b -> l < next_loc r) /\
  (0 <= index r)%Z.

Lemma view_lookup r i :
  wf r -> view r !! i = match backends r !! i with Some l => store r !! l | None => None end.
Proof.
  intros [Hall _]. unfold view. revert i. induction (backends r) as [|l ls IH]; intros i; [done|].
  apply list.Forall_cons in Hall as [[b Hb] Hall]. cbn [omap list_omap]. rewrite Hb.
  destruct i as [|i]; cbn; [done|]. by apply IH.
Qed.

Lemma at_idx_view r i : wf r -> at_idx r (Z.of_nat i) = view r !! i.
Proof. intros Hwf. unfold at_idx, slice_at. rewrite (proj2 (Z.ltb_ge _ 0)), Nat2Z.id, view_lookup by (done || lia). by destruct (backends r !! i). Qed.

Lemma view_length r : wf r -> length (view r) = length (backends r).
Proof.
  intros [Hall _]. unfold view. induction (backends r) as [|l ls IH]; [done|].
  apply list.Forall_cons in Hall as [[b Hb] Hall]. cbn [omap list_omap]. rewrite Hb. cbn. by rewrite IH.
Qed.

(** ** Round robin *)

(** The slice read from position [i] on, around the end. *)
Definition cyclic {A} (l : list A) (i : nat) : list A := drop i l ++ take i l.

(** The first element that [ok] accepts, and how many elements it takes to see it. *)
Fixpoint first_ok {A} (ok : A -> bool) (l : list A) : option A * nat :=
  match l with
  | [] => (None, 0)
  | x :: l' => if ok x then (Some x, 1) else let '(r, n) := first_ok ok l' in (r, S n)
  end.

Lemma cyclic_step {A} (l : list A) i x :
  l !! i = Some x -> exists t, cyclic l i = x :: t /\ cyclic l (S i mod length l) = t ++ [x].
Proof.
  intros Hi. pose proof (lookup_lt_Some _ _ _ Hi) as Hlt. exists (drop (S i) l ++ take i l). split.
  - unfold cyclic. by rewrite (drop_S _ _ _ Hi).
  - unfold cyclic. destruct (decide (S i = length l)) as [E|E].
    + rewrite E, Nat.Div0.mod_same, drop_0, take_0, app_nil_r, <- E, drop_ge by lia.
      cbn [app]. rewrite <- (take_S_r _ _ _ Hi), E. by rewrite take_ge.
    + rewrite Nat.mod_small by lia. rewrite (take_S_r _ _ _ Hi). by rewrite app_assoc.
Qed.

Lemma next_idx_spec idx n :
  0 < n -> (0 <= idx < 2 ^ 63 - 1)%Z ->
  next_idx idx n = (Z.of_nat (Z.to_nat idx mod n), (idx + 1)%Z).
Proof.
  intros Hn Hi. unfold next_idx, wrapU. rewrite (Z.mod_small (idx + 1)) by lia.
  replace (idx + 1 - 1)%Z with idx by lia. rewrite (Z.mod_small idx) by lia.
  rewrite wrapS_small by lia. rewrite Z.rem_mod_nonneg by lia.
  rewrite Nat2Z.inj_mod, Z2Nat.id by lia. done.
Qed.

Lemma next_loop_spec ok r idx k :
  wf r -> k <= length (backends r) -> (0 <= idx)%Z -> (idx + Z.of_nat k < 2 ^ 63)%Z ->
  next_loop ok r idx k =
    (let '(b, n) := first_ok ok (take k (cyclic (view r) (Z.to_nat idx mod length (backends r)))) in
     (Ok (from_option Addr [] b), (idx + Z.of_nat n)%Z)).
Proof.
  intros Hwf. revert idx. induction k as [|k IH]; intros idx Hk Hi Hb.
  { rewrite take_0. cbn. f_equal. lia. }
  cbn [next_loop]. set (n := length (backends r)) in *. rewrite next_idx_spec by lia.
  assert (Z.to_nat idx mod n < n) as Hlt by (apply Nat.mod_upper_bound; lia).
  destruct (lookup_lt_is_Some_2 (view r) (Z.to_nat idx mod n)) as [b Hb']; [by rewrite view_length|].
  rewrite at_idx_view, Hb' by done.
  destruct (cyclic_step _ _ _ Hb') as (t & E & E'). rewrite E. cbn [take first_ok].
  destruct (ok b); [cbn; f_equal; lia|].
  rewrite IH by lia. rewrite view_length in E' by done. fold n in E'.
  replace (Z.to_nat (idx + 1)) with (1 + Z.to_nat idx) by lia.
  rewrite <- (Nat.Div0.add_mod_idemp_r 1). change (1 + Z.to_nat idx mod n) with (S (Z.to_nat idx mod n)).
  rewrite E'. assert (k <= length t).
  { apply (f_equal length) in E. unfold cyclic in E. rewrite length_app, length_drop, length_take, view_length in E by done.
    simpl in E. fold n in E. lia. }
  rewrite take_app_le by done. destruct (first_ok ok (take k t)) as [b' m]. f_equal. lia.
Qed.

Definition acceptable (minLSN : LSN) : Backend -> bool := if IsZero minLSN then healthy else caught_up minLSN.

Lemma NextWithLSN_exact r minLSN :
  wf r -> (index r + Z.of_nat (length (backends r)) < 2 ^ 63)%Z ->
  NextWithLSN r minLSN =
    (let '(b, k) := first_ok (acceptable minLSN) (cyclic (view r) (Z.to_nat (index r) mod length (backends r))) in
     (Ok (from_option Addr [] b), set_index r (index r + Z.of_nat k))).
Proof.
  intros Hwf Hb. assert (0 <= index r)%Z by apply Hwf. unfold NextWithLSN, Next, acceptable.
  assert (forall i, take (length (backends r)) (cyclic (view r) i) = cyclic (view r) i) as Htake.
  { intros i. apply take_ge. unfold cyclic. rewrite length_app, length_drop, length_take, view_length by done. lia. }
  destruct (IsZero minLSN); rewrite next_loop_spec, Htake by (done || lia); by destruct (first_ok _ _).
Qed.

Lemma first_ok_Some {A} (ok : A -> bool) l x k : first_ok ok l = (Some x, k) -> x ∈ l /\ ok x = true.
Proof.
  revert k. induction l as [|y l IH]; intros k; cbn [first_ok]; [done|]. destruct (ok y) eqn:E.
  - intros [= -> <-]. by split; [left|].
  - destruct (first_ok ok l) as [o m]. intros [= -> <-]. destruct (IH m eq_refl). by split; [right|].
Qed.

Lemma first_ok_None {A} (ok : A -> bool) l k : first_ok ok l = (None, k) -> forall x, x ∈ l -> ok x = false.
Proof.
  revert k. induction l as [|y l IH]; intros k; cbn [first_ok]; [by intros _ x ?%not_elem_of_nil|].
  destruct (ok y) eqn:E; [done|]. destruct (first_ok ok l) as [o m]. intros [= -> <-] x [->|Hx]%elem_of_cons; [done|].
  by eapply IH.
Qed.

Lemma elem_of_cyclic {A} (l : list A) i x : x ∈ cyclic l i <-> x ∈ l.
Proof. unfold cyclic. rewrite <- (take_drop i l) at 3. rewrite !elem_of_app. tauto. Qed.

(** the balancer picks a suitable reader whenever there is one. As long as the
    index has not passed 2^63, a reader is returned exactly when some backend is
    healthy and has replayed the requested LSN, the reader returned is such a backend,
    namely the first one from the current position around the slice, and the next
    search starts after it; otherwise the empty address is returned. *)
Theorem NextWithLSN_spec r minLSN :
  wf r -> (index r + Z.of_nat (length (backends r)) < 2 ^ 63)%Z ->
  exists a k, NextWithLSN r minLSN = (Ok a, set_index r (index r + Z.of_nat k)) /\
    ((exists b, b ∈ view r /\ Addr b = a /\ healthy b = true /\ (IsZero minLSN = false -> (minLSN <= replayLSN b)%Z) /\
        first_ok (acceptable minLSN) (cyclic (view r) (Z.to_nat (index r) mod length (backends r))) = (Some b, k)) \/
     (a = [] /\ forall b, b ∈ view r -> acceptable minLSN b = false)).
Proof.
  intros Hwf Hb. rewrite NextWithLSN_exact by done.
  destruct (first_ok _ _) as [[b|] k] eqn:E; eexists _, k; (split; [done|]).
  - left. exists b. pose proof (first_ok_Some _ _ _ _ E) as [Hin Hok]. rewrite elem_of_cyclic in Hin.
    unfold acceptable in Hok. split; [done|]. split; [done|].
    destruct (IsZero minLSN); [done|]. apply andb_prop in Hok as [? ?%Z.leb_le]. done.
  - right. split; [done|]. intros b Hin. eapply first_ok_None; [done|]. by rewrite elem_of_cyclic.
Qed.

(** [k] calls of [Next] in a row. *)
Fixpoint next_n (k : nat) (r : RoundRobin) : list (res unit bytes) * RoundRobin :=
  match k with
  | O => ([], r)
  | S k' =>
      let '(a, r1) := Next r in
      let '(l, r2) := next_n k' r1 in
      (a :: l, r2)
  end.

Lemma next_n_healthy k r :
  wf r -> Forall (fun b => healthy b = true) (view r) -> k <= length (backends r) ->
  (index r + Z.of_nat k + Z.of_nat (length (backends r)) < 2 ^ 63)%Z ->
  (next_n k r).1 = Ok <$> (Addr <$> take k (cyclic (view r) (Z.to_nat (index r) mod length (backends r)))).
Proof.
  revert r. induction k as [|k IH]; intros r Hwf Hh Hk Hb; [by rewrite take_0|].
  set (n := length (backends r)) in *. assert (0 <= index r)%Z by apply Hwf.
  pose proof (NextWithLSN_exact r 0%Z Hwf ltac:(lia)) as E. change (NextWithLSN r 0%Z) with (Next r) in E.
  cbn [next_n]. rewrite E. clear E. fold n.
  assert (Z.to_nat (index r) mod n < n) as Hlt by (apply Nat.mod_upper_bound; lia).
  destruct (lookup_lt_is_Some_2 (view r) (Z.to_nat (index r) mod n)) as [b Hb']; [by rewrite view_length|].
  assert (healthy b = true) as Hbh.
  { rewrite Forall_forall in Hh. apply Hh, list_elem_of_In. by eapply list_elem_of_lookup_2. }
  destruct (cyclic_step _ _ _ Hb') as (t & E & E'). rewrite E. cbn [first_ok acceptable IsZero].
  change (acceptable 0%Z b) with (healthy b). rewrite Hbh.
  set (r1 := set_index r (index r + Z.of_nat 1)).
  specialize (IH r1). change (length (backends r1)) with n in IH. change (view r1) with (view r) in IH.
  change (index r1) with (index r + Z.of_nat 1)%Z in IH.
  destruct (next_n k r1) as [l r2]. cbn [fst] in *. rewrite IH; [|split_and!; cbn; apply Hwf || lia|done|lia|lia].
  rewrite view_length in E' by done. fold n in E'.
  replace (Z.to_nat (index r + Z.of_nat 1)) with (1 + Z.to_nat (index r)) by lia.
  rewrite <- (Nat.Div0.add_mod_idemp_r 1). change (1 + Z.to_nat (index r) mod n) with (S (Z.to_nat (index r) mod n)).
  rewrite E'. assert (k <= length t).
  { apply (f_equal length) in E. unfold cyclic in E. rewrite length_app, length_drop, length_take, view_length in E by done.
    simpl in E. fold n in E. lia. }
  by rewrite take_app_le.
Qed.

(** the rotation is fair: when all backends are healthy, as many calls as there
    are backends return every backend exactly once. *)
Theorem Next_fair r :
  wf r -> Forall (fun b => healthy b = true) (view r) ->
  (index r + 2 * Z.of_nat (length (backends r)) < 2 ^ 63)%Z ->
  (next_n (length (backends r)) r).1 ≡ₚ Ok <$> Backends r.
Proof.
  intros Hwf Hh Hb. rewrite next_n_healthy by (done || lia). unfold Backends. apply fmap_Permutation, fmap_Permutation.
  rewrite take_ge by (unfold cyclic; rewrite length_app, length_drop, length_take, view_length by done; lia).
  unfold cyclic. rewrite (Permutation_app_comm (drop _ _)). by rewrite take_drop.
Qed.

(** ** Updates *)

Lemma alloc_backends_spec ex st next addrs st' next' ls :
  (forall a l, ex !! a = Some l -> exists b, st !! l = Some b /\ Addr b = a) ->
  (forall l b, st !! l = Some b -> l < next) ->
  alloc_backends ex st next addrs = (st', next', ls) ->
  (forall l b, st !! l = Some b -> st' !! l = Some b) /\
  (forall l b, st' !! l = Some b -> l < next') /\ next <= next' /\
  Forall2 (fun a l => match ex !! a with
                      | Some l' => l = l'
                      | None => st' !! l = Some (new_backend a)
                      end) addrs ls.
Proof.
  revert st next st' next' ls. induction addrs as [|a addrs IH]; intros st next st' next' ls Hex Hlt E; cbn in E.
  { injection E as <- <- <-. split_and!; auto. }
  destruct (ex !! a) as [l|] eqn:Ea.
  - destruct (alloc_backends ex st next addrs) as [[st1 next1] ls1] eqn:E1. injection E as <- <- <-.
    destruct (IH _ _ _ _ _ Hex Hlt E1) as (H1 & H2 & H3 & H4). split_and!; auto. constructor; [by rewrite Ea|done].
  - destruct (alloc_backends ex _ (S next) addrs) as [[st1 next1] ls1] eqn:E1. injection E as <- <- <-.
    assert (st !! next = None) as Hn by (destruct (st !! next) eqn:En; [apply Hlt in En; lia|done]).
    destruct (IH (<[next:=new_backend a]> st) (S next) st1 next1 ls1) as (H1 & H2 & H3 & H4).
    + intros a' l Hl. destruct (Hex _ _ Hl) as (b & Hb & Hab). exists b. split; [|done].
      rewrite lookup_insert_ne by congruence. done.
    + intros l b [[-> _]|[_ Hl]]%lookup_insert_Some; [lia|]. apply Hlt in Hl. lia.
    + done.
    + split_and!; [|done|lia|].
      * intros l b Hl. apply H1. rewrite lookup_insert_ne by congruence. done.
      * constructor; [|done]. rewrite Ea. apply H1. by rewrite lookup_insert_eq.
Qed.

Lemma existing_map_spec r :
  (forall a l, existing_map r !! a = Some l -> l ∈ backends r /\ exists b, store r !! l = Some b /\ Addr b = a) /\
  (wf r -> forall a, existing_map r !! a = None -> a ∉ Backends r).
Proof.
  unfold existing_map.
  assert (forall (ls : list loc) (m : gmap bytes loc),
    (forall a l, fold_left (fun m l => match store r !! l with Some b => <[Addr b := l]> m | None => m end) ls m !! a = Some l ->
       m !! a = Some l \/ (l ∈ ls /\ exists b, store r !! l = Some b /\ Addr b = a)) /\
    (forall a : bytes, fold_left (fun m l => match store r !! l with Some b => <[Addr b := l]> m | None => m end) ls m !! a = None ->
       m !! a = None /\ a ∉ Addr <$> omap (fun l => store r !! l) ls)) as Hgen.
  { induction ls as [|l0 ls IH]; intros m; [split; [by left|intros a Ha; split; [done|by apply not_elem_of_nil]]|].
    cbn [fold_left]. destruct (IH (match store r !! l0 with Some b => <[Addr b := l0]> m | None => m end)) as [IH1 IH2].
    split.
    - intros a l Hl. apply IH1 in Hl as [Hl|(Hin & Hb)]; [|right; split; [by right|done]].
      destruct (store r !! l0) as [b|] eqn:Eb; [|by left].
      apply lookup_insert_Some in Hl as [[Ha ->]|[_ Hl]]; [right|by left]. split; [by left|eauto].
    - intros a Ha. apply IH2 in Ha as [Hm Hnot]. cbn [omap list_omap]. destruct (store r !! l0) as [b|]; [|done].
      apply lookup_insert_None in Hm as [Hm Hne]. split; [done|]. cbn [fmap list_fmap].
      rewrite not_elem_of_cons. done. }
  destruct (Hgen (backends r) ∅) as [H1 H2]. split.
  - intros a l Hl. apply H1 in Hl as [Hl|?]; [by rewrite lookup_empty in Hl|done].
  - intros _ a Ha. by apply H2 in Ha as [_ ?].
Qed.

Lemma UpdateBackends_view r addrs :
  wf r ->
  wf (UpdateBackends r addrs) /\
  Forall2 (fun a b => Addr b = a /\ (a ∈ Backends r -> b ∈ view r) /\ (a ∉ Backends r -> b = new_backend a))
    addrs (view (UpdateBackends r addrs)).
Proof.
  intros Hwf. destruct (existing_map_spec r) as [Hex Hnone]. specialize (Hnone Hwf).
  unfold UpdateBackends. destruct (alloc_backends _ _ _ _) as [[st next] ls] eqn:E.
  destruct Hwf as (Hall & Hlt & Hi).
  destruct (alloc_backends_spec _ _ _ _ _ _ _ ltac:(intros a l Hl; by apply Hex in Hl as [_ ?]) Hlt E)
    as (Hkeep & Hlt' & Hle & Hls).
  assert (Forall2 (fun a l => exists b, st !! l = Some b /\ Addr b = a /\
    (a ∈ Backends r -> b ∈ view r) /\ (a ∉ Backends r -> b = new_backend a)) addrs ls) as Hb.
  { eapply Forall2_impl; [|exact Hls]. intros a l Hl. cbn beta in Hl. destruct (existing_map r !! a) as [l'|] eqn:Ea.
    - subst l'. apply Hex in Ea as (Hin & b & Hb & Hab). exists b. split; [by apply Hkeep|]. split; [done|].
      assert (b ∈ view r) as Hv by (apply list_elem_of_omap; eauto). split; [done|].
      intros Hn. destruct Hn. rewrite <- Hab. by apply list_elem_of_fmap_2.
    - exists (new_backend a). split; [done|]. split; [done|]. split; [|done]. intros Ha. by apply Hnone in Ea. }
  split.
  - split_and!; [|done|done]. cbn [backends store]. clear -Hb.
    induction Hb as [|a l addrs ls (b & Hb & _)]; constructor; eauto.
  - unfold view. cbn [backends store]. clear -Hb.
    induction Hb as [|a l addrs ls (b & Hst & Ha) Hrest IH]; [constructor|]. cbn [omap list_omap].
    rewrite Hst. by constructor.
Qed.

(** replacing the backends keeps the state of those that stay. Afterwards the
    slice is the new address list in its order, a backend whose address was there
    before is one of the old backends with its health and replay position, and any
    other is new and healthy; the balancer stays well formed. *)
Theorem UpdateBackends_spec r addrs :
  wf r ->
  wf (UpdateBackends r addrs) /\
  Forall2 (fun a b => Addr b = a /\ (a ∈ Backends r -> b ∈ view r) /\ (a ∉ Backends r -> b = new_backend a))
    addrs (view (UpdateBackends r addrs)).
Proof. apply UpdateBackends_view. Qed.

Lemma same_addr_same_loc (st : gmap loc Backend) ls l l' b b' :
  NoDup (Addr <$> omap (fun l => st !! l) ls) -> l ∈ ls -> l' ∈ ls ->
  st !! l = Some b -> st !! l' = Some b' -> Addr b = Addr b' -> l = l'.
Proof.
  intros Hnd Hl Hl' Hb Hb' E. destruct (decide (l = l')) as [|Hne]; [done|]. exfalso.
  induction ls as [|l0 ls IH]; [by apply not_elem_of_nil in Hl|].
  cbn [omap list_omap] in Hnd. rewrite elem_of_cons in Hl, Hl'.
  assert (forall x c, x ∈ ls -> st !! x = Some c -> Addr c ∈ Addr <$> omap (fun l => st !! l) ls) as Hin.
  { intros x c Hx Hc. apply list_elem_of_fmap_2, list_elem_of_omap. eauto. }
  destruct Hl as [->|Hl], Hl' as [->|Hl']; [done|..].
  - rewrite Hb in Hnd. cbn in Hnd. apply list.NoDup_cons in Hnd as [Hn _]. destruct Hn. rewrite E. by eapply Hin.
  - rewrite Hb' in Hnd. cbn in Hnd. apply list.NoDup_cons in Hnd as [Hn _]. destruct Hn. rewrite <- E. by eapply Hin.
  - destruct (st !! l0); [cbn in Hnd; apply list.NoDup_cons in Hnd as [_ Hnd]|]; by apply IH.
Qed.

Lemma omap_insert_first (st : gmap loc Backend) ls l b addr f :
  Forall (fun l => is_Some (st !! l)) ls -> st !! l = Some b -> Addr b = addr ->
  (forall l' b', l' ∈ ls -> st !! l' = Some b' -> Addr b' = addr -> l' = l) ->
  omap (fun l' => <[l := f b]> st !! l') ls =
  (fun b => if bool_decide (Addr b = addr) then f b else b) <$> omap (fun l' => st !! l') ls.
Proof.
  intros Hall Hb Haddr Huniq.
  induction ls as [|l0 ls IH]; [done|]. apply list.Forall_cons in Hall as [[b0 Hb0] Hall].
  cbn [omap list_omap]. rewrite Hb0. cbn [fmap list_fmap].
  assert ((<[l:=f b]> st !! l0) = Some (if bool_decide (Addr b0 = addr) then f b0 else b0)) as ->.
  { destruct (decide (l0 = l)) as [->|Hne].
    - rewrite lookup_insert_eq. simplify_eq. by rewrite bool_decide_eq_true_2.
    - rewrite lookup_insert_ne by done. rewrite bool_decide_eq_false_2; [done|]. intros Ha.
      destruct Hne. eapply Huniq; [by left|done|done]. }
  f_equal. apply IH; [done|]. intros l' b' Hin'. apply Huniq. by right.
Qed.

(** Updating the first backend with an address, when addresses are distinct. *)
Lemma view_update_first r addr f :
  wf r -> NoDup (Backends r) -> 
  view (match find_loc r addr with Some l => update_at r l f | None => r end) =
  (fun b => if bool_decide (Addr b = addr) then f b else b) <$> view r.
Proof.
  intros [Hall _] Hnd. unfold find_loc. destruct (List.find _ (backends r)) as [l|] eqn:El.
  - apply List.find_some in El as [Hin Hl]. apply list_elem_of_In in Hin.
    destruct (store r !! l) as [b|] eqn:Eb; [|done]. apply bool_decide_eq_true in Hl.
    unfold update_at. rewrite Eb. unfold view. cbn [store backends set_store].
    assert (forall l' b', l' ∈ backends r -> store r !! l' = Some b' -> Addr b' = addr -> l' = l) as Huniq
      by (intros l' b' Hin' Hb' Ha; eapply (same_addr_same_loc (store r)); eauto; congruence).
    by apply omap_insert_first.
  - unfold view. assert (forall b, b ∈ omap (fun l => store r !! l) (backends r) -> Addr b <> addr) as Hno.
    { intros b (l & Hin & Hb)%list_elem_of_omap Ha. eapply List.find_none in El; [|by apply list_elem_of_In].
      cbn beta in El. rewrite Hb in El. by apply bool_decide_eq_false in El. }
    revert Hno. generalize (omap (fun l => store r !! l) (backends r)). intros bs Hno.
    induction bs as [|b bs IH]; [done|]. cbn [fmap list_fmap].
    rewrite bool_decide_eq_false_2 by (apply Hno; by left). f_equal. apply IH. intros b' Hb'. apply Hno. by right.
Qed.

Lemma wf_update_at r l f : wf r -> wf (update_at r l f).
Proof.
  intros (Hall & Hlt & Hi). unfold update_at. destruct (store r !! l) as [b|] eqn:E; [|done].
  split_and!; cbn; [|intros l' b' [[-> _]|[_ ?]]%lookup_insert_Some; eauto|done].
  eapply Forall_impl; [|exact Hall]. intros l' Hl'. cbn beta. rewrite lookup_insert_is_Some. by destruct (decide (l = l')); auto.
Qed.

(** a backend that was marked unhealthy is not used. With distinct addresses,
    marking changes the health of that backend only, and the next search, with or
    without an LSN, returns another backend or none. *)
Theorem MarkUnhealthy_skipped r addr minLSN :
  wf r -> NoDup (Backends r) -> addr <> [] ->
  (index r + Z.of_nat (length (backends r)) < 2 ^ 63)%Z ->
  view (MarkUnhealthy r addr) = (fun b => if bool_decide (Addr b = addr) then set_healthy false b else b) <$> view r /\
  exists a, (NextWithLSN (MarkUnhealthy r addr) minLSN).1 = Ok a /\ a <> addr.
Proof.
  intros Hwf Hnd Hne Hi.
  assert (view (MarkUnhealthy r addr) =
    (fun b => if bool_decide (Addr b = addr) then set_healthy false b else b) <$> view r) as Hv
    by by apply view_update_first.
  split; [done|].
  assert (wf (MarkUnhealthy r addr) /\ backends (MarkUnhealthy r addr) = backends r /\ index (MarkUnhealthy r addr) = index r)
    as (Hwf' & Hb' & Hi').
  { unfold MarkUnhealthy. destruct (find_loc r addr) as [l|]; [|done]. split; [by apply wf_update_at|].
    unfold update_at. by destruct (store r !! l). }
  rewrite NextWithLSN_exact by (rewrite ?Hb', ?Hi'; done).
  destruct (first_ok _ _) as [[b|] k] eqn:E; eexists; (split; [done|]); [|by cbn].
  apply first_ok_Some in E as [Hin Hok]. rewrite elem_of_cyclic, Hv in Hin.
  apply list_elem_of_fmap in Hin as (b0 & -> & _). cbn [from_option].
  destruct (bool_decide (Addr b0 = addr)) eqn:Ea; [|by apply bool_decide_eq_false in Ea].
  unfold acceptable in Hok. by destruct (IsZero minLSN).
Qed.

(** ** Examples *)

Definition rr3 : RoundRobin := NewRoundRobin [$"a:1"; $"b:1"; $"c:1"].

Lemma rr3_wf : wf rr3.
Proof.
  split_and!; [|intros l b Hl|done].
  - apply (bool_decide_unpack _). by vm_compute.
  - assert (map_Forall (fun l _ => l < 3) (store rr3)) as Hall by (apply (bool_decide_unpack _); by vm_compute).
    by apply (Hall l b).
Qed.

Lemma NextWithLSN_spec_witness :
  exists a k, NextWithLSN rr3 7%Z = (Ok a, set_index rr3 (index rr3 + Z.of_nat k)) /\
    ((exists b, b ∈ view rr3 /\ Addr b = a /\ healthy b = true /\ (IsZero 7%Z = false -> (7 <= replayLSN b)%Z) /\
        first_ok (acceptable 7%Z) (cyclic (view rr3) (Z.to_nat (index rr3) mod length (backends rr3))) = (Some b, k)) \/
     (a = [] /\ forall b, b ∈ view rr3 -> acceptable 7%Z b = false)).
Proof. apply (NextWithLSN_spec rr3 7%Z rr3_wf). by vm_compute. Defined.

Lemma Next_fair_witness : (next_n 3 rr3).1 ≡ₚ Ok <$> Backends rr3.
Proof.
  apply (Next_fair rr3 rr3_wf); [|by vm_compute]. apply (bool_decide_unpack _). by vm_compute.
Defined.

Lemma UpdateBackends_spec_witness :
  wf (UpdateBackends rr3 [$"b:1"; $"d:1"]) /\
  Forall2 (fun a b => Addr b = a /\ (a ∈ Backends rr3 -> b ∈ view rr3) /\ (a ∉ Backends rr3 -> b = new_backend a))
    [$"b:1"; $"d:1"] (view (UpdateBackends rr3 [$"b:1"; $"d:1"])).
Proof. apply (UpdateBackends_spec rr3 [$"b:1"; $"d:1"] rr3_wf). Defined.

Lemma MarkUnhealthy_skipped_witness :
  exists a, (NextWithLSN (MarkUnhealthy rr3 $"a:1") 0%Z).1 = Ok a /\ a <> $"a:1".
Proof.
  apply (MarkUnhealthy_skipped rr3 $"a:1" 0%Z rr3_wf); [|done|by vm_compute].
  apply (bool_decide_unpack _). by vm_compute.
Defined.

(** Past 2^63 calls the index is negative as an [int], and so is its remainder. *)
Example index_overflow_panics : (Next (set_index rr3 (2 ^ 63 + 1)%Z)).1 = Panic.
Proof. by vm_compute. Qed.
