(* ===== verification/Float64.v ===== *)
(** * float64 arithmetic

    The IEEE 754 double precision operations of the language, as the Standard
    Library specifies them ([SpecFloat] at precision 53 and maximal exponent 1024,
    rounding to nearest even), and the facts the rate limiter and the circuit
    breaker need: results are well formed, comparisons compare values, and an
    operation whose exact result is representable is exact. *)

From S2P Require Import Prelude.
From Stdlib Require Import Floats.SpecFloat.

Open Scope Z_scope.

Abbreviation float64 := spec_float.

Definition prec : Z := 53.
Definition emax : Z := 1024.

Definition f_add : float64 -> float64 -> float64 := SFadd prec emax.
Definition f_sub : float64 -> float64 -> float64 := SFsub prec emax.
Definition f_mul : float64 -> float64 -> float64 := SFmul prec emax.
Definition f_div : float64 -> float64 -> float64 := SFdiv prec emax.
Definition f_leb : float64 -> float64 -> bool := SFleb.
Definition f_ltb : float64 -> float64 -> bool := SFltb.

(** [float64(n)]. *)
Definition f_of_Z (n : Z) : float64 := binary_normalize prec emax n 0 false.

Definition f_zero : float64 := S754_zero false.
Definition f_one : float64 := f_of_Z 1.
Definition f_half : float64 := f_div (f_of_Z 1) (f_of_Z 2).

(** [Duration.Seconds]. *)
Definition Seconds (d : Duration) : float64 :=
  let sec := Z.quot d Second in
  let nsec := Z.rem d Second in
  f_add (f_of_Z sec) (f_div (f_of_Z nsec) (f_of_Z 1000000000)).

Definition valid (x : float64) : Prop := valid_binary prec emax x = true.

(** A non-negative finite number in units of 2^-1074, the least positive number. *)
Definition units (x : float64) : Z :=
  match x with S754_finite false m e => Zpos m * 2 ^ (e + 1074) | _ => 0 end.

Definition nonneg (x : float64) : Prop :=
  match x with S754_zero _ | S754_finite false _ _ => True | _ => False end.

(** Not negative, possibly infinite. *)
Definition positive_ (x : float64) : Prop :=
  match x with S754_zero _ | S754_finite false _ _ | S754_infinity false => True | _ => False end.

Definition good (x : float64) : Prop := valid x /\ positive_ x.

(** Not negative and finite, with exponent at most [b]. *)
Definition small (b : Z) (x : float64) : Prop :=
  match x with S754_zero _ => True | S754_finite false _ e => e <= b | _ => False end.

Definition one_unit : Z := 2 ^ 1074.

(** ** Digits *)

Lemma digits2_pos_spec m : 2 ^ (Zpos (digits2_pos m) - 1) <= Zpos m < 2 ^ Zpos (digits2_pos m).
Proof.
  assert (forall d : positive, 2 ^ Zpos (Pos.succ d) = 2 * 2 ^ Zpos d) as Hs
    by (intros d; rewrite Pos2Z.inj_succ, Z.pow_succ_r by lia; done).
  assert (forall d : positive, 2 ^ (Zpos (Pos.succ d) - 1) = 2 * 2 ^ (Zpos d - 1)) as Hs'.
  { intros d. replace (Zpos (Pos.succ d) - 1) with (Z.succ (Zpos d - 1)) by lia. rewrite Z.pow_succ_r by lia. done. }
  induction m as [m IH|m IH|]; cbn [digits2_pos]; rewrite ?Hs, ?Hs'; [lia|lia|done].
Qed.

Lemma digits_unique n d : 0 < d -> 2 ^ (d - 1) <= n < 2 ^ d -> Zdigits2 n = d.
Proof.
  intros Hd Hn. destruct n as [|m|m]; [|cbn|].
  - assert (0 < 2 ^ (d - 1)) by (apply Z.pow_pos_nonneg; lia). lia.
  - pose proof (digits2_pos_spec m) as Hm. set (d' := Zpos (digits2_pos m)) in *.
    destruct (Z.lt_trichotomy d' d) as [Hlt|[->|Hgt]]; [exfalso|done|exfalso].
    + assert (2 ^ d' <= 2 ^ (d - 1)) by (apply Z.pow_le_mono_r; lia). lia.
    + assert (2 ^ d <= 2 ^ (d' - 1)) by (apply Z.pow_le_mono_r; lia). lia.
  - assert (0 < 2 ^ (d - 1)) by (apply Z.pow_pos_nonneg; lia). lia.
Qed.

Lemma digits_bounds n : 0 < n -> 0 < Zdigits2 n /\ 2 ^ (Zdigits2 n - 1) <= n < 2 ^ Zdigits2 n.
Proof. destruct n as [|m|]; [lia| |lia]. intros _. cbn. split; [lia|apply digits2_pos_spec]. Qed.

Lemma iter_xO m k : Zpos (Pos.iter xO m k) = Zpos m * 2 ^ Zpos k.
Proof.
  induction k as [|k IH] using Pos.peano_ind; [cbn; lia|].
  rewrite Pos.iter_succ, Pos2Z.inj_succ, Z.pow_succ_r by lia.
  change (Zpos (xO (Pos.iter xO m k))) with (2 * Zpos (Pos.iter xO m k)). lia.
Qed.

Lemma digits_shift n k : 0 < n -> 0 <= k -> Zdigits2 (n * 2 ^ k) = Zdigits2 n + k.
Proof.
  intros Hn Hk. destruct (digits_bounds n Hn) as [Hd Hb]. apply digits_unique; [lia|].
  replace (Zdigits2 n + k - 1) with (Zdigits2 n - 1 + k) by lia. rewrite !Z.pow_add_r by lia.
  assert (0 < 2 ^ k) by (apply Z.pow_pos_nonneg; lia). nia.
Qed.

(** ** Rounding *)

Lemma shr_1_m r : 0 <= shr_m r -> shr_m (shr_1 r) = shr_m r / 2.
Proof.
  destruct r as [[|[p|p|]|p] ? ?]; cbn; intros Hr; [done|..|lia].
  - change (Zpos p~1) with (2 * Zpos p + 1)%Z. apply Z.div_unique with 1; lia.
  - change (Zpos p~0) with (2 * Zpos p)%Z. apply Z.div_unique with 0; lia.
  - done.
Qed.

Lemma iter_shr_m p r : 0 <= shr_m r -> shr_m (iter_pos shr_1 p r) = shr_m r / 2 ^ Zpos p.
Proof.
  assert (forall n, 0 < 2 ^ Zpos n) as Hpow by (intros n; by apply Z.pow_pos_nonneg).
  revert r. induction p as [p IH|p IH|]; intros r Hr; cbn [iter_pos].
  - assert (0 <= shr_m (shr_1 r)) by (rewrite shr_1_m by done; apply Z.div_pos; lia).
    rewrite IH, IH, shr_1_m by (rewrite ?IH by done; auto using Z.div_pos).
    rewrite (Z.div_div (shr_m r)), Z.div_div by (try apply Z.mul_pos_pos; specialize (Hpow p); lia).
    f_equal. replace (Zpos p~1) with (1 + Zpos p + Zpos p) by lia. rewrite !Z.pow_add_r by lia. done.
  - rewrite IH, IH by (rewrite ?IH by done; auto using Z.div_pos).
    rewrite Z.div_div by (specialize (Hpow p); lia).
    f_equal. replace (Zpos p~0) with (Zpos p + Zpos p) by lia. rewrite Z.pow_add_r by lia. done.
  - by apply shr_1_m.
Qed.

(** The two steps of rounding a positive mantissa: the kept part [m1] of the
    mantissa at the exponent [fexp] asks for, then the rounded value, one higher at
    most, again at its exponent. *)
Lemma shr_fexp_m m e l :
  0 <= m -> e <= fexp prec emax (Zdigits2 m + e) ->
  let e1 := fexp prec emax (Zdigits2 m + e) in
  exists r, shr_fexp prec emax m e l = (r, e1) /\ shr_m r = m / 2 ^ (e1 - e).
Proof.
  intros Hm Hle e1. subst e1. unfold shr_fexp. set (n := fexp _ _ _ - e) in *.
  assert (shr_m (shr_record_of_loc m l) = m) as Hr by by destruct l as [|[]].
  unfold shr. destruct n as [|p|p] eqn:En.
  - exists (shr_record_of_loc m l). split; [f_equal; lia|]. rewrite Hr, Z.pow_0_r, Z.div_1_r. done.
  - eexists. split; [f_equal; lia|]. rewrite iter_shr_m, Hr by lia. done.
  - lia.
Qed.

Lemma canonical_spec m e :
  canonical_mantissa prec emax m e = true <->
  e = Z.max (Zpos (digits2_pos m) + e - 53) (-1074).
Proof. unfold canonical_mantissa. rewrite Z.eqb_eq. unfold fexp, emin, prec, emax. lia. Qed.

Lemma fexp_eq e : fexp prec emax e = Z.max (e - 53) (-1074).
Proof. reflexivity. Qed.

(** Dropping the low bits of a mantissa leaves at most 53 digits, exactly so at a
    normal exponent. *)
Lemma kept_digits m e :
  0 <= m -> e <= fexp prec emax (Zdigits2 m + e) ->
  let e1 := fexp prec emax (Zdigits2 m + e) in
  0 <= m / 2 ^ (e1 - e) < 2 ^ 53 /\ (-1074 < e1 -> 2 ^ 52 <= m / 2 ^ (e1 - e)).
Proof.
  intros Hm. cbv zeta. rewrite fexp_eq. intros Hle. destruct (decide (m = 0)) as [->|Hne].
  { cbn [Zdigits2] in *. rewrite Z.div_0_l by (apply Z.pow_nonzero; lia). lia. }
  destruct (digits_bounds m ltac:(lia)) as [Hd Hb].
  set (d := Zdigits2 m) in *. set (e1 := Z.max (d + e - 53) (-1074)) in *.
  assert (0 < 2 ^ (e1 - e)) by (apply Z.pow_pos_nonneg; lia).
  split; [split; [apply Z.div_pos; lia|]|].
  - apply Z.div_lt_upper_bound; [done|]. rewrite <- Z.pow_add_r by lia.
    assert (2 ^ d <= 2 ^ (e1 - e + 53)) by (apply Z.pow_le_mono_r; lia). lia.
  - intros Hn. apply Z.div_le_lower_bound; [done|]. rewrite <- Z.pow_add_r by lia.
    replace (e1 - e + 52) with (d - 1) by lia. lia.
Qed.

Lemma canonical_of_digits p e :
  Zpos p < 2 ^ 53 -> -1074 <= e -> (-1074 < e -> 2 ^ 52 <= Zpos p) -> canonical_mantissa prec emax p e = true.
Proof.
  intros Hlt He Hn. apply canonical_spec. destruct (digits_bounds (Zpos p) ltac:(lia)) as [Hd Hb]. cbn in Hd, Hb.
  set (d := Zpos (digits2_pos p)) in *.
  assert (d <= 53). { destruct (Z.le_gt_cases d 53); [done|]. assert (2 ^ 53 <= 2 ^ (d - 1)) by (apply Z.pow_le_mono_r; lia). lia. }
  destruct (Z.eq_dec e (-1074)); [lia|]. assert (53 <= d); [|lia].
  destruct (Z.le_gt_cases 53 d); [done|]. assert (2 ^ d <= 2 ^ 52) by (apply Z.pow_le_mono_r; lia). lia.
Qed.

(** Rounding gives a well-formed number. *)
Lemma binary_round_aux_good m e l :
  0 <= m -> e <= fexp prec emax (Zdigits2 m + e) ->
  good (binary_round_aux prec emax false m e l) /\
  (fexp prec emax (Zdigits2 m + e) <= 970 ->
   small (fexp prec emax (Zdigits2 m + e) + 1) (binary_round_aux prec emax false m e l)).
Proof.
  intros Hm Hle. unfold binary_round_aux.
  destruct (shr_fexp_m m e l ltac:(lia) Hle) as (r & -> & Hr).
  pose proof (kept_digits m e Hm Hle) as [Hk Hk']. cbv zeta in Hr, Hk, Hk'.
  set (e1 := fexp prec emax (Zdigits2 m + e)) in *. rewrite <- Hr in Hk, Hk'.
  set (m1 := round_nearest_even (shr_m r) (loc_of_shr_record r)).
  assert (0 <= m1 <= 2 ^ 53 /\ (-1074 < e1 -> 2 ^ 52 <= m1)) as [Hm1 Hm1'].
  { subst m1. unfold round_nearest_even. repeat case_match; lia. }
  assert (-1074 <= e1) as He1 by (subst e1; rewrite fexp_eq; lia). clearbody m1 e1. clear -Hm1 Hm1' He1.
  destruct (decide (m1 = 0)) as [->|].
  { unfold shr_fexp, shr. cbn [shr_record_of_loc]. destruct (fexp _ _ _ - e1) as [|p|p]; [done| |done].
    rewrite iter_shr_m by done. cbn [shr_m]. rewrite Z.div_0_l; [done|]. by apply Z.pow_nonzero. }
  assert (e1 <= fexp prec emax (Zdigits2 m1 + e1)) as Hle.
  { rewrite fexp_eq. destruct (digits_bounds m1 ltac:(lia)) as [Hd Hb].
    destruct (Z.eq_dec e1 (-1074)); [lia|]. assert (53 <= Zdigits2 m1); [|lia].
    destruct (Z.le_gt_cases 53 (Zdigits2 m1)); [done|].
    assert (2 ^ Zdigits2 m1 <= 2 ^ 52) by (apply Z.pow_le_mono_r; lia). lia. }
  destruct (shr_fexp_m m1 e1 loc_Exact ltac:(lia) Hle) as (r2 & -> & Hr2).
  pose proof (kept_digits m1 e1 ltac:(lia) Hle) as [Hk2 Hk2']. cbv zeta in Hr2, Hk2, Hk2'. rewrite <- Hr2 in Hk2, Hk2'.
  assert (fexp prec emax (Zdigits2 m1 + e1) <= e1 + 1) as He2.
  { rewrite fexp_eq. destruct (digits_bounds m1 ltac:(lia)) as [Hd Hb].
    assert (2 ^ (Zdigits2 m1 - 1) < 2 ^ 54) as Hlt by lia. apply Z.pow_lt_mono_r_iff in Hlt; lia. }
  destruct (shr_m r2) as [|p|p]; [done| |lia]. change (emax - prec) with 971.
  case_match eqn:Hemax; [|apply Z.leb_gt in Hemax; split; [done|lia]]. split; [split; [|done]|done].
  unfold valid, valid_binary, bounded. change (emax - prec) with 971. rewrite Hemax, andb_true_r.
  apply canonical_of_digits; [lia| |done]. rewrite fexp_eq. lia.
Qed.

Lemma shl_align_spec m e e' : e' <= e -> exists mz, shl_align m e e' = (mz, e') /\ Zpos mz = Zpos m * 2 ^ (e - e').
Proof.
  intros Hle. unfold shl_align. destruct (e' - e) as [|p|p] eqn:Ep; [|lia|].
  - exists m. split; [f_equal; lia|]. replace (e - e') with 0 by lia. lia.
  - eexists. split; [done|]. rewrite iter_xO. f_equal. f_equal. lia.
Qed.

Definition exactly (m : Z) : shr_record := {| shr_m := m; shr_r := false; shr_s := false |}.

Lemma iter_shr_exact p m : 0 < m -> iter_pos shr_1 p (exactly (m * 2 ^ Zpos p)) = exactly m.
Proof.
  assert (forall m, 0 < m -> shr_1 (exactly (m * 2)) = exactly m) as H1.
  { intros [|q|q] Hm; [lia| |lia]. by rewrite Z.mul_comm. }
  revert m. induction p as [p IH|p IH|]; intros m Hm; cbn [iter_pos].
  - replace (Zpos p~1) with (Zpos p + Zpos p + 1) by lia. rewrite !Z.pow_add_r, !Z.mul_assoc, Z.pow_1_r by lia.
    assert (0 < 2 ^ Zpos p) by by apply Z.pow_pos_nonneg. rewrite H1, IH, IH by nia. done.
  - replace (Zpos p~0) with (Zpos p + Zpos p) by lia. rewrite Z.pow_add_r, Z.mul_assoc by lia.
    assert (0 < 2 ^ Zpos p) by by apply Z.pow_pos_nonneg. rewrite IH, IH by nia. done.
  - by apply H1.
Qed.

(** Rounding a mantissa that has its exponent, and one whose low bits are zero. *)
Lemma shr_fexp_same m e : fexp prec emax (Zdigits2 m + e) = e -> shr_fexp prec emax m e loc_Exact = (exactly m, e).
Proof. intros E. unfold shr_fexp. rewrite E, Z.sub_diag. done. Qed.

Lemma binary_round_aux_exact s m e e1 :
  0 < m -> e <= e1 <= 971 -> fexp prec emax (Zdigits2 (m * 2 ^ (e1 - e)) + e) = e1 ->
  binary_round_aux prec emax s (m * 2 ^ (e1 - e)) e loc_Exact = S754_finite s (Z.to_pos m) e1.
Proof.
  intros Hm He Hf. unfold binary_round_aux.
  assert (shr_fexp prec emax (m * 2 ^ (e1 - e)) e loc_Exact = (exactly m, e1)) as ->.
  { unfold shr_fexp. rewrite Hf. cbn [shr_record_of_loc]. fold (exactly (m * 2 ^ (e1 - e))).
    unfold shr. destruct (e1 - e) as [|p|p] eqn:Ep; [|by rewrite iter_shr_exact, <- Ep by done; f_equal; lia|lia].
    rewrite Z.pow_0_r, Z.mul_1_r. f_equal. lia. }
  cbn [exactly shr_m loc_of_shr_record round_nearest_even]. rewrite shr_fexp_same.
  - cbn [exactly shr_m]. change (emax - prec) with 971. rewrite (proj2 (Z.leb_le e1 971)) by lia. by destruct m.
  - rewrite digits_shift in Hf by lia. rewrite <- Hf at 2. f_equal. lia.
Qed.

(** An exactly representable number is not changed by rounding. *)
Lemma binary_round_exact s m e k j :
  0 < k < 2 ^ 53 -> 0 <= j -> Zpos m = k * 2 ^ j -> -1074 <= e + j <= 971 ->
  exists m' e', binary_round prec emax s m e = S754_finite s m' e' /\ bounded prec emax m' e' = true /\
    -1074 <= e' <= e + j /\ Zpos m' = k * 2 ^ (e + j - e').
Proof.
  intros Hk Hj Hm He. destruct (digits_bounds k ltac:(lia)) as [Hd Hb].
  assert (Zpos (digits2_pos m) = Zdigits2 k + j) as Hdm.
  { change (Zpos (digits2_pos m)) with (Zdigits2 (Zpos m)). rewrite Hm. apply digits_shift; lia. }
  assert (Zdigits2 k <= 53) as Hd53.
  { destruct (Z.le_gt_cases (Zdigits2 k) 53); [done|]. assert (2 ^ 53 <= 2 ^ (Zdigits2 k - 1)) by (apply Z.pow_le_mono_r; lia). lia. }
  set (d := Zdigits2 k) in *. unfold binary_round. rewrite Hdm. set (e1 := fexp prec emax (d + j + e)).
  assert (e1 = Z.max (d + j + e - 53) (-1074)) as He1 by reflexivity.
  set (m1 := k * 2 ^ (e + j - e1)). assert (0 < 2 ^ (e + j - e1)) as Hpow by (apply Z.pow_pos_nonneg; lia).
  assert (0 < m1) as Hm1 by (subst m1; nia). assert (Zdigits2 m1 = d + (e + j - e1)) as Hdm1 by (apply digits_shift; lia).
  exists (Z.to_pos m1), e1. rewrite Z2Pos.id by done. split; [|split_and!; [|lia|lia|done]].
  - destruct (Z.le_gt_cases e1 e) as [Hle|Hgt].
    + destruct (shl_align_spec m e e1 Hle) as (mz & -> & Hmz).
      assert (Zpos mz = m1 * 2 ^ (e1 - e1)) as ->.
      { rewrite Z.sub_diag, Z.pow_0_r, Z.mul_1_r, Hmz, Hm, <- Z.mul_assoc, <- Z.pow_add_r by lia. subst m1. f_equal. f_equal. lia. }
      apply binary_round_aux_exact; [done|lia|]. rewrite Z.sub_diag, Z.pow_0_r, Z.mul_1_r, Hdm1, fexp_eq. lia.
    + unfold shl_align. destruct (e1 - e) as [|p|p] eqn:Ep; [lia| |lia].
      assert (Zpos m = m1 * 2 ^ (e1 - e)) as ->.
      { rewrite Hm. subst m1. rewrite <- Z.mul_assoc, <- Z.pow_add_r by lia. f_equal. f_equal. lia. }
      apply binary_round_aux_exact; [done|lia|]. rewrite digits_shift, Hdm1, fexp_eq by lia. lia.
  - unfold bounded. apply andb_true_intro. split; [|apply Z.leb_le; unfold emax, prec; lia].
    apply canonical_spec. change (Zpos (digits2_pos (Z.to_pos m1))) with (Zdigits2 (Zpos (Z.to_pos m1))).
    rewrite Z2Pos.id by done. rewrite Hdm1. lia.
Qed.

(** ** Operations on numbers that are not negative *)

Lemma finite_spec m e :
  valid (S754_finite false m e) <->
  e = Z.max (Zpos (digits2_pos m) + e - 53) (-1074) /\ e <= 971.
Proof. unfold valid, valid_binary, bounded. rewrite andb_true_iff, canonical_spec, Z.leb_le. done. Qed.

Lemma binary_normalize_good m e :
  0 <= m -> good (binary_normalize prec emax m e false) /\
  (fexp prec emax (Zdigits2 m + e) <= 970 -> small (fexp prec emax (Zdigits2 m + e) + 1) (binary_normalize prec emax m e false)).
Proof.
  destruct m as [|m|m]; [done| |lia]. intros _. cbn [binary_normalize]. unfold binary_round.
  destruct (Z.le_gt_cases (fexp prec emax (Zpos (digits2_pos m) + e)) e) as [Hle|Hgt].
  - destruct (shl_align_spec m e _ Hle) as (mz & -> & Hmz). cbn [Zdigits2].
    set (e1 := fexp prec emax (Zpos (digits2_pos m) + e)) in *.
    assert (fexp prec emax (Zdigits2 (Zpos mz) + e1) = e1) as Hfe.
    { rewrite Hmz, digits_shift by lia. cbn [Zdigits2]. subst e1. f_equal. lia. }
    pose proof (binary_round_aux_good (Zpos mz) e1 loc_Exact) as Hgood. rewrite Hfe in Hgood. by apply Hgood.
  - unfold shl_align. destruct (_ - e) as [|p|p] eqn:Ep; [lia| |lia].
    apply binary_round_aux_good; [done|]. cbn [Zdigits2]. lia.
Qed.

Lemma f_add_good x y : good x -> good y -> good (f_add x y).
Proof.
  intros Hx Hy. destruct x as [sx|[]| |[] mx ex]; try (by destruct Hx); destruct y as [sy|[]| |[] my ey]; try (by destruct Hy);
    try done; [by destruct sx, sy|].
  apply binary_normalize_good. cbn [cond_Zopp]. lia.
Qed.

Lemma digits_le n d : 0 <= n < 2 ^ d -> 0 <= d -> Zdigits2 n <= d.
Proof.
  intros Hn Hd. destruct (decide (n = 0)) as [->|]; [done|]. destruct (digits_bounds n ltac:(lia)) as [? [Hlo _]].
  assert (2 ^ (Zdigits2 n - 1) < 2 ^ d) as Hlt by lia. apply Z.pow_lt_mono_r_iff in Hlt; lia.
Qed.

(** Sums of small numbers stay small. *)
Lemma f_add_small b x y : 0 <= b <= 900 -> good x -> good y -> small b x -> small b y -> small (b + 3) (f_add x y).
Proof.
  intros Hb [Hx _] [Hy _] Hsx Hsy. assert (forall b' z, small b z -> b <= b' -> small b' z) as Hmono
    by (intros b' [| | |[] ? ?]; cbn; lia || done).
  destruct x as [sx|[]| |[] mx ex], y as [sy|[]| |[] my ey]; try done;
    [by destruct sx, sy|by eapply (Hmono _ _ Hsy); lia|by eapply (Hmono _ _ Hsx); lia|].
  cbn in Hsx, Hsy. unfold f_add, SFadd. cbn [cond_Zopp]. set (ez := Z.min ex ey).
  destruct (shl_align_spec mx ex ez ltac:(lia)) as (ma & -> & Ha), (shl_align_spec my ey ez ltac:(lia)) as (mb & -> & Hmb). cbn [fst].
  apply finite_spec in Hx as [Hx _], Hy as [Hy _].
  destruct (digits_bounds (Zpos mx) eq_refl) as [_ [_ Hmx]], (digits_bounds (Zpos my) eq_refl) as [_ [_ Hmy]]. cbn [Zdigits2] in Hmx, Hmy.
  set (dx := Zpos (digits2_pos mx)) in *. set (dy := Zpos (digits2_pos my)) in *.
  assert (forall m d e, 0 < m < 2 ^ d -> 0 <= d <= 53 -> ez <= e <= b -> m * 2 ^ (e - ez) < 2 ^ (53 + b - ez)) as Hlt.
  { intros m d e Hm Hd He. assert (2 ^ d * 2 ^ (e - ez) <= 2 ^ (53 + b - ez))
      by (rewrite <- Z.pow_add_r by lia; apply Z.pow_le_mono_r; lia).
    assert (0 < 2 ^ (e - ez)) by (apply Z.pow_pos_nonneg; lia). nia. }
  pose proof (Hlt (Zpos mx) dx ex ltac:(lia) ltac:(lia) ltac:(lia)) as H1. pose proof (Hlt (Zpos my) dy ey ltac:(lia) ltac:(lia) ltac:(lia)) as H2.
  rewrite <- Ha in H1. rewrite <- Hmb in H2.
  assert (Zdigits2 (Zpos ma + Zpos mb) <= 53 + b - ez + 1) as Hd.
  { apply digits_le; [|lia]. rewrite Z.pow_add_r by lia. lia. }
  assert (-1074 <= ez) by lia.
  pose proof (binary_normalize_good (Zpos ma + Zpos mb) ez ltac:(lia)) as [_ Hsmall]. rewrite fexp_eq in Hsmall.
  specialize (Hsmall ltac:(lia)). revert Hsmall. destruct (binary_normalize _ _ _ _ _) as [| | |[] ? ?]; cbn; lia || done.
Qed.

Lemma digits_mul a b : 0 < a -> 0 < b -> Zdigits2 a + Zdigits2 b - 1 <= Zdigits2 (a * b).
Proof.
  intros Ha Hb. destruct (digits_bounds a Ha) as [Ha1 Ha2], (digits_bounds b Hb) as [Hb1 Hb2].
  destruct (digits_bounds (a * b) ltac:(lia)) as [Hc1 Hc2].
  assert (2 ^ (Zdigits2 a - 1 + (Zdigits2 b - 1)) < 2 ^ Zdigits2 (a * b)) as Hlt.
  { rewrite Z.pow_add_r by lia. eapply Z.le_lt_trans; [|apply Hc2]. apply Z.mul_le_mono_nonneg; try lia; by apply Z.pow_nonneg. }
  apply Z.pow_lt_mono_r_iff in Hlt; lia.
Qed.

Lemma f_mul_good x y : good x -> good y -> nonneg x -> nonneg y -> good (f_mul x y).
Proof.
  intros [Hx _] [Hy _] Hnx Hny. destruct x as [sx|[]| |[] mx ex], y as [sy|[]| |[] my ey]; try done.
  apply finite_spec in Hx as [Hx _], Hy as [Hy _]. apply binary_round_aux_good; [done|].
  pose proof (digits_mul (Zpos mx) (Zpos my) eq_refl eq_refl) as Hd. rewrite fexp_eq.
  change (Zpos (mx * my)) with (Zpos mx * Zpos my). cbn [Zdigits2] in Hd. lia.
Qed.

Lemma digits_div a b : 0 < b -> 0 < a / b -> Zdigits2 a - Zdigits2 b <= Zdigits2 (a / b).
Proof.
  intros Hb Hq. assert (0 < a).
  { destruct (Z.le_gt_cases a 0) as [Ha|]; [|lia]. pose proof (Z.div_le_upper_bound a b 0 Hb ltac:(lia)). lia. }
  destruct (digits_bounds a ltac:(done)) as [Ha1 Ha2], (digits_bounds b Hb) as [Hb1 Hb2], (digits_bounds _ Hq) as [Hq1 Hq2].
  assert (2 ^ (Zdigits2 a - 1) < 2 ^ (Zdigits2 b + Zdigits2 (a / b))) as Hlt.
  { rewrite Z.pow_add_r by lia. pose proof (Z.mul_succ_div_gt a b Hb).
    assert (b * Z.succ (a / b) <= 2 ^ Zdigits2 b * 2 ^ Zdigits2 (a / b)) by (apply Z.mul_le_mono_nonneg; lia). lia. }
  apply Z.pow_lt_mono_r_iff in Hlt; lia.
Qed.

Lemma digits_div_le a b : 0 <= a -> 0 < b -> Zdigits2 b <= Zdigits2 a -> Zdigits2 (a / b) <= Zdigits2 a - Zdigits2 b + 1.
Proof.
  intros Ha Hb Hle. destruct (digits_bounds b Hb) as [? Hb2]. apply digits_le; [|lia]. split; [by apply Z.div_pos|].
  apply Z.div_lt_upper_bound; [done|]. destruct (digits_bounds a ltac:(destruct a; cbn in *; lia)) as [_ [_ Ha2]].
  eapply Z.lt_le_trans; [exact Ha2|].
  replace (Zdigits2 a) with (Zdigits2 b - 1 + (Zdigits2 a - Zdigits2 b + 1)) at 1 by lia. rewrite Z.pow_add_r by lia.
  apply Z.mul_le_mono_nonneg_r; [apply Z.pow_nonneg; lia|lia].
Qed.

Lemma f_div_good x m e :
  good x -> nonneg x ->
  good (f_div x (S754_finite false m e)) /\
  (small 0 x -> 53 <= Zpos (digits2_pos m) -> -50 <= e <= 0 -> small 3 (f_div x (S754_finite false m e))).
Proof.
  intros [Hx _] Hnx. destruct x as [sx|[]| |[] mx ex]; try done. apply finite_spec in Hx as [Hx _].
  unfold f_div, SFdiv, SFdiv_core_binary. cbn [Zdigits2]. set (d1 := Zpos (digits2_pos mx)) in *. set (d2 := Zpos (digits2_pos m)).
  set (f := fexp prec emax (d1 + ex - (d2 + e))). set (e' := Z.min f (ex - e)).
  set (m' := match ex - e - e' with 0 => Zpos mx | Zpos _ => Z.shiftl (Zpos mx) (ex - e - e') | Zneg _ => 0 end).
  assert (m' = Zpos mx * 2 ^ (ex - e - e')) as Hm'.
  { subst m'. destruct (ex - e - e') as [|p|p] eqn:Ep; [lia| |lia]. by rewrite Z.shiftl_mul_pow2. }
  pose proof (Z.div_eucl_eq m' (Zpos m) ltac:(done)) as Heq. pose proof (Z.mod_pos_bound m' (Zpos m) eq_refl) as Hmod.
  assert (fst (Z.div_eucl m' (Zpos m)) = m' / Zpos m) as Hq by done.
  destruct (Z.div_eucl m' (Zpos m)) as [q r]. cbn [fst] in Hq. subst q.
  assert (0 < 2 ^ (ex - e - e')) by (apply Z.pow_pos_nonneg; lia).
  assert (e' <= fexp prec emax (Zdigits2 (m' / Zpos m) + e')) as Hbound.
  2:{ destruct (binary_round_aux_good (m' / Zpos m) e' (new_location (Zpos m) r)) as [Hgood Hsmall]; [apply Z.div_pos; lia|done|].
      split; [done|]. cbn [small]. intros Hex Hd2 He2.
      assert (Zdigits2 (m' / Zpos m) + e' <= 51) as Hle.
      { assert (0 <= m' / Zpos m) as [Hpos|<-]%Z.le_lteq by (apply Z.div_pos; lia); [|cbn; lia].
        assert (Zdigits2 m' = d1 + (ex - e - e')) as Hdm by (rewrite Hm'; apply (digits_shift (Zpos mx)); lia).
        assert (d2 <= Zdigits2 m') as Hge.
        { destruct (Z.le_gt_cases d2 (Zdigits2 m')) as [|Hgt]; [done|exfalso].
          assert (0 < m') as Hp by (rewrite Hm'; lia). destruct (digits_bounds m' Hp) as [_ [_ Hb1]].
          destruct (digits_bounds (Zpos m) eq_refl) as [_ [Hb2 _]]. cbn [Zdigits2] in Hb2. fold d2 in Hb2.
          assert (2 ^ Zdigits2 m' <= 2 ^ (d2 - 1)) by (apply Z.pow_le_mono_r; lia). rewrite Z.div_small in Hpos by lia. done. }
        pose proof (digits_div_le m' (Zpos m) ltac:(lia) eq_refl Hge) as Hd. cbn [Zdigits2] in Hd. fold d2 in Hd. lia. }
      rewrite fexp_eq in Hsmall. specialize (Hsmall ltac:(lia)). revert Hsmall.
      destruct (binary_round_aux _ _ _ _ _ _) as [| | |[] ? ?]; cbn; lia || done.
  }
  assert (e' <= f) as Hf by lia. assert (f = Z.max (d1 + ex - (d2 + e) - 53) (-1074)) as Hfe by reflexivity.
  assert (0 <= m' / Zpos m) as [Hpos|Hzero]%Z.le_lteq by (apply Z.div_pos; lia).
  - pose proof (digits_div m' (Zpos m) eq_refl Hpos) as Hd. rewrite Hm' in Hd at 1. rewrite digits_shift in Hd by lia.
    cbn [Zdigits2] in Hd. rewrite fexp_eq. fold d1 d2 in Hd. lia.
  - rewrite <- Hzero. cbn [Zdigits2]. rewrite fexp_eq. destruct (Z.le_gt_cases e' (-1074)) as [|Hgt]; [lia|exfalso].
    symmetry in Hzero. apply Z.div_small_iff in Hzero as [Hz|Hz]; [|lia|done].
    destruct (digits_bounds (Zpos mx) eq_refl) as [_ Hb1], (digits_bounds (Zpos m) eq_refl) as [_ Hb2].
    cbn [Zdigits2] in Hb1, Hb2. fold d1 in Hb1. fold d2 in Hb2.
    assert (2 ^ d2 <= m'); [|lia]. rewrite Hm'.
    assert (2 ^ d2 <= 2 ^ (d1 - 1 + (ex - e - e'))) as Hle by (apply Z.pow_le_mono_r; lia).
    rewrite Z.pow_add_r in Hle by lia. nia.
Qed.

(** ** Exact results *)

Lemma binary_normalize_exact n e k j :
  0 <= k < 2 ^ 53 -> 0 <= j -> n = k * 2 ^ j -> -1074 <= e + j <= 971 ->
  valid (binary_normalize prec emax n e false) /\ nonneg (binary_normalize prec emax n e false) /\
  units (binary_normalize prec emax n e false) = k * 2 ^ (e + j + 1074).
Proof.
  intros Hk Hj Hn He. assert (0 < 2 ^ j) by (apply Z.pow_pos_nonneg; lia).
  destruct n as [|m|m]; [|cbn [binary_normalize]|nia].
  { split_and!; [done..|]. cbn. nia. }
  destruct (binary_round_exact false m e k j ltac:(nia) Hj Hn He) as (m' & e' & -> & Hv & He' & Hm'). split_and!; [done..|].
  cbn [units]. rewrite Hm', <- Z.mul_assoc, <- Z.pow_add_r by lia. f_equal. f_equal. lia.
Qed.

Lemma f_of_Z_exact n :
  0 <= n < 2 ^ 53 -> valid (f_of_Z n) /\ nonneg (f_of_Z n) /\ units (f_of_Z n) = n * one_unit.
Proof. intros Hn. apply (binary_normalize_exact n 0 n 0); lia. Qed.

Lemma units_nonneg x : 0 <= units x.
Proof. destruct x as [| | |[] m e]; cbn [units]; lia. Qed.

Lemma valid_bounds m e :
  valid (S754_finite false m e) -> -1074 <= e <= 971 /\ Zpos m < 2 ^ 53 /\ (-1074 < e -> 2 ^ 52 <= Zpos m).
Proof.
  intros [He Hmax]%finite_spec. destruct (digits_bounds (Zpos m) eq_refl) as [Hd Hb]. cbn [Zdigits2] in Hd, Hb.
  set (d := Zpos (digits2_pos m)) in *. split; [lia|]. split.
  - assert (2 ^ d <= 2 ^ 53) by (apply Z.pow_le_mono_r; lia). lia.
  - intros Hn. assert (2 ^ 52 <= 2 ^ (d - 1)) by (apply Z.pow_le_mono_r; lia). lia.
Qed.

Lemma SFcompare_units x y :
  valid x -> valid y -> nonneg x -> nonneg y -> SFcompare x y = Some (Z.compare (units x) (units y)).
Proof.
  intros Hx Hy Hnx Hny.
  assert (forall m e, valid (S754_finite false m e) -> 0 < units (S754_finite false m e)) as Hpos.
  { intros m e [He _]%valid_bounds. cbn. apply Z.mul_pos_pos; [lia|]. apply Z.pow_pos_nonneg; lia. }
  destruct x as [sx|[]| |[] m1 e1], y as [sy|[]| |[] m2 e2]; try done.
  - cbn [SFcompare]. specialize (Hpos _ _ Hy). cbn [units] in *. symmetry. f_equal. by apply Z.compare_lt_iff.
  - cbn [SFcompare]. specialize (Hpos _ _ Hx). cbn [units] in *. symmetry. f_equal. by apply Z.compare_gt_iff.
  - cbn [SFcompare units]. f_equal. apply valid_bounds in Hx as (He1 & Hm1 & Hn1), Hy as (He2 & Hm2 & Hn2).
    assert (forall ma mb a b, -1074 <= a -> a < b -> Zpos ma < 2 ^ 53 -> 2 ^ 52 <= Zpos mb ->
      Zpos ma * 2 ^ (a + 1074) < Zpos mb * 2 ^ (b + 1074)) as Hlt.
    { intros ma mb a b Ha Hab Hma Hmb. replace (b + 1074) with (1 + (b - a - 1) + (a + 1074)) by lia.
      rewrite !(Z.pow_add_r 2 _ (a + 1074)), (Z.pow_add_r 2 1) by lia.
      assert (0 < 2 ^ (a + 1074)) by (apply Z.pow_pos_nonneg; lia).
      assert (0 < 2 ^ (b - a - 1)) by (apply Z.pow_pos_nonneg; lia).
      rewrite Z.mul_assoc. apply Z.mul_lt_mono_pos_r; [done|]. change (2 ^ 1) with 2.
      generalize dependent (2 ^ (b - a - 1)). intros c ?. change (2 ^ 53) with (2 * 2 ^ 52) in Hma. nia. }
    destruct (Z.compare_spec e1 e2) as [->|Hc|Hc].
    + change (Pos.compare_cont Eq m1 m2) with (Z.compare (Zpos m1) (Zpos m2)).
      assert (0 < 2 ^ (e2 + 1074)) by (apply Z.pow_pos_nonneg; lia).
      destruct (Z.compare_spec (Zpos m1) (Zpos m2)) as [->|Hc|Hc]; symmetry;
        [apply Z.compare_refl|apply Z.compare_lt_iff|apply Z.compare_gt_iff]; by apply Z.mul_lt_mono_pos_r.
    + symmetry. apply Z.compare_lt_iff, Hlt; [lia..|]. apply Hn2. lia.
    + symmetry. apply Z.compare_gt_iff, Hlt; [lia..|]. apply Hn1. lia.
Qed.

Lemma f_leb_units x y : valid x -> valid y -> nonneg x -> nonneg y -> f_leb x y = (units x <=? units y).
Proof.
  intros. unfold f_leb, SFleb. rewrite SFcompare_units by done. unfold Z.leb. by destruct (units x ?= units y).
Qed.

Lemma f_ltb_units x y : valid x -> valid y -> nonneg x -> nonneg y -> f_ltb x y = (units x <? units y).
Proof.
  intros. unfold f_ltb, SFltb. rewrite SFcompare_units by done. unfold Z.ltb. by destruct (units x ?= units y).
Qed.

Lemma f_add_zero x s : nonneg x -> valid x ->
  valid (f_add x (S754_zero s)) /\ nonneg (f_add x (S754_zero s)) /\ units (f_add x (S754_zero s)) = units x.
Proof. intros Hn Hv. destruct x as [[]| | |[] m e]; try done; by destruct s. Qed.

(** Subtracting one from a number of at least one loses nothing below 2^53. *)
Lemma f_sub_one x :
  valid x -> nonneg x -> one_unit <= units x -> units x < 2 ^ 53 * one_unit ->
  valid (f_sub x f_one) /\ nonneg (f_sub x f_one) /\ units (f_sub x f_one) = units x - one_unit.
Proof.
  intros Hv Hn Hge Hlt. assert (0 < one_unit) by by apply Z.pow_pos_nonneg.
  destruct x as [s| | |[] m e]; try done. cbn [units] in Hge, Hlt.
  apply valid_bounds in Hv as (He & Hm & Hn').
  assert (e <= 0) as He0.
  { destruct (Z.le_gt_cases e 0); [done|]. specialize (Hn' ltac:(lia)).
    assert (2 ^ 53 * one_unit <= Zpos m * 2 ^ (e + 1074)); [|lia]. unfold one_unit. rewrite (Z.pow_add_r 2 e) by lia.
    assert (2 ^ 1 <= 2 ^ e) by (apply Z.pow_le_mono_r; lia). assert (0 < 2 ^ 1074) by by apply Z.pow_pos_nonneg. nia. }
  assert (-52 <= e) as He52.
  { destruct (Z.le_gt_cases (-52) e); [done|]. assert (Zpos m * 2 ^ (e + 1074) < one_unit); [|lia].
    assert (2 ^ (e + 1074) <= 2 ^ 1021) by (apply Z.pow_le_mono_r; lia).
    assert (one_unit = 2 ^ 53 * 2 ^ 1021) as -> by reflexivity. nia. }
  assert (f_one = S754_finite false (2 ^ 52)%positive (-52)) as -> by by vm_compute.
  unfold f_sub, SFsub. cbn [cond_Zopp]. replace (Z.min e (-52)) with (-52) by lia.
  destruct (shl_align_spec m e (-52) He52) as (mz & -> & Hmz).
  destruct (shl_align_spec (2 ^ 52) (-52) (-52) ltac:(lia)) as (m1 & -> & Hm1). cbn [fst]. rewrite Hmz, Hm1.
  assert (one_unit = 2 ^ (- e) * 2 ^ (e + 1074)) as Hone by (unfold one_unit; rewrite <- Z.pow_add_r by lia; f_equal; lia).
  assert (0 < 2 ^ (e + 1074)) by (apply Z.pow_pos_nonneg; lia).
  rewrite Hone in Hge. apply Z.mul_le_mono_pos_r in Hge; [|done].
  destruct (binary_normalize_exact (Zpos m * 2 ^ (e - -52) - Zpos (2 ^ 52) * 2 ^ (-52 - -52)) (-52) (Zpos m - 2 ^ (- e)) (e + 52))
    as (? & ? & Hu); [split; [lia|]| lia | | lia |].
  - assert (0 < 2 ^ (- e)) by (apply Z.pow_pos_nonneg; lia). lia.
  - rewrite Z.mul_sub_distr_r, <- Z.pow_add_r by lia. replace (e - -52) with (e + 52) by lia.
    replace (- e + (e + 52)) with 52 by lia. done.
  - split_and!; [done..|]. rewrite Hu, Hone. cbn [units]. replace (-52 + (e + 52) + 1074) with (e + 1074) by lia. lia.
Qed.

Lemma f_of_Z_small n : 0 <= n < 2 ^ 53 -> small 0 (f_of_Z n).
Proof.
  destruct n as [|m|m]; [done| |lia]. intros Hn. unfold f_of_Z. cbn [binary_normalize].
  destruct (binary_round_exact false m 0 (Zpos m) 0) as (m' & e' & -> & _ & He & _); cbn; lia.
Qed.

(** Seconds of a duration that is not negative. *)
Lemma Seconds_good d : 0 <= d <= MaxInt64 -> good (Seconds d) /\ nonneg (Seconds d).
Proof.
  intros Hd. unfold Seconds. assert (0 <= Z.quot d Second < 2 ^ 53) as Hs.
  { unfold Second, MaxInt64 in *. rewrite Z.quot_div_nonneg by lia. split; [apply Z.div_pos; lia|].
    apply Z.div_lt_upper_bound; lia. }
  assert (0 <= Z.rem d Second < 2 ^ 53) as Hn.
  { unfold Second. rewrite Z.rem_mod_nonneg by lia. pose proof (Z.mod_pos_bound d 1000000000). lia. }
  destruct (f_of_Z_exact _ Hs) as (Hsv & Hsn & _), (f_of_Z_exact _ Hn) as (Hnv & Hnn & _).
  assert (forall x, valid x -> nonneg x -> good x) as Hgood by (intros [| | |[] ? ?] ? ?; by split).
  assert (f_of_Z 1000000000 = S754_finite false 8388608000000000 (-23)) as -> by by vm_compute.
  destruct (f_div_good (f_of_Z (Z.rem d Second)) 8388608000000000 (-23)) as [Hq Hqs]; [by apply Hgood|done|].
  specialize (Hqs (f_of_Z_small _ Hn) ltac:(by vm_compute) ltac:(lia)).
  assert (small 3 (f_of_Z (Z.quot d Second))) as Hss.
  { pose proof (f_of_Z_small _ Hs) as H0. revert H0. destruct (f_of_Z _) as [| | |[] ? ?]; cbn; lia || done. }
  split; [apply f_add_good; auto|].
  pose proof (f_add_small 3 _ _ ltac:(lia) (Hgood _ Hsv Hsn) Hq Hss Hqs) as Hfin. revert Hfin.
  by destruct (f_add _ _) as [| | |[] ? ?].
Qed.

(** ** Numbers that are not positive *)

Definition negative_ (x : float64) : Prop :=
  match x with S754_zero _ | S754_finite true _ _ | S754_infinity true => True | _ => False end.

Lemma shr_fexp_nonneg m e l : 0 <= m -> 0 <= shr_m (shr_fexp prec emax m e l).1.
Proof.
  intros Hm. assert (shr_m (shr_record_of_loc m l) = m) as Hr by by destruct l as [|[]].
  unfold shr_fexp, shr. destruct (_ - e); cbn [fst]; rewrite ?iter_shr_m, ?Hr by lia; [done| |done].
  apply Z.div_pos; [done|by apply Z.pow_pos_nonneg].
Qed.

Lemma binary_round_aux_negative m e l : 0 <= m -> negative_ (binary_round_aux prec emax true m e l).
Proof.
  intros Hm. unfold binary_round_aux. pose proof (shr_fexp_nonneg m e l Hm) as H1. destruct (shr_fexp _ _ m e l) as [r e1].
  cbn [fst] in H1. set (m1 := round_nearest_even _ _). assert (0 <= m1) as Hm1 by (subst m1; unfold round_nearest_even; repeat case_match; lia).
  pose proof (shr_fexp_nonneg m1 e1 loc_Exact Hm1) as H2. destruct (shr_fexp _ _ m1 e1 loc_Exact) as [r2 e2].
  cbn [fst] in H2. destruct (shr_m r2); [done| |done]. by case_match.
Qed.

Lemma binary_normalize_negative n e : n <= 0 -> negative_ (binary_normalize prec emax n e false).
Proof.
  destruct n as [|n|n]; [done|lia|]. intros _. cbn [binary_normalize]. unfold binary_round. destruct (shl_align _ _ _).
  by apply binary_round_aux_negative.
Qed.

(** A duration that is not positive has seconds that are not positive. *)
Lemma Seconds_negative d : d <= 0 -> negative_ (Seconds d).
Proof.
  intros Hd. unfold Seconds. set (q := Z.quot d Second). set (r := Z.rem d Second).
  assert (q <= 0) as Hq.
  { subst q. unfold Second. replace d with (- - d) by lia. rewrite Z.quot_opp_l by lia.
    assert (0 <= Z.quot (- d) 1000000000) by (apply Z.quot_pos; lia). lia. }
  assert (r <= 0) as Hr by (apply Z.rem_nonpos; [done|lia]).
  assert (f_of_Z 1000000000 = S754_finite false 8388608000000000 (-23)) as -> by by vm_compute.
  assert (negative_ (f_div (f_of_Z r) (S754_finite false 8388608000000000 (-23)))) as Hdiv.
  { pose proof (binary_normalize_negative r 0 Hr) as Hn. unfold f_of_Z.
    destruct (binary_normalize _ _ r 0 false) as [s|[]| |[] m e]; try done.
    unfold f_div, SFdiv. destruct (SFdiv_core_binary _ _ _ _ _ _) as [[mz ez] lz] eqn:E. apply binary_round_aux_negative.
    unfold SFdiv_core_binary in E. set (m' := match _ with 0 => _ | Zpos _ => _ | Zneg _ => 0 end) in E.
    assert (0 <= m'). { subst m'. destruct (e - -23 - _); [done| |done]. by apply Z.shiftl_nonneg. }
    assert (fst (Z.div_eucl m' 8388608000000000) = m' / 8388608000000000) as Hfst by done.
    destruct (Z.div_eucl m' 8388608000000000) as [a b]. cbn in Hfst. injection E as <- _ _. subst a. apply Z.div_pos; lia. }
  pose proof (binary_normalize_negative q 0 Hq) as Hn. unfold f_of_Z at 1.
  destruct (binary_normalize _ _ q 0 false) as [sx|[]| |[] mx ex]; try done;
    destruct (f_div _ _) as [sy|[]| |[] my ey]; try done; [by destruct sx, sy|].
  apply binary_normalize_negative. cbn [cond_Zopp]. lia.
Qed.
