(* ===== verification/RateLimit.v ===== *)
(** * Rate limiting (internal/resilience/ratelimit.go and ratelimit_registry.go)

    The token bucket with its float64 arithmetic, and the registry of buckets by
    user or address. A method holds the lock throughout and is one step; the clock
    it reads is the argument [now]. *)

From S2P Require Import Prelude Float64.
From Stdlib Require Import Floats.SpecFloat.

Open Scope Z_scope.

Record RateLimiter := { rate : float64; burst : Z; tokens : float64; lastTime : Time }.

Definition NewRateLimiter (now : Time) (rate : float64) (burst : Z) : RateLimiter :=
  {| rate := rate; burst := burst; tokens := f_of_Z burst; lastTime := now |}.

(** The tokens once the time since the last call has been credited. *)
Definition refilled (now : Time) (rl : RateLimiter) : float64 :=
  let elapsed := Seconds (Since now (lastTime rl)) in
  let elapsed := if f_ltb elapsed f_zero then f_zero else elapsed in
  let t := f_add (tokens rl) (f_mul elapsed (rate rl)) in
  if f_ltb (f_of_Z (burst rl)) t then f_of_Z (burst rl) else t.

Definition Allow (now : Time) (rl : RateLimiter) : bool * RateLimiter :=
  let t := refilled now rl in
  let with_tokens t := {| rate := rate rl; burst := burst rl; tokens := t; lastTime := now |} in
  if f_leb f_one t then (true, with_tokens (f_sub t f_one)) else (false, with_tokens t).

(** ** The registry *)

Record Override := { o_Rate : float64; o_Burst : Z }.

Record entry := { limiter : RateLimiter; lastAccess : Time }.

Record RateLimiterRegistry := {
  limiters : gmap bytes entry;
  defaultRate : float64;
  defaultBurst : Z;
  overrides : gmap bytes Override;
  cleanupTTL : Duration
}.

Record RegistryConfig := {
  DefaultRate : float64;
  DefaultBurst : Z;
  Overrides : gmap bytes Override;
  CleanupTTL : Duration
}.

Definition NewRateLimiterRegistry (cfg : RegistryConfig) : RateLimiterRegistry :=
  {| limiters := ∅; defaultRate := DefaultRate cfg; defaultBurst := DefaultBurst cfg; overrides := Overrides cfg;
     cleanupTTL := if CleanupTTL cfg =? 0 then 10 * Minute else CleanupTTL cfg |}.

Definition set_limiters (r : RateLimiterRegistry) (m : gmap bytes entry) : RateLimiterRegistry :=
  {| limiters := m; defaultRate := defaultRate r; defaultBurst := defaultBurst r; overrides := overrides r;
     cleanupTTL := cleanupTTL r |}.

(** The entry of a key: the one in the map, or a new one with the key's override or
    the defaults. *)
Definition get_entry (now : Time) (r : RateLimiterRegistry) (key : bytes) : RateLimiter :=
  match limiters r !! key with
  | Some e => limiter e
  | None =>
      match overrides r !! key with
      | Some o => NewRateLimiter now (o_Rate o) (o_Burst o)
      | None => NewRateLimiter now (defaultRate r) (defaultBurst r)
      end
  end.

Definition RegistryAllow (now : Time) (r : RateLimiterRegistry) (key : bytes) : bool * RateLimiterRegistry :=
  let '(ok, rl) := Allow now (get_entry now r key) in
  (ok, set_limiters r (<[key := {| limiter := rl; lastAccess := now |}]> (limiters r))).

Definition evict (now : Time) (r : RateLimiterRegistry) : RateLimiterRegistry :=
  let cutoff := now - cleanupTTL r in
  set_limiters r (filter (fun kv => ~ (lastAccess kv.2 < cutoff)) (limiters r)).

Definition RegistryLen (r : RateLimiterRegistry) : nat := size (limiters r).

(** ** The bucket *)

Definition well_formed (rl : RateLimiter) : Prop :=
  valid (rate rl) /\ nonneg (rate rl) /\ 0 <= burst rl < 2 ^ 53 /\
  valid (tokens rl) /\ nonneg (tokens rl) /\ units (tokens rl) <= burst rl * one_unit.

Lemma NewRateLimiter_well_formed now r b :
  valid r -> nonneg r -> 0 <= b < 2 ^ 53 -> well_formed (NewRateLimiter now r b).
Proof. intros Hv Hn Hb. destruct (f_of_Z_exact b Hb) as (? & ? & Hu). split_and!; cbn [rate burst tokens NewRateLimiter]; try done; lia. Qed.

(** The elapsed time is a number that is not negative, whatever the clock does. *)
Lemma elapsed_good now t :
  let e := Seconds (Since now t) in
  let e := if f_ltb e f_zero then f_zero else e in good e /\ nonneg e.
Proof.
  cbv zeta. destruct (Z.le_gt_cases 0 (Since now t)) as [Hd|Hd].
  - pose proof (Seconds_good (Since now t)) as [Hg Hn]; [unfold Since, MinInt64, MaxInt64 in *; lia|]. by destruct (f_ltb _ _).
  - pose proof (Seconds_negative (Since now t) ltac:(lia)) as Hn. by destruct (Seconds _) as [[]|[]| |[] m e].
Qed.

Lemma refilled_bounds now rl :
  well_formed rl ->
  valid (refilled now rl) /\ nonneg (refilled now rl) /\ units (refilled now rl) <= burst rl * one_unit.
Proof.
  intros (Hrv & Hrn & Hb & Htv & Htn & Htu). unfold refilled. destruct (elapsed_good now (lastTime rl)) as [He Hen].
  cbv zeta in He, Hen. set (e := if f_ltb _ _ then _ else _) in *.
  assert (forall x, valid x -> nonneg x -> good x) as Hgood by (intros [| | |[] ? ?] ? ?; by split).
  destruct (f_of_Z_exact _ Hb) as (Hbv & Hbn & Hbu).
  pose proof (f_add_good _ _ (Hgood _ Htv Htn) (f_mul_good _ _ He (Hgood _ Hrv Hrn) Hen Hrn)) as [Hv Hp].
  set (t := f_add _ _) in *. destruct (f_ltb (f_of_Z (burst rl)) t) eqn:Elt; [split_and!; [done..|lia]|].
  assert (nonneg t) as Hn.
  { destruct t as [|[]| |[] ? ?]; try done. by destruct (f_of_Z (burst rl)) as [|[]| |[] ? ?]. }
  rewrite f_ltb_units in Elt by done. apply Z.ltb_ge in Elt. split_and!; [done..|lia].
Qed.

Lemma one_exact : valid f_one /\ nonneg f_one /\ units f_one = one_unit.
Proof. destruct (f_of_Z_exact 1) as (? & ? & Hu); [lia|]. split_and!; [done..|]. unfold f_one. rewrite Hu. lia. Qed.

(** One call: a request passes exactly when there is a whole token, which it takes. *)
Lemma Allow_step now rl :
  well_formed rl ->
  let t := refilled now rl in
  (Allow now rl).1 = (one_unit <=? units t) /\ well_formed (Allow now rl).2 /\
  lastTime (Allow now rl).2 = now /\ burst (Allow now rl).2 = burst rl /\
  units (tokens (Allow now rl).2) = units t - (if (Allow now rl).1 then one_unit else 0).
Proof.
  intros Hwf. destruct (refilled_bounds now rl Hwf) as (Hv & Hn & Hu). destruct Hwf as (Hrv & Hrn & Hb & _). cbv zeta.
  unfold Allow. destruct one_exact as (H1v & H1n & H1u). rewrite f_leb_units, H1u by done.
  assert (0 < one_unit) by by apply Z.pow_pos_nonneg.
  destruct (one_unit <=? units (refilled now rl)) eqn:E; cbn [fst snd lastTime burst tokens].
  - apply Z.leb_le in E. destruct (f_sub_one _ Hv Hn E) as (Hsv & Hsn & Hsu); [nia|].
    split_and!; try done. split_and!; cbn [rate burst tokens]; done || lia.
  - split_and!; try done; try lia.
Qed.

(** At the instant of the last call nothing is credited. *)
Lemma refilled_same now rl :
  well_formed rl -> lastTime rl = now -> units (refilled now rl) = units (tokens rl).
Proof.
  intros (Hrv & Hrn & Hb & Htv & Htn & Htu) <-. unfold refilled. destruct (f_of_Z_exact _ Hb) as (Hbv & Hbn & Hbu).
  assert (Seconds (Since (lastTime rl) (lastTime rl)) = S754_zero false) as ->.
  { unfold Since. rewrite Z.sub_diag. by vm_compute. }
  cbn [f_ltb f_zero SFltb SFcompare]. 
  assert (exists s, f_mul (S754_zero false) (rate rl) = S754_zero s) as [s ->] by (destruct (rate rl); try done; eexists; done).
  destruct (f_add_zero (tokens rl) s Htn Htv) as (Hav & Han & Hau).
  rewrite f_ltb_units by done. rewrite Hau, Hbu. rewrite (proj2 (Z.ltb_ge _ _)) by done. done.
Qed.

(** [k] calls at the same instant, and how many of them pass. *)
Fixpoint allow_n (k : nat) (now : Time) (rl : RateLimiter) : list bool :=
  match k with
  | O => []
  | S k' => let '(ok, rl') := Allow now rl in ok :: allow_n k' now rl'
  end.

Definition passed (l : list bool) : Z := Z.of_nat (length (filter (fun b => b = true) l)).

Lemma allow_n_passed k now rl :
  well_formed rl -> passed (allow_n k now rl) = Z.min (Z.of_nat k) (units (refilled now rl) / one_unit).
Proof.
  assert (0 < one_unit) as Hone by by apply Z.pow_pos_nonneg.
  revert rl. induction k as [|k IH]; intros rl Hwf.
  { unfold passed. cbn. pose proof (Z.div_pos (units (refilled now rl)) one_unit (units_nonneg _) Hone). lia. }
  cbn [allow_n]. destruct (Allow_step now rl Hwf) as (Hok & Hwf' & Hl' & _ & Hu). destruct (Allow now rl) as [ok rl'].
  cbn [fst snd] in *. specialize (IH rl' Hwf'). rewrite (refilled_same now rl' Hwf' Hl'), Hu in IH.
  pose proof (units_nonneg (refilled now rl)) as Hge. subst ok. unfold passed in *. rewrite filter_cons.
  destruct (one_unit <=? units (refilled now rl)) eqn:E; [rewrite decide_True by done|rewrite decide_False by done];
    [apply Z.leb_le in E|apply Z.leb_gt in E]; cbn [length].
  - rewrite Nat2Z.inj_succ, IH. replace (units (refilled now rl) - one_unit) with (units (refilled now rl) + (-1) * one_unit) by lia.
    rewrite Z.div_add by lia. lia.
  - rewrite IH, Z.sub_0_r. rewrite !Z.div_small by lia. lia.
Qed.

(** C35: a rate limiter never lets through more than its burst at once. Whatever
    happened before and however long the limiter was idle, any number of requests
    at one instant passes exactly as many as there are whole tokens then, which is
    at most the burst; a fresh limiter lets exactly the burst through. *)
Theorem Allow_burst rl now k :
  well_formed rl ->
  passed (allow_n k now rl) = Z.min (Z.of_nat k) (units (refilled now rl) / one_unit) /\
  passed (allow_n k now rl) <= burst rl /\
  passed (allow_n k now (NewRateLimiter now (rate rl) (burst rl))) = Z.min (Z.of_nat k) (burst rl).
Proof.
  intros Hwf. assert (0 < one_unit) as Hone by by apply Z.pow_pos_nonneg.
  destruct (refilled_bounds now rl Hwf) as (_ & _ & Hub). rewrite allow_n_passed by done. split; [done|].
  destruct Hwf as (Hrv & Hrn & Hb & _). split.
  - assert (units (refilled now rl) / one_unit <= burst rl); [|lia]. apply Z.div_le_upper_bound; lia.
  - assert (well_formed (NewRateLimiter now (rate rl) (burst rl))) by by apply NewRateLimiter_well_formed.
    rewrite allow_n_passed, refilled_same by done. cbn [NewRateLimiter tokens].
    destruct (f_of_Z_exact _ Hb) as (_ & _ & ->). rewrite Z.div_mul by lia. done.
Qed.

(** ** Independence of the keys *)

(** The decisions of a registry on a sequence of requests, and of one bucket. *)
Fixpoint registry_run (r : RateLimiterRegistry) (reqs : list (Time * bytes)) : list (bytes * bool) :=
  match reqs with
  | [] => []
  | (now, key) :: reqs' => let '(ok, r') := RegistryAllow now r key in (key, ok) :: registry_run r' reqs'
  end.

Fixpoint bucket_run (rl : RateLimiter) (times : list Time) : list bool :=
  match times with
  | [] => []
  | now :: times' => let '(ok, rl') := Allow now rl in ok :: bucket_run rl' times'
  end.

Definition times_of (key : bytes) (reqs : list (Time * bytes)) : list Time :=
  (filter (fun q => q.2 = key) reqs).*1.

Definition decisions_of (key : bytes) (ds : list (bytes * bool)) : list bool :=
  (filter (fun d => d.1 = key) ds).*2.

(** the buckets of a registry do not interact. Whatever other users or
    addresses do, the decisions for one key are those of a bucket of its own,
    with the key's override or the default limits, on that key's requests alone. *)
Theorem registry_isolated r reqs key :
  decisions_of key (registry_run r reqs) =
  match times_of key reqs with
  | [] => []
  | t :: ts => bucket_run (get_entry t r key) (t :: ts)
  end.
Proof.
  revert r. induction reqs as [|[now k] reqs IH]; intros r; [done|]. cbn [registry_run]. unfold RegistryAllow.
  destruct (Allow now (get_entry now r k)) as [ok rl] eqn:E. unfold decisions_of, times_of in *.
  rewrite !filter_cons. cbn [fst snd]. destruct (decide (k = key)) as [->|Hne].
  - rewrite ?decide_True by done. rewrite !fmap_cons, IH. cbn [fst snd bucket_run]. rewrite E. f_equal.
    destruct ((filter _ reqs).*1) as [|t ts]; [done|]. unfold get_entry. cbn [set_limiters limiters].
    by rewrite lookup_insert_eq.
  - rewrite ?decide_False by done. rewrite IH. destruct ((filter _ reqs).*1) as [|t ts]; [done|].
    unfold get_entry. cbn [set_limiters limiters overrides defaultRate defaultBurst]. by rewrite lookup_insert_ne.
Qed.

(** ** Examples *)

Definition example_limiter : RateLimiter := NewRateLimiter (5 * Second) (f_of_Z 10) 3.

Lemma Allow_burst_witness :
  passed (allow_n 9 (6 * Second) example_limiter) <= 3.
Proof.
  destruct (Allow_burst example_limiter (6 * Second) 9) as (_ & H & _); [|exact H].
  apply NewRateLimiter_well_formed; [by vm_compute|by vm_compute|lia].
Defined.

(** One request an hour: after the first one, the entry is idle longer than the
    cleanup time and is evicted, and the next request gets a fresh, full bucket. *)
Example evict_refills :
  let cfg := {| DefaultRate := f_div (f_of_Z 1) (f_of_Z 3600); DefaultBurst := 1; Overrides := ∅; CleanupTTL := 0 |} in
  let t0 := 1000 * Second in
  let r0 := NewRateLimiterRegistry cfg in
  let '(ok1, r1) := RegistryAllow t0 r0 $"alice" in
  let t1 := t0 + 11 * Minute in
  ok1 = true /\ (RegistryAllow t1 r1 $"alice").1 = false /\ (RegistryAllow t1 (evict t1 r1) $"alice").1 = true.
Proof. by vm_compute. Qed.
