(* ===== verification/Breaker.v ===== *)
(** * Circuit breaker (internal/resilience/breaker.go)

    The state machine of the breaker: closed while the error rate of each window of
    requests stays below the threshold, open for a while after it did not, half open
    until enough requests succeeded. A method holds the lock throughout and is one
    step at the time [now]. *)

From S2P Require Import Prelude Float64.
From Stdlib Require Import Floats.SpecFloat.

Open Scope Z_scope.

Inductive State := StateClosed | StateOpen | StateHalfOpen.

Definition State_String (s : State) : bytes :=
  match s with StateClosed => $"closed" | StateOpen => $"open" | StateHalfOpen => $"half-open" end.

Record BreakerConfig := {
  ErrorThreshold : float64;
  OpenDuration : Duration;
  HalfOpenMax : Z;
  WindowSize : Z
}.

Record CircuitBreaker := {
  cfg : BreakerConfig;
  state : State;
  successes : Z;
  failures : Z;
  total : Z;
  openedAt : Time;
  halfOpenOK : Z
}.

Definition NewCircuitBreaker (c : BreakerConfig) : CircuitBreaker :=
  {| cfg := {| ErrorThreshold := if f_leb (ErrorThreshold c) f_zero then f_half else ErrorThreshold c;
               OpenDuration := if OpenDuration c <=? 0 then 10 * Second else OpenDuration c;
               HalfOpenMax := if HalfOpenMax c <=? 0 then 3 else HalfOpenMax c;
               WindowSize := if WindowSize c <=? 0 then 10 else WindowSize c |};
     state := StateClosed; successes := 0; failures := 0; total := 0; openedAt := 0; halfOpenOK := 0 |}.

Definition set_state (cb : CircuitBreaker) (s : State) : CircuitBreaker :=
  {| cfg := cfg cb; state := s; successes := successes cb; failures := failures cb; total := total cb;
     openedAt := openedAt cb; halfOpenOK := halfOpenOK cb |}.

Definition set_counts (cb : CircuitBreaker) (s f t : Z) : CircuitBreaker :=
  {| cfg := cfg cb; state := state cb; successes := s; failures := f; total := t;
     openedAt := openedAt cb; halfOpenOK := halfOpenOK cb |}.

Definition set_opened (cb : CircuitBreaker) (now : Time) : CircuitBreaker :=
  {| cfg := cfg cb; state := StateOpen; successes := successes cb; failures := failures cb; total := total cb;
     openedAt := now; halfOpenOK := halfOpenOK cb |}.

Definition set_halfOpenOK (cb : CircuitBreaker) (n : Z) : CircuitBreaker :=
  {| cfg := cfg cb; state := state cb; successes := successes cb; failures := failures cb; total := total cb;
     openedAt := openedAt cb; halfOpenOK := n |}.

Definition resetCounters (cb : CircuitBreaker) : CircuitBreaker := set_counts cb 0 0 0.

Definition errorRate (failures total : Z) : float64 := f_div (f_of_Z failures) (f_of_Z total).

Definition evaluateWindow (now : Time) (cb : CircuitBreaker) : CircuitBreaker :=
  if total cb <? WindowSize (cfg cb) then cb
  else
    resetCounters (if f_leb (ErrorThreshold (cfg cb)) (errorRate (failures cb) (total cb)) then set_opened cb now else cb).

(** Open long enough to try again. *)
Definition expired (now : Time) (cb : CircuitBreaker) : bool := OpenDuration (cfg cb) <=? Since now (openedAt cb).

(** [true]: no error, the request may go on. *)
Definition Allow (now : Time) (cb : CircuitBreaker) : bool * CircuitBreaker :=
  match state cb with
  | StateClosed => (true, cb)
  | StateOpen => if expired now cb then (true, set_halfOpenOK (set_state cb StateHalfOpen) 0) else (false, cb)
  | StateHalfOpen => (true, cb)
  end.

Definition RecordSuccess (now : Time) (cb : CircuitBreaker) : CircuitBreaker :=
  match state cb with
  | StateClosed => evaluateWindow now (set_counts cb (successes cb + 1) (failures cb) (total cb + 1))
  | StateHalfOpen =>
      let cb := set_halfOpenOK cb (halfOpenOK cb + 1) in
      if HalfOpenMax (cfg cb) <=? halfOpenOK cb then resetCounters (set_state cb StateClosed) else cb
  | StateOpen => cb
  end.

Definition RecordFailure (now : Time) (cb : CircuitBreaker) : CircuitBreaker :=
  match state cb with
  | StateClosed => evaluateWindow now (set_counts cb (successes cb) (failures cb + 1) (total cb + 1))
  | StateHalfOpen => set_opened cb now
  | StateOpen => cb
  end.

(** The method [State], which also moves an expired open breaker on. *)
Definition GetState (now : Time) (cb : CircuitBreaker) : State * CircuitBreaker :=
  let cb :=
    match state cb with
    | StateOpen => if expired now cb then set_halfOpenOK (set_state cb StateHalfOpen) 0 else cb
    | _ => cb
    end in
  (state cb, cb).

(** ** Runs *)

Inductive call := CallAllow | CallSuccess | CallFailure | CallState.

(** One call: its answer, for [Allow], and the breaker afterwards. *)
Definition step (now : Time) (c : call) (cb : CircuitBreaker) : option bool * CircuitBreaker :=
  match c with
  | CallAllow => let '(ok, cb) := Allow now cb in (Some ok, cb)
  | CallSuccess => (None, RecordSuccess now cb)
  | CallFailure => (None, RecordFailure now cb)
  | CallState => (None, (GetState now cb).2)
  end.

Fixpoint run (cb : CircuitBreaker) (calls : list (Time * call)) : list (option bool) * CircuitBreaker :=
  match calls with
  | [] => ([], cb)
  | (now, c) :: calls' =>
      let '(a, cb1) := step now c cb in
      let '(answers, cb2) := run cb1 calls' in
      (a :: answers, cb2)
  end.

(** ** Invariant *)

Definition config_ok (c : BreakerConfig) : Prop := 0 < WindowSize c /\ 0 < HalfOpenMax c /\ 0 < OpenDuration c.

Definition well_formed (cb : CircuitBreaker) : Prop :=
  config_ok (cfg cb) /\ 0 <= successes cb /\ 0 <= failures cb /\ total cb = successes cb + failures cb /\
  total cb < WindowSize (cfg cb) /\ (state cb <> StateClosed -> total cb = 0) /\
  (state cb = StateHalfOpen -> 0 <= halfOpenOK cb < HalfOpenMax (cfg cb)).

Lemma NewCircuitBreaker_well_formed c : well_formed (NewCircuitBreaker c).
Proof.
  unfold well_formed, config_ok, Second. cbn.
  destruct (Z.leb_spec (WindowSize c) 0), (Z.leb_spec (HalfOpenMax c) 0), (Z.leb_spec (OpenDuration c) 0); split_and!; done || lia.
Qed.

(** In every run the counters of the breaker describe the current window: they
    are never negative, add up to fewer requests than a window has, are zero unless
    the breaker is closed, and a half-open breaker still misses successes. *)
Lemma run_well_formed cb calls : well_formed cb -> well_formed (run cb calls).2.
Proof.
  revert cb. induction calls as [|[now c] calls IH]; intros cb Hwf; [done|].
  cbn [run]. destruct (step now c cb) as [a cb1] eqn:E. specialize (IH cb1).
  destruct (run cb1 calls) as [answers cb2]. apply IH. clear IH answers cb2.
  destruct Hwf as ((Hw & Hh & Ho) & Hs & Hf & Ht & Hlt & Hz & Hhalf).
  destruct c; cbn [step] in E; unfold Allow, RecordSuccess, RecordFailure, GetState, evaluateWindow in E.
  all: repeat case_match; simplify_eq/=; unfold well_formed, config_ok; cbn;
    repeat match goal with
    | H : (_ <? _) = true |- _ => apply Z.ltb_lt in H
    | H : (_ <? _) = false |- _ => apply Z.ltb_ge in H
    | H : (_ <=? _) = false |- _ => apply Z.leb_gt in H
    end; try specialize (Hhalf ltac:(congruence)); split_and!; try done; try congruence; intros; try congruence; try lia; apply Hz; congruence.
Qed.

Lemma run_app cb calls calls' : (run cb (calls ++ calls')).2 = (run (run cb calls).2 calls').2.
Proof.
  revert cb. induction calls as [|[n c] calls IH]; intros cb; [done|]. cbn [app run].
  destruct (step n c cb) as [a cb1]. specialize (IH cb1). by destruct (run cb1 calls), (run cb1 (calls ++ calls')).
Qed.

(** ** Open *)

(** C34: an open breaker refuses everything until it expires. In any sequence of
    calls less than [OpenDuration] after the breaker opened, whatever is recorded
    in between, every [Allow] is refused and the breaker does not change. *)
Theorem open_refuses cb calls :
  state cb = StateOpen ->
  Forall (fun nc => Since nc.1 (openedAt cb) < OpenDuration (cfg cb)) calls ->
  run cb calls = ((fun nc => match nc.2 with CallAllow => Some false | _ => None end) <$> calls, cb).
Proof.
  intros Ho Hall. induction Hall as [|[now c] calls Hnow Hall IH]; [done|]. cbn [run fst] in *.
  assert (expired now cb = false) as He by by apply Z.leb_gt.
  assert (step now c cb = (match c with CallAllow => Some false | _ => None end, cb)) as ->.
  { destruct c; cbn [step]; unfold Allow, RecordSuccess, RecordFailure, GetState; rewrite Ho, ?He; done. }
  by rewrite IH.
Qed.

(** ** Windows *)

(** Recording outcomes, [true] for a success. *)
Definition record (nb : Time * bool) : Time * call := (nb.1, if nb.2 then CallSuccess else CallFailure).

Definition count_failures (os : list (Time * bool)) : Z := Z.of_nat (length (filter (fun o => o.2 = false) os)).

Lemma window_prefix cb os :
  well_formed cb -> state cb = StateClosed -> total cb + Z.of_nat (length os) < WindowSize (cfg cb) ->
  (run cb (record <$> os)).2 =
    set_counts cb (successes cb + (Z.of_nat (length os) - count_failures os)) (failures cb + count_failures os)
      (total cb + Z.of_nat (length os)).
Proof.
  revert cb. induction os as [|[now ok] os IH]; intros cb Hwf Hc Hlen.
  { cbn. destruct cb. unfold set_counts, count_failures. cbn. f_equal; lia. }
  pose proof (run_well_formed cb [(now, if ok then CallSuccess else CallFailure)] Hwf) as Hwf1.
  cbn [fmap list_fmap record fst snd run length] in *.
  set (cb1 := if ok then set_counts cb (successes cb + 1) (failures cb) (total cb + 1)
              else set_counts cb (successes cb) (failures cb + 1) (total cb + 1)).
  assert (step now (if ok then CallSuccess else CallFailure) cb = (None, cb1)) as E.
  { destruct ok; cbn [step]; unfold RecordSuccess, RecordFailure, evaluateWindow; rewrite Hc; cbn [total cfg set_counts];
      rewrite (proj2 (Z.ltb_lt _ _)) by lia; done. }
  rewrite E in *. specialize (IH cb1). destruct (run cb1 (record <$> os)) as [ans cb2] eqn:Er. cbn [snd] in *.
  rewrite IH; [|done|by subst cb1; destruct ok|subst cb1; destruct ok; cbn; lia].
  unfold count_failures. rewrite filter_cons. subst cb1.
  destruct ok; [rewrite decide_False by done|rewrite decide_True by done]; unfold set_counts; cbn; f_equal; lia.
Qed.

(** each window of requests decides on its own. Starting from an empty window,
    the breaker stays closed while the window fills, and when the last request of
    the window is recorded it opens at that time exactly if the error rate of
    those requests reaches the threshold; the next window starts empty. *)
Theorem window_decides cb os now ok :
  well_formed cb -> state cb = StateClosed -> total cb = 0 ->
  Z.of_nat (length os) + 1 = WindowSize (cfg cb) ->
  (forall k, state (run cb (record <$> take k os)).2 = StateClosed) /\
  (run cb (record <$> (os ++ [(now, ok)]))).2 =
    resetCounters (if f_leb (ErrorThreshold (cfg cb)) (errorRate (count_failures (os ++ [(now, ok)])) (WindowSize (cfg cb)))
                   then set_opened cb now else cb).
Proof.
  intros Hwf Hc Ht Hlen. assert (successes cb = 0 /\ failures cb = 0) as [Hs Hf] by (unfold well_formed in Hwf; lia). split.
  - intros k. rewrite window_prefix; [done..|]. rewrite length_take. lia.
  - rewrite fmap_app, run_app, (window_prefix cb os) by (done || lia). rewrite Ht, Hs, Hf. cbn [fmap list_fmap record fst snd run].
    unfold count_failures. rewrite list.filter_app, length_app, filter_cons, filter_nil.
    destruct ok; [rewrite decide_False by done|rewrite decide_True by done]; cbn [step]; unfold RecordSuccess, RecordFailure, evaluateWindow;
      cbn [state set_counts]; rewrite Hc; cbn [total cfg set_counts failures successes length snd];
      rewrite (proj2 (Z.ltb_ge _ _)) by lia; rewrite !Z.add_0_l, ?Nat.add_0_r, ?Nat2Z.inj_add, Hlen;
      change (Z.of_nat 1) with 1; case_match; done.
Qed.

(** ** Half open *)

Lemma half_open_counts cb (ts : list Time) :
  well_formed cb -> state cb = StateHalfOpen -> halfOpenOK cb + Z.of_nat (length ts) < HalfOpenMax (cfg cb) ->
  (run cb ((fun t => (t, CallSuccess)) <$> ts)).2 = set_halfOpenOK cb (halfOpenOK cb + Z.of_nat (length ts)).
Proof.
  revert cb. induction ts as [|t ts IH]; intros cb Hwf Hh Hlen.
  { destruct cb. unfold set_halfOpenOK. cbn. f_equal. lia. }
  pose proof (run_well_formed cb [(t, CallSuccess)] Hwf) as Hwf1. cbn [fmap list_fmap run length] in *.
  set (cb1 := set_halfOpenOK cb (halfOpenOK cb + 1)).
  assert (step t CallSuccess cb = (None, cb1)) as E.
  { cbn [step]. unfold RecordSuccess. rewrite Hh. cbn [set_halfOpenOK cfg halfOpenOK].
    by rewrite (proj2 (Z.leb_gt _ _)) by lia. }
  rewrite E in *. specialize (IH cb1). destruct (run cb1 _) as [ans cb2]. cbn [snd] in *.
  rewrite IH; [unfold set_halfOpenOK; cbn; f_equal; lia|done|done|]. cbn [halfOpenOK set_halfOpenOK cfg cb1]. lia.
Qed.

(** how an open breaker recovers. Once it expired, the next [Allow] succeeds
    and [HalfOpenMax] successes in a row close the breaker with an empty window,
    while a failure after fewer successes opens it again at that time. *)
Theorem half_open_recovers cb now (ts : list Time) last :
  well_formed cb -> state cb = StateOpen -> expired now cb = true ->
  let cb1 := (Allow now cb).2 in
  (Allow now cb).1 = true /\
  (Z.of_nat (length ts) + 1 = HalfOpenMax (cfg cb) ->
   let cb2 := (run cb1 ((fun t => (t, CallSuccess)) <$> (ts ++ [last]))).2 in state cb2 = StateClosed /\ total cb2 = 0) /\
  (Z.of_nat (length ts) < HalfOpenMax (cfg cb) ->
   let cb2 := (run cb1 (((fun t => (t, CallSuccess)) <$> ts) ++ [(last, CallFailure)])).2 in
   state cb2 = StateOpen /\ openedAt cb2 = last).
Proof.
  intros Hwf Ho He. pose proof (run_well_formed cb [(now, CallAllow)] Hwf) as Hwf1. cbv zeta. revert Hwf1.
  cbn [run step]. unfold Allow. rewrite Ho, He. cbn [fst snd]. set (cb1 := set_halfOpenOK (set_state cb StateHalfOpen) 0). intros Hwf1.
  split; [done|]. split; intros Hlen.
  - rewrite fmap_app, run_app, (half_open_counts cb1 ts) by (done || (cbn; lia)). cbn [fmap list_fmap run step]. unfold RecordSuccess.
    cbn [state set_halfOpenOK cb1 set_state cfg halfOpenOK snd]. rewrite (proj2 (Z.leb_le _ _)) by lia. done.
  - rewrite run_app, (half_open_counts cb1 ts) by (done || (cbn; lia)). done.
Qed.

(** ** Examples *)

Definition default_breaker : CircuitBreaker :=
  NewCircuitBreaker {| ErrorThreshold := f_zero; OpenDuration := 0; HalfOpenMax := 0; WindowSize := 0 |}.

Definition opened_breaker : CircuitBreaker := set_opened default_breaker (100 * Second).

Lemma opened_breaker_well_formed : well_formed opened_breaker.
Proof. split_and!; done. Qed.

Lemma open_refuses_witness :
  run opened_breaker [(101 * Second, CallAllow); (102 * Second, CallSuccess); (109 * Second, CallAllow)] =
  ([Some false; None; Some false], opened_breaker).
Proof.
  apply (open_refuses opened_breaker [(101 * Second, CallAllow); (102 * Second, CallSuccess); (109 * Second, CallAllow)]);
    [done|]. repeat constructor; done.
Defined.

(** Nine requests of a window of ten, five of them failed. *)
Definition nine : list (Time * bool) :=
  (fun n => (Z.of_nat n * Second, (4 <? n)%nat)) <$> seq 0 9.

Lemma window_decides_witness :
  (run default_breaker (record <$> (nine ++ [(20 * Second, true)]))).2 = set_opened default_breaker (20 * Second).
Proof.
  destruct (window_decides default_breaker nine (20 * Second) true) as [_ H];
    [apply NewCircuitBreaker_well_formed|done..|]. rewrite H. by vm_compute.
Defined.

Lemma half_open_recovers_witness :
  state (run (Allow (110 * Second) opened_breaker).2
    ((fun t => (t, CallSuccess)) <$> ([111 * Second; 112 * Second] ++ [113 * Second]))).2 = StateClosed.
Proof.
  destruct (half_open_recovers opened_breaker (110 * Second) [111 * Second; 112 * Second] (113 * Second)) as (_ & H & _);
    [apply opened_breaker_well_formed|done|done|]. by apply H.
Defined.

(** With the default settings, five failures among ten requests open the breaker. *)
Example default_window :
  forallb (fun f => Bool.eqb (f_leb (ErrorThreshold (cfg default_breaker)) (errorRate (Z.of_nat f) 10)) (5 <=? f)%nat)
    (seq 0 11) = true.
Proof. by vm_compute. Qed.

(** [HalfOpenMax] does not limit the requests a half-open breaker lets through. *)
Example half_open_unlimited :
  let cb := (Allow (110 * Second) opened_breaker).2 in
  HalfOpenMax (cfg cb) = 3 /\
  (run cb (replicate 100 (111 * Second, CallAllow))).1 = replicate 100 (Some true).
Proof. by vm_compute. Qed.
