(* ===== verification/Net.v ===== *)
(** * Addresses (package net)

    What the source uses of the standard library's address functions: [ParseIP],
    [ParseCIDR], [IPNet.Contains] and [SplitHostPort]. *)

From S2P Require Import Prelude GoStrings.

Open Scope Z_scope.

(** An address of [netip]: 4 bytes, or 16 bytes with a zone. *)
Inductive Addr := V4 (b : list Z) | V6 (b : list Z) (zone : bytes).

Definition is_dec (c : byte) : bool := byte_in "0" "9" c.

(** [parseIPv4Fields]: the loop, with the fields read so far, the value and the
    number of digits of the current one and the byte before. *)
Fixpoint ipv4_loop (fields : list Z) (val digLen : Z) (prev : option byte) (s : bytes) : option (list Z) :=
  match s with
  | [] => if (length fields <? 3)%nat then None else Some (fields ++ [val])
  | c :: s' =>
      if is_dec c then
        if (digLen =? 1) && (val =? 0) then None
        else
          let val := val * 10 + (bz c - 48) in
          if 255 <? val then None else ipv4_loop fields val (digLen + 1) (Some c) s'
      else if (c =b ".") then
        let first := match prev with None => true | Some p => (p =b ".") end in
        let last := match s' with [] => true | _ => false end in
        if first || last then None
        else if (length fields =? 3)%nat then None
        else ipv4_loop (fields ++ [val]) 0 0 (Some c) s'
      else None
  end.

Definition parseIPv4Fields (s : bytes) : option (list Z) := ipv4_loop [] 0 0 None s.

Definition hex_val (c : byte) : option Z :=
  if is_dec c then Some (bz c - 48)
  else if byte_in "a" "f" c then Some (bz c - 87)
  else if byte_in "A" "F" c then Some (bz c - 55)
  else None.

(** The hexadecimal group at the head: its value, how many digits it has and what
    follows; more than four digits or a value above 16 bits is an error. *)
Fixpoint hex_group (acc : Z) (off : nat) (s : bytes) : option (Z * nat * bytes) :=
  match s with
  | c :: s' =>
      match hex_val c with
      | Some d =>
          let acc := wrapU 32 (Z.shiftl acc 4 + d) in
          if (3 <? off)%nat || (65535 <? acc) then None else hex_group acc (S off) s'
      | None => Some (acc, off, s)
      end
  | [] => Some (acc, off, [])
  end.

(** The loop of [parseIPv6]: [ip] holds the bytes read so far, [ell] the position
    of the ellipsis. It ends with what is left of the input. *)
Fixpoint ipv6_loop (fuel : nat) (ip : list Z) (ell : option nat) (s : bytes) : option (list Z * option nat * bytes) :=
  match fuel with
  | O => Some (ip, ell, s)
  | S fuel' =>
      if (16 <=? length ip)%nat then Some (ip, ell, s)
      else
        '(acc, off, r) ← hex_group 0 0 s;
        if (off =? 0)%nat then None
        else
          match r with
          | c :: _ =>
              if (c =b ".") then
                if match ell with None => negb (length ip =? 12)%nat | Some _ => false end then None
                else if (16 <? length ip + 4)%nat then None
                else fields ← parseIPv4Fields s; Some (ip ++ fields, ell, [])
              else
                let ip := ip ++ [Z.shiftr acc 8; acc mod 256] in
                if negb (c =b ":") then None
                else
                  match tail r with
                  | [] => None
                  | (c1 :: r1) as r' =>
                      if (c1 =b ":") then
                        match ell with
                        | Some _ => None
                        | None =>
                            match r1 with
                            | [] => Some (ip, Some (length ip), [])
                            | _ => ipv6_loop fuel' ip (Some (length ip)) r1
                            end
                        end
                      else ipv6_loop fuel' ip ell r'
                  end
          | [] => Some (ip ++ [Z.shiftr acc 8; acc mod 256], ell, [])
          end
  end.

(** Filling in the groups that the ellipsis stands for. *)
Definition expand (ip : list Z) (ell : option nat) : option (list Z) :=
  match ell with
  | None => if (length ip <? 16)%nat then None else Some ip
  | Some k => if (length ip <? 16)%nat then Some (take k ip ++ replicate (16 - length ip) 0 ++ drop k ip) else None
  end.

Definition parseIPv6 (text : bytes) : option Addr :=
  '(s, zone) ← match IndexByte text "%" with
               | None => Some (text, [])
               | Some i => match drop (S i) text with [] => None | z => Some (take i text, z) end
               end;
  let '(ell, s) := if HasPrefix s $"::" then (Some 0%nat, drop 2 s) else (None, s) in
  match ell, s with
  | Some _, [] => Some (V6 (replicate 16 0) zone)
  | _, _ =>
      '(ip, ell, rest) ← ipv6_loop 9 [] ell s;
      match rest with
      | [] => ip ← expand ip ell; Some (V6 ip zone)
      | _ => None
      end
  end.

(** [netip.ParseAddr]: the first of [.], [:] and [%] decides. *)
Fixpoint addr_kind (s : bytes) : option byte :=
  match s with
  | [] => None
  | c :: s' => if (c =b ".") || (c =b ":") || (c =b "%") then Some c else addr_kind s'
  end.

Definition ParseAddr (s : bytes) : option Addr :=
  match addr_kind s with
  | Some c =>
      if (c =b ".") then b ← parseIPv4Fields s; Some (V4 b)
      else if (c =b ":") then parseIPv6 s
      else None
  | None => None
  end.

(** ** IP *)

(** A [net.IP] is a slice of 4 or 16 bytes. *)
Definition IP := list Z.

Definition v4InV6Prefix : list Z := replicate 10 0 ++ [255; 255].

Definition As16 (a : Addr) : IP := match a with V4 b => v4InV6Prefix ++ b | V6 b _ => b end.

Definition no_zone (a : Addr) : bool := match a with V6 _ (_ :: _) => false | _ => true end.

Definition ParseIP (s : bytes) : option IP :=
  a ← ParseAddr s; if no_zone a then Some (As16 a) else None.

Definition To4 (ip : IP) : option IP :=
  if (length ip =? 4)%nat then Some ip
  else if (length ip =? 16)%nat && bool_decide (take 12 ip = v4InV6Prefix) then Some (drop 12 ip)
  else None.

(** ** Networks *)

Record IPNet := { net_IP : IP; net_Mask : list Z }.

(** [dtoi]: the number at the head and how many digits it has; [None] from
    0xFFFFFF on and without a digit. *)
Fixpoint dtoi_loop (n : Z) (i : nat) (s : bytes) : option (Z * nat) :=
  match s with
  | c :: s' =>
      if is_dec c then
        let n := n * 10 + (bz c - 48) in
        if 16777215 <=? n then None else dtoi_loop n (S i) s'
      else if (i =? 0)%nat then None else Some (n, i)
  | [] => if (i =? 0)%nat then None else Some (n, i)
  end.

Definition dtoi (s : bytes) : option (Z * nat) := dtoi_loop 0 0 s.

Definition BitLen (a : Addr) : Z := match a with V4 _ => 32 | V6 _ _ => 128 end.

(** [CIDRMask]: the bytes of [ones] bits set, then zeros. *)
Fixpoint CIDRMask (ones : Z) (len : nat) : list Z :=
  match len with
  | O => []
  | S len' =>
      if 8 <=? ones then 255 :: CIDRMask (ones - 8) len'
      else (255 - Z.shiftr 255 ones) :: CIDRMask 0 len'
  end.

Definition and_bytes (a m : list Z) : list Z := zip_with Z.land a m.

(** [IP.Mask], on the arguments [ParseCIDR] gives it: a 16-byte address. *)
Definition Mask (ip : IP) (mask : list Z) : IP :=
  if (length mask =? 4)%nat then and_bytes (drop 12 ip) mask else and_bytes ip mask.

Definition ParseCIDR (s : bytes) : option (IP * IPNet) :=
  i ← IndexByte s "/";
  let mask := drop (S i) s in
  a ← ParseAddr (take i s);
  if negb (no_zone a) then None
  else
    '(n, k) ← dtoi mask;
    if negb (k =? length mask)%nat || (BitLen a <? n) then None
    else
      let m := CIDRMask n (Z.to_nat (BitLen a / 8)) in
      Some (As16 a, {| net_IP := Mask (As16 a) m; net_Mask := m |}).

Definition networkNumberAndMask (n : IPNet) : option (IP * list Z) :=
  let ip := match To4 (net_IP n) with Some b => Some b | None => if (length (net_IP n) =? 16)%nat then Some (net_IP n) else None end in
  ip ← ip;
  if (length (net_Mask n) =? 4)%nat then if (length ip =? 4)%nat then Some (ip, net_Mask n) else None
  else if (length (net_Mask n) =? 16)%nat then
    if (length ip =? 4)%nat then Some (ip, drop 12 (net_Mask n)) else Some (ip, net_Mask n)
  else None.

Definition IPNet_Contains (n : IPNet) (ip : IP) : bool :=
  match networkNumberAndMask n with
  | None => false
  | Some (nn, m) =>
      let ip := default ip (To4 ip) in
      (length ip =? length nn)%nat && bool_decide (and_bytes nn m = and_bytes ip m)
  end.

(** ** Host and port *)

Definition LastIndexByte (s : bytes) (c : byte) : option nat :=
  i ← IndexByte (reverse s) c; Some (length s - 1 - i)%nat.

Definition has_byte (c : byte) (s : bytes) : bool := match IndexByte s c with Some _ => true | None => false end.

Definition SplitHostPort (hostport : bytes) : option (bytes * bytes) :=
  i ← LastIndexByte hostport ":";
  '(host, j, k) ←
    match hostport with
    | c :: _ =>
        if (c =b "[") then
          e ← IndexByte hostport "]";
          if (S e =? length hostport)%nat then None
          else if (S e =? i)%nat then Some (drop 1 (take e hostport), 1%nat, S e)
          else None
        else if has_byte ":" (take i hostport) then None
        else Some (take i hostport, 0%nat, 0%nat)
    | [] => None
    end;
  if has_byte "[" (drop j hostport) then None
  else if has_byte "]" (drop k hostport) then None
  else Some (host, drop (S i) hostport).
