(* ===== verification/Config.v ===== *)
(** * Configuration (internal/config/config.go)

    The configuration records with the source's field names behind the name of
    their section, the defaults, the validation and loading. Reading the file and
    the YAML decoder are parameters. Go iterates maps in any order: the order of
    the databases is an argument of the code whose result depends on it. *)

From S2P Require Import Prelude GoStrings Float64 Net.

Open Scope Z_scope.

Record QueryRewriteMatch := { qrm_Tables : list bytes; qrm_StatementType : list bytes; qrm_QueryPattern : bytes }.
Record QueryRewriteAction := { qra_Type : bytes; qra_From : bytes; qra_To : bytes; qra_Condition : bytes }.
Record QueryRewriteRule := {
  qrr_Name : bytes;
  qrr_Enabled : option bool;      (* nil: enabled *)
  qrr_Match : QueryRewriteMatch;
  qrr_Actions : list QueryRewriteAction
}.
Record QueryRewritingConfig := { QueryRewriting_Enabled : bool; QueryRewriting_Rules : list QueryRewriteRule }.
Record ObservabilityConfig := { SQLRedaction : bytes }.
Record SessionCompatConfig := { SessionCompat_Enabled : bool; SessionCompat_Mode : bytes }.
Record ConnectionLimitsConfig := {
  ConnectionLimits_Enabled : bool;
  DefaultMaxConnectionsPerUser : Z;
  DefaultMaxConnectionsPerDB : Z
}.
Record TelemetryConfig := {
  Telemetry_Enabled : bool;
  Telemetry_Exporter : bytes;
  Telemetry_Endpoint : bytes;
  Telemetry_ServiceName : bytes;
  Telemetry_SampleRatio : option float64
}.
Record DataAPIConfig := { DataAPI_Enabled : bool; DataAPI_Listen : bytes; DataAPI_APIKeys : list bytes }.
Record AuditWebhookConfig := { Webhook_Enabled : bool; Webhook_URL : bytes; Webhook_Timeout : Duration }.
Record AuditConfig := {
  Audit_Enabled : bool;
  SlowQueryThreshold : Duration;
  LogAllQueries : bool;
  Audit_Webhook : AuditWebhookConfig
}.
Record FirewallConfig := {
  Firewall_Enabled : bool;
  Firewall_BlockDeleteWithoutWhere : bool;
  Firewall_BlockUpdateWithoutWhere : bool;
  Firewall_BlockDropTable : bool;
  Firewall_BlockTruncate : bool
}.
Record MetricsConfig := { Metrics_Enabled : bool; Metrics_Listen : bytes }.
Record AdminAPIKey := { AdminKey : bytes; AdminRole : bytes }.
Record AdminAuthConfig := {
  AdminAuth_Enabled : bool;
  APIKeys : list AdminAPIKey;
  IPAllowlist : list bytes;
  TrustedProxies : list bytes
}.
Record AdminConfig := { Admin_Enabled : bool; Admin_Listen : bytes; Admin_Auth : AdminAuthConfig }.
Record TLSConfig := { TLS_Enabled : bool; CertFile : bytes; KeyFile : bytes }.
Record AuthUser := { Username : bytes; Password : bytes; User_MaxConnections : Z }.
Record AuthConfig := { Auth_Enabled : bool; Users : list AuthUser }.
Record CircuitBreakerConfig := {
  CircuitBreaker_Enabled : bool;
  CB_ErrorThreshold : float64;
  CB_OpenDuration : Duration;
  CB_HalfOpenMax : Z;
  CB_WindowSize : Z
}.
Record PerKeyRateLimitOverride := { Override_Key : bytes; Override_Rate : float64; Override_Burst : Z }.
Record PerKeyRateLimitConfig := {
  PerKey_Enabled : bool;
  PerKey_DefaultRate : float64;
  PerKey_DefaultBurst : Z;
  PerKey_Overrides : list PerKeyRateLimitOverride
}.
Record RateLimitConfig := {
  RateLimit_Enabled : bool;
  RateLimit_Rate : float64;
  RateLimit_Burst : Z;
  PerUser : PerKeyRateLimitConfig;
  PerIP : PerKeyRateLimitConfig
}.
Record BackendConfig := { Backend_User : bytes; Backend_Password : bytes; Backend_Database : bytes }.
Record ProxyConfig := { Proxy_Listen : bytes; ShutdownTimeout : Duration; ClientIdleTimeout : Duration }.
Record DBConfig := { Host : bytes; Port : Z }.
Record PoolConfig := {
  Pool_MinConnections : Z;
  Pool_MaxConnections : Z;
  Pool_IdleTimeout : Duration;
  Pool_MaxLifetime : Duration;
  Pool_ConnectionTimeout : Duration;
  Pool_QueryTimeout : Duration;
  Pool_ResetQuery : bytes;
  Pool_PreparedStatementMode : bytes
}.
Record RoutingConfig := { ReadAfterWriteDelay : Duration; CausalConsistency : bool; ASTParser : bool }.
Record CacheInvalidationConfig := { Invalidation_Mode : bytes; Invalidation_RedisAddr : bytes; Invalidation_Channel : bytes }.
Record CacheConfig := {
  Cache_Enabled : bool;
  CacheTTL : Duration;
  MaxCacheEntries : Z;
  MaxResultSize : bytes;
  Invalidation : CacheInvalidationConfig
}.
Record DatabaseConfig := {
  Writer : DBConfig;
  Readers : list DBConfig;
  DB_Backend : BackendConfig;
  DB_Pool : PoolConfig;
  DB_MaxConnections : Z
}.
Record MirrorConfig := {
  Mirror_Enabled : bool;
  Mirror_Host : bytes;
  Mirror_Port : Z;
  Mirror_User : bytes;
  Mirror_Password : bytes;
  Mirror_Database : bytes;
  Mirror_Mode : bytes;
  Mirror_Tables : list bytes;
  Mirror_Compare : bool;
  Mirror_Workers : Z;
  Mirror_BufferSize : Z
}.
Record DigestConfig := { Digest_Enabled : bool; MaxPatterns : Z; SamplesPerPattern : Z }.

Record Config := {
  Proxy : ProxyConfig;
  Pool : PoolConfig;
  Routing : RoutingConfig;
  Cache : CacheConfig;
  Backend : BackendConfig;
  Metrics : MetricsConfig;
  Admin : AdminConfig;
  TLS : TLSConfig;
  Auth : AuthConfig;
  CircuitBreaker : CircuitBreakerConfig;
  RateLimit : RateLimitConfig;
  Firewall : FirewallConfig;
  Audit : AuditConfig;
  DataAPI : DataAPIConfig;
  ConfigOptions_Watch : bool;
  Telemetry : TelemetryConfig;
  Mirror : MirrorConfig;
  Digest : DigestConfig;
  Databases : gmap bytes DatabaseConfig;
  ConnectionLimits : ConnectionLimitsConfig;
  SessionCompat : SessionCompatConfig;
  Observability : ObservabilityConfig;
  QueryRewriting : QueryRewritingConfig
}.

(** ** Defaults *)

(** [if v == 0 { v = d }], [if v == "" { v = d }], [if v <= 0 { v = d }]. *)
Definition orZ (v d : Z) : Z := if v =? 0 then d else v.
Definition orS (v d : bytes) : bytes := match v with [] => d | _ => v end.
Definition posZ (v d : Z) : Z := if v <=? 0 then d else v.
Definition posF (v d : float64) : float64 := if f_leb v f_zero then d else v.

Definition Millisecond : Duration := 1000000.
Definition Hour : Duration := 60 * Minute.

Definition default_pool (p : PoolConfig) : PoolConfig :=
  {| Pool_MinConnections := orZ (Pool_MinConnections p) 2;
     Pool_MaxConnections := orZ (Pool_MaxConnections p) 10;
     Pool_IdleTimeout := orZ (Pool_IdleTimeout p) (10 * Minute);
     Pool_MaxLifetime := orZ (Pool_MaxLifetime p) Hour;
     Pool_ConnectionTimeout := orZ (Pool_ConnectionTimeout p) (5 * Second);
     Pool_QueryTimeout := Pool_QueryTimeout p;
     Pool_ResetQuery := orS (Pool_ResetQuery p) $"DISCARD ALL";
     Pool_PreparedStatementMode := orS (Pool_PreparedStatementMode p) $"proxy" |}.

Definition default_per_key (r : PerKeyRateLimitConfig) : PerKeyRateLimitConfig :=
  {| PerKey_Enabled := PerKey_Enabled r;
     PerKey_DefaultRate := posF (PerKey_DefaultRate r) (f_of_Z 100);
     PerKey_DefaultBurst := posZ (PerKey_DefaultBurst r) 50;
     PerKey_Overrides := PerKey_Overrides r |}.

(** The settings a database takes over from the global ones, [b] and [p]. *)
Definition default_database (b : BackendConfig) (p : PoolConfig) (name : bytes) (db : DatabaseConfig) : DatabaseConfig :=
  {| Writer := Writer db;
     Readers := Readers db;
     DB_Backend := {| Backend_User := orS (Backend_User (DB_Backend db)) (Backend_User b);
                      Backend_Password := orS (Backend_Password (DB_Backend db)) (Backend_Password b);
                      Backend_Database := orS (Backend_Database (DB_Backend db)) name |};
     DB_Pool := {| Pool_MinConnections := orZ (Pool_MinConnections (DB_Pool db)) (Pool_MinConnections p);
                   Pool_MaxConnections := orZ (Pool_MaxConnections (DB_Pool db)) (Pool_MaxConnections p);
                   Pool_IdleTimeout := orZ (Pool_IdleTimeout (DB_Pool db)) (Pool_IdleTimeout p);
                   Pool_MaxLifetime := orZ (Pool_MaxLifetime (DB_Pool db)) (Pool_MaxLifetime p);
                   Pool_ConnectionTimeout := orZ (Pool_ConnectionTimeout (DB_Pool db)) (Pool_ConnectionTimeout p);
                   Pool_QueryTimeout := orZ (Pool_QueryTimeout (DB_Pool db)) (Pool_QueryTimeout p);
                   Pool_ResetQuery := orS (Pool_ResetQuery (DB_Pool db)) (Pool_ResetQuery p);
                   Pool_PreparedStatementMode := orS (Pool_PreparedStatementMode (DB_Pool db)) (Pool_PreparedStatementMode p) |};
     DB_MaxConnections := DB_MaxConnections db |}.

Definition default_cache (c : CacheConfig) : CacheConfig :=
  {| Cache_Enabled := Cache_Enabled c;
     CacheTTL := orZ (CacheTTL c) (10 * Second);
     MaxCacheEntries := orZ (MaxCacheEntries c) 10000;
     MaxResultSize := orS (MaxResultSize c) $"1MB";
     Invalidation := {| Invalidation_Mode := orS (Invalidation_Mode (Invalidation c)) $"local";
                        Invalidation_RedisAddr := Invalidation_RedisAddr (Invalidation c);
                        Invalidation_Channel := orS (Invalidation_Channel (Invalidation c)) $"pgmux:invalidate" |} |}.

Definition default_backend (b : BackendConfig) : BackendConfig :=
  {| Backend_User := orS (Backend_User b) $"postgres"; Backend_Password := Backend_Password b;
     Backend_Database := orS (Backend_Database b) $"postgres" |}.

Definition default_breaker (c : CircuitBreakerConfig) : CircuitBreakerConfig :=
  {| CircuitBreaker_Enabled := CircuitBreaker_Enabled c;
     CB_ErrorThreshold := posF (CB_ErrorThreshold c) f_half;
     CB_OpenDuration := posZ (CB_OpenDuration c) (10 * Second);
     CB_HalfOpenMax := posZ (CB_HalfOpenMax c) 3;
     CB_WindowSize := posZ (CB_WindowSize c) 10 |}.

Definition default_mirror (m : MirrorConfig) : MirrorConfig :=
  {| Mirror_Enabled := Mirror_Enabled m; Mirror_Host := Mirror_Host m; Mirror_Port := orZ (Mirror_Port m) 5432;
     Mirror_User := Mirror_User m; Mirror_Password := Mirror_Password m; Mirror_Database := Mirror_Database m;
     Mirror_Mode := orS (Mirror_Mode m) $"read_only"; Mirror_Tables := Mirror_Tables m; Mirror_Compare := Mirror_Compare m;
     Mirror_Workers := posZ (Mirror_Workers m) 4; Mirror_BufferSize := posZ (Mirror_BufferSize m) 10000 |}.

Definition default_telemetry (t : TelemetryConfig) : TelemetryConfig :=
  {| Telemetry_Enabled := Telemetry_Enabled t;
     Telemetry_Exporter := orS (Telemetry_Exporter t) $"otlp";
     Telemetry_Endpoint := orS (Telemetry_Endpoint t) $"localhost:4317";
     Telemetry_ServiceName := orS (Telemetry_ServiceName t) $"pgmux";
     Telemetry_SampleRatio := Some (default f_one (Telemetry_SampleRatio t)) |}.

Definition applyDefaults (c : Config) : Config :=
  let pool := default_pool (Pool c) in
  let backend := default_backend (Backend c) in
  {| Proxy := {| Proxy_Listen := orS (Proxy_Listen (Proxy c)) $"0.0.0.0:5432";
                 ShutdownTimeout := orZ (ShutdownTimeout (Proxy c)) (30 * Second);
                 ClientIdleTimeout := ClientIdleTimeout (Proxy c) |};
     Pool := pool;
     Routing := {| ReadAfterWriteDelay := orZ (ReadAfterWriteDelay (Routing c)) (500 * Millisecond);
                   CausalConsistency := CausalConsistency (Routing c); ASTParser := ASTParser (Routing c) |};
     Cache := default_cache (Cache c);
     Backend := backend;
     Metrics := {| Metrics_Enabled := Metrics_Enabled (Metrics c); Metrics_Listen := orS (Metrics_Listen (Metrics c)) $"0.0.0.0:9090" |};
     Admin := {| Admin_Enabled := Admin_Enabled (Admin c); Admin_Listen := orS (Admin_Listen (Admin c)) $"0.0.0.0:9091";
                 Admin_Auth := Admin_Auth (Admin c) |};
     TLS := TLS c;
     Auth := Auth c;
     CircuitBreaker := default_breaker (CircuitBreaker c);
     RateLimit := {| RateLimit_Enabled := RateLimit_Enabled (RateLimit c);
                     RateLimit_Rate := posF (RateLimit_Rate (RateLimit c)) (f_of_Z 1000);
                     RateLimit_Burst := posZ (RateLimit_Burst (RateLimit c)) 100;
                     PerUser := default_per_key (PerUser (RateLimit c));
                     PerIP := default_per_key (PerIP (RateLimit c)) |};
     Firewall := Firewall c;
     Audit := {| Audit_Enabled := Audit_Enabled (Audit c);
                 SlowQueryThreshold := orZ (SlowQueryThreshold (Audit c)) (500 * Millisecond);
                 LogAllQueries := LogAllQueries (Audit c);
                 Audit_Webhook := {| Webhook_Enabled := Webhook_Enabled (Audit_Webhook (Audit c));
                                     Webhook_URL := Webhook_URL (Audit_Webhook (Audit c));
                                     Webhook_Timeout := orZ (Webhook_Timeout (Audit_Webhook (Audit c))) (5 * Second) |} |};
     DataAPI := {| DataAPI_Enabled := DataAPI_Enabled (DataAPI c); DataAPI_Listen := orS (DataAPI_Listen (DataAPI c)) $"0.0.0.0:8080";
                   DataAPI_APIKeys := DataAPI_APIKeys (DataAPI c) |};
     ConfigOptions_Watch := ConfigOptions_Watch c;
     Telemetry := default_telemetry (Telemetry c);
     Mirror := default_mirror (Mirror c);
     Digest := {| Digest_Enabled := Digest_Enabled (Digest c); MaxPatterns := posZ (MaxPatterns (Digest c)) 1000;
                  SamplesPerPattern := posZ (SamplesPerPattern (Digest c)) 1000 |};
     Databases := map_imap (fun name db => Some (default_database backend pool name db)) (Databases c);
     ConnectionLimits := ConnectionLimits c;
     SessionCompat := {| SessionCompat_Enabled := SessionCompat_Enabled (SessionCompat c);
                         SessionCompat_Mode := orS (SessionCompat_Mode (SessionCompat c)) $"warn" |};
     Observability := {| SQLRedaction := orS (SQLRedaction (Observability c)) $"literals" |};
     QueryRewriting := QueryRewriting c |}.

(** ** Validation *)

Inductive PoolErr :=
| MaxTooSmall (n : Z) | MinNegative (n : Z) | MinAboveMax (min max : Z)
| IdleNegative (d : Duration) | LifetimeNegative (d : Duration) | ConnTimeoutNegative (d : Duration) | QueryTimeoutNegative (d : Duration).

Inductive CfgErr :=
| ErrNoDatabases
| ErrWriterHost (db : bytes) | ErrWriterPort (db : bytes) (p : Z)
| ErrReaderHost (db : bytes) (i : nat) | ErrReaderPort (db : bytes) (i : nat) (p : Z)
| ErrDBPool (db : bytes) (e : PoolErr)
| ErrCertRequired | ErrKeyRequired | ErrCertFile | ErrKeyFile
| ErrAuthUsers
| ErrAPIKeys | ErrAPIKeyEmpty (i : nat) | ErrAPIKeyRole (i : nat) (role : bytes)
| ErrAllowlist (i : nat) (cidr : bytes) | ErrTrustedProxy (i : nat) (cidr : bytes)
| ErrPool (e : PoolErr) | ErrPreparedMode (mode : bytes)
| ErrCompatMode (mode : bytes)
| ErrRuleName (i : nat) | ErrRuleNoAction (i : nat) (name : bytes)
| ErrActionFromTo (i j : nat) | ErrActionCondition (i j : nat) | ErrActionType (i j : nat) (t : bytes)
| ErrRedaction (mode : bytes)
| ErrReadFile | ErrParse.

(** The tests of a function in their order, each with the error it returns. *)
Definition checks := list (bool * CfgErr).

Fixpoint first_error (cs : checks) : option CfgErr :=
  match cs with
  | [] => None
  | (bad, e) :: cs' => if bad then Some e else first_error cs'
  end.

Definition bad_port (p : Z) : bool := (p <=? 0) || (65535 <? p).

Definition empty (s : bytes) : bool := match s with [] => true | _ => false end.

Definition timeout_checks (f : PoolErr -> CfgErr) (p : PoolConfig) : checks :=
  [(Pool_IdleTimeout p <? 0, f (IdleNegative (Pool_IdleTimeout p)));
   (Pool_MaxLifetime p <? 0, f (LifetimeNegative (Pool_MaxLifetime p)));
   (Pool_ConnectionTimeout p <? 0, f (ConnTimeoutNegative (Pool_ConnectionTimeout p)));
   (Pool_QueryTimeout p <? 0, f (QueryTimeoutNegative (Pool_QueryTimeout p)))].

Definition database_checks (name : bytes) (db : DatabaseConfig) : checks :=
  let p := DB_Pool db in
  [(empty (Host (Writer db)), ErrWriterHost name); (bad_port (Port (Writer db)), ErrWriterPort name (Port (Writer db)))] ++
  concat (imap (fun i r => [(empty (Host r), ErrReaderHost name i); (bad_port (Port r), ErrReaderPort name i (Port r))]) (Readers db)) ++
  [(Pool_MaxConnections p <? 1, ErrDBPool name (MaxTooSmall (Pool_MaxConnections p)));
   (Pool_MinConnections p <? 0, ErrDBPool name (MinNegative (Pool_MinConnections p)));
   (Pool_MaxConnections p <? Pool_MinConnections p, ErrDBPool name (MinAboveMax (Pool_MinConnections p) (Pool_MaxConnections p)))] ++
  timeout_checks (ErrDBPool name) p.

(** [stat path]: whether [os.Stat] finds the file. *)
Definition tls_checks (stat : bytes -> bool) (t : TLSConfig) : checks :=
  if TLS_Enabled t then
    [(empty (CertFile t), ErrCertRequired); (empty (KeyFile t), ErrKeyRequired);
     (negb (stat (CertFile t)), ErrCertFile); (negb (stat (KeyFile t)), ErrKeyFile)]
  else [].

Definition is_none {A} (o : option A) : bool := match o with None => true | Some _ => false end.

Definition not_network (cidr : bytes) : bool := is_none (ParseCIDR cidr) && is_none (ParseIP cidr).

Definition admin_checks (a : AdminAuthConfig) : checks :=
  if AdminAuth_Enabled a then
    [(bool_decide (APIKeys a = []), ErrAPIKeys)] ++
    concat (imap (fun i k =>
      [(empty (AdminKey k), ErrAPIKeyEmpty i);
       (negb (bool_decide (AdminRole k = $"admin")) && negb (bool_decide (AdminRole k = $"viewer")), ErrAPIKeyRole i (AdminRole k))])
      (APIKeys a)) ++
    imap (fun i cidr => (not_network cidr, ErrAllowlist i cidr)) (IPAllowlist a) ++
    imap (fun i cidr => (not_network cidr, ErrTrustedProxy i cidr)) (TrustedProxies a)
  else [].

Definition pool_checks (p : PoolConfig) : checks :=
  [(Pool_MinConnections p <? 0, ErrPool (MinNegative (Pool_MinConnections p)));
   (Pool_MaxConnections p <? 1, ErrPool (MaxTooSmall (Pool_MaxConnections p)));
   (Pool_MaxConnections p <? Pool_MinConnections p, ErrPool (MinAboveMax (Pool_MinConnections p) (Pool_MaxConnections p)))] ++
  timeout_checks ErrPool p ++
  [(negb (bool_decide (Pool_PreparedStatementMode p ∈ [$"proxy"; $"multiplex"])), ErrPreparedMode (Pool_PreparedStatementMode p))].

Definition compat_checks (s : SessionCompatConfig) : checks :=
  if SessionCompat_Enabled s then
    [(negb (bool_decide (SessionCompat_Mode s ∈ [$"block"; $"warn"; $"pin"; $"allow"])), ErrCompatMode (SessionCompat_Mode s))]
  else [].

Definition action_check (i j : nat) (a : QueryRewriteAction) : bool * CfgErr :=
  let t := qra_Type a in
  if bool_decide (t ∈ [$"table_rename"; $"column_rename"]) then (empty (qra_From a) || empty (qra_To a), ErrActionFromTo i j)
  else if bool_decide (t = $"add_where") then (empty (qra_Condition a), ErrActionCondition i j)
  else if bool_decide (t = $"schema_qualify") then (empty (qra_From a) || empty (qra_To a), ErrActionFromTo i j)
  else (true, ErrActionType i j t).

Definition rewriting_checks (q : QueryRewritingConfig) : checks :=
  if QueryRewriting_Enabled q then
    concat (imap (fun i r =>
      [(empty (qrr_Name r), ErrRuleName i); (bool_decide (qrr_Actions r = []), ErrRuleNoAction i (qrr_Name r))] ++
      imap (action_check i) (qrr_Actions r)) (QueryRewriting_Rules q))
  else [].

(** [order]: the databases in the order the iteration takes. *)
Definition validate (stat : bytes -> bool) (order : list (bytes * DatabaseConfig)) (c : Config) : option CfgErr :=
  first_error (
    [(bool_decide (Databases c = ∅), ErrNoDatabases)] ++
    concat ((fun nd => database_checks nd.1 nd.2) <$> order) ++
    tls_checks stat (TLS c) ++
    [(Auth_Enabled (Auth c) && bool_decide (Users (Auth c) = []), ErrAuthUsers)] ++
    admin_checks (Admin_Auth (Admin c)) ++
    pool_checks (Pool c) ++
    compat_checks (SessionCompat c) ++
    rewriting_checks (QueryRewriting c) ++
    [(negb (bool_decide (SQLRedaction (Observability c) ∈ [$"none"; $"literals"; $"full"])), ErrRedaction (SQLRedaction (Observability c)))]).

(** [readFile] and [unmarshal]: [os.ReadFile] and the YAML decoder. *)
Definition Load (readFile : bytes -> option bytes) (unmarshal : bytes -> option Config) (stat : bytes -> bool)
    (order : Config -> list (bytes * DatabaseConfig)) (path : bytes) : res CfgErr Config :=
  match readFile path with
  | None => Err ErrReadFile
  | Some data =>
      match unmarshal data with
      | None => Err ErrParse
      | Some cfg =>
          let cfg := applyDefaults cfg in
          match validate stat (order cfg) cfg with
          | Some e => Err e
          | None => Ok cfg
          end
      end
  end.

(** [s < t] on strings. *)
Fixpoint ltS (s t : bytes) : bool :=
  match s, t with
  | _, [] => false
  | [], _ :: _ => true
  | a :: s', b :: t' => (bz a <? bz b) || ((bz a =? bz b) && ltS s' t')
  end.

(** [names]: the keys of the databases in the order the iteration takes. *)
Definition DefaultDatabaseName (names : list bytes) (c : Config) : bytes :=
  let b := Backend_Database (Backend c) in
  if negb (empty b) && bool_decide (is_Some (Databases c !! b)) then b
  else fold_left (fun first name => if empty first || ltS name first then name else first) names [].

(** ** What a loaded configuration guarantees *)

Lemma first_error_None cs : first_error cs = None <-> Forall (fun c => c.1 = false) cs.
Proof.
  induction cs as [|[[] e] cs IH]; cbn [first_error]; [by split| |].
  - split; [done|]. by intros [[=] _]%list.Forall_cons.
  - rewrite IH, list.Forall_cons. cbn. tauto.
Qed.

Lemma Forall_concat_imap {A B} (P : B -> Prop) (f : nat -> A -> list B) l :
  Forall P (concat (imap f l)) <-> forall i x, l !! i = Some x -> Forall P (f i x).
Proof.
  revert f. induction l as [|x l IH]; intros f; [cbn; split; [done|constructor]|].
  rewrite imap_cons. cbn [concat]. rewrite Forall_app, (IH (f ∘ S)). split.
  - intros [H1 H2] [|i] y; cbn; [by intros [= <-]|apply H2].
  - intros H. split; [by apply (H 0%nat)|]. intros i y Hi. by apply (H (S i)).
Qed.

Lemma Forall_concat_fmap {A B} (P : B -> Prop) (f : A -> list B) l :
  Forall P (concat (f <$> l)) <-> forall x, x ∈ l -> Forall P (f x).
Proof.
  induction l as [|x l IH]; cbn [fmap list_fmap concat]; [split; [by intros _ y ?%not_elem_of_nil|constructor]|].
  rewrite Forall_app, IH. split.
  - intros [H1 H2] y [->|Hy]%elem_of_cons; auto.
  - intros H. split; [|intros y Hy]; apply H; set_solver.
Qed.

Definition pool_ok (p : PoolConfig) : Prop :=
  0 <= Pool_MinConnections p <= Pool_MaxConnections p /\ 1 <= Pool_MaxConnections p /\
  0 <= Pool_IdleTimeout p /\ 0 <= Pool_MaxLifetime p /\ 0 <= Pool_ConnectionTimeout p /\ 0 <= Pool_QueryTimeout p.

Definition endpoint_ok (d : DBConfig) : Prop := Host d <> [] /\ 0 < Port d <= 65535.

Definition database_ok (db : DatabaseConfig) : Prop :=
  endpoint_ok (Writer db) /\ Forall endpoint_ok (Readers db) /\ pool_ok (DB_Pool db).

Lemma empty_spec s : empty s = false <-> s <> [].
Proof. by destruct s. Qed.

Lemma bad_port_spec p : bad_port p = false <-> 0 < p <= 65535.
Proof. unfold bad_port. rewrite orb_false_iff, Z.leb_gt, Z.ltb_ge. lia. Qed.

Lemma timeout_checks_ok f p :
  Forall (fun c => c.1 = false) (timeout_checks f p) <->
  0 <= Pool_IdleTimeout p /\ 0 <= Pool_MaxLifetime p /\ 0 <= Pool_ConnectionTimeout p /\ 0 <= Pool_QueryTimeout p.
Proof. unfold timeout_checks. rewrite !list.Forall_cons, list.Forall_nil. cbn [fst]. rewrite !Z.ltb_ge. tauto. Qed.

Lemma database_checks_ok name db : Forall (fun c => c.1 = false) (database_checks name db) <-> database_ok db.
Proof.
  unfold database_checks, database_ok, endpoint_ok, pool_ok.
  rewrite !Forall_app, timeout_checks_ok, Forall_concat_imap, !list.Forall_cons, !list.Forall_nil. cbn [fst].
  rewrite empty_spec, bad_port_spec, !Z.ltb_ge.
  assert ((forall i r, Readers db !! i = Some r ->
      Forall (fun c : bool * CfgErr => c.1 = false) [(empty (Host r), ErrReaderHost name i); (bad_port (Port r), ErrReaderPort name i (Port r))])
    <-> Forall (fun d => Host d <> [] /\ 0 < Port d <= 65535) (Readers db)) as ->.
  { rewrite Forall_lookup. setoid_rewrite list.Forall_cons. setoid_rewrite list.Forall_cons. setoid_rewrite list.Forall_nil.
    cbn [fst]. setoid_rewrite empty_spec. setoid_rewrite bad_port_spec.
    split; intros H i r Hi; specialize (H i r Hi); tauto. }
  intuition lia.
Qed.

(** Names in order: the least one, when none is empty. *)
Lemma ltS_irrefl s : ltS s s = false.
Proof. induction s as [|a s IH]; [done|]. cbn. rewrite Z.ltb_irrefl, IH, andb_false_r. done. Qed.

Lemma ltS_trans a b c : ltS a b = true -> ltS b c = true -> ltS a c = true.
Proof.
  revert b c. induction a as [|x a IH]; intros [|y b] [|z c]; cbn; try done.
  rewrite !orb_true_iff, !andb_true_iff, !Z.ltb_lt, !Z.eqb_eq. intros [?|[? H1]] [?|[? H2]]; [left; lia..|].
  right. split; [lia|]. by eapply IH.
Qed.

Lemma ltS_total a b : ltS a b = false -> ltS b a = false -> a = b.
Proof.
  revert b. induction a as [|x a IH]; intros [|y b]; cbn; try done.
  rewrite !orb_false_iff, !andb_false_iff, !Z.ltb_ge, !Z.eqb_neq. intros [? H1] [? H2].
  assert (x = y) as -> by (apply bz_inj; lia). f_equal. apply IH; tauto.
Qed.

Lemma default_name_fold names first :
  first <> [] -> [] ∉ names ->
  let r := fold_left (fun first name => if empty first || ltS name first then name else first) names first in
  r ∈ first :: names /\ forall n, n ∈ first :: names -> ltS n r = false.
Proof.
  revert first. induction names as [|x names IH]; intros first Hf Hn; cbv zeta; cbn [fold_left].
  { split; [by left|]. intros n ->%list_elem_of_singleton. apply ltS_irrefl. }
  apply not_elem_of_cons in Hn as [Hx Hn]. rewrite (proj2 (empty_spec first) Hf). cbn [orb].
  destruct (ltS x first) eqn:Elt.
  - destruct (IH x (not_eq_sym Hx) Hn) as [Hin Hmin]. set (r := fold_left _ _ _) in *. split; [set_solver|].
    intros n [->|Hr]%elem_of_cons; [|by apply Hmin]. destruct (ltS first r) eqn:E; [|done].
    specialize (Hmin x ltac:(by left)). by rewrite (ltS_trans _ _ _ Elt E) in Hmin.
  - destruct (IH first Hf Hn) as [Hin Hmin]. set (r := fold_left _ _ _) in *. split; [set_solver|].
    intros n [->|[->|Hr]%elem_of_cons]%elem_of_cons; [apply Hmin; by left| |apply Hmin; by right].
    destruct (ltS x r) eqn:E; [|done]. pose proof (Hmin first ltac:(by left)) as Hfr.
    destruct (ltS r first) eqn:Erf; [by rewrite (ltS_trans _ _ _ E Erf) in Elt|].
    rewrite (ltS_total _ _ Erf Hfr) in E. congruence.
Qed.

(** the default database is one of the configured ones, in whatever order the
    map is iterated: the one the backend section names, or else the first in the
    order of the names. *)
Theorem DefaultDatabaseName_configured c names :
  names ≡ₚ (map_to_list (Databases c)).*1 -> Databases c <> ∅ -> Databases c !! ([] : bytes) = None ->
  let d := DefaultDatabaseName names c in
  is_Some (Databases c !! d) /\
  (Databases c !! Backend_Database (Backend c) = None -> forall n, is_Some (Databases c !! n) -> ltS n d = false).
Proof.
  intros Hp Hne Hempty. cbv zeta. unfold DefaultDatabaseName.
  assert (forall n, n ∈ names <-> is_Some (Databases c !! n)) as Hnames.
  { intros n. rewrite Hp, list_elem_of_fmap. setoid_rewrite elem_of_map_to_list'. split; [intros ([] & -> & ?); eauto|].
    intros [db Hdb]. by exists (n, db). }
  destruct (negb (empty (Backend_Database (Backend c))) && bool_decide _) eqn:Eb.
  { apply andb_true_iff in Eb as [_ Hb%bool_decide_eq_true]. split; [done|]. intros Hno. rewrite Hno in Hb. by destruct Hb. }
  assert ([] ∉ names) as Hno by (rewrite Hnames, Hempty; by intros [? ?]).
  destruct names as [|x names].
  { destruct Hne. apply map_empty. intros n. destruct (Databases c !! n) eqn:E; [|done].
    assert (n ∈ @nil bytes) by (apply Hnames; eauto). by apply not_elem_of_nil in H. }
  apply not_elem_of_cons in Hno as [Hx Hno]. cbn [fold_left empty orb].
  destruct (default_name_fold names x (not_eq_sym Hx) Hno) as [Hin Hmin].
  split; [by apply Hnames|]. intros _ n Hn. by apply Hmin, Hnames.
Qed.

(** The settings of the other sections. *)
Definition network (cidr : bytes) : Prop := is_Some (ParseCIDR cidr) \/ is_Some (ParseIP cidr).

Definition tls_ok (stat : bytes -> bool) (t : TLSConfig) : Prop :=
  TLS_Enabled t = true -> CertFile t <> [] /\ KeyFile t <> [] /\ stat (CertFile t) = true /\ stat (KeyFile t) = true.

(** With authentication on there is a key, no key is empty and every role is known. *)
Definition admin_ok (a : AdminAuthConfig) : Prop :=
  AdminAuth_Enabled a = true ->
  APIKeys a <> [] /\ Forall (fun k => AdminKey k <> [] /\ (AdminRole k = $"admin" \/ AdminRole k = $"viewer")) (APIKeys a) /\
  Forall network (IPAllowlist a) /\ Forall network (TrustedProxies a).

Definition action_ok (a : QueryRewriteAction) : Prop :=
  (qra_Type a ∈ [$"table_rename"; $"column_rename"; $"schema_qualify"] /\ qra_From a <> [] /\ qra_To a <> []) \/
  (qra_Type a = $"add_where" /\ qra_Condition a <> []).

Definition rewriting_ok (q : QueryRewritingConfig) : Prop :=
  QueryRewriting_Enabled q = true -> Forall (fun r => qrr_Name r <> [] /\ qrr_Actions r <> [] /\ Forall action_ok (qrr_Actions r)) (QueryRewriting_Rules q).

Lemma Forall_imap {A B} (P : B -> Prop) (f : nat -> A -> B) l : Forall P (imap f l) <-> forall i x, l !! i = Some x -> P (f i x).
Proof.
  rewrite Forall_lookup. split.
  - intros H i x Hi. apply (H i). by rewrite list_lookup_imap, Hi.
  - intros H i y. rewrite list_lookup_imap. destruct (l !! i) as [x|] eqn:E; [|done]. intros [= <-]. by apply H.
Qed.

Lemma tls_checks_ok stat t : Forall (fun c => c.1 = false) (tls_checks stat t) -> tls_ok stat t.
Proof.
  intros H Ht. unfold tls_checks in H. rewrite Ht, !list.Forall_cons in H. cbn [fst] in H. rewrite !negb_false_iff, !empty_spec in H. tauto.
Qed.

Lemma networks_ok (e : nat -> bytes -> CfgErr) l : Forall (fun c => c.1 = false) (imap (fun i cidr => (not_network cidr, e i cidr)) l) -> Forall network l.
Proof.
  rewrite Forall_imap, Forall_lookup. intros H i x Hi. specialize (H i x Hi). cbn in H. unfold not_network, is_none in H. unfold network.
  destruct (ParseCIDR x); [left; eauto|]. destruct (ParseIP x); [right; eauto|done].
Qed.

Lemma admin_checks_ok a : Forall (fun c => c.1 = false) (admin_checks a) -> admin_ok a.
Proof.
  intros H Ha. unfold admin_checks in H. rewrite Ha, !Forall_app, Forall_concat_imap in H. destruct H as (Hk & Hr & Hl & Ht).
  split_and!; [|apply Forall_lookup|by eapply networks_ok..].
  - apply list.Forall_cons in Hk as [Hk _]. by apply bool_decide_eq_false in Hk.
  - intros i k Hi. specialize (Hr i k Hi). rewrite !list.Forall_cons in Hr. cbn [fst] in Hr. destruct Hr as (Hne & Hrole & _).
    split; [by apply empty_spec|]. apply andb_false_iff in Hrole. rewrite !negb_false_iff, !bool_decide_eq_true in Hrole. tauto.
Qed.

Lemma action_check_ok i j a : (action_check i j a).1 = false -> action_ok a.
Proof.
  unfold action_check, action_ok. cbv zeta. repeat case_bool_decide; cbn [fst]; [..|done]; rewrite ?orb_false_iff, ?empty_spec; intros ?; [left|by right|left]; set_solver.
Qed.

Lemma rewriting_checks_ok q : Forall (fun c => c.1 = false) (rewriting_checks q) -> rewriting_ok q.
Proof.
  intros H Hq. unfold rewriting_checks in H. rewrite Hq, Forall_concat_imap in H. apply Forall_lookup. intros i r Hi. specialize (H i r Hi).
  rewrite Forall_app, !list.Forall_cons, Forall_imap in H. cbn [fst] in H. destruct H as ((Hn & Ha & _) & Hacts).
  split_and!; [by apply empty_spec|by apply bool_decide_eq_false in Ha|]. apply Forall_lookup. intros j a Hj. by apply (action_check_ok i j), Hacts.
Qed.

(** What [validate] saw, after the databases. *)
Lemma Load_checked readFile unmarshal stat order path c :
  (forall c, order c ≡ₚ map_to_list (Databases c)) ->
  Load readFile unmarshal stat order path = Ok c ->
  Databases c <> ∅ /\ map_Forall (fun _ db => database_ok db) (Databases c) /\
  (0 < RateLimit_Burst (RateLimit c) /\ 0 < PerKey_DefaultBurst (PerUser (RateLimit c)) /\
   0 < PerKey_DefaultBurst (PerIP (RateLimit c)) /\ 0 < CB_WindowSize (CircuitBreaker c) /\
   0 < CB_HalfOpenMax (CircuitBreaker c) /\ 0 < CB_OpenDuration (CircuitBreaker c) /\
   0 < Mirror_Workers (Mirror c) /\ 0 < Mirror_BufferSize (Mirror c) /\ 0 < MaxPatterns (Digest c)) /\
  Forall (fun x => x.1 = false) (tls_checks stat (TLS c) ++ [(Auth_Enabled (Auth c) && bool_decide (Users (Auth c) = []), ErrAuthUsers)] ++
    admin_checks (Admin_Auth (Admin c)) ++ pool_checks (Pool c) ++ compat_checks (SessionCompat c) ++ rewriting_checks (QueryRewriting c) ++
    [(negb (bool_decide (SQLRedaction (Observability c) ∈ [$"none"; $"literals"; $"full"])), ErrRedaction (SQLRedaction (Observability c)))]).
Proof.
  intros Horder. unfold Load. destruct (readFile path) as [data|]; [|done]. destruct (unmarshal data) as [c0|]; [|done].
  set (c1 := applyDefaults c0). destruct (validate stat (order c1) c1) eqn:Ev; [done|]. intros [= <-].
  apply first_error_None in Ev. do 2 rewrite Forall_app in Ev. destruct Ev as (Hdb & Hdbs & Hrest).
  assert (forall v d, 0 < d -> 0 < posZ v d) as Hpos by (intros v d ?; unfold posZ; destruct (Z.leb_spec v 0); lia).
  assert (0 < 10 * Second) by done.
  split_and!; try (by apply Hpos); [| |done].
  - apply list.Forall_cons in Hdb as [Hdb _]. by apply bool_decide_eq_false in Hdb.
  - intros n db Hn. rewrite Forall_concat_fmap in Hdbs.
    apply (database_checks_ok n), (Hdbs (n, db)). rewrite Horder. by apply elem_of_map_to_list.
Qed.

(** C36: what loading a configuration guarantees. Whatever the file holds and in
    whatever order the databases are checked, a configuration that is loaded has a
    database, every database has endpoints with a host and a port in range and a pool with
    [0 <= min <= max] and [1 <= max], and the limits the other components divide by
    or count up to are positive. If TLS is on its files are named and exist; if authentication is on there are
    users; if the admin interface asks for keys there is one, none is empty, every role is admin or viewer and
    the allowed addresses and trusted proxies are addresses or networks; the modes are known ones; and every
    rewriting rule has a name and complete actions. *)
Theorem Load_guarantees readFile unmarshal stat order path c :
  (forall c, order c ≡ₚ map_to_list (Databases c)) ->
  Load readFile unmarshal stat order path = Ok c ->
  (Databases c <> ∅ /\ map_Forall (fun _ db => database_ok db) (Databases c) /\ pool_ok (Pool c) /\
   0 < RateLimit_Burst (RateLimit c) /\ 0 < PerKey_DefaultBurst (PerUser (RateLimit c)) /\
   0 < PerKey_DefaultBurst (PerIP (RateLimit c)) /\ 0 < CB_WindowSize (CircuitBreaker c) /\
   0 < CB_HalfOpenMax (CircuitBreaker c) /\ 0 < CB_OpenDuration (CircuitBreaker c) /\
   0 < Mirror_Workers (Mirror c) /\ 0 < Mirror_BufferSize (Mirror c) /\ 0 < MaxPatterns (Digest c)) /\
  tls_ok stat (TLS c) /\ (Auth_Enabled (Auth c) = true -> Users (Auth c) <> []) /\ admin_ok (Admin_Auth (Admin c)) /\
  Pool_PreparedStatementMode (Pool c) ∈ [$"proxy"; $"multiplex"] /\
  (SessionCompat_Enabled (SessionCompat c) = true -> SessionCompat_Mode (SessionCompat c) ∈ [$"block"; $"warn"; $"pin"; $"allow"]) /\
  rewriting_ok (QueryRewriting c) /\ SQLRedaction (Observability c) ∈ [$"none"; $"literals"; $"full"].
Proof.
  intros Horder E. apply (Load_checked _ _ _ _ _ _ Horder) in E as (Hdb & Hdbs & Hpos & Ev). rewrite !Forall_app in Ev.
  destruct Ev as (Htls & Hauth & Hadmin & Hpool & Hcompat & Hrw & Hred). split; [|split_and!].
  - unfold pool_checks in Hpool. rewrite !Forall_app, timeout_checks_ok, !list.Forall_cons in Hpool. cbn [fst] in Hpool.
    rewrite !Z.ltb_ge in Hpool. unfold pool_ok. intuition lia.
  - by apply tls_checks_ok.
  - intros Ha. apply list.Forall_cons in Hauth as [Hauth _]. cbn [fst] in Hauth. rewrite Ha in Hauth. by apply bool_decide_eq_false in Hauth.
  - by apply admin_checks_ok.
  - unfold pool_checks in Hpool. rewrite !Forall_app, !list.Forall_cons in Hpool. destruct Hpool as (_ & _ & Hm & _). by apply negb_false_iff, bool_decide_eq_true in Hm.
  - intros Hc. unfold compat_checks in Hcompat. rewrite Hc in Hcompat. apply list.Forall_cons in Hcompat as [Hm _]. by apply negb_false_iff, bool_decide_eq_true in Hm.
  - by apply rewriting_checks_ok.
  - apply list.Forall_cons in Hred as [Hm _]. by apply negb_false_iff, bool_decide_eq_true in Hm.
Qed.

(** ** Examples *)

Definition zero_pool : PoolConfig := Build_PoolConfig 0 0 0 0 0 0 [] [].

(** What decoding a file with only these databases gives. *)
Definition only_databases (dbs : gmap bytes DatabaseConfig) : Config :=
  {| Proxy := Build_ProxyConfig [] 0 0; Pool := zero_pool; Routing := Build_RoutingConfig 0 false false;
     Cache := Build_CacheConfig false 0 0 [] (Build_CacheInvalidationConfig [] [] []); Backend := Build_BackendConfig [] [] [];
     Metrics := Build_MetricsConfig false []; Admin := Build_AdminConfig false [] (Build_AdminAuthConfig false [] [] []);
     TLS := Build_TLSConfig false [] []; Auth := Build_AuthConfig false [];
     CircuitBreaker := Build_CircuitBreakerConfig false f_zero 0 0 0;
     RateLimit := Build_RateLimitConfig false f_zero 0 (Build_PerKeyRateLimitConfig false f_zero 0 []) (Build_PerKeyRateLimitConfig false f_zero 0 []);
     Firewall := Build_FirewallConfig false false false false false;
     Audit := Build_AuditConfig false 0 false (Build_AuditWebhookConfig false [] 0); DataAPI := Build_DataAPIConfig false [] [];
     ConfigOptions_Watch := false; Telemetry := Build_TelemetryConfig false [] [] [] None;
     Mirror := Build_MirrorConfig false [] 0 [] [] [] [] [] false 0 0; Digest := Build_DigestConfig false 0 0; Databases := dbs;
     ConnectionLimits := Build_ConnectionLimitsConfig false 0 0; SessionCompat := Build_SessionCompatConfig false [];
     Observability := Build_ObservabilityConfig []; QueryRewriting := Build_QueryRewritingConfig false [] |}.

Definition example_db (host : bytes) : DatabaseConfig :=
  {| Writer := Build_DBConfig host 5432; Readers := [Build_DBConfig $"replica" 5433]; DB_Backend := Build_BackendConfig [] [] [];
     DB_Pool := zero_pool; DB_MaxConnections := 0 |}.

Definition two_databases : Config := only_databases (<[$"app" := example_db $"db1"]> {[ $"log" := example_db $"db2" ]}).

Definition example_load (c : Config) : res CfgErr Config :=
  Load (fun _ => Some []) (fun _ => Some c) (fun _ => true) (fun c => map_to_list (Databases c)) $"pgmux.yaml".

Lemma DefaultDatabaseName_configured_witness :
  is_Some (Databases two_databases !! DefaultDatabaseName [$"log"; $"app"] two_databases).
Proof.
  apply (DefaultDatabaseName_configured two_databases [$"log"; $"app"]).
  - apply (bool_decide_unpack _). by vm_compute.
  - intros E. apply (f_equal (fun m => m !! $"app")) in E. by vm_compute in E.
  - by vm_compute.
Defined.

Lemma Load_guarantees_witness : 0 < CB_WindowSize (CircuitBreaker (applyDefaults two_databases)).
Proof.
  apply (Load_guarantees (fun _ => Some []) (fun _ => Some two_databases) (fun _ => true) (fun c => map_to_list (Databases c)) $"pgmux.yaml"
    (applyDefaults two_databases)); [done|]. by vm_compute.
Defined.

(** A pool limited to one connection is refused, because the default minimum is two. *)
Example max_one_refused :
  match example_load (only_databases {[ $"app" := {| Writer := Build_DBConfig $"db1" 5432; Readers := []; DB_Backend := Build_BackendConfig [] [] [];
     DB_Pool := Build_PoolConfig 0 1 0 0 0 0 [] []; DB_MaxConnections := 0 |} ]}) with
  | Err e => e = ErrDBPool $"app" (MinAboveMax 2 1)
  | _ => False
  end.
Proof. by vm_compute. Qed.
