(* ===== verification/ConnLimit.v ===== *)
(** * Connection limits (internal/proxy/connlimit.go)

    Counters of the active client connections by user and by database, checked
    against limits. The abstract view is the list of active connections: the
    counters are its counts. A method holds the lock throughout and is one step. *)

From S2P Require Import Prelude GoStrings Float64 Config.

Open Scope Z_scope.

Record ConnTracker := {
  byUser : gmap bytes Z;
  byDB : gmap bytes Z;
  userLimits : gmap bytes Z;
  dbLimits : gmap bytes Z;
  defaultUser : Z;
  defaultDB : Z
}.

Record ConnStat := { Active : Z; Limit : Z }.

Record ConnLimitStats := { ByUser : gmap bytes ConnStat; ByDB : gmap bytes ConnStat; PerUserDefault : Z; PerDBDefault : Z }.

(** [m[k]] for a map of ints: absent keys read as zero. *)
Definition count_of (m : gmap bytes Z) (k : bytes) : Z := default 0 (m !! k).

Definition user_limits (cfg : Config) : gmap bytes Z :=
  fold_left (fun m u => if 0 <? User_MaxConnections u then <[Username u := User_MaxConnections u]> m else m) (Users (Auth cfg)) ∅.

Definition db_limits (cfg : Config) : gmap bytes Z :=
  omap (fun db => if 0 <? DB_MaxConnections db then Some (DB_MaxConnections db) else None) (Databases cfg).

Definition NewConnTracker (cfg : Config) : ConnTracker :=
  {| byUser := ∅; byDB := ∅; userLimits := user_limits cfg; dbLimits := db_limits cfg;
     defaultUser := DefaultMaxConnectionsPerUser (ConnectionLimits cfg);
     defaultDB := DefaultMaxConnectionsPerDB (ConnectionLimits cfg) |}.

Definition user_limit (ct : ConnTracker) (user : bytes) : Z := default (defaultUser ct) (userLimits ct !! user).
Definition db_limit (ct : ConnTracker) (db : bytes) : Z := default (defaultDB ct) (dbLimits ct !! db).

(** The reason of a rejection. *)
Inductive Rejection := TooManyForUser (user : bytes) (limit : Z) | TooManyForDB (db : bytes) (limit : Z).

Definition with_counts (ct : ConnTracker) (u d : gmap bytes Z) : ConnTracker :=
  {| byUser := u; byDB := d; userLimits := userLimits ct; dbLimits := dbLimits ct; defaultUser := defaultUser ct; defaultDB := defaultDB ct |}.

Definition TryAcquire (ct : ConnTracker) (user db : bytes) : option Rejection * ConnTracker :=
  let userLimit := user_limit ct user in
  if (0 <? userLimit) && (userLimit <=? count_of (byUser ct) user) then (Some (TooManyForUser user userLimit), ct)
  else
    let dbLimit := db_limit ct db in
    if (0 <? dbLimit) && (dbLimit <=? count_of (byDB ct) db) then (Some (TooManyForDB db dbLimit), ct)
    else
      (None, with_counts ct (<[user := count_of (byUser ct) user + 1]> (byUser ct)) (<[db := count_of (byDB ct) db + 1]> (byDB ct))).

Definition decrement (m : gmap bytes Z) (k : bytes) : gmap bytes Z :=
  if 0 <? count_of m k then <[k := count_of m k - 1]> m else m.

Definition Release (ct : ConnTracker) (user db : bytes) : ConnTracker :=
  with_counts ct (decrement (byUser ct) user) (decrement (byDB ct) db).

Definition UpdateLimits (ct : ConnTracker) (cfg : Config) : ConnTracker :=
  {| byUser := byUser ct; byDB := byDB ct; userLimits := user_limits cfg; dbLimits := db_limits cfg;
     defaultUser := DefaultMaxConnectionsPerUser (ConnectionLimits cfg);
     defaultDB := DefaultMaxConnectionsPerDB (ConnectionLimits cfg) |}.

(** Active counts with their limits, then the limits of those without a count. *)
Definition stats_of (counts limits : gmap bytes Z) (dflt : Z) : gmap bytes ConnStat :=
  map_imap (fun k n => Some {| Active := n; Limit := default dflt (limits !! k) |}) counts ∪
  ((fun l => {| Active := 0; Limit := l |}) <$> limits).

Definition Stats (ct : ConnTracker) : ConnLimitStats :=
  {| ByUser := stats_of (byUser ct) (userLimits ct) (defaultUser ct); ByDB := stats_of (byDB ct) (dbLimits ct) (defaultDB ct);
     PerUserDefault := defaultUser ct; PerDBDefault := defaultDB ct |}.

(** ** Specification: the list of active connections *)

Abbreviation session := (bytes * bytes)%type.

Definition users_of (ss : list session) (u : bytes) : Z := Z.of_nat (length (filter (fun s => s.1 = u) ss)).
Definition dbs_of (ss : list session) (d : bytes) : Z := Z.of_nat (length (filter (fun s => s.2 = d) ss)).

(** A limit of zero or less is no limit. *)
Definition room (limit n : Z) : bool := negb (0 <? limit) || (n <? limit).

Inductive op := Connect (user db : bytes) | Disconnect (user db : bytes) | Reconfigure (cfg : Config).

Record spec_state := { active : list session; spec_user_limit : bytes -> Z; spec_db_limit : bytes -> Z }.

Fixpoint remove_one (s : session) (ss : list session) : list session :=
  match ss with
  | [] => []
  | s' :: ss' => if decide (s = s') then ss' else s' :: remove_one s ss'
  end.

(** What the tracker promises: a connection is accepted exactly when there is room
    for it, and a disconnect frees its room. *)
Definition spec_step (st : spec_state) (o : op) : option bool * spec_state :=
  match o with
  | Connect u d =>
      if room (spec_user_limit st u) (users_of (active st) u) && room (spec_db_limit st d) (dbs_of (active st) d)
      then (Some true, {| active := (u, d) :: active st; spec_user_limit := spec_user_limit st; spec_db_limit := spec_db_limit st |})
      else (Some false, st)
  | Disconnect u d =>
      (None, {| active := remove_one (u, d) (active st); spec_user_limit := spec_user_limit st; spec_db_limit := spec_db_limit st |})
  | Reconfigure cfg =>
      (None, {| active := active st;
                spec_user_limit := fun u => default (DefaultMaxConnectionsPerUser (ConnectionLimits cfg)) (user_limits cfg !! u);
                spec_db_limit := fun d => default (DefaultMaxConnectionsPerDB (ConnectionLimits cfg)) (db_limits cfg !! d) |})
  end.

Definition step (ct : ConnTracker) (o : op) : option bool * ConnTracker :=
  match o with
  | Connect u d => let '(r, ct) := TryAcquire ct u d in (Some (match r with None => true | Some _ => false end), ct)
  | Disconnect u d => (None, Release ct u d)
  | Reconfigure cfg => (None, UpdateLimits ct cfg)
  end.

(** Only active connections disconnect. *)
Definition enabled (st : spec_state) (o : op) : Prop :=
  match o with Disconnect u d => (u, d) ∈ active st | _ => True end.

Record refines (ct : ConnTracker) (st : spec_state) : Prop := {
  refines_user : forall u, count_of (byUser ct) u = users_of (active st) u;
  refines_db : forall d, count_of (byDB ct) d = dbs_of (active st) d;
  refines_user_limit : forall u, user_limit ct u = spec_user_limit st u;
  refines_db_limit : forall d, db_limit ct d = spec_db_limit st d
}.

Lemma count_of_insert m k v k' : count_of (<[k := v]> m) k' = if decide (k = k') then v else count_of m k'.
Proof. unfold count_of. destruct (decide (k = k')) as [->|]; [by rewrite lookup_insert_eq|by rewrite lookup_insert_ne]. Qed.

Lemma users_of_cons s ss u : users_of (s :: ss) u = users_of ss u + (if decide (s.1 = u) then 1 else 0).
Proof. unfold users_of. rewrite filter_cons. destruct (decide (s.1 = u)); cbn [length]; lia. Qed.

Lemma dbs_of_cons s ss d : dbs_of (s :: ss) d = dbs_of ss d + (if decide (s.2 = d) then 1 else 0).
Proof. unfold dbs_of. rewrite filter_cons. destruct (decide (s.2 = d)); cbn [length]; lia. Qed.

Lemma remove_one_counts s ss u d :
  s ∈ ss ->
  users_of ss u = users_of (remove_one s ss) u + (if decide (s.1 = u) then 1 else 0) /\
  dbs_of ss d = dbs_of (remove_one s ss) d + (if decide (s.2 = d) then 1 else 0).
Proof.
  induction ss as [|s' ss IH]; [by intros ?%not_elem_of_nil|]. intros Hin. cbn [remove_one].
  destruct (decide (s = s')) as [<-|Hne]; [by rewrite users_of_cons, dbs_of_cons|].
  apply elem_of_cons in Hin as [?|Hin]; [done|]. rewrite !users_of_cons, !dbs_of_cons. destruct (IH Hin). lia.
Qed.

Lemma count_of_decrement m k k' :
  0 < count_of m k -> count_of (decrement m k) k' = count_of m k' - (if decide (k = k') then 1 else 0).
Proof.
  intros H. unfold decrement. rewrite (proj2 (Z.ltb_lt _ _) H), count_of_insert. destruct (decide (k = k')) as [->|]; lia.
Qed.

Lemma room_spec l n : room l n = negb ((0 <? l) && (l <=? n)).
Proof. unfold room. destruct (Z.ltb_spec 0 l), (Z.ltb_spec n l), (Z.leb_spec l n); try done; lia. Qed.

Lemma step_refines ct st o :
  refines ct st -> enabled st o ->
  (step ct o).1 = (spec_step st o).1 /\ refines (step ct o).2 (spec_step st o).2.
Proof.
  intros [Hu Hd Hul Hdl] Hen. destruct o as [u d|u d|cfg]; cbn [step spec_step].
  - unfold TryAcquire. rewrite !room_spec, Hul, Hdl, Hu, Hd.
    destruct ((0 <? spec_user_limit st u) && (spec_user_limit st u <=? users_of (active st) u)); cbn [negb andb]; [by split|].
    destruct ((0 <? spec_db_limit st d) && (spec_db_limit st d <=? dbs_of (active st) d)); cbn [negb]; [by split|].
    split; [done|]. split; [intros u'|intros d'|done|done]; cbn [fst snd byUser byDB with_counts active];
      rewrite count_of_insert, ?users_of_cons, ?dbs_of_cons; cbn [fst snd]; case_decide; subst; rewrite ?Hu, ?Hd; lia.
  - split; [done|]. pose proof (remove_one_counts (u, d) (active st)) as Hr. cbn [fst snd] in Hr.
    assert (0 < count_of (byUser ct) u).
    { rewrite Hu. destruct (Hr u d Hen) as [-> _]. rewrite decide_True by done. unfold users_of. lia. }
    assert (0 < count_of (byDB ct) d).
    { rewrite Hd. destruct (Hr u d Hen) as [_ ->]. rewrite decide_True by done. unfold dbs_of. lia. }
    split; [intros u'|intros d'|done|done]; cbn [fst snd byUser byDB with_counts active Release]; rewrite count_of_decrement by done.
    + destruct (Hr u' d Hen). rewrite Hu. lia.
    + destruct (Hr u d' Hen). rewrite Hd. lia.
  - split; [done|]. by split.
Qed.

Lemma new_refines cfg :
  refines (NewConnTracker cfg)
    {| active := []; spec_user_limit := user_limit (NewConnTracker cfg); spec_db_limit := db_limit (NewConnTracker cfg) |}.
Proof. by split. Qed.

Fixpoint run (ct : ConnTracker) (ops : list op) : list (option bool) * ConnTracker :=
  match ops with
  | [] => ([], ct)
  | o :: ops' => let '(a, ct1) := step ct o in let '(l, ct2) := run ct1 ops' in (a :: l, ct2)
  end.

Fixpoint spec_run (st : spec_state) (ops : list op) : list (option bool) * spec_state :=
  match ops with
  | [] => ([], st)
  | o :: ops' => let '(a, st1) := spec_step st o in let '(l, st2) := spec_run st1 ops' in (a :: l, st2)
  end.

Fixpoint legal (st : spec_state) (ops : list op) : Prop :=
  match ops with
  | [] => True
  | o :: ops' => enabled st o /\ legal (spec_step st o).2 ops'
  end.

Definition start (cfg : Config) : spec_state :=
  {| active := []; spec_user_limit := user_limit (NewConnTracker cfg); spec_db_limit := db_limit (NewConnTracker cfg) |}.

Lemma run_refines ct st ops :
  refines ct st -> legal st ops -> (run ct ops).1 = (spec_run st ops).1 /\ refines (run ct ops).2 (spec_run st ops).2.
Proof.
  revert ct st. induction ops as [|o ops IH]; intros ct st Hr Hl; [done|]. destruct Hl as [He Hl].
  destruct (step_refines ct st o Hr He) as [Ha Hr']. cbn [run spec_run].
  destruct (step ct o) as [a ct1], (spec_step st o) as [a' st1]. cbn [fst snd] in *. subst a'.
  destruct (IH ct1 st1 Hr' Hl) as [Ha Hr1]. destruct (run ct1 ops), (spec_run st1 ops). cbn [fst snd] in *. by subst.
Qed.

(** Within the limits, and the limits fixed. *)
Definition within (st : spec_state) : Prop :=
  (forall u, 0 < spec_user_limit st u -> users_of (active st) u <= spec_user_limit st u) /\
  (forall d, 0 < spec_db_limit st d -> dbs_of (active st) d <= spec_db_limit st d).

Lemma remove_one_le s ss u d : users_of (remove_one s ss) u <= users_of ss u /\ dbs_of (remove_one s ss) d <= dbs_of ss d.
Proof.
  induction ss as [|s' ss IH]; [done|]. cbn [remove_one].
  destruct (decide (s = s')); rewrite ?users_of_cons, ?dbs_of_cons; repeat case_decide; lia.
Qed.

Lemma spec_step_within st o :
  within st -> (forall cfg, o <> Reconfigure cfg) -> within (spec_step st o).2 /\
  spec_user_limit (spec_step st o).2 = spec_user_limit st /\ spec_db_limit (spec_step st o).2 = spec_db_limit st.
Proof.
  intros [Hu Hd] Ho. destruct o as [u d|u d|cfg]; [| |by destruct (Ho cfg)]; cbn [spec_step].
  - destruct (room (spec_user_limit st u) _ && _) eqn:E; [|done]. apply andb_true_iff in E as [Eu Ed].
    unfold room in Eu, Ed. split; [|done]. split; cbn [snd active spec_user_limit spec_db_limit].
    + intros u' Hl. rewrite users_of_cons. cbn [fst]. specialize (Hu u' Hl). case_decide; [subst u'|lia].
      rewrite (proj2 (Z.ltb_lt _ _) Hl) in Eu. cbn [negb orb] in Eu. apply Z.ltb_lt in Eu. lia.
    + intros d' Hl. rewrite dbs_of_cons. cbn [snd]. specialize (Hd d' Hl). case_decide; [subst d'|lia].
      rewrite (proj2 (Z.ltb_lt _ _) Hl) in Ed. cbn [negb orb] in Ed. apply Z.ltb_lt in Ed. lia.
  - split; [|done]. split; cbn [snd active spec_user_limit spec_db_limit]; intros x Hl.
    + destruct (remove_one_le (u, d) (active st) x d). specialize (Hu x Hl). lia.
    + destruct (remove_one_le (u, d) (active st) u x). specialize (Hd x Hl). lia.
Qed.

(** C29: the counters implement the list of active connections. From a new tracker,
    through any connects, disconnects of active connections and changes of the
    limits, a connection is accepted exactly when the number of active connections
    of its user and of its database leaves room, and the counters stay the numbers
    of active connections. While the limits are not changed, no user and no
    database ever has more active connections than its limit. *)
Theorem ConnTracker_refines cfg ops :
  legal (start cfg) ops ->
  let st := (spec_run (start cfg) ops).2 in
  (run (NewConnTracker cfg) ops).1 = (spec_run (start cfg) ops).1 /\ refines (run (NewConnTracker cfg) ops).2 st /\
  ((forall c, Reconfigure c ∉ ops) -> within st).
Proof.
  intros Hl. cbv zeta. destruct (run_refines _ _ ops (new_refines cfg) Hl) as [Ha Hr]. split; [done|]. split; [done|].
  assert (within (start cfg)) as Hw by (split; intros x Hx; (etransitivity; [|apply Z.lt_le_incl, Hx]); done).
  revert Hw. clear. generalize (start cfg). induction ops as [|o ops IH]; intros st Hw Ho; [done|]. cbn [spec_run].
  destruct (spec_step_within st o Hw) as (Hw' & _); [intros c ->; by apply (Ho c); left|].
  destruct (spec_step st o) as [a st1]. specialize (IH st1 Hw'). destruct (spec_run st1 ops). apply IH.
  intros c Hc. apply (Ho c). by right.
Qed.

(** ** The tracker in the server *)

(** [Server.Reload]: the tracker is kept, created or dropped. *)
Definition reload_tracker (ptr : option ConnTracker) (cfg : Config) : option ConnTracker :=
  if ConnectionLimits_Enabled (ConnectionLimits cfg) then
    Some (match ptr with Some ct => UpdateLimits ct cfg | None => NewConnTracker cfg end)
  else None.

(** [handleConn]: whether the client is let in, and whether its connection will be
    released at the end. *)
Definition accept_client (ptr : option ConnTracker) (user db : bytes) : bool * bool * option ConnTracker :=
  match ptr with
  | None => (true, false, None)
  | Some ct => let '(r, ct) := TryAcquire ct user db in
               match r with None => (true, true, Some ct) | Some _ => (false, false, Some ct) end
  end.

(** The deferred release: of the tracker that is current when the client leaves. *)
Definition client_left (ptr : option ConnTracker) (user db : bytes) : option ConnTracker :=
  ct ← ptr; Some (Release ct user db).

Definition limits_cfg (on : bool) (n : Z) : Config :=
  let c := two_databases in
  {| Proxy := Proxy c; Pool := Pool c; Routing := Routing c; Cache := Cache c; Backend := Backend c; Metrics := Metrics c;
     Admin := Admin c; TLS := TLS c; Auth := Auth c; CircuitBreaker := CircuitBreaker c; RateLimit := RateLimit c;
     Firewall := Firewall c; Audit := Audit c; DataAPI := DataAPI c; ConfigOptions_Watch := ConfigOptions_Watch c;
     Telemetry := Telemetry c; Mirror := Mirror c; Digest := Digest c; Databases := Databases c;
     ConnectionLimits := Build_ConnectionLimitsConfig on n 0; SessionCompat := SessionCompat c; Observability := Observability c;
     QueryRewriting := QueryRewriting c |}.

Lemma ConnTracker_refines_witness :
  (run (NewConnTracker (limits_cfg true 1)) [Connect $"u" $"app"; Connect $"u" $"log"; Disconnect $"u" $"app"; Connect $"u" $"log"]).1 =
  [Some true; Some false; None; Some true].
Proof.
  destruct (ConnTracker_refines (limits_cfg true 1) [Connect $"u" $"app"; Connect $"u" $"log"; Disconnect $"u" $"app"; Connect $"u" $"log"])
    as (H & _ & _); [|by rewrite H; vm_compute]. split; [done|]. split; [done|]. split; [by left|by split].
Defined.

(** One connection per user: the limits are switched off and on again while a
    client is connected. The client's departure is counted against the new tracker,
    and two others can then be connected at once. *)
Example released_on_new_tracker :
  let on := limits_cfg true 1 in
  let p0 := Some (NewConnTracker on) in
  let '(ok1, _, p1) := accept_client p0 $"u" $"app" in
  let p2 := reload_tracker (reload_tracker p1 (limits_cfg false 1)) on in
  let '(ok2, _, p3) := accept_client p2 $"u" $"app" in
  let p4 := client_left p3 $"u" $"app" in
  let '(ok3, _, p5) := accept_client p4 $"u" $"app" in
  ok1 = true /\ ok2 = true /\ ok3 = true.
Proof. by vm_compute. Qed.
