(* ===== verification/Cache.v ===== *)
(** * Query cache (internal/cache/cache.go, normalize.go and invalidator.go)

    The cache as the source builds it: a map from keys to list elements, the list
    of elements in the order of their use, and the reverse index from tables to
    keys; elements live in a store. It implements a list of entries, most recently
    used first, on which the operations are evident. A method holds the lock
    throughout and is one step at the time [now]. *)

From S2P Require Import Prelude GoStrings Ast Rewriter.

Open Scope Z_scope.

Record entry := { e_key : Z; e_result : bytes; e_tables : list bytes; e_expiresAt : Time }.

Abbreviation loc := nat.

Record Cache := {
  elems : gmap loc entry;              (* the elements of the list *)
  next_loc : loc;
  items : gmap Z loc;
  evictList : list loc;                (* front first *)
  maxEntries : Z;
  ttl : Duration;
  maxSize : Z;
  tableIndex : gmap bytes (gset Z)
}.

Definition New (maxEntries : Z) (ttl : Duration) (maxSize : Z) : Cache :=
  {| elems := ∅; next_loc := 0; items := ∅; evictList := []; maxEntries := maxEntries; ttl := ttl; maxSize := maxSize; tableIndex := ∅ |}.

Definition with_list (c : Cache) (l : list loc) : Cache :=
  {| elems := elems c; next_loc := next_loc c; items := items c; evictList := l; maxEntries := maxEntries c; ttl := ttl c;
     maxSize := maxSize c; tableIndex := tableIndex c |}.

Definition with_index (c : Cache) (ti : gmap bytes (gset Z)) : Cache :=
  {| elems := elems c; next_loc := next_loc c; items := items c; evictList := evictList c; maxEntries := maxEntries c; ttl := ttl c;
     maxSize := maxSize c; tableIndex := ti |}.

(** ** Keys *)

Definition NSProxyWire : Z := 0.
Definition NSDataAPI : Z := 0xa5a5a5a5a5a5a5a5.
Definition NSExtended : Z := 0x5a5a5a5a5a5a5a5a.

Definition WithNamespace (key ns : Z) : Z := Z.lxor key ns.

(** FNV-1a on 64 bits (package hash/fnv). *)
Definition fnv_offset : Z := 14695981039346656037.
Definition fnv_prime : Z := 1099511628211.

Definition fnv_write (h : Z) (s : bytes) : Z :=
  fold_left (fun h b => wrapU 64 (Z.lxor h (bz b) * fnv_prime)) s h.

(** [params]: the string parameters; the others are not hashed. *)
Definition CacheKey (query : bytes) (params : list bytes) : Z := fold_left fnv_write params (fnv_write fnv_offset query).

Definition semanticCacheKeyFromTree `{RewriteDeps} (t : tree) (query : bytes) : Z :=
  match pg_deparse t with
  | None => CacheKey query []
  | Some deparsed => fnv_write fnv_offset deparsed
  end.

Definition SemanticCacheKey `{PgQuery, RewriteDeps} (query : bytes) : Z :=
  match pg_parse query with
  | None => CacheKey query []
  | Some t => semanticCacheKeyFromTree t query
  end.

(** ** The table index *)

Definition index_add (key : Z) (ti : gmap bytes (gset Z)) (table : bytes) : gmap bytes (gset Z) :=
  <[table := default ∅ (ti !! table) ∪ {[key]}]> ti.

Definition index_del (key : Z) (ti : gmap bytes (gset Z)) (table : bytes) : gmap bytes (gset Z) :=
  match ti !! table with
  | Some keys =>
      let keys := keys ∖ {[key]} in
      if decide (keys = ∅) then delete table ti else <[table := keys]> ti
  | None => ti
  end.

Definition updateTableIndex (c : Cache) (key : Z) (tables : list bytes) : Cache :=
  with_index c (fold_left (index_add key) tables (tableIndex c)).

Definition removeTableIndex (c : Cache) (key : Z) (tables : list bytes) : Cache :=
  with_index c (fold_left (index_del key) tables (tableIndex c)).

(** ** Operations *)

Definition without (l : loc) (ls : list loc) : list loc := filter (fun x => x <> l) ls.

Definition removeElement (c : Cache) (elem : loc) : Cache :=
  match elems c !! elem with
  | None => c
  | Some e =>
      let c :=
        {| elems := delete elem (elems c); next_loc := next_loc c; items := delete (e_key e) (items c);
           evictList := without elem (evictList c); maxEntries := maxEntries c; ttl := ttl c; maxSize := maxSize c;
           tableIndex := tableIndex c |} in
      removeTableIndex c (e_key e) (e_tables e)
  end.

Definition MoveToFront (c : Cache) (elem : loc) : Cache := with_list c (elem :: without elem (evictList c)).

Definition evictOldest (c : Cache) : Cache :=
  match List.rev (evictList c) with
  | elem :: _ => removeElement c elem
  | [] => c
  end.

Definition Get (now : Time) (c : Cache) (key : Z) : option bytes * Cache :=
  match items c !! key with
  | None => (None, c)
  | Some elem =>
      match elems c !! elem with
      | None => (None, c)
      | Some e =>
          if e_expiresAt e <? now then (None, removeElement c elem)
          else (Some (e_result e), MoveToFront c elem)
      end
  end.

Definition new_entry (now : Time) (c : Cache) (key : Z) (result : bytes) (tables : list bytes) : entry :=
  {| e_key := key; e_result := result; e_tables := tables; e_expiresAt := now + ttl c |}.

Definition put_entry (c : Cache) (elem : loc) (e : entry) : Cache :=
  {| elems := <[elem := e]> (elems c); next_loc := next_loc c; items := items c; evictList := evictList c;
     maxEntries := maxEntries c; ttl := ttl c; maxSize := maxSize c; tableIndex := tableIndex c |}.

Definition push_front (c : Cache) (e : entry) : Cache :=
  {| elems := <[next_loc c := e]> (elems c); next_loc := S (next_loc c); items := <[e_key e := next_loc c]> (items c);
     evictList := next_loc c :: evictList c; maxEntries := maxEntries c; ttl := ttl c; maxSize := maxSize c; tableIndex := tableIndex c |}.

Definition too_large (c : Cache) (result : bytes) : bool := (0 <? maxSize c) && (maxSize c <? Z.of_nat (length result)).
Definition full (c : Cache) (n : nat) : bool := (0 <? maxEntries c) && (maxEntries c <=? Z.of_nat n).

Definition Set_ (now : Time) (c : Cache) (key : Z) (result : bytes) (tables : list bytes) : Cache :=
  if too_large c result then c
  else
    match items c !! key with
    | Some elem =>
        let c := MoveToFront c elem in
        match elems c !! elem with
        | None => c
        | Some e =>
            let c := removeTableIndex c key (e_tables e) in
            updateTableIndex
              (put_entry c elem {| e_key := e_key e; e_result := result; e_tables := tables; e_expiresAt := now + ttl c |}) key tables
        end
    | None =>
        let c := if full c (length (evictList c)) then evictOldest c else c in
        updateTableIndex (push_front c (new_entry now c key result tables)) key tables
    end.

(** [order]: the keys in the order the iteration takes; removing an element takes
    only its own key out of the set that is iterated. *)
Definition InvalidateTable (order : gset Z -> list Z) (c : Cache) (table : bytes) : Cache :=
  match tableIndex c !! table with
  | None => c
  | Some keys =>
      let c := fold_left (fun c key => match items c !! key with Some elem => removeElement c elem | None => c end) (order keys) c in
      with_index c (delete table (tableIndex c))
  end.

Definition FlushAll (c : Cache) : Cache :=
  {| elems := ∅; next_loc := next_loc c; items := ∅; evictList := []; maxEntries := maxEntries c; ttl := ttl c;
     maxSize := maxSize c; tableIndex := ∅ |}.

Definition Len (c : Cache) : nat := length (evictList c).

(** ** Invalidation between instances *)

(** The payload that [Publish] sends, and what the subscriber does with one. *)
Definition publish_payload (tables : list bytes) : bytes := Join tables $",".
Definition flush_payload : bytes := $"*".

Definition handleMessage (order : gset Z -> list Z) (c : Cache) (payload : bytes) : Cache :=
  if bool_decide (payload = $"*") then FlushAll c
  else
    fold_left (fun c table =>
      let table := TrimSpace table in
      match table with [] => c | _ => InvalidateTable order c table end) (Split1 payload ",") c.

(** ** Specification: entries in the order of their use *)

Definition without_key (key : Z) (es : list entry) : list entry := filter (fun e => e_key e <> key) es.

Definition find_key (key : Z) (es : list entry) : option entry := List.find (fun e => bool_decide (e_key e = key)) es.

Definition spec_get (now : Time) (es : list entry) (key : Z) : option bytes * list entry :=
  match find_key key es with
  | None => (None, es)
  | Some e => if e_expiresAt e <? now then (None, without_key key es) else (Some (e_result e), e :: without_key key es)
  end.

(** Storing puts the entry in front, in place of the old one of its key, or else
    of the least recently used one when the cache is full. *)
Definition spec_set (c : Cache) (now : Time) (es : list entry) (key : Z) (result : bytes) (tables : list bytes) : list entry :=
  if too_large c result then es
  else
    let e := new_entry now c key result tables in
    match find_key key es with
    | Some _ => e :: without_key key es
    | None => e :: (if full c (length es) then take (length es - 1) es else es)
    end.

Definition spec_invalidate (table : bytes) (es : list entry) : list entry := filter (fun e => table ∉ e_tables e) es.

(** The entries of a cache. *)
Definition view (c : Cache) : list entry := omap (fun l => elems c !! l) (evictList c).

(** ** Well-formed caches *)

Definition norm (ks : gset Z) : option (gset Z) := if decide (ks = ∅) then None else Some ks.

Definition keys_of (table : bytes) (es : list entry) : gset Z :=
  list_to_set (e_key <$> filter (fun e => table ∈ e_tables e) es).

Record wf (c : Cache) : Prop := {
  wf_nodup : NoDup (evictList c);
  wf_elems : forall l, l ∈ evictList c <-> is_Some (elems c !! l);
  wf_items : forall k l, items c !! k = Some l <-> exists e, elems c !! l = Some e /\ e_key e = k;
  wf_fresh : forall l, is_Some (elems c !! l) -> (l < next_loc c)%nat;
  wf_index : forall t, tableIndex c !! t = norm (keys_of t (view c))
}.

Lemma elem_of_view c e : wf c -> e ∈ view c <-> exists l, elems c !! l = Some e.
Proof.
  intros Hwf. unfold view. rewrite list_elem_of_omap. split; [intros (l & _ & ?); eauto|].
  intros [l Hl]. exists l. split; [|done]. apply (wf_elems c Hwf). eauto.
Qed.

Lemma elem_of_keys_of t es k : k ∈ keys_of t es <-> exists e, e ∈ es /\ e_key e = k /\ t ∈ e_tables e.
Proof.
  unfold keys_of. rewrite elem_of_list_to_set, list_elem_of_fmap. setoid_rewrite list_elem_of_filter.
  split; [intros (e & -> & ? & ?)|intros (e & ? & <- & ?)]; eauto.
Qed.

Lemma same_key_same_loc c l l' e e' :
  wf c -> elems c !! l = Some e -> elems c !! l' = Some e' -> e_key e = e_key e' -> l = l'.
Proof.
  intros Hwf Hl Hl' E. assert (items c !! e_key e = Some l) as H1 by (apply (wf_items c Hwf); eauto).
  assert (items c !! e_key e = Some l') as H2 by (apply (wf_items c Hwf); eauto). congruence.
Qed.

Lemma view_keys_NoDup c : wf c -> NoDup (e_key <$> view c).
Proof.
  intros Hwf. unfold view. pose proof (wf_nodup c Hwf) as Hnd. induction Hnd as [|l ls Hl Hnd IH]; [constructor|].
  cbn [omap list_omap]. destruct (elems c !! l) as [e|] eqn:E; [|done]. cbn [fmap list_fmap]. constructor; [|done].
  intros (e' & Ek & Hin)%list_elem_of_fmap. apply list_elem_of_omap in Hin as (l' & Hl' & E').
  by rewrite (same_key_same_loc c l l' e e' Hwf E E' Ek) in Hl.
Qed.

Lemma find_key_Some key es e : NoDup (e_key <$> es) -> find_key key es = Some e <-> e ∈ es /\ e_key e = key.
Proof.
  unfold find_key. induction es as [|e0 es IH]; cbn [fmap list_fmap List.find].
  { split; [done|]. by intros [?%not_elem_of_nil _]. }
  intros [Hn Hnd]%list.NoDup_cons. case_bool_decide as Ek.
  - split; [intros [= <-]; by split; [left|]|]. intros [[->|Hin]%elem_of_cons Ekey]; [done|]. destruct Hn. rewrite Ek, <- Ekey.
    by apply list_elem_of_fmap_2.
  - rewrite (IH Hnd), elem_of_cons. naive_solver.
Qed.

(** Looking a key up in the map finds the entry of the list. *)
Lemma items_find c key :
  wf c -> match items c !! key with
          | Some l => exists e, elems c !! l = Some e /\ e_key e = key /\ find_key key (view c) = Some e
          | None => find_key key (view c) = None
          end.
Proof.
  intros Hwf. destruct (items c !! key) as [l|] eqn:E.
  - apply (wf_items c Hwf) in E as (e & He & Hk). exists e. split_and!; [done..|].
    apply find_key_Some; [by apply view_keys_NoDup|]. split; [|done]. apply elem_of_view; eauto.
  - destruct (find_key key (view c)) as [e|] eqn:Ef; [|done].
    apply find_key_Some in Ef as [Hin Hk]; [|by apply view_keys_NoDup]. apply elem_of_view in Hin as [l Hl]; [|done].
    assert (items c !! key = Some l) by (apply (wf_items c Hwf); eauto). congruence.
Qed.

Lemma omap_without c ls l e :
  wf c -> elems c !! l = Some e ->
  omap (fun x => elems c !! x) (without l ls) = without_key (e_key e) (omap (fun x => elems c !! x) ls).
Proof.
  intros Hwf He. unfold without, without_key. induction ls as [|x ls IH]; [done|]. rewrite filter_cons.
  cbn [omap list_omap]. destruct (decide (x <> l)) as [Hne|Heq%dec_stable]; cbn [omap list_omap].
  - destruct (elems c !! x) as [e'|] eqn:E; [|done]. rewrite filter_cons, decide_True; [by rewrite IH|].
    intros Ek. destruct Hne. by eapply same_key_same_loc.
  - subst x. rewrite He, filter_cons, decide_False; [done|]. by intros [].
Qed.

(** ** The index *)

Lemma fold_index_del key tables ti t :
  (fold_left (index_del key) tables ti) !! t =
  if decide (t ∈ tables) then ti !! t ≫= (fun ks => norm (ks ∖ {[key]})) else ti !! t.
Proof.
  revert ti. induction tables as [|t0 tables IH]; intros ti; cbn [fold_left].
  { rewrite decide_False by apply not_elem_of_nil. done. }
  rewrite IH. unfold index_del. destruct (decide (t = t0)) as [->|Hne].
  - rewrite (decide_True (P := t0 ∈ t0 :: tables)) by (by left). destruct (ti !! t0) as [ks|] eqn:E; cbn [mbind option_bind].
    + unfold norm. destruct (decide (ks ∖ {[key]} = ∅)) as [Hks|Hks].
      * rewrite lookup_delete_eq. by case_decide.
      * rewrite lookup_insert_eq. case_decide; [|done]. cbn [mbind option_bind].
        replace (ks ∖ {[key]} ∖ {[key]}) with (ks ∖ {[key]}) by set_solver. by rewrite decide_False.
    + rewrite E. by case_decide.
  - assert ((match ti !! t0 with Some keys => if decide (keys ∖ {[key]} = ∅) then delete t0 ti else <[t0:=keys ∖ {[key]}]> ti
             | None => ti end) !! t = ti !! t) as ->.
    { destruct (ti !! t0) as [ks|]; [|done].
      destruct (decide (ks ∖ {[key]} = ∅)); [by rewrite (lookup_delete_ne ti)|by rewrite (lookup_insert_ne ti)]. }
    destruct (decide (t ∈ tables)); [rewrite decide_True by by right|rewrite decide_False by set_solver]; done.
Qed.

Lemma fold_index_add key tables ti t :
  (fold_left (index_add key) tables ti) !! t =
  if decide (t ∈ tables) then Some (default ∅ (ti !! t) ∪ {[key]}) else ti !! t.
Proof.
  revert ti. induction tables as [|t0 tables IH]; intros ti; cbn [fold_left].
  { rewrite decide_False by apply not_elem_of_nil. done. }
  rewrite IH. unfold index_add. destruct (decide (t = t0)) as [->|Hne].
  - rewrite lookup_insert_eq, (decide_True (P := t0 ∈ t0 :: tables)) by (by left). cbn [default from_option].
    case_decide; [|done]. f_equal. set_solver.
  - rewrite lookup_insert_ne by done.
    destruct (decide (t ∈ tables)); [rewrite decide_True by by right|rewrite decide_False by set_solver]; done.
Qed.

Lemma norm_default ks : default ∅ (norm ks) = ks.
Proof. unfold norm. by case_decide. Qed.

Lemma norm_Some (ks : gset Z) : ks <> ∅ -> norm ks = Some ks.
Proof. intros. unfold norm. by rewrite decide_False. Qed.

Lemma norm_bind (ks : gset Z) key : norm ks ≫= (fun ks => norm (ks ∖ {[key]})) = norm (ks ∖ {[key]}).
Proof.
  destruct (decide (ks = ∅)) as [->|Hne]; [|by rewrite (norm_Some ks Hne)].
  assert (forall ks, ks = ∅ -> norm ks = None) as Hn by (intros; unfold norm; by rewrite decide_True).
  rewrite !Hn by set_solver. done.
Qed.

Lemma keys_of_without t k es : keys_of t (without_key k es) = keys_of t es ∖ {[k]}.
Proof.
  apply set_eq. intros k'. rewrite elem_of_difference, elem_of_singleton, !elem_of_keys_of.
  unfold without_key. setoid_rewrite list_elem_of_filter. naive_solver.
Qed.

Lemma keys_of_cons t e es : keys_of t (e :: es) = (if decide (t ∈ e_tables e) then {[e_key e]} else ∅) ∪ keys_of t es.
Proof.
  apply set_eq. intros k. rewrite elem_of_union, !elem_of_keys_of. setoid_rewrite elem_of_cons.
  destruct (decide (t ∈ e_tables e)); rewrite ?elem_of_singleton, ?elem_of_empty; naive_solver.
Qed.

(** The index after an entry is taken out of it. *)
Lemma index_without c e t :
  wf c -> e ∈ view c ->
  (fold_left (index_del (e_key e)) (e_tables e) (tableIndex c)) !! t = norm (keys_of t (without_key (e_key e) (view c))).
Proof.
  intros Hwf Hin. rewrite fold_index_del, (wf_index c Hwf), keys_of_without. case_decide as Ht; [apply norm_bind|].
  f_equal. assert (e_key e ∉ keys_of t (view c)); [|set_solver]. intros (e' & Hin' & Hk & Ht')%elem_of_keys_of.
  apply elem_of_view in Hin as [l Hl], Hin' as [l' Hl']; [|done..].
  pose proof (same_key_same_loc c l' l e' e Hwf Hl' Hl Hk) as ->. congruence.
Qed.

Lemma removeElement_spec c l e :
  wf c -> elems c !! l = Some e ->
  wf (removeElement c l) /\ view (removeElement c l) = without_key (e_key e) (view c) /\
  ttl (removeElement c l) = ttl c /\ maxEntries (removeElement c l) = maxEntries c /\ maxSize (removeElement c l) = maxSize c.
Proof.
  intros Hwf He. unfold removeElement. rewrite He. set (c1 := {| elems := delete l (elems c) |}).
  assert (view c1 = without_key (e_key e) (view c)) as Hview.
  { unfold view. rewrite <- (omap_without c _ l e Hwf He). cbn [c1 elems evictList].
    assert (Forall (fun x => x <> l) (without l (evictList c))) as Hall
      by (apply list.Forall_forall; intros x [? _]%list_elem_of_filter; done).
    induction Hall as [|x xs Hx Hall IH]; [done|]. cbn [omap list_omap]. by rewrite lookup_delete_ne, IH. }
  split; [|done]. split; cbn [removeTableIndex with_index evictList elems items next_loc tableIndex c1].
  - apply list.NoDup_filter, Hwf.
  - intros x. unfold without. rewrite list_elem_of_filter, (wf_elems c Hwf). destruct (decide (x = l)) as [->|Hne].
    + rewrite lookup_delete_eq. split; [by intros [[] _]|by intros [? ?]].
    + rewrite lookup_delete_ne by done. tauto.
  - intros k x. destruct (decide (k = e_key e)) as [->|Hk].
    + rewrite lookup_delete_eq. split; [done|]. intros (e' & He' & Ek). apply lookup_delete_Some in He' as [Hne He'].
      destruct Hne. by eapply same_key_same_loc.
    + rewrite lookup_delete_ne by done. rewrite (wf_items c Hwf). split; intros (e' & He' & Ek).
      * exists e'. split; [|done]. rewrite lookup_delete_ne; [done|]. intros <-. congruence.
      * apply lookup_delete_Some in He' as [_ He']. eauto.
  - intros x [e' [_ He']%lookup_delete_Some]. apply (wf_fresh c Hwf). eauto.
  - intros t. change (view _) with (view c1) at 1. rewrite Hview. apply index_without; [done|]. apply elem_of_view; eauto.
Qed.

Lemma MoveToFront_spec c l e :
  wf c -> elems c !! l = Some e -> wf (MoveToFront c l) /\ view (MoveToFront c l) = e :: without_key (e_key e) (view c).
Proof.
  intros Hwf He. assert (view (MoveToFront c l) = e :: without_key (e_key e) (view c)) as Hview.
  { unfold view, MoveToFront. cbn [with_list elems evictList omap list_omap]. rewrite He. f_equal. by apply omap_without. }
  split; [|done]. split; try apply Hwf; cbn [MoveToFront with_list evictList elems tableIndex].
  - constructor; [|apply list.NoDup_filter, Hwf]. by intros [[] _]%list_elem_of_filter.
  - intros x. rewrite elem_of_cons. unfold without. rewrite list_elem_of_filter, (wf_elems c Hwf).
    destruct (decide (x = l)) as [->|]; [|tauto]. rewrite He. split; eauto.
  - intros t. rewrite (wf_index c Hwf). fold (MoveToFront c l). rewrite Hview. f_equal. rewrite keys_of_cons, keys_of_without.
    apply set_eq. intros k. rewrite elem_of_union, elem_of_difference, elem_of_singleton.
    destruct (decide (k = e_key e)) as [->|]; [|case_decide; set_solver].
    rewrite elem_of_keys_of. split.
    + intros (e' & Hin' & Hk & Ht'). apply elem_of_view in Hin' as [l' Hl']; [|done].
      pose proof (same_key_same_loc c l' l e' e Hwf Hl' He Hk) as ->. simplify_eq. rewrite decide_True by done. set_solver.
    + case_decide; [|set_solver]. intros _. exists e. split_and!; [|done..]. apply elem_of_view; eauto.
Qed.

(** ** Each operation implements its specification *)

Definition same_limits (c c' : Cache) : Prop := ttl c' = ttl c /\ maxEntries c' = maxEntries c /\ maxSize c' = maxSize c.

Lemma Get_spec now c key :
  wf c -> (Get now c key).1 = (spec_get now (view c) key).1 /\ wf (Get now c key).2 /\
  view (Get now c key).2 = (spec_get now (view c) key).2 /\ same_limits c (Get now c key).2.
Proof.
  intros Hwf. unfold Get, spec_get. pose proof (items_find c key Hwf) as Hf.
  destruct (items c !! key) as [l|]; [|by rewrite Hf]. destruct Hf as (e & He & Hk & ->). rewrite He.
  destruct (e_expiresAt e <? now); cbn [fst snd].
  - destruct (removeElement_spec c l e Hwf He) as (? & Hv & ? & ? & ?). rewrite Hv, Hk. by split_and!.
  - destruct (MoveToFront_spec c l e Hwf He) as [? Hv]. rewrite Hv, Hk. by split_and!.
Qed.

Lemma filter_all {A} (P : A -> Prop) `{forall x, Decision (P x)} (l : list A) : (forall x, x ∈ l -> P x) -> filter P l = l.
Proof.
  induction l as [|x l IH]; intros Hall; [done|]. rewrite filter_cons, decide_True by (apply Hall; by left).
  f_equal. apply IH. intros y Hy. apply Hall. by right.
Qed.

Lemma filter_ext_elem {A} (P Q : A -> Prop) `{forall x, Decision (P x)} `{forall x, Decision (Q x)} (l : list A) :
  (forall x, x ∈ l -> P x <-> Q x) -> filter P l = filter Q l.
Proof.
  induction l as [|x l IH]; intros Hall; [done|]. rewrite !filter_cons. pose proof (Hall x ltac:(by left)) as Hx.
  rewrite IH by (intros y Hy; apply Hall; by right). repeat case_decide; tauto.
Qed.

Lemma entries_length c : wf c -> length (view c) = length (evictList c).
Proof.
  intros Hwf. unfold view. assert (Forall (fun l => is_Some (elems c !! l)) (evictList c)) as Hall
    by (apply list.Forall_forall; intros l; apply (wf_elems c Hwf)).
  induction Hall as [|l ls [e He] Hall IH]; [done|]. cbn [omap list_omap]. rewrite He. cbn. by rewrite IH.
Qed.

Lemma evictOldest_spec c :
  wf c -> evictList c <> [] ->
  wf (evictOldest c) /\ view (evictOldest c) = take (length (view c) - 1) (view c) /\ same_limits c (evictOldest c).
Proof.
  intros Hwf Hne. unfold evictOldest. destruct (exists_last Hne) as (ls & l & E). rewrite E, rev_app_distr. cbn [List.rev app].
  destruct (proj1 (wf_elems c Hwf l)) as [e He]; [rewrite E; set_solver|].
  destruct (removeElement_spec c l e Hwf He) as (? & Hv & ?). split; [done|]. split; [|done]. rewrite Hv.
  assert (view c = omap (fun x => elems c !! x) ls ++ [e]) as Hlast.
  { unfold view. rewrite E, omap_app. cbn [omap list_omap]. by rewrite He. }
  pose proof (view_keys_NoDup c Hwf) as Hnd. rewrite Hlast in *. rewrite length_app. cbn [length].
  rewrite Nat.add_sub, take_app_length. rewrite fmap_app in Hnd. apply list.NoDup_app in Hnd as (_ & Hdis & _).
  unfold without_key. rewrite list.filter_app, filter_cons, decide_False by tauto. rewrite filter_nil, app_nil_r.
  apply filter_all. intros x Hx Hk. apply (Hdis (e_key x)); [by apply list_elem_of_fmap_2|rewrite Hk; cbn; by left].
Qed.

Lemma push_spec c e :
  wf c -> items c !! e_key e = None ->
  let c' := updateTableIndex (push_front c e) (e_key e) (e_tables e) in wf c' /\ view c' = e :: view c /\ same_limits c c'.
Proof.
  intros Hwf Hnone. cbv zeta. assert (elems c !! next_loc c = None) as Hfresh.
  { destruct (elems c !! next_loc c) eqn:E; [|done]. pose proof (wf_fresh c Hwf (next_loc c)). rewrite E in H. 
    specialize (H ltac:(eauto)). lia. }
  assert (view (updateTableIndex (push_front c e) (e_key e) (e_tables e)) = e :: view c) as Hview.
  { unfold view. cbn [updateTableIndex with_index push_front elems evictList omap list_omap]. rewrite lookup_insert_eq. f_equal.
    assert (Forall (fun x => x <> next_loc c) (evictList c)) as Hall.
    { apply list.Forall_forall. intros x [? Hx]%(wf_elems c Hwf) ->. congruence. }
    induction Hall as [|x xs Hx Hall IH]; [done|]. cbn [omap list_omap]. by rewrite lookup_insert_ne, IH. }
  split; [|done]. split; cbn [updateTableIndex with_index push_front elems evictList items next_loc tableIndex].
  - constructor; [|apply Hwf]. rewrite (wf_elems c Hwf), Hfresh. by intros [? ?].
  - intros x. rewrite elem_of_cons, (wf_elems c Hwf), lookup_insert_is_Some. destruct (decide (next_loc c = x)); naive_solver.
  - intros k x. destruct (decide (k = e_key e)) as [->|Hk].
    + rewrite lookup_insert_eq. split; [intros [= <-]; exists e; by rewrite lookup_insert_eq|].
      intros (e' & He' & Ek). apply lookup_insert_Some in He' as [[-> _]|[_ He']]; [done|].
      assert (items c !! e_key e = Some x) by (apply (wf_items c Hwf); eauto). congruence.
    + rewrite lookup_insert_ne by done. rewrite (wf_items c Hwf). split; intros (e' & He' & Ek).
      * exists e'. split; [|done]. rewrite lookup_insert_ne; [done|]. intros <-. congruence.
      * apply lookup_insert_Some in He' as [[_ <-]|[_ He']]; [done|]. eauto.
  - intros x [<-|[_ Hx]]%lookup_insert_is_Some; [lia|]. pose proof (wf_fresh c Hwf x Hx). lia.
  - intros t. change (view _) with (view (updateTableIndex (push_front c e) (e_key e) (e_tables e))) at 1.
    rewrite Hview, keys_of_cons, fold_index_add, (wf_index c Hwf), norm_default. case_decide.
    + rewrite norm_Some by set_solver. f_equal. set_solver.
    + f_equal. set_solver.
Qed.

Lemma replace_spec c l e result tables expires :
  wf c -> elems c !! l = Some e ->
  let e' := {| e_key := e_key e; e_result := result; e_tables := tables; e_expiresAt := expires |} in
  let c1 := MoveToFront c l in
  let c' := updateTableIndex (put_entry (removeTableIndex c1 (e_key e) (e_tables e)) l e') (e_key e) tables in
  wf c' /\ view c' = e' :: without_key (e_key e) (view c) /\ same_limits c c'.
Proof.
  intros Hwf He. cbv zeta. set (e' := {| e_key := e_key e |}). set (c' := updateTableIndex _ _ _).
  destruct (MoveToFront_spec c l e Hwf He) as [Hwf1 Hv1].
  assert (view c' = e' :: without_key (e_key e) (view c)) as Hview.
  { unfold view. cbn [c' updateTableIndex with_index put_entry removeTableIndex MoveToFront with_list elems evictList omap list_omap].
    rewrite lookup_insert_eq. f_equal. rewrite <- (omap_without c _ l e Hwf He).
    assert (Forall (fun x => x <> l) (without l (evictList c))) as Hall
      by (apply list.Forall_forall; intros x [? _]%list_elem_of_filter; done).
    induction Hall as [|x xs Hx Hall IH]; [done|]. cbn [omap list_omap]. by rewrite lookup_insert_ne, IH. }
  split; [|done].
  split; cbn [c' updateTableIndex with_index put_entry removeTableIndex MoveToFront with_list elems evictList items next_loc tableIndex].
  - apply Hwf1.
  - intros x. etransitivity; [apply (wf_elems _ Hwf1)|]. cbn [MoveToFront with_list elems]. rewrite lookup_insert_is_Some.
    destruct (decide (l = x)) as [<-|]; [|tauto]. rewrite He. split; eauto.
  - intros k x. rewrite (wf_items c Hwf). destruct (decide (x = l)) as [->|Hne].
    + rewrite lookup_insert_eq, He. split; intros (e0 & [= <-] & <-); eauto.
    + rewrite lookup_insert_ne by done. done.
  - intros x Hx. apply (wf_fresh c Hwf). apply lookup_insert_is_Some in Hx as [<-|[_ Hx]]; eauto.
  - intros t. change (view _) with (view c') at 1. rewrite Hview, keys_of_cons, fold_index_add.
    rewrite (index_without c e t Hwf) by (apply elem_of_view; eauto). rewrite norm_default. cbn [e' e_tables e_key]. case_decide.
    + rewrite norm_Some by set_solver. f_equal. set_solver.
    + f_equal. set_solver.
Qed.

Lemma Set_spec now c key result tables :
  wf c -> wf (Set_ now c key result tables) /\
  view (Set_ now c key result tables) = spec_set c now (view c) key result tables /\ same_limits c (Set_ now c key result tables).
Proof.
  intros Hwf. unfold Set_, spec_set. destruct (too_large c result); [done|]. pose proof (items_find c key Hwf) as Hf.
  destruct (items c !! key) as [l|] eqn:Ek.
  - destruct Hf as (e & He & Hk & ->). cbn [MoveToFront with_list elems]. rewrite He. subst key.
    apply (replace_spec c l e result tables (now + ttl c) Hwf He).
  - rewrite Hf. rewrite (entries_length c Hwf). destruct (full c (length (evictList c))) eqn:Efull.
    + assert (evictList c <> []) as Hne.
      { intros E. rewrite E in Efull. unfold full in Efull. apply andb_true_iff in Efull as [H1%Z.ltb_lt H2%Z.leb_le]. cbn in H2. lia. }
      destruct (evictOldest_spec c Hwf Hne) as (Hwf1 & Hv1 & Ht & Hm & Hs).
      destruct (push_spec (evictOldest c) (new_entry now (evictOldest c) key result tables) Hwf1) as (? & Hv2 & ? & ? & ?).
      { pose proof (items_find (evictOldest c) key Hwf1) as Hf1. cbn [new_entry e_key].
        destruct (items (evictOldest c) !! key) as [l|]; [exfalso|done]. destruct Hf1 as (e & _ & Hk & Hf1).
        apply find_key_Some in Hf1 as [Hin _]; [|by apply view_keys_NoDup].
        rewrite Hv1 in Hin. apply list_elem_of_lookup in Hin as [i Hi]. apply lookup_take_Some in Hi as [Hi _].
        assert (find_key key (view c) = Some e); [|congruence].
        apply find_key_Some; [by apply view_keys_NoDup|]. split; [by eapply list_elem_of_lookup_2|done]. }
      split; [done|]. split; [|split_and!; etransitivity; eauto].
      etransitivity; [exact Hv2|]. rewrite Hv1, (entries_length c Hwf). unfold new_entry. by rewrite Ht.
    + apply (push_spec c (new_entry now c key result tables) Hwf Ek).
Qed.

Lemma remove_keys_spec c ks :
  wf c ->
  let c' := fold_left (fun c key => match items c !! key with Some elem => removeElement c elem | None => c end) ks c in
  wf c' /\ view c' = filter (fun e => e_key e ∉ ks) (view c) /\ same_limits c c'.
Proof.
  revert c. induction ks as [|k ks IH]; intros c Hwf; cbv zeta; cbn [fold_left].
  { split; [done|]. split; [|done]. symmetry. apply filter_all. intros x _. apply not_elem_of_nil. }
  pose proof (items_find c k Hwf) as Hf.
  assert (forall es, filter (fun e => e_key e ∉ k :: ks) es = filter (fun e => e_key e ∉ ks) (without_key k es)) as Hsplit.
  { intros es. unfold without_key. induction es as [|e es IHes]; [done|]. rewrite !filter_cons.
    destruct (decide (e_key e <> k)) as [Hne|Heq]; [rewrite filter_cons|rewrite decide_False by set_solver; done].
    destruct (decide (e_key e ∉ ks)); [rewrite decide_True by set_solver|rewrite decide_False by set_solver]; by rewrite IHes. }
  destruct (items c !! k) as [l|].
  - destruct Hf as (e & He & <- & _). destruct (removeElement_spec c l e Hwf He) as (Hwf1 & Hv1 & ? & ? & ?).
    destruct (IH _ Hwf1) as (Hwf2 & Hv2 & ? & ? & ?). split; [done|]. rewrite Hv2, Hv1, Hsplit. split; [done|].
    split_and!; congruence.
  - destruct (IH _ Hwf) as (Hwf2 & Hv2 & Hl). split; [done|]. rewrite Hv2, Hsplit. split; [|done]. f_equal.
    symmetry. apply filter_all. intros e Hin Ek. assert (find_key k (view c) = Some e); [|congruence].
    apply find_key_Some; [by apply view_keys_NoDup|done].
Qed.

Lemma InvalidateTable_spec order c table :
  (forall ks, order ks ≡ₚ elements ks) -> wf c ->
  wf (InvalidateTable order c table) /\ view (InvalidateTable order c table) = spec_invalidate table (view c) /\
  same_limits c (InvalidateTable order c table).
Proof.
  intros Horder Hwf. unfold InvalidateTable. rewrite (wf_index c Hwf). unfold norm, spec_invalidate.
  destruct (decide (keys_of table (view c) = ∅)) as [Hempty|Hne].
  { split; [done|]. split; [|done]. symmetry. apply filter_all. intros e Hin Ht.
    assert (e_key e ∈ keys_of table (view c)) by (apply elem_of_keys_of; eauto). set_solver. }
  destruct (remove_keys_spec c (order (keys_of table (view c))) Hwf) as (Hwf1 & Hv1 & Hl). set (c1 := fold_left _ _ _) in *.
  assert (view c1 = filter (fun e => table ∉ e_tables e) (view c)) as Hv2.
  { rewrite Hv1. apply filter_ext_elem. intros e Hin. rewrite Horder, elem_of_elements, elem_of_keys_of. split.
    - intros Hn Ht. apply Hn. eauto.
    - intros Ht (e' & Hin' & Hk & Ht'). apply elem_of_view in Hin as [l Hle], Hin' as [l' Hl']; [|done..].
      pose proof (same_key_same_loc c l' l e' e Hwf Hl' Hle Hk) as ->. congruence. }
  split; [|done]. assert (tableIndex c1 !! table = None) as Hnone.
  { rewrite (wf_index c1 Hwf1), Hv2. unfold norm. rewrite decide_True; [done|]. apply set_eq. intros k.
    rewrite elem_of_keys_of. split; [|set_solver]. intros (e & [Hn _]%list_elem_of_filter & _ & ?). done. }
  rewrite delete_id by done. by destruct Hwf1.
Qed.

(** ** The cache as a whole *)

Inductive op :=
| OpGet (key : Z)
| OpSet (key : Z) (result : bytes) (tables : list bytes)
| OpInvalidate (table : bytes)
| OpFlush.

Definition exec (order : gset Z -> list Z) (now : Time) (o : op) (c : Cache) : option bytes * Cache :=
  match o with
  | OpGet key => Get now c key
  | OpSet key result tables => (None, Set_ now c key result tables)
  | OpInvalidate table => (None, InvalidateTable order c table)
  | OpFlush => (None, FlushAll c)
  end.

Definition spec_exec (c0 : Cache) (now : Time) (o : op) (es : list entry) : option bytes * list entry :=
  match o with
  | OpGet key => spec_get now es key
  | OpSet key result tables => (None, spec_set c0 now es key result tables)
  | OpInvalidate table => (None, spec_invalidate table es)
  | OpFlush => (None, [])
  end.

Fixpoint run (order : gset Z -> list Z) (c : Cache) (ops : list (Time * op)) : list (option bytes) * Cache :=
  match ops with
  | [] => ([], c)
  | (now, o) :: ops' => let '(a, c1) := exec order now o c in let '(l, c2) := run order c1 ops' in (a :: l, c2)
  end.

(** The specification depends on the cache only for its limits. *)
Fixpoint spec_run (c0 : Cache) (es : list entry) (ops : list (Time * op)) : list (option bytes) * list entry :=
  match ops with
  | [] => ([], es)
  | (now, o) :: ops' => let '(a, es1) := spec_exec c0 now o es in let '(l, es2) := spec_run c0 es1 ops' in (a :: l, es2)
  end.

Lemma wf_empty c : elems c = ∅ -> items c = ∅ -> evictList c = [] -> tableIndex c = ∅ -> wf c.
Proof.
  intros He Hi Hl Ht. split; rewrite ?He, ?Hi, ?Hl, ?Ht; [constructor|..]; setoid_rewrite lookup_empty.
  - intros l. split; [by intros ?%not_elem_of_nil|by intros [? ?]].
  - intros k l. split; [done|]. by intros (? & ? & _).
  - by intros l [? ?].
  - intros t. unfold view. rewrite Hl. unfold norm. by rewrite decide_True.
Qed.

Lemma exec_spec order now o c :
  (forall ks, order ks ≡ₚ elements ks) -> wf c ->
  wf (exec order now o c).2 /\ same_limits c (exec order now o c).2 /\
  (exec order now o c).1 = (spec_exec c now o (view c)).1 /\ view (exec order now o c).2 = (spec_exec c now o (view c)).2.
Proof.
  intros Horder Hwf. destruct o as [key|key result tables|table|]; cbn [exec spec_exec fst snd].
  - destruct (Get_spec now c key Hwf) as (? & ? & ? & ?). by split_and!.
  - destruct (Set_spec now c key result tables Hwf) as (? & ? & ?). by split_and!.
  - destruct (InvalidateTable_spec order c table Horder Hwf) as (? & ? & ?). by split_and!.
  - split_and!; try done. by apply wf_empty.
Qed.

Lemma wf_New n t m : wf (New n t m).
Proof. by apply wf_empty. Qed.

Lemma spec_exec_limits c c' now o es : same_limits c c' -> spec_exec c' now o es = spec_exec c now o es.
Proof.
  intros (Ht & Hm & Hs). destruct o as [|key result tables| |]; try done. cbn [spec_exec]. unfold spec_set, too_large, full, new_entry.
  by rewrite Ht, Hm, Hs.
Qed.

Lemma run_spec order c c0 ops :
  (forall ks, order ks ≡ₚ elements ks) -> wf c -> same_limits c0 c ->
  (run order c ops).1 = (spec_run c0 (view c) ops).1 /\ wf (run order c ops).2 /\
  view (run order c ops).2 = (spec_run c0 (view c) ops).2.
Proof.
  intros Horder. revert c. induction ops as [|[now o] ops IH]; intros c Hwf Hl; [done|]. cbn [run spec_run].
  destruct (exec_spec order now o c Horder Hwf) as (Hwf1 & Hl1 & Ha & Hv). rewrite (spec_exec_limits c0 c now o (view c) Hl) in Ha, Hv.
  destruct (exec order now o c) as [a c1], (spec_exec c0 now o (view c)) as [a' es1]. cbn [fst snd] in *. subst a' es1.
  assert (same_limits c0 c1) as Hl2 by (destruct Hl as (? & ? & ?), Hl1 as (? & ? & ?); split_and!; congruence).
  destruct (IH c1 Hwf1 Hl2) as (Ha & Hwf2 & Hv2). destruct (run order c1 ops), (spec_run c0 (view c1) ops).
  cbn [fst snd] in *. subst. done.
Qed.

Lemma spec_get_length now es key : (length (spec_get now es key).2 <= length es)%nat.
Proof.
  unfold spec_get. destruct (find_key key es) as [e|] eqn:E; [|done].
  assert (length (without_key key es) <= length es)%nat by apply length_filter.
  case_match; cbn [snd]; [done|]. cbn [length]. apply List.find_some in E as [Hin Hk%bool_decide_eq_true].
  assert (length (without_key key es) < length es)%nat; [|lia]. clear H H0. apply list_elem_of_In in Hin.
  unfold without_key. induction es as [|e0 es IH]; [by apply not_elem_of_nil in Hin|]. rewrite filter_cons. cbn [length].
  pose proof (length_filter (fun e => e_key e <> key) es). case_decide; cbn [length]; [|lia].
  apply elem_of_cons in Hin as [<-|Hin]; [done|]. specialize (IH Hin). lia.
Qed.

Lemma spec_exec_bound c0 now o es :
  0 < maxEntries c0 -> Z.of_nat (length es) <= maxEntries c0 -> Z.of_nat (length (spec_exec c0 now o es).2) <= maxEntries c0.
Proof.
  intros Hpos Hle. destruct o as [key|key result tables|table|]; cbn [spec_exec snd].
  - pose proof (spec_get_length now es key). lia.
  - unfold spec_set. destruct (too_large c0 result); [done|]. destruct (find_key key es) as [e|] eqn:E.
    + pose proof (spec_get_length (e_expiresAt e) es key) as Hl. unfold spec_get in Hl. rewrite E, Z.ltb_irrefl in Hl.
      cbn [snd length] in *. lia.
    + unfold full. rewrite (proj2 (Z.ltb_lt _ _) Hpos). cbn [andb]. destruct (maxEntries c0 <=? Z.of_nat (length es)) eqn:Ef; cbn [length].
      * rewrite length_take. lia.
      * apply Z.leb_gt in Ef. lia.
  - pose proof (length_filter (fun e => table ∉ e_tables e) es). unfold spec_invalidate. lia.
  - cbn. lia.
Qed.

(** C5: the cache implements a list of entries ordered by use. In any sequence of
    operations on a new cache, every lookup returns what the list of entries gives,
    the entries of the map, of the list and of the table index stay consistent, and
    the cache never holds more than [maxEntries] entries. *)
Theorem Cache_refines order n t m ops :
  (forall ks, order ks ≡ₚ elements ks) ->
  (run order (New n t m) ops).1 = (spec_run (New n t m) [] ops).1 /\
  view (run order (New n t m) ops).2 = (spec_run (New n t m) [] ops).2 /\
  wf (run order (New n t m) ops).2 /\
  (0 < n -> Z.of_nat (Len (run order (New n t m) ops).2) <= n).
Proof.
  intros Horder. destruct (run_spec order (New n t m) (New n t m) ops Horder (wf_New n t m) ltac:(done)) as (Ha & Hwf & Hv).
  split; [done|]. split; [done|]. split; [done|]. intros Hn. unfold Len. rewrite <- (entries_length _ Hwf), Hv.
  change (view (New n t m)) with (@nil entry).
  assert (Z.of_nat (length (@nil entry)) <= n) as Hle by (cbn; lia). revert Hle. generalize (@nil entry). clear -Hn.
  induction ops as [|[now o] ops IH]; intros es Hle; [done|]. cbn [spec_run].
  pose proof (spec_exec_bound (New n t m) now o es Hn Hle) as Hle'.
  destruct (spec_exec (New n t m) now o es) as [a es1]. specialize (IH es1 Hle'). by destruct (spec_run _ es1 ops).
Qed.

(** ** Freshness *)

(** An operation that leaves an entry of this key and these tables valid. *)
Definition leaves_valid (c0 : Cache) (key : Z) (tables : list bytes) (o : op) : Prop :=
  match o with
  | OpGet _ => True
  | OpSet key' result _ => key' = key -> too_large c0 result = true
  | OpInvalidate table => table ∉ tables
  | OpFlush => False
  end.

(** The entry was stored by an operation of [ops] and is still valid. *)
Definition stored (c0 : Cache) (ops : list (Time * op)) (e : entry) : Prop :=
  exists pre t post, ops = pre ++ (t, OpSet (e_key e) (e_result e) (e_tables e)) :: post /\ e_expiresAt e = t + ttl c0 /\
    Forall (fun no => leaves_valid c0 (e_key e) (e_tables e) no.2) post.

Lemma spec_run_app c0 es ops1 ops2 : (spec_run c0 es (ops1 ++ ops2)).2 = (spec_run c0 (spec_run c0 es ops1).2 ops2).2.
Proof.
  revert es. induction ops1 as [|[now o] ops1 IH]; intros es; [done|]. cbn [app spec_run].
  destruct (spec_exec c0 now o es) as [a es1]. specialize (IH es1).
  destruct (spec_run c0 es1 (ops1 ++ ops2)), (spec_run c0 es1 ops1). done.
Qed.

Lemma stored_snoc c0 ops now o e : stored c0 ops e -> leaves_valid c0 (e_key e) (e_tables e) o -> stored c0 (ops ++ [(now, o)]) e.
Proof.
  intros (pre & t & post & -> & Hx & Hall) Ho. exists pre, t, (post ++ [(now, o)]). rewrite <- app_assoc. cbn [app].
  split; [done|]. split; [done|]. apply Forall_app. by repeat constructor.
Qed.

Lemma find_key_elem key es e : find_key key es = Some e -> e ∈ es.
Proof. intros [Hin _]%List.find_some. by apply list_elem_of_In. Qed.

Lemma spec_run_stored c0 ops e : e ∈ (spec_run c0 [] ops).2 -> stored c0 ops e.
Proof.
  revert e. induction ops as [|[now o] ops IH] using rev_ind; intros e; [by intros ?%not_elem_of_nil|].
  rewrite spec_run_app. set (es := (spec_run c0 [] ops).2) in *.
  replace (spec_run c0 es [(now, o)]).2 with (spec_exec c0 now o es).2 by (cbn; by destruct (spec_exec c0 now o es)).
  destruct o as [key|key result tables|table|]; cbn [spec_exec snd].
  - intros Hin. apply stored_snoc; [|done]. apply IH. unfold spec_get in Hin. destruct (find_key key es) as [e0|] eqn:Ef; [|done].
    destruct (e_expiresAt e0 <? now); cbn [snd] in Hin; [|apply elem_of_cons in Hin as [->|Hin]; [by eapply find_key_elem|]];
      by apply list_elem_of_filter in Hin as [_ Hin].
  - unfold spec_set. destruct (too_large c0 result) eqn:El; [intros Hin; apply stored_snoc; [by apply IH|by intros _]|].
    set (e1 := new_entry now c0 key result tables). intros Hin. assert (e = e1 \/ (e ∈ es /\ e_key e <> key)) as [->|[He Hk]].
    { destruct (find_key key es) as [e0|] eqn:Ef; apply elem_of_cons in Hin as [->|Hin]; [by left| |by left|]; right.
      - apply list_elem_of_filter in Hin. tauto.
      - assert (e ∈ es) as He.
        { destruct (full c0 (length es)); [|done]. apply list_elem_of_lookup in Hin as [i Hi]. apply lookup_take_Some in Hi as [Hi _].
          by eapply list_elem_of_lookup_2. }
        split; [done|]. intros Hk. apply list_elem_of_In in He.
        pose proof (List.find_none _ _ Ef e He) as Hn. by apply bool_decide_eq_false in Hn. }
    + exists ops, now, []. split; [done|]. split; [done|constructor].
    + apply stored_snoc; [by apply IH|]. intros Heq. congruence.
  - intros [Ht Hin]%list_elem_of_filter. apply stored_snoc; [by apply IH|done].
  - by intros ?%not_elem_of_nil.
Qed.

(** C12: the cache returns only valid results. In any sequence of operations on a new
    cache, a result that a lookup returns was stored under that key no longer than
    the time to live ago, and since then the cache was not flushed, none of the
    result's tables was invalidated, and no other result was stored under the key. *)
Theorem Get_valid order n t m ops now key r :
  (forall ks, order ks ≡ₚ elements ks) ->
  (Get now (run order (New n t m) ops).2 key).1 = Some r ->
  exists pre t0 tables post, ops = pre ++ (t0, OpSet key r tables) :: post /\ now <= t0 + t /\
    Forall (fun no => leaves_valid (New n t m) key tables no.2) post.
Proof.
  intros Horder. destruct (run_spec order (New n t m) (New n t m) ops Horder (wf_New n t m) ltac:(done)) as (_ & Hwf & Hv).
  destruct (Get_spec now _ key Hwf) as (-> & _). unfold spec_get.
  destruct (find_key key _) as [e|] eqn:Ef; [|done]. destruct (e_expiresAt e <? now) eqn:Ex; [done|]. intros [= <-].
  apply find_key_Some in Ef as [Hin <-]; [|by apply view_keys_NoDup]. rewrite Hv in Hin.
  apply spec_run_stored in Hin as (pre & t0 & post & -> & Hx & Hall). apply Z.ltb_ge in Ex. rewrite Hx in Ex.
  exists pre, t0, (e_tables e), post. done.
Qed.

(** what is stored is found. A result that is not too large, looked up under its
    key within the time to live of storing it, is returned. *)
Theorem Get_Set order n t m ops now key r tables now' :
  (forall ks, order ks ≡ₚ elements ks) ->
  (m <= 0 \/ Z.of_nat (length r) <= m) -> now' <= now + t ->
  (Get now' (Set_ now (run order (New n t m) ops).2 key r tables) key).1 = Some r.
Proof.
  intros Horder Hsize Hnow. destruct (run_spec order (New n t m) (New n t m) ops Horder (wf_New n t m) ltac:(done)) as (_ & Hwf & _).
  assert (same_limits (New n t m) (run order (New n t m) ops).2) as (Ht & Hm & Hs).
  { assert (forall c, wf c -> same_limits (New n t m) c -> same_limits (New n t m) (run order c ops).2) as Hgen; [|by apply Hgen; [apply wf_New|]].
    clear -Horder. induction ops as [|[nw o] ops IH]; intros c Hwf Hl; [done|]. cbn [run].
    destruct (exec_spec order nw o c Horder Hwf) as (Hwf1 & Hl1 & _). destruct (exec order nw o c) as [a c1]. cbn [snd] in *.
    specialize (IH c1 Hwf1). destruct (run order c1 ops). apply IH. destruct Hl as (? & ? & ?), Hl1 as (? & ? & ?). split_and!; congruence. }
  set (c := (run order (New n t m) ops).2) in *. destruct (Set_spec now c key r tables Hwf) as (Hwf1 & Hv & _).
  destruct (Get_spec now' _ key Hwf1) as (-> & _). rewrite Hv. unfold spec_set, spec_get.
  assert (too_large c r = false) as ->.
  { unfold too_large. rewrite Hs. cbn [New maxSize]. destruct Hsize; [rewrite (proj2 (Z.ltb_ge 0 m)) by done; done|].
    rewrite (proj2 (Z.ltb_ge m _)) by done. apply andb_false_r. }
  assert (forall es, find_key key (new_entry now c key r tables :: es) = Some (new_entry now c key r tables)) as Hfind.
  { intros es. unfold find_key. cbn [List.find]. by rewrite bool_decide_eq_true_2. }
  destruct (find_key key (view c)); rewrite Hfind; cbn [new_entry e_expiresAt e_result]; rewrite Ht; cbn [New ttl];
    rewrite (proj2 (Z.ltb_ge _ _)) by lia; done.
Qed.

(** ** Invalidation between instances *)

Lemma invalidate_all_spec order c tables :
  (forall ks, order ks ≡ₚ elements ks) -> wf c -> Forall (fun t => t <> [] /\ TrimSpace t = t) tables ->
  let c' := fold_left (fun c table => match TrimSpace table with [] => c | _ => InvalidateTable order c (TrimSpace table) end) tables c in
  wf c' /\ view c' = filter (fun e => Forall (fun t => t ∉ e_tables e) tables) (view c).
Proof.
  intros Horder Hwf Hall. cbv zeta. revert c Hwf. induction Hall as [|t ts (Ht & Htrim) Hall IH]; intros c Hwf; cbn [fold_left].
  { split; [done|]. symmetry. apply filter_all. intros; constructor. }
  rewrite Htrim. replace (match t with [] => c | _ => InvalidateTable order c t end) with (InvalidateTable order c t) by by destruct t.
  destruct (InvalidateTable_spec order c t Horder Hwf) as (Hwf1 & Hv1 & _). destruct (IH _ Hwf1) as [? Hv2]. split; [done|].
  rewrite Hv2, Hv1. unfold spec_invalidate. rewrite list_filter_filter. apply filter_ext_elem. intros e _. rewrite list.Forall_cons. tauto.
Qed.

(** an invalidation reaches the other instances. What an instance publishes for
    a list of tables makes a subscriber drop exactly its entries of those tables,
    for table names that survive the message format (no comma, no surrounding
    space, and not the lone name that means everything). *)
Theorem handleMessage_publish order c tables :
  (forall ks, order ks ≡ₚ elements ks) -> wf c ->
  tables <> [] -> tables <> [$"*"] -> Forall (fun t => t <> [] /\ (","%byte ∉ t) /\ TrimSpace t = t) tables ->
  wf (handleMessage order c (publish_payload tables)) /\
  view (handleMessage order c (publish_payload tables)) =
    filter (fun e => Forall (fun t => t ∉ e_tables e) tables) (view c) /\
  view (handleMessage order c flush_payload) = [].
Proof.
  intros Horder Hwf Hne Hstar Hall.
  assert (Split1 (publish_payload tables) "," = tables) as Hsplit.
  { apply (Split1_Join tables ","); [done|]. eapply Forall_impl; [|exact Hall]. cbn. tauto. }
  unfold handleMessage at 1 2. rewrite bool_decide_eq_false_2, Hsplit.
  - destruct (invalidate_all_spec order c tables Horder Hwf) as [H1 H2]; [|done]. eapply Forall_impl; [|exact Hall]. cbn. tauto.
  - intros E. rewrite E in Hsplit. by vm_compute in Hsplit.
Qed.

(** ** Examples *)

Definition small_cache : Cache := New 2 (10 * Second) 100.

Definition keys_in_order (ks : gset Z) : list Z := elements ks.

Definition example_ops : list (Time * op) :=
  [(1 * Second, OpSet 1 $"r1" [$"users"]); (2 * Second, OpSet 2 $"r2" [$"orders"; $"users"]); (3 * Second, OpGet 1);
   (4 * Second, OpSet 3 $"r3" [$"orders"]); (5 * Second, OpInvalidate $"orders"); (6 * Second, OpGet 1)].

Lemma Cache_refines_witness :
  (run keys_in_order small_cache example_ops).1 = [None; None; Some $"r1"; None; None; Some $"r1"].
Proof.
  destruct (Cache_refines keys_in_order 2 (10 * Second) 100 example_ops) as (H & _); [done|].
  etransitivity; [exact H|]. by vm_compute.
Defined.

Lemma Get_valid_witness :
  exists pre t0 tables post, example_ops = pre ++ (t0, OpSet 1 $"r1" tables) :: post /\ 7 * Second <= t0 + 10 * Second /\
    Forall (fun no => leaves_valid small_cache 1 tables no.2) post.
Proof.
  apply (Get_valid keys_in_order 2 (10 * Second) 100 example_ops (7 * Second) 1 $"r1"); [done|]. by vm_compute.
Defined.

Lemma Get_Set_witness :
  (Get (8 * Second) (Set_ (7 * Second) (run keys_in_order small_cache example_ops).2 9 $"r9" [$"t"]) 9).1 = Some $"r9".
Proof.
  apply (Get_Set keys_in_order 2 (10 * Second) 100 example_ops (7 * Second) 9 $"r9" [$"t"] (8 * Second)); [done|by right|done].
Defined.

Lemma handleMessage_publish_witness :
  view (handleMessage keys_in_order (Set_ 0 small_cache 1 $"r1" [$"users"]) (publish_payload [$"orders"; $"users"])) = [].
Proof.
  destruct (handleMessage_publish keys_in_order (Set_ 0 small_cache 1 $"r1" [$"users"]) [$"orders"; $"users"]) as (_ & H & _).
  - done.
  - apply Set_spec, wf_New.
  - done.
  - done.
  - repeat constructor; try done; apply (bool_decide_unpack _); by vm_compute.
  - rewrite H. by vm_compute.
Defined.

(** Two keys in two namespaces can be the same key. *)
Example namespaces_collide :
  exists k k', k <> k' /\ WithNamespace k NSProxyWire = WithNamespace k' NSDataAPI.
Proof. exists NSDataAPI, 0. by vm_compute. Qed.
