(* ===== verification/Pool.v ===== *)
(** * Connection pool (internal/pool/pool.go)

    The pool is shared by goroutines. Each critical section of the source, from
    taking the lock to giving it up, is a function on the state of the pool; a step
    relation interleaves the critical sections, the dials between them, the signals
    on the wait channel and the waits of any number of goroutines. *)

From S2P Require Import Prelude.

Open Scope Z_scope.

(** Pools are shared objects: groups and sessions hold their locations. *)
Abbreviation pool_loc := nat.

(** [conn_id] is the identity of the network connection. *)
Record Conn := { conn_id : nat; CreatedAt : Time; LastUsedAt : Time; BackendPID : Z; BackendSecret : Z }.

Record Config := {
  MinConnections : Z;
  MaxConnections : Z;
  IdleTimeout : Duration;
  MaxLifetime : Duration;
  ConnectionTimeout : Duration
}.

Record Pool := {
  cfg : Config;
  idle : list Conn;
  numOpen : Z;
  waitCh : Z;              (* signals in the buffered channel *)
  closed : bool
}.

Definition New (cfg : Config) : Pool := {| cfg := cfg; idle := []; numOpen := 0; waitCh := 0; closed := false |}.

Definition Conn_expired (now : Time) (maxLifetime : Duration) (c : Conn) : bool :=
  if maxLifetime <=? 0 then false else maxLifetime <? Since now (CreatedAt c).

Definition Conn_idle (now : Time) (idleTimeout : Duration) (c : Conn) : bool :=
  if idleTimeout <=? 0 then false else idleTimeout <? Since now (LastUsedAt c).

Definition stale (now : Time) (cfg : Config) (c : Conn) : bool :=
  Conn_expired now (MaxLifetime cfg) c || Conn_idle now (IdleTimeout cfg) c.

Definition with_idle (p : Pool) (l : list Conn) (n : Z) : Pool :=
  {| cfg := cfg p; idle := l; numOpen := n; waitCh := waitCh p; closed := closed p |}.

Definition touch (now : Time) (c : Conn) : Conn :=
  {| conn_id := conn_id c; CreatedAt := CreatedAt c; LastUsedAt := now; BackendPID := BackendPID c; BackendSecret := BackendSecret c |}.

(** [newConn] after a successful dial. *)
Definition newConn (now : Time) (id : nat) (pid secret : Z) : Conn :=
  {| conn_id := id; CreatedAt := now; LastUsedAt := now; BackendPID := pid; BackendSecret := secret |}.

(** A non-blocking send to the channel, whose capacity is [MaxConnections]. *)
Definition signal (p : Pool) : Pool :=
  {| cfg := cfg p; idle := idle p; numOpen := numOpen p;
     waitCh := if waitCh p <? MaxConnections (cfg p) then waitCh p + 1 else waitCh p; closed := closed p |}.

(** ** Critical sections *)

(** The idle connections from the last one on: the first that is not stale, the
    ones left below it, and the stale ones that were closed. *)
Fixpoint take_idle (now : Time) (cfg : Config) (stack : list Conn) : option Conn * list Conn * list Conn :=
  match stack with
  | [] => (None, [], [])
  | c :: rest =>
      if stale now cfg c then
        let '(r, left_, dead) := take_idle now cfg rest in (r, left_, c :: dead)
      else (Some c, rest, [])
  end.

Inductive AcqResult := AcqClosed | AcqConn (c : Conn) | AcqDial | AcqWait.

(** [Acquire] up to the return, the dial or the wait; the connections it closed. *)
Definition Acquire_locked (now : Time) (p : Pool) : AcqResult * Pool * list Conn :=
  if closed p then (AcqClosed, p, [])
  else
    let '(r, stack, dead) := take_idle now (cfg p) (List.rev (idle p)) in
    let p := with_idle p (List.rev stack) (numOpen p - Z.of_nat (length dead)) in
    match r with
    | Some c => (AcqConn (touch now c), p, dead)
    | None =>
        if numOpen p <? MaxConnections (cfg p) then (AcqDial, with_idle p (idle p) (numOpen p + 1), dead)
        else (AcqWait, p, dead)
    end.

(** [Acquire] after its dial: [true] when the pool was closed meanwhile and the new
    connection is closed. *)
Definition Acquire_dialed (p : Pool) : bool * Pool :=
  if closed p then (true, with_idle p (idle p) (numOpen p - 1)) else (false, p).

(** A dial that failed gives its slot back. *)
Definition dial_failed (p : Pool) : Pool := with_idle p (idle p) (numOpen p - 1).

(** [Release]: [true] when the connection is closed. *)
Definition Release (now : Time) (p : Pool) (conn : Conn) : bool * Pool :=
  if closed p then (true, with_idle p (idle p) (if 0 <? numOpen p then numOpen p - 1 else numOpen p))
  else (false, signal (with_idle p (idle p ++ [touch now conn]) (numOpen p))).

(** The critical section of [Discard]; the signal follows outside it. *)
Definition Discard_locked (p : Pool) : Pool := with_idle p (idle p) (if 0 <? numOpen p then numOpen p - 1 else numOpen p).

(** [Close] and the connections it closed. *)
Definition Close (p : Pool) : Pool * list Conn :=
  if closed p then (p, [])
  else
    ({| cfg := cfg p; idle := []; numOpen := numOpen p - Z.of_nat (length (idle p)); waitCh := waitCh p; closed := true |}, idle p).

Definition Stats (p : Pool) : Z * nat := (numOpen p, length (idle p)).

(** The loop test of the replenishing: [true] when a slot was reserved for a dial. *)
Definition reserve_min (p : Pool) : bool * Pool :=
  if numOpen p <? MinConnections (cfg p) then (true, with_idle p (idle p) (numOpen p + 1)) else (false, p).

(** [healthCheck] up to its first dial: the connections it closed, and whether it dials. *)
Definition healthCheck_locked (now : Time) (p : Pool) : bool * Pool * list Conn :=
  if closed p then (false, p, [])
  else
    let dead := filter (fun c => stale now (cfg p) c = true) (idle p) in
    let alive := filter (fun c => stale now (cfg p) c = false) (idle p) in
    let '(dials, p) := reserve_min (with_idle p alive (numOpen p - Z.of_nat (length dead))) in
    (dials, p, dead).

(** After a dial of the health check: [closed] when the pool was closed meanwhile,
    and whether it dials again. *)
Definition healthCheck_dialed (p : Pool) (conn : Conn) : bool * bool * Pool :=
  if closed p then (true, false, with_idle p (idle p) (numOpen p - 1))
  else let '(dials, p) := reserve_min (with_idle p (idle p ++ [conn]) (numOpen p)) in (false, dials, p).

(** [Warm]: one round reserves a slot, unless the pool is closed or has enough. *)
Definition Warm_locked (p : Pool) : bool * Pool :=
  if closed p || (MinConnections (cfg p) <=? numOpen p) then (false, p) else (true, with_idle p (idle p) (numOpen p + 1)).

Definition Warm_dialed (p : Pool) (conn : Conn) : bool * Pool :=
  if closed p then (true, with_idle p (idle p) (numOpen p - 1)) else (false, with_idle p (idle p ++ [conn]) (numOpen p)).

(** ** All goroutines *)

(** Next to the pool: the connections that callers hold, the dials in flight and
    dialed connections not yet handed over, for callers and for the background
    goroutines, the waiting callers, discards that still have to signal, and the
    network connections that are open. *)
Record world := {
  pool : Pool;
  borrowed : list Conn;
  dialing : nat;
  dialed : list Conn;
  bg_dialing : nat;
  bg_dialed : list Conn;
  waiting : nat;
  signals : nat;
  net : gset nat;
  next_id : nat
}.

Definition ids (l : list Conn) : list nat := conn_id <$> l.
Definition id_set (l : list Conn) : gset nat := list_to_set (ids l).

Definition start (cfg : Config) : world :=
  {| pool := New cfg; borrowed := []; dialing := 0; dialed := []; bg_dialing := 0; bg_dialed := []; waiting := 0; signals := 0;
     net := ∅; next_id := 0 |}.

(** The world after a critical section that closed the connections [dead]. *)
Definition set_pool (w : world) (p : Pool) (dead : list Conn) : world :=
  {| pool := p; borrowed := borrowed w; dialing := dialing w; dialed := dialed w; bg_dialing := bg_dialing w; bg_dialed := bg_dialed w;
     waiting := waiting w; signals := signals w; net := net w ∖ id_set dead; next_id := next_id w |}.

Definition set_borrowed (w : world) (l : list Conn) : world :=
  {| pool := pool w; borrowed := l; dialing := dialing w; dialed := dialed w; bg_dialing := bg_dialing w; bg_dialed := bg_dialed w;
     waiting := waiting w; signals := signals w; net := net w; next_id := next_id w |}.

Definition set_dials (w : world) (n : nat) (l : list Conn) (bn : nat) (bl : list Conn) : world :=
  {| pool := pool w; borrowed := borrowed w; dialing := n; dialed := l; bg_dialing := bn; bg_dialed := bl;
     waiting := waiting w; signals := signals w; net := net w; next_id := next_id w |}.

Definition set_waiting (w : world) (n s : nat) : world :=
  {| pool := pool w; borrowed := borrowed w; dialing := dialing w; dialed := dialed w; bg_dialing := bg_dialing w; bg_dialed := bg_dialed w;
     waiting := n; signals := s; net := net w; next_id := next_id w |}.

(** A successful dial opens a network connection with a new identity. *)
Definition opened (w : world) : world :=
  {| pool := pool w; borrowed := borrowed w; dialing := dialing w; dialed := dialed w; bg_dialing := bg_dialing w; bg_dialed := bg_dialed w;
     waiting := waiting w; signals := signals w; net := net w ∪ {[next_id w]}; next_id := S (next_id w) |}.

Definition after_acquire (w : world) (r : AcqResult) : world :=
  match r with
  | AcqClosed => w
  | AcqConn c => set_borrowed w (c :: borrowed w)
  | AcqDial => set_dials w (S (dialing w)) (dialed w) (bg_dialing w) (bg_dialed w)
  | AcqWait => set_waiting w (S (waiting w)) (signals w)
  end.

(** A background goroutine that starts a dial. *)
Definition after_reserve (w : world) (dials : bool) : world :=
  if dials then set_dials w (dialing w) (dialed w) (S (bg_dialing w)) (bg_dialed w) else w.

Inductive step : world -> world -> Prop :=
| S_acquire now w r p dead :
    Acquire_locked now (pool w) = (r, p, dead) -> step w (after_acquire (set_pool w p dead) r)
| S_dial_ok now pid secret w n :
    dialing w = S n ->
    step w (set_dials (opened w) n (newConn now (next_id w) pid secret :: dialed w) (bg_dialing w) (bg_dialed w))
| S_dial_err w n :
    dialing w = S n -> step w (set_dials (set_pool w (dial_failed (pool w)) []) n (dialed w) (bg_dialing w) (bg_dialed w))
| S_dialed w c l shut p :
    dialed w ≡ₚ c :: l -> Acquire_dialed (pool w) = (shut, p) ->
    step w (let w := set_dials (set_pool w p (if shut then [c] else [])) (dialing w) l (bg_dialing w) (bg_dialed w) in
            if shut then w else set_borrowed w (c :: borrowed w))
| S_wake w n :
    waiting w = S n -> 0 < waitCh (pool w) ->
    step w (set_waiting (set_pool w {| cfg := cfg (pool w); idle := idle (pool w); numOpen := numOpen (pool w);
                                       waitCh := waitCh (pool w) - 1; closed := closed (pool w) |} []) n (signals w))
| S_give_up w n :            (* timeout or cancelled context *)
    waiting w = S n -> step w (set_waiting w n (signals w))
| S_release now w c l shut p :
    borrowed w ≡ₚ c :: l -> Release now (pool w) c = (shut, p) ->
    step w (set_borrowed (set_pool w p (if shut then [c] else [])) l)
| S_discard w c l :
    borrowed w ≡ₚ c :: l ->
    step w (set_waiting (set_borrowed (set_pool w (Discard_locked (pool w)) [c]) l) (waiting w) (S (signals w)))
| S_signal w n :
    signals w = S n -> step w (set_waiting (set_pool w (signal (pool w)) []) (waiting w) n)
| S_close w p dead :
    Close (pool w) = (p, dead) -> step w (set_pool w p dead)
| S_health now w dials p dead :
    healthCheck_locked now (pool w) = (dials, p, dead) -> step w (after_reserve (set_pool w p dead) dials)
| S_warm w dials p :
    Warm_locked (pool w) = (dials, p) -> step w (after_reserve (set_pool w p []) dials)
| S_bg_ok now pid secret w n :
    bg_dialing w = S n ->
    step w (set_dials (opened w) (dialing w) (dialed w) n (newConn now (next_id w) pid secret :: bg_dialed w))
| S_bg_err w n :
    bg_dialing w = S n -> step w (set_dials (set_pool w (dial_failed (pool w)) []) (dialing w) (dialed w) n (bg_dialed w))
| S_health_dialed w c l shut dials p :
    bg_dialed w ≡ₚ c :: l -> healthCheck_dialed (pool w) c = (shut, dials, p) ->
    step w (after_reserve (set_dials (set_pool w p (if shut then [c] else [])) (dialing w) (dialed w) (bg_dialing w) l) dials)
| S_warm_dialed w c l shut p :
    bg_dialed w ≡ₚ c :: l -> Warm_dialed (pool w) c = (shut, p) ->
    step w (set_dials (set_pool w p (if shut then [c] else [])) (dialing w) (dialed w) (bg_dialing w) l).

Definition reachable (cfg : Config) : world -> Prop := rtc step (start cfg).

(** ** Invariant *)

(** Every connection that is somewhere in the program. *)
Definition conns (w : world) : list Conn := idle (pool w) ++ borrowed w ++ dialed w ++ bg_dialed w.

(** How often an identity occurs. *)
Definition cnt (i : nat) (l : list Conn) : nat := length (filter (fun c => conn_id c = i) l).

(** The open network connections are those in [l], each once. *)
Definition tracked (w : world) (l : list Conn) : Prop :=
  forall i, (cnt i l <= 1)%nat /\ (i ∈ net w <-> cnt i l = 1%nat) /\ ((next_id w <= i)%nat -> cnt i l = 0%nat).

Record inv (c : Config) (w : world) : Prop := {
  inv_cfg : cfg (pool w) = c;
  inv_count : numOpen (pool w) = Z.of_nat (length (conns w) + dialing w + bg_dialing w);
  inv_max : numOpen (pool w) <= MaxConnections c;
  inv_closed : closed (pool w) = true -> idle (pool w) = [];
  inv_wait : 0 <= waitCh (pool w) <= MaxConnections c;
  inv_tracked : tracked w (conns w)
}.

Lemma cnt_app i l l' : cnt i (l ++ l') = (cnt i l + cnt i l')%nat.
Proof. unfold cnt. by rewrite list.filter_app, length_app. Qed.

Lemma cnt_cons i c l : cnt i (c :: l) = ((if decide (conn_id c = i) then 1 else 0) + cnt i l)%nat.
Proof. unfold cnt. rewrite filter_cons. by destruct (decide (conn_id c = i)). Qed.

Lemma cnt_nil i : cnt i [] = 0%nat.
Proof. done. Qed.

Lemma cnt_perm i l l' : l ≡ₚ l' -> cnt i l = cnt i l'.
Proof. intros H. unfold cnt. by rewrite H. Qed.

Lemma cnt_rev i l : cnt i (List.rev l) = cnt i l.
Proof. apply cnt_perm. symmetry. apply Permutation_rev. Qed.

Lemma elem_of_cnt i l : i ∈ id_set l <-> (0 < cnt i l)%nat.
Proof.
  unfold id_set, ids. rewrite elem_of_list_to_set. induction l as [|c l IH]; [split; [by intros ?%not_elem_of_nil|unfold cnt; cbn; lia]|].
  rewrite fmap_cons, elem_of_cons, cnt_cons, IH. destruct (decide (conn_id c = i)); [split; [lia|by left]|].
  split; [intros [?|?]; [congruence|lia]|right; lia].
Qed.

Lemma tracked_ext w l l' : (forall i, cnt i l = cnt i l') -> tracked w l -> tracked w l'.
Proof. intros Hc Ht i. rewrite <- Hc. apply Ht. Qed.

Lemma tracked_remove w p dead l l' :
  (forall i, cnt i l = cnt i dead + cnt i l')%nat -> tracked w l -> tracked (set_pool w p dead) l'.
Proof.
  intros Hc Ht i. destruct (Ht i) as (H1 & H2 & H3). rewrite Hc in *. cbn [set_pool net next_id].
  rewrite elem_of_difference, elem_of_cnt. split_and!; [lia| |lia]. rewrite H2. lia.
Qed.

Lemma tracked_open w l c l' :
  conn_id c = next_id w -> (forall i, cnt i l' = (if decide (conn_id c = i) then 1 else 0) + cnt i l)%nat ->
  tracked w l -> tracked (opened w) l'.
Proof.
  intros Hid Hc Ht i. destruct (Ht i) as (H1 & H2 & H3). rewrite Hc, Hid. cbn [opened net next_id].
  rewrite elem_of_union, elem_of_singleton. destruct (decide (next_id w = i)) as [<-|Hne].
  - specialize (H3 (le_n _)). split_and!; [lia| |lia]. split; [lia|]. intros _. by right.
  - split_and!; [lia| |lia]. rewrite <- H2. split; [intros [?|?]; [done|congruence]|by left].
Qed.

(** ** Critical sections and the invariant *)

Lemma take_idle_spec now cf stack r rest dead :
  take_idle now cf stack = (r, rest, dead) ->
  match r with
  | Some c => stack = dead ++ c :: rest /\ stale now cf c = false
  | None => stack = dead /\ rest = []
  end.
Proof.
  revert r rest dead. induction stack as [|c stack IH]; intros r rest dead E; cbn [take_idle] in E; [by simplify_eq|].
  destruct (stale now cf c) eqn:Es; [|by simplify_eq]. destruct (take_idle now cf stack) as [[r' rest'] dead']. simplify_eq.
  specialize (IH _ _ _ eq_refl). destruct r; destruct IH as [-> ?]; done.
Qed.

(** What each critical section does to the counts: [kept] is what it hands out. *)
Definition moved (p p' : Pool) (dead kept : list Conn) (slots : Z) : Prop :=
  cfg p' = cfg p /\ waitCh p' = waitCh p /\ closed p' = closed p /\
  (forall i, cnt i (idle p) = cnt i dead + cnt i (idle p') + cnt i kept)%nat /\
  length (idle p) = (length dead + length (idle p') + length kept)%nat /\
  numOpen p' = numOpen p - Z.of_nat (length dead) + slots.

Lemma moved_same p : moved p p [] [] 0.
Proof. split_and!; try done; intros; cbn; rewrite ?cnt_nil; lia. Qed.

Lemma Acquire_locked_spec now p r p' dead :
  Acquire_locked now p = (r, p', dead) ->
  match r with
  | AcqClosed => p' = p /\ dead = []
  | AcqConn c => closed p = false /\ moved p p' dead [c] 0 /\
      exists c0, c0 ∈ idle p /\ c = touch now c0 /\ stale now (cfg p) c0 = false
  | AcqDial => closed p = false /\ moved p p' dead [] 1 /\ numOpen p' <= MaxConnections (cfg p)
  | AcqWait => closed p = false /\ moved p p' dead [] 0 /\ MaxConnections (cfg p) <= numOpen p'
  end.
Proof.
  unfold Acquire_locked. destruct (closed p) eqn:Ec; [intros; by simplify_eq|].
  destruct (take_idle now (cfg p) (List.rev (idle p))) as [[o rest] dead'] eqn:Et. apply take_idle_spec in Et. intros E.
  assert (forall i, cnt i (idle p) = cnt i (List.rev (idle p))) as Hrev by (intros i; by rewrite cnt_rev).
  assert (length (idle p) = length (List.rev (idle p))) as Hlen by by rewrite List.length_rev.
  destruct o as [c|].
  - destruct Et as [Hs Hst]. simplify_eq. split; [done|]. split; [|exists c; split_and!; [|done..]].
    + split_and!; cbn [with_idle cfg waitCh closed idle numOpen]; try done; try lia.
      * intros i. rewrite Hrev, Hs, cnt_app, !cnt_cons, cnt_rev, cnt_nil. cbn [touch conn_id]. lia.
      * rewrite Hlen, Hs, length_app, List.length_rev. cbn. lia.
    + apply list_elem_of_In, in_rev, list_elem_of_In. rewrite Hs. set_solver.
  - destruct Et as [Hs ->]. cbn [with_idle idle numOpen cfg List.rev] in E.
    destruct (numOpen p - Z.of_nat (length dead') <? MaxConnections (cfg p)) eqn:Elt; simplify_eq;
      [apply Z.ltb_lt in Elt|apply Z.ltb_ge in Elt]; (split; [done|]); (split; [|cbn; lia]);
      split_and!; cbn [with_idle cfg waitCh closed idle numOpen List.rev];
      first [done | lia | intros i; rewrite <- Hrev, !cnt_nil; lia | rewrite <- Hlen; cbn; lia].
Qed.

Lemma reserve_min_spec p dials p' :
  reserve_min p = (dials, p') ->
  idle p' = idle p /\ cfg p' = cfg p /\ waitCh p' = waitCh p /\ closed p' = closed p /\
  (if dials then numOpen p' = numOpen p + 1 /\ numOpen p' <= MinConnections (cfg p) else p' = p).
Proof.
  unfold reserve_min. destruct (numOpen p <? MinConnections (cfg p)) eqn:E; intros; simplify_eq; [|done].
  apply Z.ltb_lt in E. cbn. split_and!; done || lia.
Qed.

Lemma cnt_partition i (P : Conn -> bool) l :
  (cnt i l = cnt i (filter (fun c => P c = true) l) + cnt i (filter (fun c => P c = false) l))%nat /\
  (length l = length (filter (fun c => P c = true) l) + length (filter (fun c => P c = false) l))%nat.
Proof.
  induction l as [|c l [IH1 IH2]]; [done|]. rewrite !filter_cons, cnt_cons.
  destruct (P c); [rewrite (decide_True (P := true = true)), (decide_False (P := true = false)) by done
                  |rewrite (decide_False (P := false = true)), (decide_True (P := false = false)) by done];
    rewrite cnt_cons; cbn [length]; lia.
Qed.

Lemma healthCheck_locked_spec now p dials p' dead :
  healthCheck_locked now p = (dials, p', dead) ->
  (closed p = true /\ p' = p /\ dials = false /\ dead = []) \/
  (closed p = false /\ moved p p' dead [] (if dials then 1 else 0) /\ (dials = true -> numOpen p' <= MinConnections (cfg p))).
Proof.
  unfold healthCheck_locked. destruct (closed p) eqn:Ec; [intros; simplify_eq; by left|]. intros E. right. split; [done|].
  destruct (reserve_min _) as [d p1] eqn:Er. apply reserve_min_spec in Er as (Hi & Hc & Hw & Hcl & Hn). simplify_eq.
  assert (forall i, cnt i (idle p) = cnt i (filter (fun c => stale now (cfg p) c = true) (idle p)) +
            cnt i (filter (fun c => stale now (cfg p) c = false) (idle p)))%nat as Hcnt by (intros i; apply cnt_partition).
  destruct (cnt_partition 0 (stale now (cfg p)) (idle p)) as [_ Hlen].
  cbn [with_idle cfg waitCh closed idle numOpen] in *. unfold moved. rewrite Hi, Hc, Hw, Hcl.
  destruct dials; [destruct Hn as [Hn Hle]|subst p'; cbn [with_idle numOpen]]; (split; [split_and!|]); try done; try lia;
    try (intros i; rewrite Hcnt, cnt_nil; lia); cbn [length]; lia.
Qed.

(** ** Every interleaving *)

Definition config_ok (c : Config) : Prop := 0 <= MinConnections c <= MaxConnections c /\ 1 <= MaxConnections c.

Ltac proj :=
  cbn [set_borrowed set_pool set_dials set_waiting opened after_acquire after_reserve pool borrowed dialing dialed bg_dialing bg_dialed
       waiting signals net next_id with_idle signal dial_failed cfg idle numOpen waitCh closed] in *.

(** Arithmetic on the counts of all the places a connection can be. *)
Ltac count :=
  intros; unfold conns in *; proj; rewrite ?cnt_app, ?cnt_cons, ?cnt_nil, ?length_app in *;
  repeat match goal with
  | H : ?l ≡ₚ _ |- context [cnt ?i ?l] => rewrite (cnt_perm i _ _ H)
  | H : ?l ≡ₚ _ |- context [length ?l] => rewrite (Permutation_length H)
  | H : ?l ≡ₚ _, H' : context [length ?l] |- _ => rewrite (Permutation_length H) in H'
  end;
  repeat rewrite ?cnt_app, ?cnt_cons, ?cnt_nil, ?length_app in *; cbn [length touch conn_id newConn] in *; lia.

Lemma start_inv c : config_ok c -> inv c (start c).
Proof. intros [? ?]. split; cbn; try done; try lia. intros i. cbn. set_solver. Qed.

(** A critical section that moves connections out of the idle ones, hands [kept] to
    a caller and takes [slots] new slots for dials. *)
Lemma moved_inv c w p dead kept slots w' :
  config_ok c -> inv c w -> moved (pool w) p dead kept (Z.of_nat slots) -> closed (pool w) = false ->
  pool w' = p -> net w' = net w ∖ id_set dead -> next_id w' = next_id w ->
  borrowed w' = kept ++ borrowed w -> dialed w' = dialed w -> bg_dialed w' = bg_dialed w ->
  (dialing w' + bg_dialing w' = dialing w + bg_dialing w + slots)%nat -> numOpen p <= MaxConnections c ->
  inv c w'.
Proof.
  intros Hok [Hcfg Hcount Hmax Hclosed Hwait Htr] (Hc & Hw & Hcl & Hcnt & Hlen & Hn) Ho <- Hnet Hnext Hb Hd Hbd Hdials Hle.
  split; try congruence.
  - unfold conns in *. rewrite Hb, Hd, Hbd. count.
  - pose proof (tracked_remove w (pool w') dead (conns w) (conns w')) as Ht. unfold tracked in *. rewrite Hnet, Hnext. apply Ht; [|done].
    intros i. specialize (Hcnt i). unfold conns. rewrite Hb, Hd, Hbd. count.
Qed.

Lemma acquire_inv c now w r p dead :
  config_ok c -> inv c w -> Acquire_locked now (pool w) = (r, p, dead) -> inv c (after_acquire (set_pool w p dead) r).
Proof.
  intros Hok Hi E. pose proof (Acquire_locked_spec _ _ _ _ _ E) as Hs. pose proof (inv_max _ _ Hi) as Hmax. pose proof (inv_cfg _ _ Hi) as Hcfg.
  destruct r as [|cn| |].
  - destruct Hs as [-> ->]. destruct Hi as [? ? ? ? ? Ht]. split; try done. eapply tracked_remove; [|exact Ht]. count.
  - destruct Hs as (Ho & Hm & _). assert (numOpen p <= MaxConnections c) by (destruct Hm as (_ & _ & _ & _ & _ & ->); lia).
    eapply (moved_inv c w p dead [cn] 0); try done; proj; lia.
  - destruct Hs as (Ho & Hm & Hle). rewrite Hcfg in Hle. eapply (moved_inv c w p dead [] 1); try done; proj; lia.
  - destruct Hs as (Ho & Hm & _). assert (numOpen p <= MaxConnections c) by (destruct Hm as (_ & _ & _ & _ & _ & ->); lia).
    eapply (moved_inv c w p dead [] 0); try done; proj; lia.
Qed.

Lemma health_inv c now w dials p dead :
  config_ok c -> inv c w -> healthCheck_locked now (pool w) = (dials, p, dead) -> inv c (after_reserve (set_pool w p dead) dials).
Proof.
  intros Hok Hi E. pose proof (inv_max _ _ Hi) as Hmax. pose proof (inv_cfg _ _ Hi) as Hcfg.
  destruct (healthCheck_locked_spec _ _ _ _ _ E) as [(Ho & -> & -> & ->)|(Ho & Hm & Hle)].
  - destruct Hi as [? ? ? ? ? Ht]. split; try done. eapply tracked_remove; [|exact Ht]. count.
  - destruct dials.
    + specialize (Hle eq_refl). rewrite Hcfg in Hle. pose proof Hok as [? ?]. eapply (moved_inv c w p dead [] 1); try done; proj; lia.
    + assert (numOpen p <= MaxConnections c) by (destruct Hm as (_ & _ & _ & _ & _ & ->); lia).
      eapply (moved_inv c w p dead [] 0); try done; proj; lia.
Qed.

(** A connection that leaves a caller or a dial and is closed or becomes idle. *)
Lemma settle_inv c w w' cn (shut : bool) :
  inv c w ->
  cfg (pool w') = cfg (pool w) -> 0 <= waitCh (pool w') <= MaxConnections c -> closed (pool w') = closed (pool w) ->
  (closed (pool w) = true -> shut = true) ->
  idle (pool w') = (if shut then idle (pool w) else idle (pool w) ++ [cn]) ->
  numOpen (pool w') = (if shut then numOpen (pool w) - 1 else numOpen (pool w)) ->
  net w' = net w ∖ id_set (if shut then [cn] else []) -> next_id w' = next_id w ->
  (forall i, cnt i (borrowed w ++ dialed w ++ bg_dialed w) = cnt i (cn :: borrowed w' ++ dialed w' ++ bg_dialed w')) ->
  length (borrowed w ++ dialed w ++ bg_dialed w) = S (length (borrowed w' ++ dialed w' ++ bg_dialed w')) ->
  dialing w' = dialing w -> bg_dialing w' = bg_dialing w -> inv c w'.
Proof.
  intros [Hcfg Hcount Hmax Hclosed Hwait Htr] Hc Hw Hcl Hshut Hidle Hn Hnet Hnext Hcnt Hlen Hd Hbd. split; try congruence.
  - unfold conns in *. rewrite Hn, Hidle, Hcount, Hd, Hbd. destruct shut; count.
  - rewrite Hn. destruct shut; lia.
  - intros Hcl'. rewrite Hidle. rewrite Hcl in Hcl'. rewrite (Hshut Hcl'). auto.
  - pose proof (tracked_remove w (pool w') (if shut then [cn] else []) (conns w) (conns w')) as Ht. unfold tracked in *.
    rewrite Hnet, Hnext. apply Ht; [|done]. intros i. specialize (Hcnt i). unfold conns. rewrite Hidle. destruct shut; count.
Qed.

(** A dial that fails, or whose slot is given back, and a dial that succeeds. *)
Lemma dial_err_inv c w w' :
  inv c w -> pool w' = dial_failed (pool w) -> net w' = net w ∖ id_set [] -> next_id w' = next_id w -> borrowed w' = borrowed w ->
  dialed w' = dialed w -> bg_dialed w' = bg_dialed w -> (dialing w + bg_dialing w = S (dialing w' + bg_dialing w'))%nat -> inv c w'.
Proof.
  intros [Hcfg Hcount Hmax Hclosed Hwait Htr] Hp Hnet Hnext Hb Hd Hbd Hdials. split; rewrite ?Hp; proj; try done; try lia.
  - unfold conns in *. rewrite Hp, Hb, Hd, Hbd. count.
  - pose proof (tracked_remove w (pool w') [] (conns w) (conns w')) as Ht. unfold tracked in *.
    rewrite Hnet, Hnext. apply Ht; [|done]. intros i. unfold conns. rewrite Hp, Hb, Hd, Hbd. count.
Qed.

Lemma dial_ok_inv c w w' cn :
  inv c w -> pool w' = pool w -> net w' = net (opened w) -> next_id w' = next_id (opened w) -> conn_id cn = next_id w ->
  borrowed w' = borrowed w ->
  (forall i, cnt i (dialed w' ++ bg_dialed w') = cnt i (cn :: dialed w ++ bg_dialed w)) ->
  length (dialed w' ++ bg_dialed w') = S (length (dialed w ++ bg_dialed w)) ->
  (dialing w + bg_dialing w = S (dialing w' + bg_dialing w'))%nat -> inv c w'.
Proof.
  intros [Hcfg Hcount Hmax Hclosed Hwait Htr] Hp Hnet Hnext Hid Hb Hcnt Hlen Hdials. split; rewrite ?Hp; try done.
  - unfold conns in *. rewrite Hp, Hb. count.
  - pose proof (tracked_open w (conns w) cn (conns w') Hid) as Ht. unfold tracked in *. rewrite Hnet, Hnext. apply Ht; [|done].
    intros i. specialize (Hcnt i). unfold conns. rewrite Hp, Hb. count.
Qed.

Lemma close_inv c w p dead : inv c w -> Close (pool w) = (p, dead) -> inv c (set_pool w p dead).
Proof.
  intros [Hcfg Hcount Hmax Hclosed Hwait Htr]. unfold Close. destruct (closed (pool w)) eqn:Ec; intros; simplify_eq.
  - split; proj; try done; [by auto|]. eapply tracked_remove; [|exact Htr]. count.
  - split; proj; try done; try lia; [count|]. eapply tracked_remove; [|exact Htr]. count.
Qed.

Lemma signal_inv c w n p :
  inv c w -> p = signal (pool w) \/ (0 < waitCh (pool w) /\ p = {| cfg := cfg (pool w); idle := idle (pool w); numOpen := numOpen (pool w);
                                       waitCh := waitCh (pool w) - 1; closed := closed (pool w) |}) ->
  forall m, inv c (set_waiting (set_pool w p []) n m).
Proof.
  intros [Hcfg Hcount Hmax Hclosed Hwait Htr] Hp m.
  assert (idle p = idle (pool w) /\ numOpen p = numOpen (pool w) /\ cfg p = cfg (pool w) /\ closed p = closed (pool w) /\
          0 <= waitCh p <= MaxConnections c) as (Hi & Hn & Hc & Hcl & Hw).
  { destruct Hp as [->|[Hpos ->]]; proj; [|split_and!; done || lia]. rewrite Hcfg.
    destruct (waitCh (pool w) <? MaxConnections c) eqn:E; [apply Z.ltb_lt in E|]; split_and!; done || lia. }
  split; proj; try congruence; unfold conns in *; proj; rewrite ?Hi, ?Hn; try done.
  - intros Hcl'. apply Hclosed. congruence.
  - eapply (tracked_remove w p []); [|exact Htr]. count.
Qed.

Lemma step_inv cf w w' : config_ok cf -> inv cf w -> step w w' -> inv cf w'.
Proof.
  intros Hok Hi Hst. pose proof Hi as [Hcfg Hcount Hmax Hclosed Hwait Htr].
  destruct Hst as [now w r p dead E|now pid secret w n E|w n E|w cn l shut p E Es|w n E Hpos|w n E|now w cn l shut p E Es|w cn l E|w n E
    |w p dead E|now w dials p dead E|w dials p E|now pid secret w n E|w n E|w cn l shut dials p E Es|w cn l shut p E Es].
  - by eapply acquire_inv.
  - eapply (dial_ok_inv cf w _ (newConn now (next_id w) pid secret)); try done; count.
  - eapply (dial_err_inv cf w); try done; count.
  - unfold Acquire_dialed in Es. destruct (closed (pool w)) eqn:Ec; injection Es as <- <-; cbv zeta.
    + eapply (settle_inv cf w _ cn true); try done; count.
    + split; proj; try done; try congruence; [count|]. eapply (tracked_remove w (pool w) []); [|exact Htr]. count.
  - apply signal_inv; auto.
  - by split.
  - unfold Release in Es. destruct (closed (pool w)) eqn:Ec; injection Es as <- <-.
    + eapply (settle_inv cf w _ cn true); try done; [|count..]. proj. rewrite (proj2 (Z.ltb_lt _ _)); [done|]. count.
    + eapply (settle_inv cf w _ (touch now cn) false); try done; try congruence; try count. proj. rewrite Hcfg. 
      destruct (waitCh (pool w) <? _) eqn:Ew; [apply Z.ltb_lt in Ew|]; lia.
  - eapply (settle_inv cf w _ cn true); try done; [|count..].
    unfold Discard_locked. proj. rewrite (proj2 (Z.ltb_lt _ _)); [done|]. count.
  - apply signal_inv; auto.
  - by eapply close_inv.
  - by eapply health_inv.
  - unfold Warm_locked in E. destruct (closed (pool w) || _) eqn:Eo; injection E as <- <-.
    + split; try done. eapply (tracked_remove w (pool w) []); [|exact Htr]. count.
    + apply orb_false_iff in Eo as [Ec Eo%Z.leb_gt]. rewrite Hcfg in Eo. pose proof Hok as [? ?].
      eapply (moved_inv cf w _ [] [] 1); try done; proj; try lia. split_and!; try done; count.
  - eapply (dial_ok_inv cf w _ (newConn now (next_id w) pid secret)); try done; count.
  - eapply (dial_err_inv cf w); try done; count.
  - unfold healthCheck_dialed in Es. destruct (closed (pool w)) eqn:Ec; [injection Es as <- <- <-|].
    + eapply (settle_inv cf w _ cn true); try done; count.
    + destruct (reserve_min _) as [d p1] eqn:Er. injection Es as <- <- <-.
      apply reserve_min_spec in Er as (Hid & Hc & Hw & Hcl & Hn). proj.
      assert (inv cf (set_dials (set_pool w (with_idle (pool w) (idle (pool w) ++ [cn]) (numOpen (pool w))) []) (dialing w) (dialed w) (bg_dialing w) l)) as Hi'
        by (eapply (settle_inv cf w _ cn false); try done; try congruence; count).
      destruct d; [|subst p1; exact Hi']. destruct Hn as [Hn Hle]. destruct Hok as [? ?].
      rewrite Hcfg in Hle. eapply (moved_inv cf _ p1 [] [] 1 _ ltac:(done) Hi'); try done; proj; try lia; [|unfold id_set; cbn; set_solver].
      split_and!; proj; try congruence; try lia; rewrite ?Hid; count.
  - unfold Warm_dialed in Es. destruct (closed (pool w)) eqn:Ec; injection Es as <- <-.
    + eapply (settle_inv cf w _ cn true); try done; count.
    + eapply (settle_inv cf w _ cn false); try done; try congruence; count.
Qed.

(** C3: the pool under every interleaving. Whatever callers acquire, release and
    discard, however their dials end, and whenever the health check, the warming and
    the closing run in between: at most [MaxConnections] network connections are
    open; every open connection is idle, held by exactly one caller, or about to be
    handed over, so none is shared and none is lost; the counter is the number of
    these plus the dials in flight; and a closed pool keeps no idle connection. *)
Theorem pool_safe c w :
  config_ok c -> reachable c w ->
  (forall i, cnt i (conns w) <= 1)%nat /\ net w = id_set (conns w) /\
  Z.of_nat (size (net w)) <= MaxConnections c /\
  numOpen (pool w) = Z.of_nat (length (conns w) + dialing w + bg_dialing w) /\
  (closed (pool w) = true -> idle (pool w) = []).
Proof.
  intros Hok Hr. assert (inv c w) as [Hcfg Hcount Hmax Hclosed Hwait Htr].
  { pose proof (start_inv c Hok) as Hi. revert Hi. unfold reachable in Hr. induction Hr as [|w1 w2 w3 Hst Hr IH]; [done|].
    intros Hi. apply IH. by eapply step_inv. }
  assert (net w = id_set (conns w)) as Hnet.
  { apply set_eq. intros i. destruct (Htr i) as (H1 & H2 & _). rewrite H2, elem_of_cnt. lia. }
  split_and!; [apply Htr|done| |done|done].
  assert (size (net w) <= length (conns w))%nat; [|lia]. rewrite Hnet. unfold id_set.
  rewrite <- (length_fmap conn_id (conns w)). fold (ids (conns w)). induction (ids (conns w)) as [|i l IH]; [done|].
  cbn [list_to_set length]. rewrite size_union_alt, size_singleton.
  pose proof (subseteq_size (list_to_set l ∖ {[i]} : gset nat) (list_to_set l) ltac:(set_solver)). lia.
Qed.

(** what [Acquire] decides under the lock, on every branch: a closed pool refuses;
    otherwise the caller gets an idle connection that has passed neither its lifetime
    nor its idle timeout, or a slot for a new connection when there is none and the
    limit allows one, and it waits only when [MaxConnections] are in use; idle
    connections that are too old are closed and leave the count. *)
Theorem Acquire_decides now p :
  match Acquire_locked now p with
  | (AcqClosed, p', dead) => closed p = true /\ p' = p /\ dead = []
  | (AcqConn c, p', dead) =>
      closed p = false /\ moved p p' dead [c] 0 /\ exists c0, c0 ∈ idle p /\ c = touch now c0 /\ stale now (cfg p) c0 = false
  | (AcqDial, p', dead) => closed p = false /\ moved p p' dead [] 1 /\ idle p' = [] /\ numOpen p' <= MaxConnections (cfg p)
  | (AcqWait, p', dead) => closed p = false /\ moved p p' dead [] 0 /\ idle p' = [] /\ MaxConnections (cfg p) <= numOpen p'
  end.
Proof.
  destruct (Acquire_locked now p) as [[r p'] dead] eqn:E. pose proof (Acquire_locked_spec _ _ _ _ _ E) as Hs.
  unfold Acquire_locked in E. destruct (closed p) eqn:Ec; [by simplify_eq|].
  destruct (take_idle now (cfg p) (List.rev (idle p))) as [[[c|] rest] dead'] eqn:Et; [by simplify_eq|].
  apply take_idle_spec in Et as [_ ->]. cbn [List.rev] in E. destruct (numOpen _ <? _); simplify_eq; destruct Hs as (? & ? & ?); done.
Qed.

(** ** Examples *)

Definition one_conn : Config :=
  {| MinConnections := 1; MaxConnections := 1; IdleTimeout := Minute; MaxLifetime := 0; ConnectionTimeout := 5 * Second |}.

(** A caller dials and gets the connection. *)
Definition dialed_world : world :=
  let w1 := after_acquire (set_pool (start one_conn) (with_idle (New one_conn) [] 1) []) AcqDial in
  set_dials (opened w1) 0 [newConn Second 0 7 8] 0 [].

Lemma dialed_reachable : reachable one_conn dialed_world.
Proof.
  eapply rtc_l; [by apply (S_acquire Second)|]. eapply rtc_l; [by apply (S_dial_ok Second 7 8 _ 0)|]. apply rtc_refl.
Qed.

Lemma pool_safe_witness : net dialed_world = id_set (conns dialed_world) /\ Z.of_nat (size (net dialed_world)) <= 1.
Proof.
  destruct (pool_safe one_conn dialed_world) as (_ & H1 & H2 & _); [done|apply dialed_reachable|done].
Defined.

(** A failed dial gives its slot back without a signal. A caller that waits for the
    slot is not woken, although the health check has put an idle connection in the
    pool: it waits for its timeout. *)
Example lost_wakeup :
  exists w, reachable one_conn w /\ waiting w = 1%nat /\ waitCh (pool w) = 0 /\ signals w = 0%nat /\
    length (idle (pool w)) = 1%nat /\ borrowed w = [] /\ dialing w = 0%nat /\ bg_dialing w = 0%nat /\ dialed w = [] /\ bg_dialed w = [].
Proof.
  eexists. split.
  - eapply rtc_l; [by apply (S_acquire Second)|]. eapply rtc_l; [by apply (S_acquire Second)|].
    eapply rtc_l; [by apply (S_dial_err _ 0)|]. eapply rtc_l; [by apply (S_health Second)|].
    eapply rtc_l; [by apply (S_bg_ok Second 7 8 _ 0)|]. eapply rtc_l; [by eapply (S_health_dialed _ (newConn Second 0 7 8) [])|].
    apply rtc_refl.
  - by vm_compute.
Qed.
