(* ===== verification/Synth.v ===== *)
(** * Synthesised queries (internal/proxy/synthesizer.go)

    The registry of prepared statements of a session in multiplex mode, and the
    substitution of the parameters' literals for the placeholders of a query. The
    registry's methods hold its mutex: a method is one step on its state. *)

From S2P Require Import Prelude GoStrings GoFloat Wire Literal SqlLex.

Record PreparedStmt := { Query : bytes; ParamOIDs : list Z }.

Definition maxSynthStatements : nat := 100 * 100.

Record Synthesizer := { statements : gmap bytes PreparedStmt; order : list bytes }.

Definition NewSynthesizer : Synthesizer := {| statements := ∅; order := [] |}.

(** The loop that takes the first occurrence of [name] out of the order. *)
Fixpoint remove_name (name : bytes) (l : list bytes) : list bytes :=
  match l with
  | [] => []
  | n :: l' => if bool_decide (n = name) then l' else n :: remove_name name l'
  end.

Definition RegisterStatement (s : Synthesizer) (name query : bytes) (paramOIDs : list Z) : res unit Synthesizer :=
  let stmt := {| Query := query; ParamOIDs := paramOIDs |} in
  match statements s !! name with
  | Some _ => Ok {| statements := <[name := stmt]> (statements s); order := remove_name name (order s) ++ [name] |}
  | None =>
      if maxSynthStatements <=? size (statements s) then
        match order s with
        | [] => Panic
        | oldest :: rest => Ok {| statements := <[name := stmt]> (delete oldest (statements s)); order := rest ++ [name] |}
        end
      else Ok {| statements := <[name := stmt]> (statements s); order := order s ++ [name] |}
  end.

Definition GetStatement (s : Synthesizer) (name : bytes) : option PreparedStmt := statements s !! name.

Definition CloseStatement (s : Synthesizer) (name : bytes) : Synthesizer :=
  {| statements := delete name (statements s); order := remove_name name (order s) |}.

(** ** Substitution *)

(** The digits at the start of [s]. *)
Fixpoint digit_run (s : bytes) : bytes :=
  match s with
  | c :: s' => if byte_in "0" "9" c then c :: digit_run s' else []
  | [] => []
  end.

(** The literal a placeholder at [s], the text after its dollar sign, stands for,
    and the length of its number. *)
Definition placeholder (literals : list bytes) (s : bytes) : option (bytes * nat) :=
  match s with
  | c :: _ =>
      if byte_in "1" "9" c then
        match Atoi (digit_run s) with
        | Some idx =>
            if (1 <=? idx)%Z && (idx <=? Z.of_nat (length literals))%Z
            then match literals !! Z.to_nat (idx - 1) with
                 | Some lit => Some (lit, length (digit_run s))
                 | None => None
                 end
            else None
        | None => None
        end
      else None
  | [] => None
  end.

(** [replacePlaceholders] from a position on, after [skip] more bytes. *)
Fixpoint replace_loop (literals : list bytes) (skip : nat) (inSingle : bool) (s : bytes) : bytes :=
  match s with
  | [] => []
  | ch :: rest =>
      match skip with
      | S k => replace_loop literals k inSingle rest
      | O =>
          if inSingle then
            if (ch =b "'") then
              if HasPrefix rest $"'" then ch :: "'"%byte :: replace_loop literals 1 true rest
              else ch :: replace_loop literals 0 false rest
            else ch :: replace_loop literals 0 true rest
          else if (ch =b "'") then ch :: replace_loop literals 0 true rest
          else if (ch =b "$") then
            match parseDollarTag s with
            | Some tag =>
                match drop (length tag) s with
                | [] => tag ++ ch :: replace_loop literals 0 false rest
                | body =>
                    match Index body tag with
                    | None => tag ++ body
                    | Some e =>
                        tag ++ take (e + length tag) body
                          ++ replace_loop literals (length tag + e + length tag - 1) false rest
                    end
                end
            | None =>
                match placeholder literals rest with
                | Some (lit, n) => lit ++ replace_loop literals n false rest
                | None => ch :: replace_loop literals 0 false rest
                end
            end
          else ch :: replace_loop literals 0 false rest
      end
  end.

Definition replacePlaceholders (query : bytes) (literals : list bytes) : bytes := replace_loop literals 0 false query.

(** ** Synthesis *)

Inductive SynthErr := ErrUnknownStatement (name : bytes) | ErrParam (n : nat) (e : LitErr).

Section Synthesize.
Context `{UnicodeCase}.

(** The format of parameter [i]: one code for all, one for each, or text. *)
Definition format_of (formatCodes : list Z) (i : nat) : Z :=
  match formatCodes with
  | [fc] => fc
  | _ => default 0%Z (formatCodes !! i)
  end.

Fixpoint param_literals (oids formatCodes : list Z) (i : nat) (params : list (option bytes)) : res SynthErr (list bytes) :=
  match params with
  | [] => Ok []
  | p :: ps =>
      match ParamToLiteral p (default 0%Z (oids !! i)) (format_of formatCodes i) with
      | Ok lit => lits <-? param_literals oids formatCodes (S i) ps; Ok (lit :: lits)
      | Err e => Err (ErrParam (S i) e)
      | Panic => Panic
      end
  end.

Definition Synthesize (s : Synthesizer) (stmtName : bytes) (params : list (option bytes)) (formatCodes : list Z) : res SynthErr bytes :=
  match statements s !! stmtName with
  | None => Err (ErrUnknownStatement stmtName)
  | Some stmt =>
      literals <-? param_literals (ParamOIDs stmt) formatCodes 0 params;
      Ok (replacePlaceholders (Query stmt) literals)
  end.
End Synthesize.

(** ** Queries with placeholders

    A query as its author reads it: lexical chunks and numbered placeholders,
    separated into statements by semicolons. *)

Inductive item := Chunk (k : chunk) | Param (n : nat).

(** The text of the items when placeholder [n] reads [f n]. *)
Definition render_item (f : nat -> bytes) (it : item) : bytes :=
  match it with Chunk k => render1 k | Param n => f n end.

Definition render_items (f : nat -> bytes) (its : list item) : bytes := concat (render_item f <$> its).

Fixpoint render_query (f : nat -> bytes) (stmts : list (list item)) : bytes :=
  match stmts with
  | [] => []
  | [its] => render_items f its
  | its :: stmts' => render_items f its ++ ";"%byte :: render_query f stmts'
  end.

(** As the client wrote it, and with the literals in place. *)
Definition dollar (n : nat) : bytes := "$"%byte :: FormatInt (Z.of_nat n).
Definition literal (lits : list bytes) (n : nat) : bytes := default [] (lits !! (n - 1)).

Definition starts_in (cs : bytes) (s : bytes) : bool :=
  match s with c :: _ => existsb (Byte.eqb c) cs | [] => false end.

(** A character that can stand before a placeholder: no part of a name or
    number, no dash. *)
Definition before_param (c : byte) : bool := is_ascii c && negb (isTagChar c) && negb (c =b "-").

(** [it] followed by [next] is lexed as written, a placeholder has one of the [n]
    literals and is not glued to a name, a number, a string or a dash, and the
    identifiers and comments contain no quote and no dollar sign. *)
Definition wf_item (n : nat) (it : item) (next : bytes) : bool :=
  match it with
  | Chunk (Char c) => wf_chunk (Char c) next && negb (c =b "$") && (before_param c || negb (starts_in $"$" next))
  | Chunk (SingleQuoted v) => wf_chunk (SingleQuoted v) next && negb (starts_in $"$" next)
  | Chunk (DollarQuoted tag body) => wf_chunk (DollarQuoted tag body) next && negb (starts_in $"$" next)
  | Chunk k => wf_chunk k next && free_of $"'$" k && negb (starts_in $"$" next)
  | Param i => (1 <=? i) && (i <=? n) && negb (starts_in $"0123456789'-$" next)
  end.

Fixpoint wf_items (n : nat) (its : list item) (next : bytes) : bool :=
  match its with
  | [] => true
  | it :: its' => wf_item n it (render_items dollar its' ++ next) && wf_items n its' next
  end.

Fixpoint wf_query (n : nat) (stmts : list (list item)) : bool :=
  match stmts with
  | [] => true
  | [its] => wf_items n its []
  | its :: stmts' => wf_items n its (";"%byte :: render_query dollar stmts') && wf_query n stmts'
  end.

(** *** The literals of a query as chunks *)

(** A literal is a few chunks, whatever follows it that is no quote and no dash. *)
Definition literal_form (lit : bytes) (ks : list chunk) : Prop :=
  render ks = lit /\ (exists c r, lit = c :: r /\ c <> "*"%byte /\ c <> "$"%byte) /\
  forall next, starts_in $"'-" next = false -> wf_chunks ks next = true.

Lemma render_chars s : render (Char <$> s) = s.
Proof. unfold render. induction s as [|c s IH]; [done|]. cbn. by rewrite IH. Qed.

Lemma number_char_facts c :
  number_char c = true ->
  existsb (Byte.eqb c) ["'"%byte; x22; ";"%byte] = false /\ (c =b "/") = false /\ (c =b "$") = false /\ (c =b "*") = false.
Proof.
  intros H. pose proof (forall_bytes (fun c => negb (number_char c) ||
    (negb (existsb (Byte.eqb c) ["'"%byte; x22; ";"%byte]) && negb (c =b "/") && negb (c =b "$") && negb (c =b "*")))
    ltac:(by vm_compute) c) as Hc. cbn beta in Hc. rewrite H in Hc. cbn [negb orb] in Hc.
  by rewrite !andb_true_iff, !negb_true_iff in Hc; destruct Hc as [[[? ?] ?] ?].
Qed.

Lemma parseDollarTag_head c s : (c =b "$") = false -> parseDollarTag (c :: s) = None.
Proof. intros H. cbn [parseDollarTag]. by rewrite H. Qed.

Lemma lexed_chars_wf s next d e st :
  forallb number_char s = true -> lex (Outside d e) s = Some st -> starts_in $"'-" next = false ->
  wf_chunks (Char <$> s) next = true.
Proof.
  revert d e. induction s as [|c s IH]; intros d e; [done|]. cbn [forallb fmap list_fmap wf_chunks lex].
  intros [Hc Hs]%andb_prop Hl Hn. destruct (number_char_facts c Hc) as (Hq & Hslash & Hd & _).
  rewrite render_chars. apply andb_true_intro; split.
  - cbn [wf_chunk]. rewrite Hq, (parseDollarTag_head c _ Hd), (at2_head "/" "*" c _ Hslash). cbn [negb andb].
    rewrite !andb_true_r. destruct (byte_eqb_spec c "-"%byte) as [->|Hne]; [|by rewrite at2_head by by apply byte_eqb_ne].
    change (lex_step (Outside d e) "-"%byte) with (if d then None else Some (Outside true false)) in Hl.
    destruct d; [done|]. destruct s as [|c2 s2]; cbn [app at2].
    + destruct next as [|n next]; [done|]. cbn [starts_in] in Hn. cbn in Hn. apply orb_false_iff in Hn as [_ Hn].
      rewrite orb_false_r in Hn. by rewrite Hn.
    + cbn [lex lex_step outside_step] in Hl. destruct (byte_eqb_spec c2 "-"%byte) as [->|]; [done|done].
  - destruct (lex_step (Outside d e) c) as [st'|] eqn:E; [|done].
    assert (exists d' e', st' = Outside d' e') as (d' & e' & ->); [|by eapply IH].
    unfold lex_step, outside_step in E. cbn [existsb] in Hq. rewrite !orb_false_iff in Hq. destruct Hq as (Hq & _).
    rewrite Hq in E. repeat case_match; simplify_eq; eauto.
Qed.

Lemma number_form s : stays_outside s -> s <> [] -> literal_form s (Char <$> s).
Proof.
  intros [Hn Hl] Hne. destruct s as [|c s]; [done|]. split; [by apply render_chars|]. split.
  - exists c, s. cbn [forallb] in Hn. apply andb_prop in Hn as [Hc _]. destruct (number_char_facts c Hc) as (_ & _ & Hd & Hs).
    split; [done|]. split; by intros ->.
  - intros next Hx. destruct (Hl false) as (d & e & He). by eapply lexed_chars_wf.
Qed.

Lemma escape_double s : escape_body s = double_quotes (filter (fun c => c <> x00) s).
Proof.
  induction s as [|c s IH]; [done|]. cbn [escape_body]. rewrite filter_cons.
  destruct (byte_eqb_spec c "'"%byte) as [->|Hq].
  - rewrite decide_True by done. cbn [double_quotes]. by rewrite IH.
  - destruct (byte_eqb_spec c x00) as [->|Hz]; [by rewrite decide_False by auto|].
    rewrite decide_True by done. cbn [double_quotes]. by rewrite byte_eqb_ne, IH.
Qed.

Lemma starts_in_prefix cs s : starts_in ("'"%byte :: cs) s = false -> HasPrefix s $"'" = false.
Proof.
  destruct s as [|d s]; [done|]. change ($"'") with ["'"%byte]. cbn [HasPrefix].
  destruct (byte_eqb_spec d "'"%byte) as [->|]; [done|]. by rewrite byte_eqb_ne.
Qed.

(** Strings and casts: chunks that are checked once for all texts after them. *)
Lemma string_form s : literal_form (escapeStringLiteral s) [SingleQuoted (filter (fun c => c <> x00) s)].
Proof.
  split; [|split].
  - unfold render, escapeStringLiteral. cbn [fmap list_fmap concat render1]. by rewrite escape_double, app_nil_r.
  - by exists "'"%byte, (escape_body s ++ ["'"%byte]).
  - intros next Hn. cbn [wf_chunks wf_chunk render fmap list_fmap concat app]. by rewrite (starts_in_prefix $"-" next Hn).
Qed.

Lemma double_quotes_id v : forallb (fun c => negb (c =b "'")) v = true -> double_quotes v = v.
Proof.
  induction v as [|c v IH]; [done|]. cbn [forallb double_quotes]. intros [Hc%negb_true_iff Hv]%andb_prop. by rewrite Hc, IH.
Qed.

Lemma hex_no_quote data : forallb (fun c => negb (c =b "'")) (EncodeToString data) = true.
Proof.
  unfold EncodeToString. induction data as [|b data IH]; [done|]. cbn [fmap list_fmap concat]. rewrite forallb_app, IH, andb_true_r.
  by apply (forall_bytes (fun b => forallb (fun c => negb (c =b "'")) (hex1 b)) ltac:(by vm_compute)).
Qed.

Lemma hex_form data : literal_form (hex_literal data) [Char "E"; SingleQuoted ($"\\x" ++ EncodeToString data)].
Proof.
  split; [|split].
  - unfold render, hex_literal. cbn [fmap list_fmap concat render1]. rewrite double_quotes_id, app_nil_r; [done|].
    rewrite forallb_app. apply andb_true_intro; split; [done|apply hex_no_quote].
  - by eexists _, _.
  - intros next Hn. cbn [wf_chunks]. rewrite andb_true_r. apply andb_true_intro; split; [done|].
    cbn [wf_chunk render fmap list_fmap concat app]. by rewrite (starts_in_prefix $"-" next Hn).
Qed.

Lemma cast_form v t :
  forallb (fun c => negb (c =b "'")) v = true -> stays_outside t -> starts_in $"'" t = false ->
  t <> [] -> literal_form ("'"%byte :: v ++ "'"%byte :: t) (SingleQuoted v :: (Char <$> t)).
Proof.
  intros Hv Ht Hh Hne. split; [|split].
  - change (render (?k :: ?ks)) with (render1 k ++ render ks). rewrite render_chars. cbn [render1 app].
    rewrite double_quotes_id by done. by rewrite <- app_assoc.
  - by eexists _, _.
  - intros next Hn. cbn [wf_chunks]. rewrite render_chars. apply andb_true_intro; split.
    + cbn [wf_chunk]. destruct t as [|c t]; [done|]. by rewrite (starts_in_prefix []).
    + destruct Ht as [Hc Hl]. destruct (Hl false) as (d & e & He). by eapply lexed_chars_wf.
Qed.

Lemma word_form w : forallb plain w = true -> w <> [] -> literal_form w (Char <$> w).
Proof. intros H. apply number_form, lex_signed. by apply plain_drop_sign. Qed.

Section Forms.
Context `{UnicodeCase}.

Lemma float_literal_form c finite ty ks :
  (c = FFinite -> literal_form finite ks) -> ty = $"float4" \/ ty = $"float8" -> exists ks', literal_form (float_literal c finite ty) ks'.
Proof.
  intros Hf Hty.
  assert (stays_outside ($"::" ++ ty) /\ starts_in $"'" ($"::" ++ ty) = false /\ $"::" ++ ty <> []) as (Ht & Hh & Hne).
  { destruct Hty as [-> | ->]; (split; [by apply lex_signed | done]). }
  destruct c; [eauto| | |]; cbn [float_literal]; eexists.
  - by apply (cast_form $"NaN" ($"::" ++ ty)).
  - by apply (cast_form $"Infinity" ($"::" ++ ty)).
  - by apply (cast_form $"-Infinity" ($"::" ++ ty)).
Qed.

Lemma big_digits_nonempty f n acc : f <> 0 -> big_digits f n acc <> [].
Proof.
  revert n acc. induction f as [|f IH]; intros n acc Hf; [done|]. cbn [big_digits]. case_match; [done|].
  destruct f as [|f]; [done|]. by apply IH.
Qed.

Lemma FormatFloat_nonempty bits w : FormatFloat bits w <> [].
Proof.
  assert (forall c s, print_scaled c s <> []) as Hp.
  { intros c s. unfold print_scaled. pose proof (big_digits_nonempty 400 (c / 10 ^ Z.of_nat s) [] ltac:(lia)).
    case_match; [done|]. by destruct (big_digits 400 _ _). }
  assert (forall ew fw, format_finite ew fw bits <> []) as Hf; [|by unfold FormatFloat; case_match].
  intros ew fw. unfold format_finite. destruct (shortest_decimal ew fw bits) as [c s].
  case_match; [|done]. case_match; [done|apply Hp].
Qed.

Lemma ParamToLiteral_form value oid fc lit : ParamToLiteral value oid fc = Ok lit -> exists ks, literal_form lit ks.
Proof.
  unfold ParamToLiteral. destruct value as [v|]; [|intros [= <-]; eexists; by apply word_form].
  assert (forall z, (MinInt64 <= z <= MaxInt64)%Z -> exists ks, literal_form (FormatInt z) ks) as Hint.
  { intros z Hz. eexists. apply number_form; [by apply FormatInt_outside|]. intros E.
    pose proof (ParseInt_FormatInt z Hz) as Hp. by rewrite E in Hp. }
  destruct (fc =? 1)%Z; unfold binaryParamToLiteral, textParamToLiteral.
  - repeat case_match; intros [= <-]; try (eexists; first [by apply word_form | by apply string_form | by apply hex_form]).
    1-3: apply Hint; rewrite ?shift_or_loop_value; bool_to_prop; rewrite ?or_shifted_value by lia; by apply wrapS_int64.
    all: eapply float_literal_form; [intros _; apply number_form; [apply FormatFloat_outside|apply FormatFloat_nonempty]|auto].
  - repeat case_match; intros [= <-]; try (eexists; first [by apply word_form | by apply string_form | by apply hex_form]).
    + eexists. apply number_form; [by eapply ParseInt_outside|]. by intros ->.
    + eapply float_literal_form; [|auto]. intros ->. apply number_form; [by apply parse_finite_outside, ParseFloat64_finite|].
      by intros ->.
    + eexists. apply number_form; [by apply isValidNumeric_outside|]. by intros ->.
Qed.
End Forms.

(** *** Substitution item by item *)

Lemma digits_aux_head fuel base n acc :
  (2 <= base)%Z -> (1 <= n < 2 ^ Z.of_nat fuel)%Z -> exists d ds, digits_aux fuel base n acc = d :: ds /\ (1 <= d < base)%Z.
Proof.
  intros Hb. revert n acc. induction fuel as [|f IH]; intros n acc Hn; [simpl in Hn; lia|].
  cbn [digits_aux]. destruct (Z.ltb_spec n base); [exists n, acc; split; [done|lia]|]. apply IH.
  rewrite Nat2Z.inj_succ, Z.pow_succ_r in Hn by lia. split; [by apply Z.div_le_lower_bound; lia|].
  apply Z.div_lt_upper_bound; [lia|]. assert (0 < 2 ^ Z.of_nat f)%Z by lia. nia.
Qed.

Lemma digit_char_digit lo d :
  (0 <= lo < 10)%Z -> (lo <= d < 10)%Z -> byte_in (digit_char lo) "9" (digit_char d) = true.
Proof.
  intros Hl H. assert (forallb (fun lo => forallb (fun d => (d <? lo)%Z || byte_in (digit_char lo) "9" (digit_char d)) (seqZ 0 10)) (seqZ 0 10) = true)
    as Hall by by vm_compute.
  rewrite forallb_forall in Hall. specialize (Hall lo ltac:(apply list_elem_of_In, elem_of_seqZ; lia)).
  rewrite forallb_forall in Hall. specialize (Hall d ltac:(apply list_elem_of_In, elem_of_seqZ; lia)).
  by rewrite (proj2 (Z.ltb_ge d lo)) in Hall by lia.
Qed.

(** The numeral of a positive number: digits, the first not a zero. *)
Lemma FormatInt_positive n :
  (1 <= n <= MaxInt64)%Z ->
  forallb (byte_in "0" "9") (FormatInt n) = true /\ exists c r, FormatInt n = c :: r /\ byte_in "1" "9" c = true.
Proof.
  unfold MaxInt64. intros Hn. unfold FormatInt. rewrite (proj2 (Z.ltb_ge n 0)) by lia. split.
  - pose proof (FormatUint_digits 10 n ltac:(lia) ltac:(lia)) as Hd. apply forallb_forall. intros c Hc.
    rewrite list.Forall_forall in Hd. destruct (Hd c) as (d & Hd' & ->); [by apply list_elem_of_In|].
    by apply (digit_char_digit 0).
  - destruct (digits_aux_head 64 10 n []) as (d & ds & E & Hd); [lia|simpl; lia|].
    unfold FormatUint, digits. rewrite E. exists (digit_char d), (digit_char <$> ds). split; [done|]. by apply (digit_char_digit 1).
Qed.

Lemma digit_run_app ds next :
  forallb (byte_in "0" "9") ds = true -> starts_in $"0123456789" next = false -> digit_run (ds ++ next) = ds.
Proof.
  induction ds as [|c ds IH]; cbn [forallb app digit_run].
  - intros _ Hn. destruct next as [|c next]; [done|]. cbn [digit_run starts_in] in *.
    pose proof (forall_bytes (fun c => existsb (Byte.eqb c) $"0123456789" || negb (byte_in "0" "9" c)) ltac:(by vm_compute) c) as Hc.
    cbn beta in Hc. rewrite Hn in Hc. by destruct (byte_in "0" "9" c).
  - intros [Hc Hs]%andb_prop Hn. by rewrite Hc, IH.
Qed.

Section Replace.
Context (lits : list bytes).

Lemma replace_loop_skip k b s : replace_loop lits k b s = replace_loop lits 0 b (drop k s).
Proof.
  revert k b. induction s as [|c s IH]; intros [|k] b; [done..|]. cbn [replace_loop drop]. apply IH.
Qed.

Lemma replace_single v next :
  HasPrefix next $"'" = false ->
  replace_loop lits 0 true (double_quotes v ++ "'"%byte :: next) = double_quotes v ++ "'"%byte :: replace_loop lits 0 false next.
Proof.
  intros Hn. induction v as [|c v IH]; cbn [double_quotes app].
  { cbn [replace_loop]. change ("'" =b "'") with true. cbn match. by rewrite Hn. }
  destruct (byte_eqb_spec c "'"%byte) as [->|Hc].
  - cbn [app replace_loop]. change ("'" =b "'") with true. cbn match. rewrite quote_prefix, replace_loop_skip.
    cbn [drop]. by rewrite drop_0, IH.
  - cbn [app replace_loop]. rewrite byte_eqb_ne by done. cbn match. by rewrite IH.
Qed.

Lemma replace_plain c next :
  (c =b "'") = false -> (c =b "$") = false -> replace_loop lits 0 false (c :: next) = c :: replace_loop lits 0 false next.
Proof. intros H1 H2. cbn [replace_loop]. by rewrite H1, H2. Qed.

Lemma replace_free s next :
  forallb (fun c => negb (existsb (Byte.eqb c) $"'$")) s = true ->
  replace_loop lits 0 false (s ++ next) = s ++ replace_loop lits 0 false next.
Proof.
  induction s as [|c s IH]; [done|]. cbn [forallb]. intros [Hc%negb_true_iff Hs]%andb_prop. cbn in Hc.
  rewrite !orb_false_iff in Hc. destruct Hc as (H1 & H2 & _). cbn [app]. by rewrite replace_plain, IH.
Qed.

Lemma replace_dollar tag body next :
  wf_chunk (DollarQuoted tag body) next = true ->
  replace_loop lits 0 false (render1 (DollarQuoted tag body) ++ next) =
  render1 (DollarQuoted tag body) ++ replace_loop lits 0 false next.
Proof.
  cbn [wf_chunk]. intros [Ht Hi%bool_decide_eq_true]%andb_prop.
  rewrite !render1_dollar. set (t := "$"%byte :: tag ++ $"$") in *.
  assert (parseDollarTag (t ++ body ++ t ++ next) = Some t) as Hp.
  { unfold t. cbn [app]. rewrite <- !app_assoc. by apply parseDollarTag_app. }
  rewrite <- !app_assoc. remember (t ++ body ++ t ++ next) as q eqn:Eq.
  destruct q as [|c q]; [by rewrite Eq in Hp|].
  assert (c = "$"%byte) as -> by (unfold t in Eq; cbn [app] in Eq; congruence).
  cbn [replace_loop]. change ("$" =b "'") with false. change ("$" =b "$") with true. cbn match. rewrite Hp.
  assert (drop (length t) ("$"%byte :: q) = body ++ t ++ next) as Hd by (rewrite Eq; apply drop_app_length).
  rewrite Hd. destruct (body ++ t ++ next) as [|b0 l0] eqn:Eb; [by destruct body|]. rewrite Hi, <- Eb.
  rewrite replace_loop_skip. f_equal.
  rewrite (app_assoc body t next), take_app_length' by by rewrite length_app.
  rewrite <- app_assoc. f_equal. f_equal. f_equal.
  assert (drop (length t + (length body + length t)) ("$"%byte :: q) = next) as Hn.
  { rewrite Eq, <- Eb, <- drop_drop, drop_app_length, <- drop_drop, drop_app_length. apply drop_app_length. }
  rewrite <- Hn at 1. assert (0 < length t) by (unfold t; cbn; lia).
  replace (length t + (length body + length t)) with (S (length t + length body + length t - 1)) by lia. done.
Qed.

Hypothesis few : (Z.of_nat (length lits) <= MaxInt64)%Z.

Lemma replace_param i next :
  1 <= i <= length lits -> starts_in $"0123456789" next = false ->
  replace_loop lits 0 false (dollar i ++ next) = literal lits i ++ replace_loop lits 0 false next.
Proof.
  intros Hi Hn. unfold dollar. assert (1 <= Z.of_nat i <= MaxInt64)%Z as Hr by lia.
  destruct (FormatInt_positive _ Hr) as [Hd (c & r & E & Hc)].
  pose proof (digit_run_app _ _ Hd Hn) as Hrun.
  assert (ParseInt (FormatInt (Z.of_nat i)) = Some (Z.of_nat i)) as Hp by (apply ParseInt_FormatInt; unfold MinInt64; lia).
  rewrite <- (drop_app_length (FormatInt (Z.of_nat i)) next) at 2. rewrite <- replace_loop_skip.
  set (ds := FormatInt (Z.of_nat i)) in *. cbn [app replace_loop]. change ("$" =b "'") with false. change ("$" =b "$") with true. cbn match.
  assert (parseDollarTag ("$"%byte :: ds ++ next) = None) as ->.
  { rewrite E. cbn [app parseDollarTag]. change (negb ("$" =b "$")) with false. cbn match.
    pose proof (forall_bytes (fun c => negb (byte_in "1" "9" c) || (negb (c =b "$") && negb (isTagStart c))) ltac:(by vm_compute) c) as Hx.
    cbn beta in Hx. rewrite Hc in Hx. cbn [negb orb] in Hx. apply andb_prop in Hx as [H1%negb_true_iff H2]. by rewrite H1, H2. }
  unfold placeholder. rewrite Hrun. rewrite E at 1. cbn [app]. rewrite Hc. unfold Atoi. rewrite Hp.
  rewrite (proj2 (Z.leb_le 1 (Z.of_nat i))), (proj2 (Z.leb_le (Z.of_nat i) (Z.of_nat (length lits)))) by lia. cbn [andb].
  replace (Z.to_nat (Z.of_nat i - 1)) with (i - 1) by lia. unfold literal.
  destruct (lookup_lt_is_Some_2 lits (i - 1)) as [lit Hl]; [lia|]. by rewrite Hl.
Qed.

Lemma starts_in_less cs cs' s : bool_decide (Forall (.∈ cs') cs) = true -> starts_in cs' s = false -> starts_in cs s = false.
Proof.
  intros Hsub%bool_decide_eq_true. rewrite list.Forall_forall in Hsub. destruct s as [|c s]; [done|]. cbn [starts_in]. intros H. apply not_true_iff_false. intros Ht.
  apply existsb_exists in Ht as (x & Hx & Heq). apply not_true_iff_false in H. apply H, existsb_exists. exists x.
  split; [|done]. rewrite <- list_elem_of_In in *. auto.
Qed.

Lemma replace_item it next :
  wf_item (length lits) it next = true ->
  replace_loop lits 0 false (render_item dollar it ++ next) = render_item (literal lits) it ++ replace_loop lits 0 false next.
Proof.
  intros H. destruct it as [k|i].
  - destruct k as [c|v|v|tag body|text|b]; cbn [wf_item render_item] in *;
      try (rewrite !andb_true_iff in H; destruct H as [[_ Hf] _]; by apply replace_free).
    + rewrite !andb_true_iff, negb_true_iff in H. destruct H as [[Hw Hd] _]. cbn [wf_chunk] in Hw.
      rewrite !andb_true_iff, !negb_true_iff in Hw. destruct Hw as [[[Hq _] _] _]. cbn [existsb] in Hq.
      rewrite !orb_false_iff in Hq. destruct Hq as [Hq _]. by apply replace_plain.
    + rewrite andb_true_iff in H. destruct H as [Hw _]. cbn [wf_chunk] in Hw. apply negb_true_iff in Hw.
      cbn [render1 app replace_loop]. change ("'" =b "'") with true. cbn match. rewrite <- !app_assoc. f_equal. by apply replace_single.
    + rewrite andb_true_iff in H. destruct H as [Hw _]. by apply replace_dollar.
  - cbn [wf_item] in H. rewrite !andb_true_iff, negb_true_iff in H. destruct H as [[H1%Nat.leb_le H2%Nat.leb_le] Hn].
    apply replace_param; [lia|]. eapply starts_in_less; [|exact Hn]. by vm_compute.
Qed.

Lemma render_items_cons f it its : render_items f (it :: its) = render_item f it ++ render_items f its.
Proof. done. Qed.

Lemma replace_items its next :
  wf_items (length lits) its next = true ->
  replace_loop lits 0 false (render_items dollar its ++ next) = render_items (literal lits) its ++ replace_loop lits 0 false next.
Proof.
  induction its as [|it its IH]; [done|]. cbn [wf_items]. intros [Hi Hs]%andb_prop.
  rewrite !render_items_cons, <- !app_assoc, replace_item, IH by done. done.
Qed.

Lemma replace_query stmts :
  wf_query (length lits) stmts = true ->
  replacePlaceholders (render_query dollar stmts) lits = render_query (literal lits) stmts.
Proof.
  unfold replacePlaceholders. induction stmts as [|its stmts IH]; [done|]. destruct stmts as [|its2 stmts].
  - cbn [wf_query render_query]. intros H. pose proof (replace_items its [] H) as E. by rewrite !app_nil_r in E.
  - set (rest := its2 :: stmts) in *.
    change (wf_items (length lits) its (";"%byte :: render_query dollar rest) && wf_query (length lits) rest = true -> 
      replace_loop lits 0 false (render_items dollar its ++ ";"%byte :: render_query dollar rest) =
      render_items (literal lits) its ++ ";"%byte :: render_query (literal lits) rest).
    intros [Hi Hs]%andb_prop. by rewrite replace_items, replace_plain, IH.
Qed.
End Replace.

(** *** The substituted query as chunks *)

Lemma HasPrefix_local x next next' p : length p <= length x -> HasPrefix (x ++ next) p = HasPrefix (x ++ next') p.
Proof.
  revert x. induction p as [|c p IH]; intros x H; [done|]. destruct x as [|d x]; [cbn in H; lia|].
  cbn [app HasPrefix]. f_equal. apply IH. cbn in H. lia.
Qed.

(** The closing tag of a dollar-quoted string is found whatever follows it. *)
Lemma Index_local body t next next' :
  Index (body ++ t ++ next) t = Some (length body) -> Index (body ++ t ++ next') t = Some (length body).
Proof.
  induction body as [|c body IH].
  - intros _. cbn [app length]. pose proof (HasPrefix_app t next') as E. destruct (t ++ next'); cbn [Index]; by rewrite E.
  - cbn [app Index length]. change (c :: body ++ t ++ ?n) with ((c :: body) ++ t ++ n). rewrite !app_assoc.
    rewrite (HasPrefix_local _ next next') by (rewrite length_app; lia). rewrite <- !app_assoc.
    destruct (HasPrefix _ t); [done|]. destruct (Index (body ++ t ++ next) t) as [j|]; [|done].
    intros [= ->]. by rewrite IH.
Qed.

(** The text after a chunk before and after the substitution: the same first
    byte, or a placeholder and the literal for it. *)
Definition follows (n n' : bytes) : Prop :=
  head n = head n' \/ (starts_in $"$" n = true /\ exists c r, n' = c :: r /\ c <> "*"%byte).

Lemma follows_head n n' : follows n n' -> starts_in $"$" n = false -> head n = head n'.
Proof. by intros [H|[H _]] Hn; [|rewrite H in Hn]. Qed.

Lemma starts_in_head cs n n' : head n = head n' -> starts_in cs n = starts_in cs n'.
Proof. destruct n, n'; by intros [=]; subst. Qed.

Lemma at2_follows a b c n n' : head n = head n' -> at2 a b (c :: n) = at2 a b (c :: n').
Proof. destruct n, n'; by intros [=]; subst. Qed.

Lemma wf_chunk_follows n k next next' :
  wf_item n (Chunk k) next = true -> follows next next' -> wf_chunk k next' = true.
Proof.
  intros H Hf. destruct k as [c|v|v|tag body|text|b]; cbn [wf_item] in H;
    try (by rewrite !andb_true_iff in H; destruct H as [[? _] _]).
  - rewrite !andb_true_iff, negb_true_iff in H. destruct H as [[Hw Hd] Hb]. cbn [wf_chunk] in *.
    rewrite !andb_true_iff, !negb_true_iff in Hw. destruct Hw as [[[Hq H1] H2] _]. rewrite Hq, (parseDollarTag_head c _ Hd).
    destruct Hf as [Hh|[Hs (x & r & -> & Hx)]].
    + by rewrite <- (at2_follows _ _ _ _ _ Hh), <- (at2_follows _ _ _ _ _ Hh), H1, H2.
    + rewrite Hs, orb_false_r in Hb. unfold before_param in Hb. rewrite !andb_true_iff, !negb_true_iff in Hb.
      destruct Hb as [_ Hdash]. rewrite at2_head by done. cbn [at2]. by rewrite (byte_eqb_ne x), andb_false_r.
  - rewrite andb_true_iff, negb_true_iff in H. destruct H as [Hw Hs]. pose proof (follows_head _ _ Hf Hs) as Hh.
    cbn [wf_chunk] in *. by destruct next, next'; simplify_eq/=.
  - rewrite andb_true_iff in H. destruct H as [Hw _]. cbn [wf_chunk] in *. rewrite andb_true_iff, bool_decide_eq_true in Hw |- *.
    destruct Hw as [Ht Hi]. split; [done|]. by eapply Index_local.
Qed.

Lemma wf_chunks_app ks ks' next : wf_chunks (ks ++ ks') next = wf_chunks ks (render ks' ++ next) && wf_chunks ks' next.
Proof.
  induction ks as [|k ks IH]; [done|]. cbn [app wf_chunks]. rewrite IH, andb_assoc. f_equal. f_equal.
  unfold render. rewrite fmap_app, concat_app. by rewrite <- app_assoc.
Qed.

Section Chunks.
Context (lits : list bytes) (forms : list (list chunk)) (Hforms : Forall2 literal_form lits forms).

Definition item_chunks (it : item) : list chunk :=
  match it with Chunk k => [k] | Param i => default [] (forms !! (i - 1)) end.

Definition items_chunks (its : list item) : list chunk := concat (item_chunks <$> its).

Lemma literal_forms i : 1 <= i <= length lits -> literal_form (literal lits i) (item_chunks (Param i)).
Proof.
  intros Hi. destruct (lookup_lt_is_Some_2 lits (i - 1)) as [lit Hl]; [lia|].
  destruct (Forall2_lookup_l _ _ _ _ _ Hforms Hl) as (ks & Hk & Hf). unfold literal. cbn [item_chunks]. by rewrite Hl, Hk.
Qed.

Lemma render_app ks ks' : render (ks ++ ks') = render ks ++ render ks'.
Proof. unfold render. by rewrite fmap_app, concat_app. Qed.

Lemma render1_nonempty k : exists c r, render1 k = c :: r.
Proof. destruct k; eexists _, _; reflexivity. Qed.

Lemma items_follow n its next next' :
  n = length lits -> wf_items n its next = true -> head next = head next' ->
  follows (render_items dollar its ++ next) (render_items (literal lits) its ++ next').
Proof.
  intros -> Hw Hh. destruct its as [|it its]; [by left|]. rewrite !render_items_cons, <- !app_assoc.
  destruct it as [k|i]; cbn [render_item].
  - left. by destruct (render1_nonempty k) as (c & r & ->).
  - right. split; [done|]. cbn [wf_items wf_item] in Hw. rewrite !andb_true_iff in Hw.
    destruct Hw as [[[H1%Nat.leb_le H2%Nat.leb_le] _] _].
    destruct (literal_forms i ltac:(lia)) as (_ & (c & r & -> & Hc & _) & _). eauto.
Qed.

Lemma items_chunks_wf its next next' :
  wf_items (length lits) its next = true -> head next = head next' ->
  render (items_chunks its) = render_items (literal lits) its /\ wf_chunks (items_chunks its) next' = true.
Proof.
  intros Hw Hh. induction its as [|it its IH]; [done|]. cbn [wf_items] in Hw. apply andb_prop in Hw as [Hi Hs].
  destruct (IH Hs) as [Hr Hc]. pose proof (items_follow _ its next next' eq_refl Hs Hh) as Hf.
  change (items_chunks (it :: its)) with (item_chunks it ++ items_chunks its).
  rewrite render_app, wf_chunks_app, Hr, Hc, andb_true_r, render_items_cons. destruct it as [k|i].
  - split; [by unfold render; cbn; rewrite app_nil_r|]. cbn [item_chunks wf_chunks]. rewrite andb_true_r.
    by eapply wf_chunk_follows.
  - cbn [wf_item] in Hi. rewrite !andb_true_iff, negb_true_iff in Hi. destruct Hi as [[H1%Nat.leb_le H2%Nat.leb_le] Hn].
    destruct (literal_forms i ltac:(lia)) as (Hl & _ & Hwf). split; [by rewrite Hl|]. apply Hwf.
    rewrite <- (starts_in_head _ _ _ (follows_head _ _ Hf ltac:(by eapply starts_in_less; [|exact Hn]; vm_compute))).
    eapply starts_in_less; [|exact Hn]. by vm_compute.
Qed.

Lemma query_chunks_wf stmts :
  wf_query (length lits) stmts = true ->
  render_stmts (items_chunks <$> stmts) = render_query (literal lits) stmts /\ lexed_stmts (items_chunks <$> stmts) = true /\
  render <$> (items_chunks <$> stmts) = render_items (literal lits) <$> stmts.
Proof.
  induction stmts as [|its stmts IH]; [done|]. destruct stmts as [|its2 stmts].
  - cbn [wf_query fmap list_fmap render_stmts render_query lexed_stmts]. intros H.
    destruct (items_chunks_wf its [] [] H eq_refl) as [-> ->]. done.
  - set (rest := its2 :: stmts) in *.
    change (wf_items (length lits) its (";"%byte :: render_query dollar rest) && wf_query (length lits) rest = true ->
      render (items_chunks its) ++ ";"%byte :: render_stmts (items_chunks <$> rest) =
        render_items (literal lits) its ++ ";"%byte :: render_query (literal lits) rest /\
      wf_chunks (items_chunks its) (";"%byte :: render_stmts (items_chunks <$> rest)) && lexed_stmts (items_chunks <$> rest) = true /\
      render (items_chunks its) :: (render <$> (items_chunks <$> rest)) = render_items (literal lits) its :: (render_items (literal lits) <$> rest)).
    intros [Hi Hs]%andb_prop. destruct (IH Hs) as (Hr & Hw & Hm).
    destruct (items_chunks_wf its _ (";"%byte :: render_stmts (items_chunks <$> rest)) Hi eq_refl) as [H1 H2].
    by rewrite H1, H2, Hr, Hw, Hm.
Qed.
End Chunks.

Lemma Forall_choose {A C} (P : A -> C -> Prop) l : Forall (fun x => exists y, P x y) l -> exists l', Forall2 P l l'.
Proof. induction 1 as [|x l [y Hy] _ [l' Hl]]; [by exists []|]. exists (y :: l'). by constructor. Qed.

Section Synthesized.
Context `{UnicodeCase}.

Lemma param_literals_spec oids codes i params lits :
  param_literals oids codes i params = Ok lits ->
  length lits = length params /\
  forall j p, params !! j = Some p -> exists lit, lits !! j = Some lit /\
    ParamToLiteral p (default 0%Z (oids !! (i + j))) (format_of codes (i + j)) = Ok lit.
Proof.
  revert i lits. induction params as [|p params IH]; intros i lits; cbn [param_literals]; [by intros [= <-]|].
  destruct (ParamToLiteral p _ _) as [lit| |] eqn:Ep; try done.
  destruct (param_literals oids codes (S i) params) as [ls| |] eqn:El; try done. intros [= <-].
  destruct (IH _ _ El) as [Hlen Hlits]. split; [by cbn; rewrite Hlen|]. intros [|j] q Hq.
  - injection Hq as <-. exists lit. by rewrite Nat.add_0_r.
  - destruct (Hlits j q Hq) as (l & Hl & Hp). exists l. split; [done|]. by replace (i + S j) with (S i + j) by lia.
Qed.

End Synthesized.

(** [INSERT INTO t VALUES ($1, $2); SELECT '$1' -- done], with two text parameters. *)
Definition example_query : list (list item) :=
  [ (Chunk ∘ Char <$> $"INSERT INTO t VALUES (") ++ [Param 1; Chunk (Char ","); Chunk (Char " "); Param 2; Chunk (Char ")")];
    (Chunk ∘ Char <$> $" SELECT ") ++ [Chunk (SingleQuoted $"$1"); Chunk (Char " "); Chunk (LineComment $" done")] ].

Definition example_synth : Synthesizer :=
  {| statements := {[ $"s" := {| Query := render_query dollar example_query; ParamOIDs := [25; 23]%Z |} ]}; order := [$"s"] |}.


(** A placeholder in a comment is replaced like any other, although the server
    counts only the one outside: a value with a line break ends the comment, and
    the rest of it is read as SQL. *)
Example comment_placeholder_injection :
  splitStatements $"SELECT * FROM t WHERE id = $1 -- by $1" = [$"SELECT * FROM t WHERE id = $1 -- by $1"] /\
  let s := {| statements := {[ $"s" := {| Query := $"SELECT * FROM t WHERE id = $1 -- by $1"; ParamOIDs := [25]%Z |} ]}; order := [$"s"] |} in
  exists q, Synthesize (H := ascii_case) s $"s" [Some $"
;DROP TABLE t;--"] [] = Ok q /\ $"DROP TABLE t" ∈ splitStatements q.
Proof.
  split; [by vm_compute|]. cbv zeta. eexists. split; [vm_compute; reflexivity|].
  apply bool_decide_unpack with (_ : Decision _). by vm_compute.
Qed.

(** A negative number after a minus sign starts a comment: the rest of the line
    is lost. *)
Example minus_placeholder_comment :
  stripComments (replacePlaceholders $"SELECT 1 -$1 FROM t" [$"-5"]) = $"SELECT 1 ".
Proof. by vm_compute. Qed.

(** ** The registry

    Its contract: a list of the registered statements, the most recently registered
    last, of which only the last [maxSynthStatements] are kept. *)

Inductive op := Register (name query : bytes) (oids : list Z) | CloseName (name : bytes).

Definition exec (o : op) (s : Synthesizer) : res unit Synthesizer :=
  match o with
  | Register name query oids => RegisterStatement s name query oids
  | CloseName name => Ok (CloseStatement s name)
  end.

Fixpoint run (ops : list op) (s : Synthesizer) : res unit Synthesizer :=
  match ops with
  | [] => Ok s
  | o :: ops' => s' <-? exec o s; run ops' s'
  end.

Abbreviation registry := (list (bytes * PreparedStmt)).

Definition others (name : bytes) (l : registry) : registry := filter (fun x => x.1 <> name) l.

Definition spec_exec (l : registry) (o : op) : registry :=
  match o with
  | Register name query oids =>
      let l' := others name l ++ [(name, {| Query := query; ParamOIDs := oids |})] in drop (length l' - maxSynthStatements) l'
  | CloseName name => others name l
  end.

Definition implements (s : Synthesizer) (l : registry) : Prop :=
  NoDup l.*1 /\ order s = l.*1 /\ length l <= maxSynthStatements /\
  forall n st, statements s !! n = Some st <-> (n, st) ∈ l.

Lemma remove_name_others name l : NoDup l.*1 -> remove_name name l.*1 = (others name l).*1.
Proof.
  unfold others. induction l as [|[n st] l IH]; [done|]. cbn [fmap list_fmap fst remove_name]. intros [Hn Hl]%list.NoDup_cons.
  rewrite filter_cons. cbn [fst]. case_bool_decide as E.
  - subst n. rewrite decide_False by auto. f_equal. symmetry. clear IH. 
    induction l as [|[m st'] l IH]; [done|]. rewrite filter_cons. cbn [fst]. cbn in Hn, Hl.
    rewrite decide_True by set_solver. f_equal. apply IH; [set_solver|]. by apply list.NoDup_cons in Hl as [_ ?].
  - rewrite decide_True by done. cbn [fmap list_fmap fst]. by rewrite IH.
Qed.

Lemma others_absent name l : name ∉ l.*1 -> others name l = l.
Proof.
  unfold others. induction l as [|[n st] l IH]; [done|]. cbn [fmap list_fmap fst]. intros H. rewrite filter_cons. cbn [fst].
  rewrite decide_True by set_solver. f_equal. apply IH. set_solver.
Qed.

Lemma others_NoDup name l : NoDup l.*1 -> NoDup (others name l).*1.
Proof. intros H. eapply sublist_NoDup; [exact H|]. apply fmap_sublist, sublist_filter. Qed.

Lemma elem_of_others name l n st : (n, st) ∈ others name l <-> n <> name /\ (n, st) ∈ l.
Proof. unfold others. by rewrite list_elem_of_filter. Qed.

Lemma implements_size s l : implements s l -> size (statements s) = length l.
Proof.
  intros (Hnd & _ & _ & Hl). rewrite <- (length_fmap fst l). rewrite <- (size_list_to_set (C := gset bytes)) by done.
  rewrite <- (size_dom (D := gset bytes)). f_equal. apply set_eq. intros n. rewrite elem_of_dom, elem_of_list_to_set, list_elem_of_fmap.
  split; [intros [st Hs]|intros ([m st] & -> & Hs)]; [exists (n, st); split; [done|]; by apply Hl|exists st; by apply Hl].
Qed.

Lemma length_others name l : NoDup l.*1 -> name ∈ l.*1 -> S (length (others name l)) = length l.
Proof.
  intros Hnd Hin. unfold others. induction l as [|[n st] l IH]; [set_solver|]. cbn [fmap list_fmap fst] in *.
  apply list.NoDup_cons in Hnd as [Hn Hl]. rewrite filter_cons. cbn [fst]. destruct (decide (n <> name)) as [Hne|He%dec_stable].
  - cbn [length]. f_equal. apply IH; [done|]. set_solver.
  - subst n. cbn [length]. f_equal. change (filter _ l) with (others name l). by rewrite others_absent.
Qed.

Lemma Register_implements s l name query oids :
  implements s l -> exists s', RegisterStatement s name query oids = Ok s' /\ implements s' (spec_exec l (Register name query oids)).
Proof.
  intros Hs. pose proof (implements_size s l Hs) as Hsize. destruct Hs as (Hnd & Ho & Hlen & Hl).
  set (st0 := {| Query := query; ParamOIDs := oids |}).
  assert (NoDup (others name l ++ [(name, st0)]).*1) as Hnd'.
  { rewrite fmap_app. apply list.NoDup_app. split; [by apply others_NoDup|]. split; [|apply NoDup_singleton].
    intros n ([m st] & -> & [Hne _]%elem_of_others)%list_elem_of_fmap. set_solver. }
  assert (forall n st, <[name := st0]> (statements s) !! n = Some st <-> (n, st) ∈ others name l ++ [(name, st0)]) as Hins.
  { intros n st. rewrite elem_of_app, elem_of_others, list_elem_of_singleton, lookup_insert_Some, Hl. naive_solver. }
  unfold RegisterStatement. fold st0. cbn [spec_exec]. fold st0. rewrite Hsize, Ho.
  destruct (statements s !! name) as [old|] eqn:E.
  - assert (name ∈ l.*1) as Hin by (apply list_elem_of_fmap; exists (name, old); split; [done|]; by apply Hl).
    pose proof (length_others _ _ Hnd Hin) as Hlo. eexists. split; [done|]. rewrite length_app. cbn [length].
    replace (length (others name l) + 1 - maxSynthStatements) with 0 by lia. rewrite drop_0. split; [done|].
    split; [by cbn [order]; rewrite remove_name_others, fmap_app|]. split; [by rewrite length_app; cbn [length]; lia|done].
  - assert (name ∉ l.*1) as Hin. { intros ([m st] & -> & Hm)%list_elem_of_fmap. apply Hl in Hm. cbn in E. congruence. }
    rewrite (others_absent _ _ Hin) in *. rewrite length_app. cbn [length].
    destruct (Nat.leb_spec maxSynthStatements (length l)) as [Hfull|Hroom].
    + destruct l as [|[o sto] l]; [by unfold maxSynthStatements in Hfull; cbn in Hfull; lia|].
      rewrite <- app_comm_cons, fmap_cons in Hnd'. rewrite fmap_cons. rewrite fmap_cons in Hin. cbn [fst] in *.
      replace (length ((o, sto) :: l) + 1 - maxSynthStatements) with 1 by (cbn [length] in *; lia).
      eexists. split; [done|]. cbn [app drop]. rewrite drop_0. apply list.NoDup_cons in Hnd' as [Hno Hnd']. split; [done|].
      split; [by cbn [order]; rewrite fmap_app|]. split; [by rewrite length_app; cbn [length] in *; lia|].
      intros n st. cbn [statements]. assert (o <> name) by set_solver. rewrite <- delete_insert_ne by done.
      rewrite lookup_delete_Some, Hins. cbn [app]. rewrite list.elem_of_cons. split; [naive_solver|].
      intros Hi. split; [|auto]. intros ->. apply Hno. apply (list_elem_of_fmap fst). by exists (n, st).
    + replace (length l + 1 - maxSynthStatements) with 0 by lia. eexists. split; [done|]. rewrite drop_0. split; [done|].
      split; [by cbn [order]; rewrite fmap_app|]. split; [by rewrite length_app; cbn [length]; lia|done].
Qed.

Lemma Close_implements s l name : implements s l -> implements (CloseStatement s name) (spec_exec l (CloseName name)).
Proof.
  intros (Hnd & Ho & Hlen & Hl). cbn [spec_exec]. split; [by apply others_NoDup|]. split; [by cbn; rewrite Ho, remove_name_others|].
  split; [unfold others; pose proof (length_filter (fun x => x.1 <> name) l); lia|].
  intros n st. cbn [CloseStatement statements]. rewrite lookup_delete_Some, elem_of_others, Hl. naive_solver.
Qed.

Lemma run_implements ops s l : implements s l -> exists s', run ops s = Ok s' /\ implements s' (fold_left spec_exec ops l).
Proof.
  revert s l. induction ops as [|o ops IH]; intros s l Hs; [by exists s|]. cbn [run fold_left].
  destruct o as [name query oids|name]; cbn [exec].
  - destruct (Register_implements s l name query oids Hs) as (s' & -> & Hs'). by apply IH.
  - cbn [res_bind]. by apply IH, Close_implements.
Qed.

(** the registry of prepared statements is the list of the statements
    registered and not closed, at most [maxSynthStatements] of them, of which the least
    recently registered goes first: after any sequence of operations, none of which
    panics, [GetStatement] finds exactly the statements of that list. *)
Theorem Synthesizer_refines ops :
  exists s, run ops NewSynthesizer = Ok s /\
    let l := fold_left spec_exec ops [] in
    length l <= maxSynthStatements /\ NoDup l.*1 /\
    forall name st, GetStatement s name = Some st <-> (name, st) ∈ l.
Proof.
  destruct (run_implements ops NewSynthesizer []) as (s & Hr & Hnd & Ho & Hlen & Hl).
  - split; [constructor|]. split; [done|]. split; [cbn; lia|]. intros n st. cbn. rewrite lookup_empty. set_solver.
  - exists s. split; [done|]. by split.
Qed.
