(* ===== verification/Timeout.v ===== *)
(** * Query timeouts (ExtractTimeoutHint of internal/router/parser.go)

    The per-query timeout of a hint comment, with the part of [time.ParseDuration]
    that the hint's regular expression lets through: one number, with or without a
    fraction, and one unit. *)

From S2P Require Import Prelude GoStrings GoFloat SqlLex Classify Float64.
From Stdlib Require Import Floats.SpecFloat.

Local Open Scope Z_scope.

(** The digits at the start of [s], and what follows. *)
Fixpoint span_digits (s : bytes) : bytes * bytes :=
  match s with
  | c :: s' => if is_digit c then let '(d, r) := span_digits s' in (c :: d, r) else ([], s)
  | [] => ([], [])
  end.

(** [leadingInt]: [None] on overflow. *)
Fixpoint leadingInt (x : Z) (s : bytes) : option Z :=
  match s with
  | [] => Some x
  | c :: s' =>
      if 2 ^ 63 / 10 <? x then None
      else let x' := x * 10 + (bz c - 48) in if 2 ^ 63 <? x' then None else leadingInt x' s'
  end.

(** [leadingFraction]: digits past an overflow are dropped. *)
Fixpoint leadingFraction (x : Z) (scale : float64) (s : bytes) : Z * float64 :=
  match s with
  | [] => (x, scale)
  | c :: s' =>
      if (2 ^ 63 - 1) / 10 <? x then (x, scale)
      else let y := x * 10 + (bz c - 48) in
           if 2 ^ 63 <? y then (x, scale) else leadingFraction y (f_mul scale (f_of_Z 10)) s'
  end.

(** [uint64(f)] of a non-negative value. *)
Definition f_to_uint (f : float64) : Z :=
  match f with
  | S754_finite false m e => if 0 <=? e then Zpos m * 2 ^ e else Zpos m / 2 ^ (- e)
  | _ => 0
  end.

(** [time.ParseDuration] of the digits [int], the fraction [frac] and a unit. *)
Definition ParseDuration (int frac : bytes) (unit : Z) : option Duration :=
  match leadingInt 0 int with
  | None => None
  | Some v =>
      let '(f, scale) := leadingFraction 0 f_one frac in
      if 2 ^ 63 / unit <? v then None
      else
        let v := v * unit in
        let v := if 0 <? f then v + f_to_uint (f_mul (f_of_Z f) (f_div (f_of_Z unit) scale)) else v in
        if (0 <? f) && (2 ^ 63 <? v) then None
        else if 2 ^ 63 - 1 <? v then None else Some v
  end.

(** The unit of the regular expression: [s], [ms] or [m]. *)
Definition hint_unit (s : bytes) : option (Z * bytes) :=
  if HasPrefix s $"s" then Some (Second, drop 1 s)
  else if HasPrefix s $"ms" then Some (1000000, drop 2 s)
  else if HasPrefix s $"m" then Some (Minute, drop 1 s)
  else None.

(** [timeoutHintRegex] matched at the start of [s]: the parts of the submatch. *)
Definition timeout_at (s : bytes) : option (bytes * bytes * Z) :=
  if HasPrefix s $"/*" then
    let s1 := skip_re_space (drop 2 s) in
    if HasPrefix s1 $"timeout:" then
      let '(int, s2) := span_digits (drop 8 s1) in
      let '(frac, s3) := match s2 with
                         | c :: s2' => if (c =b ".") then match span_digits s2' with ([], _) => ([], s2) | x => x end else ([], s2)
                         | [] => ([], s2)
                         end in
      match int, hint_unit s3 with
      | [], _ | _, None => None
      | _, Some (unit, s4) => if HasPrefix (skip_re_space s4) $"*/" then Some (int, frac, unit) else None
      end
    else None
  else None.

(** The leftmost match. *)
Fixpoint find_timeout (s : bytes) : option (bytes * bytes * Z) :=
  match timeout_at s with
  | Some h => Some h
  | None => match s with [] => None | _ :: s' => find_timeout s' end
  end.

Definition ExtractTimeoutHint (query : bytes) : Duration :=
  match find_timeout (stripStringLiterals query) with
  | Some (int, frac, unit) =>
      match ParseDuration int frac unit with
      | Some d => if 0 <? d then d else 0
      | None => 0
      end
  | None => 0
  end.

(** [resolveQueryTimeout] of the proxy: a hint overrides the configured timeout. *)
Definition resolveQueryTimeout (query : bytes) (queryTimeout : Duration) : Duration :=
  let hint := ExtractTimeoutHint query in if 0 <? hint then hint else queryTimeout.

(** ** Properties *)

Lemma ExtractTimeoutHint_range query : 0 <= ExtractTimeoutHint query <= MaxInt64.
Proof.
  unfold ExtractTimeoutHint. destruct (find_timeout _) as [[[int frac] u]|]; [|done].
  destruct (ParseDuration int frac u) as [d|] eqn:E; [|done]. destruct (Z.ltb_spec 0 d); [|done].
  unfold ParseDuration in E. destruct (leadingInt 0 int); [|done]. destruct (leadingFraction 0 f_one frac).
  destruct (_ <? _) in E; [done|]. destruct (_ && _) in E; [done|]. destruct (2 ^ 63 - 1 <? _) eqn:El in E; [done|]. bool_to_prop.
  injection E as <-. unfold MaxInt64. lia.
Qed.

Lemma leadingInt_value x s : Forall (fun c => is_digit c = true) s -> 0 <= x ->
  fold_left (fun a c => a * 10 + (bz c - 48)) s x < 2 ^ 63 ->
  leadingInt x s = Some (fold_left (fun a c => a * 10 + (bz c - 48)) s x).
Proof.
  revert x. induction s as [|c s IH]; intros x Hs Hx Hlt; [done|]. apply list.Forall_cons in Hs as [Hc Hs].
  cbn [leadingInt fold_left] in *. assert (0 <= bz c - 48 <= 9) as Hd.
  { unfold is_digit, byte_in in Hc. bool_to_prop. change (bz "0") with 48 in *. change (bz "9") with 57 in *. lia. }
  assert (forall t y, 0 <= y -> Forall (fun c => is_digit c = true) t -> y <= fold_left (fun a c => a * 10 + (bz c - 48)) t y) as Hmono.
  { clear. induction t as [|c t IH]; intros y Hy Ht; [done|]. apply list.Forall_cons in Ht as [Hc Ht]. cbn [fold_left].
    unfold is_digit, byte_in in Hc. bool_to_prop. change (bz "0") with 48 in *. etrans; [|apply IH]; [|lia|done]. lia. }
  pose proof (Hmono s (x * 10 + (bz c - 48)) ltac:(lia) Hs). rewrite (proj2 (Z.ltb_ge _ _)) by (Z.div_mod_to_equations; lia).
  rewrite (proj2 (Z.ltb_ge _ _)) by lia. apply IH; [done|lia|done].
Qed.

(** A hint without a fraction is its number of units, as long as that fits a duration. *)
Lemma ParseDuration_integer ds unit : Forall (fun c => is_digit c = true) ds -> 0 < unit ->
  let v := fold_left (fun a c => a * 10 + (bz c - 48)) ds 0 in
  v * unit <= MaxInt64 -> ParseDuration ds [] unit = Some (v * unit).
Proof.
  intros Hds Hu v Hv. unfold ParseDuration, MaxInt64 in *. rewrite leadingInt_value; [|done|done|fold v; nia]. fold v. cbn [leadingFraction].
  rewrite (proj2 (Z.ltb_ge _ _)) by (apply Z.div_le_lower_bound; lia). cbn. by rewrite (proj2 (Z.ltb_ge _ _)) by lia.
Qed.

(** [timeout:250ms] and [timeout:1.5s] are read as such; a hint in a string is not one. *)
Example timeout_hints :
  ExtractTimeoutHint $"/* timeout:250ms */ SELECT 1" = 250000000 /\
  ExtractTimeoutHint $"SELECT 1 /*timeout:1.5s*/" = 1500000000 /\
  ExtractTimeoutHint $"SELECT '/* timeout:5s */'" = 0 /\
  ExtractTimeoutHint $"/* timeout:99999999999999999999s */ SELECT 1" = 0.
Proof. by vm_compute. Qed.
