(* ===== verification/Relay.v ===== *)
(** * Relaying between client and backend (internal/proxy/copy.go and parts of backend.go, lsn.go, cancel.go)

    What one session does to its connections. The world of a session holds what the
    client and every backend connection will still send (the end of a stream is a
    closed connection), which of the next writes fail, and what a pool answers to
    a request, depending on what happened so far: a theorem holds for all of them. Everything the session does
    is recorded in a trace. Code that can fail or panic returns [res]; an error value
    carries no more than that there is one, since the code only tests it for nil. *)

From S2P Require Import Prelude GoStrings Wire Lsn Pool.

Local Open Scope nat_scope.

Inductive event :=
| EvAcquire (p : pool_loc) (c : Pool.Conn)
| EvNoConn (p : pool_loc)
| EvRelease (p : pool_loc) (c : Pool.Conn)
| EvDiscard (p : pool_loc) (c : Pool.Conn)
| EvSend (c : Pool.Conn) (bs : bytes) (ok : bool)   (* a write to a backend, and whether it succeeded *)
| EvClient (bs : bytes)                             (* bytes the client receives *)
| EvTarget (addr : bytes) (c : Pool.Conn)           (* a cancel request would go to [c] *)
| EvNoTarget
| EvTimer (d : Duration)                            (* a query timer was started *)
| EvTimerStop
| EvPublish (tables : list bytes).

Record World {S : Type} := mkWorld {
  cin : bytes;
  bin : gmap nat bytes;
  faults : list bool;
  grants : pool_loc -> list event -> option Pool.Conn;
  trace : list event;
  sh : S
}.
Arguments World : clear implicits.

Section Monad.
Context {S : Type}.

Definition M (A : Type) : Type := World S -> res unit A * World S.

Definition ret {A} (a : A) : M A := fun w => (Ok a, w).
Definition fail {A} : M A := fun w => (Err tt, w).
Definition panic {A} : M A := fun w => (Panic, w).
Definition bind {A C} (m : M A) (k : A -> M C) : M C := fun w =>
  match m w with
  | (Ok a, w') => k a w'
  | (Err e, w') => (Err e, w')
  | (Panic, w') => (Panic, w')
  end.

(** [if err := m(); err != nil]: the error as a value. *)
Definition attempt {A} (m : M A) : M (option A) := fun w =>
  match m w with
  | (Ok a, w') => (Ok (Some a), w')
  | (Err _, w') => (Ok None, w')
  | (Panic, w') => (Panic, w')
  end.

Definition get : M S := fun w => (Ok (sh w), w).
Definition modify (f : S -> S) : M unit := fun w =>
  (Ok tt, {| cin := cin w; bin := bin w; faults := faults w; grants := grants w; trace := trace w; sh := f (sh w) |}).
Definition lift {A} (r : res unit A) : M A := fun w => (r, w).

Definition emit (e : event) : M unit := fun w =>
  (Ok tt, {| cin := cin w; bin := bin w; faults := faults w; grants := grants w; trace := trace w ++ [e]; sh := sh w |}).

(** ** Reasoning about sessions: one postcondition on outcome and world *)

Definition wp {A} (m : M A) (Q : res unit A -> World S -> Prop) (w : World S) : Prop :=
  match m w with (r, w') => Q r w' end.

Lemma wp_mono {A} (m : M A) (Q Q' : res unit A -> World S -> Prop) w :
  wp m Q w -> (forall r w', Q r w' -> Q' r w') -> wp m Q' w.
Proof. unfold wp. destruct (m w). auto. Qed.

Lemma wp_bind {A C} (m : M A) (k : A -> M C) Q w :
  wp m (fun r w' => match r with Ok a => wp (k a) Q w' | Err e => Q (Err e) w' | Panic => Q Panic w' end) w ->
  wp (bind m k) Q w.
Proof. unfold wp, bind. by destruct (m w) as [[] ?]. Qed.

(** The whole of [m], to end a sequence. *)
Lemma wp_last {A} (m : M A) Q w : wp (bind m ret) Q w -> wp m Q w.
Proof. unfold wp, bind, ret. by destruct (m w) as [[] ?]. Qed.

Lemma wp_assoc {A B C} (m : M A) (k : A -> M B) (k' : B -> M C) Q w : wp (bind m (fun x => bind (k x) k')) Q w -> wp (bind (bind m k) k') Q w.
Proof. unfold wp, bind. by destruct (m w) as [[] ?]. Qed.

Lemma wp_attempt {A} (m : M A) (Q : res unit (option A) -> World S -> Prop) w :
  wp m (fun r w' => match r with Ok a => Q (Ok (Some a)) w' | Err _ => Q (Ok None) w' | Panic => Q Panic w' end) w ->
  wp (attempt m) Q w.
Proof. unfold wp, attempt. by destruct (m w) as [[] ?]. Qed.

Lemma bind_Ok {A C} (m : M A) (k : A -> M C) w c w' :
  bind m k w = (Ok c, w') -> exists a w1, m w = (Ok a, w1) /\ k a w1 = (Ok c, w').
Proof. unfold bind. destruct (m w) as [[] w1]; try done. eauto. Qed.
End Monad.

Arguments M : clear implicits.

Notation "x <-! c1 ; c2" := (bind c1 (fun x => c2)) (at level 20, c1 at level 100, c2 at level 200) : go_scope.
Notation "' p <-! c1 ; c2" := (bind c1 (fun x => match x with p => c2 end))
  (at level 20, p pattern, c1 at level 100, c2 at level 200) : go_scope.
Notation "c1 ;! c2" := (bind c1 (fun _ => c2)) (at level 100, right associativity) : go_scope.

Section Relay.
Context {S : Type}.
Local Abbreviation M := (M S).

(** ** Connections *)

(** The outcome of the next write. *)
Definition next_write : M bool := fun w =>
  match faults w with
  | [] => (Ok true, w)
  | f :: fs => (Ok (negb f), {| cin := cin w; bin := bin w; faults := fs; grants := grants w; trace := trace w; sh := sh w |})
  end.

Definition write_client (bs : bytes) : M bool :=
  ok <-! next_write; if ok then emit (EvClient bs) ;! ret true else ret false.

Definition write_backend (c : Pool.Conn) (bs : bytes) : M bool :=
  ok <-! next_write; emit (EvSend c bs ok) ;! ret ok.

(** A write whose error is returned. *)
Definition must_client (bs : bytes) : M unit := ok <-! write_client bs; if ok then ret tt else fail.
Definition must_backend (c : Pool.Conn) (bs : bytes) : M unit := ok <-! write_backend c bs; if ok then ret tt else fail.

Definition read_client : M Message := fun w =>
  match ReadMessage (cin w) with
  | Ok (m, r) => (Ok m, {| cin := r; bin := bin w; faults := faults w; grants := grants w; trace := trace w; sh := sh w |})
  | Err _ => (Err tt, w)
  | Panic => (Panic, w)
  end.

(** What the backend will still send on [c]. *)
Definition stream (c : Pool.Conn) (w : World S) : bytes := default [] (bin w !! Pool.conn_id c).

Definition set_stream (c : Pool.Conn) (r : bytes) (w : World S) : World S :=
  {| cin := cin w; bin := <[Pool.conn_id c := r]> (bin w); faults := faults w; grants := grants w; trace := trace w; sh := sh w |}.

Definition read_backend (c : Pool.Conn) : M Message := fun w =>
  match ReadMessage (stream c w) with
  | Ok (m, r) => (Ok m, set_stream c r w)
  | Err _ => (Err tt, w)
  | Panic => (Panic, w)
  end.

(** Loops over the messages of a stream: a round reads at least one message, so the
    length of the stream bounds their number. *)
Definition rounds_client (loop : nat -> M unit) : M unit := fun w => loop (Datatypes.S (length (cin w))) w.
Definition rounds_backend (c : Pool.Conn) {A} (loop : nat -> M A) : M A := fun w => loop (Datatypes.S (length (stream c w))) w.

(** ** COPY *)

Fixpoint relayCopyIn_loop (c : Pool.Conn) (rounds : nat) : M unit :=
  match rounds with
  | O => fail
  | Datatypes.S n =>
      msg <-! read_client;
      must_backend c (ForwardRaw msg) ;!
      if (mType msg =b Msg.CopyDone) || (mType msg =b Msg.CopyFail) then ret tt
      else if (mType msg =b Msg.CopyData) then relayCopyIn_loop c n
      else ret tt
  end.
Definition relayCopyIn (c : Pool.Conn) : M unit := rounds_client (relayCopyIn_loop c).

Fixpoint relayCopyOut_loop (c : Pool.Conn) (rounds : nat) : M unit :=
  match rounds with
  | O => fail
  | Datatypes.S n =>
      msg <-! read_backend c;
      must_client (ForwardRaw msg) ;!
      if (mType msg =b Msg.CopyDone) then ret tt
      else if (mType msg =b Msg.CopyData) then relayCopyOut_loop c n
      else ret tt
  end.
Definition relayCopyOut (c : Pool.Conn) : M unit := rounds_backend c (relayCopyOut_loop c).

(** The two goroutines of [relayCopyBoth]. *)
Fixpoint copyBoth_to_client (c : Pool.Conn) (rounds : nat) : M unit :=
  match rounds with
  | O => fail
  | Datatypes.S n =>
      msg <-! read_backend c;
      must_client (ForwardRaw msg) ;!
      if (mType msg =b Msg.CopyDone) then ret tt else copyBoth_to_client c n
  end.

Fixpoint copyBoth_to_backend (c : Pool.Conn) (rounds : nat) : M unit :=
  match rounds with
  | O => fail
  | Datatypes.S n =>
      msg <-! read_client;
      must_backend c (ForwardRaw msg) ;!
      if (mType msg =b Msg.CopyDone) || (mType msg =b Msg.CopyFail) then ret tt else copyBoth_to_backend c n
  end.

(** They run concurrently on separate streams, and both end before the function
    returns: only the order of their steps in the trace depends on the schedule, and
    the one in which the backend's goes first is taken. *)
Definition relayCopyBoth (c : Pool.Conn) : M unit :=
  e1 <-! attempt (rounds_backend c (copyBoth_to_client c));
  e2 <-! attempt (rounds_client (copyBoth_to_backend c));
  match e1, e2 with
  | Some _, Some _ => ret tt
  | _, _ => fail
  end.

(** ** Responses *)

(** The header and the payload [relayUntilReady] reads into its wire buffer. *)
Definition read_wire (c : Pool.Conn) : M (byte * bytes) := fun w =>
  match ReadFull 5 (stream c w) with
  | None => (Err tt, w)
  | Some (hdr, r1) =>
      let length := be_value (drop 1 hdr) in
      if (length <? 4)%Z then (Err tt, w)
      else
        let payloadLen := (length - 4)%Z in
        if (MaxMessageSize <? payloadLen)%Z then (Err tt, w)
        else match ReadFull (Z.to_nat payloadLen) r1 with
             | None => (Err tt, w)
             | Some (body, r2) => (Ok (hd x00 hdr, hdr ++ body), set_stream c r2 w)
             end
  end.

Fixpoint relay_loop (c : Pool.Conn) (rounds : nat) : M unit :=
  match rounds with
  | O => fail
  | Datatypes.S n =>
      '(msgType, wire) <-! read_wire c;
      must_client wire ;!
      if (msgType =b Msg.ReadyForQuery) then ret tt
      else if (msgType =b Msg.CopyInResponse) then relayCopyIn c ;! relay_loop c n
      else if (msgType =b Msg.CopyOutResponse) then relayCopyOut c ;! relay_loop c n
      else if (msgType =b Msg.CopyBothResponse) then relayCopyBoth c ;! relay_loop c n
      else relay_loop c n
  end.
Definition relayUntilReady (c : Pool.Conn) : M unit := rounds_backend c (relay_loop c).

Definition forwardAndRelay (c : Pool.Conn) (msg : Message) : M unit :=
  must_backend c (ForwardRaw msg) ;! relayUntilReady c.

(** [buf] collects the wire bytes, [None] when it was given up. *)
Fixpoint collect_loop (c : Pool.Conn) (maxSize : Z) (buf : option bytes) (rounds : nat) : M (option bytes) :=
  match rounds with
  | O => fail
  | Datatypes.S n =>
      msg <-! read_backend c;
      let wireBytes := default [] (mRaw msg) in
      must_client wireBytes ;!
      let buf := match buf with
                 | Some b =>
                     let b := b ++ wireBytes in
                     if (0 <? maxSize)%Z && (maxSize <? Z.of_nat (length b))%Z then None else Some b
                 | None => None
                 end in
      if (mType msg =b Msg.ReadyForQuery) then ret buf
      else if (mType msg =b Msg.CopyInResponse) then relayCopyIn c ;! collect_loop c maxSize None n
      else if (mType msg =b Msg.CopyOutResponse) then relayCopyOut c ;! collect_loop c maxSize None n
      else if (mType msg =b Msg.CopyBothResponse) then relayCopyBoth c ;! collect_loop c maxSize None n
      else collect_loop c maxSize buf n
  end.
Definition relayAndCollect (c : Pool.Conn) (maxSize : Z) : M (option bytes) := rounds_backend c (collect_loop c maxSize (Some [])).

(** ** Messages of the proxy's own (helpers.go) *)

(** A write whose error is ignored. *)
Definition try_client (bs : bytes) : M unit := _ <-! write_client bs; ret tt.

Definition sendReadyForQuery (inTransaction : bool) : M unit :=
  try_client (WriteMessage Msg.ReadyForQuery [if inTransaction then "T"%byte else "I"%byte]).

Definition error_payload (msg : bytes) : bytes := $"SERROR" ++ [x00] ++ $"M" ++ msg ++ [x00; x00].
Definition sendError (msg : bytes) : M unit := try_client (WriteMessage Msg.ErrorResponse (error_payload msg)).

Definition fatal_payload (code msg : bytes) : bytes := $"SFATAL" ++ [x00] ++ $"C" ++ code ++ [x00] ++ $"M" ++ msg ++ [x00; x00].
Definition sendFatalWithCode (code msg : bytes) : M unit := try_client (WriteMessage Msg.ErrorResponse (fatal_payload code msg)).

(** ** Pool operations of a session (backend.go) *)

(** The pool's answer at this point of the session: a connection, or an error. *)
Definition acquire (p : pool_loc) : M (option Pool.Conn) := fun w =>
  match grants w p (trace w) with
  | Some c => (emit (EvAcquire p c) ;! ret (Some c)) w
  | None => (emit (EvNoConn p) ;! ret None) w
  end.

(** A method of a nil pool panics. *)
Definition acquireFrom (p : option pool_loc) : M (option Pool.Conn) := match p with Some p => acquire p | None => panic end.
Definition releaseToPool (c : Pool.Conn) (p : option pool_loc) : M unit :=
  match p with Some p => emit (EvRelease p c) | None => panic end.
Definition discardToPool (c : Pool.Conn) (p : option pool_loc) : M unit :=
  match p with Some p => emit (EvDiscard p c) | None => panic end.

Fixpoint reset_loop (c : Pool.Conn) (rounds : nat) : M unit :=
  match rounds with
  | O => fail
  | Datatypes.S n =>
      msg <-! read_backend c;
      if (mType msg =b Msg.ErrorResponse) then fail
      else if (mType msg =b Msg.ReadyForQuery) then ret tt
      else reset_loop c n
  end.

Definition resetConn (resetQuery : bytes) (c : Pool.Conn) : M unit :=
  match resetQuery with
  | [] => ret tt
  | _ => must_backend c (WriteMessage Msg.Query (resetQuery ++ [x00])) ;! rounds_backend c (reset_loop c)
  end.

Definition resetAndReleaseToPool (resetQuery : bytes) (c : Pool.Conn) (p : option pool_loc) : M unit :=
  ok <-! attempt (resetConn resetQuery c);
  match ok with
  | None => discardToPool c p
  | Some _ => releaseToPool c p
  end.

(** ** LSN queries (backend.go, lsn.go) *)

(** The value of the first column of a DataRow. *)
Definition lsn_column (msg : Message) (lsnStr : bytes) : bytes :=
  if (mType msg =b Msg.DataRow) && (6 <=? length (mPayload msg))%nat then
    let colLen := be_value (take 4 (drop 2 (mPayload msg))) in
    if (0 <? colLen)%Z && (6 + colLen <=? Z.of_nat (length (mPayload msg)))%Z
    then take (Z.to_nat colLen) (drop 6 (mPayload msg)) else lsnStr
  else lsnStr.

Fixpoint lsn_loop (c : Pool.Conn) (lsnStr : bytes) (rounds : nat) : M bytes :=
  match rounds with
  | O => fail
  | Datatypes.S n =>
      msg <-! read_backend c;
      let lsnStr := lsn_column msg lsnStr in
      if (mType msg =b Msg.ErrorResponse) then fail
      else if (mType msg =b Msg.ReadyForQuery) then ret lsnStr
      else lsn_loop c lsnStr n
  end.

Definition query_lsn (sql : bytes) (c : Pool.Conn) : M LSN :=
  must_backend c (WriteMessage Msg.Query (sql ++ [x00])) ;!
  lsnStr <-! rounds_backend c (lsn_loop c []);
  match lsnStr with
  | [] => fail
  | _ => match ParseLSN lsnStr with Ok lsn => ret lsn | Err _ => fail | Panic => panic end
  end.

Definition queryCurrentLSN : Pool.Conn -> M LSN := query_lsn $"SELECT pg_current_wal_lsn()".
Definition queryReplayLSN : Pool.Conn -> M LSN := query_lsn $"SELECT pg_last_wal_replay_lsn()".

(** ** The cancel target (cancel.go) *)

Definition setFromConn (addr : bytes) (c : Pool.Conn) : M unit := emit (EvTarget addr c).
Definition clear : M unit := emit EvNoTarget.

(** ** What relaying does to the two streams *)

Definition is_ok {E A} (r : res E A) : bool := match r with Ok _ => true | _ => false end.

Definition to_client (evs : list event) : bytes :=
  concat ((fun e => match e with EvClient bs => bs | _ => [] end) <$> evs).
Definition to_backend (evs : list event) : bytes :=
  concat ((fun e => match e with EvSend _ bs true => bs | _ => [] end) <$> evs).

(** Events of a session that only talks to the client and to [c]. *)
Definition talks_to (c : Pool.Conn) (e : event) : Prop :=
  match e with EvClient _ => True | EvSend c' _ _ => c' = c | _ => False end.

(** From [w] to [w'] the session read [b] from the backend and [k] from the client,
    and did nothing but the events [evs]. *)
Record moved (c : Pool.Conn) (w w' : World S) (evs : list event) (b k : bytes) : Prop := {
  moved_trace : trace w' = trace w ++ evs;
  moved_talks : Forall (talks_to c) evs;
  moved_backend : stream c w = b ++ stream c w';
  moved_client : cin w = k ++ cin w';
  moved_others : forall c', Pool.conn_id c' <> Pool.conn_id c -> stream c' w' = stream c' w;
  moved_grants : grants w' = grants w;
  moved_sh : sh w' = sh w
}.

(** The session passed on what it read, in both directions; if it failed, it passed
    on a first part of it. *)
Definition relays (c : Pool.Conn) (ok : bool) (w w' : World S) : Prop :=
  exists evs b k, moved c w w' evs b k /\
    to_client evs `prefix_of` b /\ to_backend evs `prefix_of` k /\
    (ok = true -> to_client evs = b /\ to_backend evs = k).

Lemma to_client_app l1 l2 : to_client (l1 ++ l2) = to_client l1 ++ to_client l2.
Proof. unfold to_client. by rewrite fmap_app, concat_app. Qed.
Lemma to_backend_app l1 l2 : to_backend (l1 ++ l2) = to_backend l1 ++ to_backend l2.
Proof. unfold to_backend. by rewrite fmap_app, concat_app. Qed.

Lemma moved_refl c w : moved c w w [] [] [].
Proof. by split; rewrite ?app_nil_r. Qed.

Lemma moved_trans c w1 w2 w3 e1 e2 b1 b2 k1 k2 :
  moved c w1 w2 e1 b1 k1 -> moved c w2 w3 e2 b2 k2 -> moved c w1 w3 (e1 ++ e2) (b1 ++ b2) (k1 ++ k2).
Proof.
  intros [] []. split; try congruence.
  - rewrite app_assoc. congruence.
  - by apply Forall_app.
  - rewrite <- app_assoc. congruence.
  - rewrite <- app_assoc. congruence.
  - intros c' Hc. rewrite <- (moved_others0 c' Hc). auto.
Qed.

Lemma relays_refl c ok w : relays c ok w w.
Proof. exists [], [], []. split_and!; [apply moved_refl|done..]. Qed.

Lemma relays_trans c ok w1 w2 w3 : relays c true w1 w2 -> relays c ok w2 w3 -> relays c ok w1 w3.
Proof.
  intros (e1 & b1 & k1 & M1 & _ & _ & H1) (e2 & b2 & k2 & M2 & P2 & Q2 & H2). destruct (H1 eq_refl) as [E1 F1].
  exists (e1 ++ e2), (b1 ++ b2), (k1 ++ k2). split; [by eapply moved_trans|].
  rewrite to_client_app, to_backend_app, E1, F1. split_and!; [by apply prefix_app..|].
  intros Hok. destruct (H2 Hok) as [-> ->]. done.
Qed.

Lemma relays_weaken c ok w w' : relays c true w w' -> relays c ok w w'.
Proof. intros (e & b & k & M1 & P & Q & H). exists e, b, k. split_and!; auto. Qed.

(** What a function that only relays may do. *)
Definition relaying {A} (c : Pool.Conn) (w : World S) (r : res unit A) (w' : World S) : Prop :=
  relays c (is_ok r) w w' /\ r <> Panic.

Lemma stream_set c r w : stream c (set_stream c r w) = r.
Proof. unfold stream, set_stream. cbn. by rewrite lookup_insert_eq. Qed.

Lemma stream_set_ne c c' r w : Pool.conn_id c' <> Pool.conn_id c -> stream c' (set_stream c r w) = stream c' w.
Proof. intros. unfold stream, set_stream. cbn. by rewrite lookup_insert_ne. Qed.

Lemma ReadMessage_no_panic r : ReadMessage r <> Panic.
Proof. unfold ReadMessage. by repeat case_match. Qed.

Lemma ReadMessage_split r m rest : ReadMessage r = Ok (m, rest) -> r = ForwardRaw m ++ rest /\ default [] (mRaw m) = ForwardRaw m.
Proof. intros (t & len & body & -> & ? & ? & ? & ->)%ReadMessage_Ok. unfold ForwardRaw. cbn. by rewrite <- !app_assoc. Qed.

Lemma read_wire_spec c w :
  read_wire c w = match read_backend c w with
                  | (Ok m, w') => (Ok (mType m, ForwardRaw m), w')
                  | (Err e, w') => (Err e, w')
                  | (Panic, w') => (Panic, w')
                  end.
Proof.
  unfold read_wire, read_backend, ReadMessage. destruct (ReadFull 5 (stream c w)) as [[hdr r1]|] eqn:E; [|done].
  destruct (_ <? 4)%Z; [done|]. destruct (MaxMessageSize <? _)%Z; [done|]. destruct (ReadFull _ r1) as [[body r2]|]; [|done].
  apply ReadFull_Some in E as [_ E]. by destruct hdr.
Qed.

(** One message from the backend to the client. *)
Lemma wp_to_client {A} c (f : Message -> M A) Q w :
  (forall w' b, moved c w w' [] b [] -> Q (Err tt) w') ->
  (forall msg w', ReadMessage (stream c w) = Ok (msg, stream c w') ->
     moved c w w' [EvClient (ForwardRaw msg)] (ForwardRaw msg) [] -> wp (f msg) Q w') ->
  wp (msg <-! read_backend c; must_client (ForwardRaw msg) ;! f msg) Q w.
Proof.
  intros Herr Hok. unfold wp, bind at 1, read_backend.
  pose proof (ReadMessage_no_panic (stream c w)). destruct (ReadMessage (stream c w)) as [[m r]| |] eqn:E; [|apply (Herr w []), moved_refl|done].
  destruct (ReadMessage_split _ _ _ E) as [Hs _].
  assert (forall fs evs, Forall (talks_to c) evs ->
    let w' := {| cin := cin w; bin := <[Pool.conn_id c := r]> (bin w); faults := fs; grants := grants w; trace := trace w ++ evs; sh := sh w |} in
    stream c w' = r /\ moved c w w' evs (ForwardRaw m) []) as Hm.
  { intros fs evs Hevs w'. assert (stream c w' = r) as Hr by apply (stream_set c r w).
    split; [done|]. split; rewrite ?Hr; auto. intros c' Hc. by apply (stream_set_ne c c' r w). }
  unfold bind at 1, must_client, write_client, next_write, bind, emit, ret, fail. cbn [faults set_stream].
  destruct (faults w) as [|[] fs]; cbn [negb fst snd].
  - destruct (Hm (faults w) [EvClient (ForwardRaw m)]) as [Hr Hmv]; [by repeat constructor|]. refine (Hok m _ _ Hmv). by rewrite Hr.
  - destruct (Hm fs []) as [_ Hmv]; [done|]. rewrite app_nil_r in Hmv. by eapply Herr.
  - destruct (Hm fs [EvClient (ForwardRaw m)]) as [Hr Hmv]; [by repeat constructor|]. refine (Hok m _ _ Hmv). by rewrite Hr.
Qed.

(** One message from the client to the backend. *)
Lemma wp_to_backend {A} c (f : Message -> M A) Q w :
  (forall w' evs k, moved c w w' evs [] k -> to_client evs = [] -> to_backend evs = [] -> Q (Err tt) w') ->
  (forall msg w', ReadMessage (cin w) = Ok (msg, cin w') ->
     moved c w w' [EvSend c (ForwardRaw msg) true] [] (ForwardRaw msg) -> wp (f msg) Q w') ->
  wp (msg <-! read_client; must_backend c (ForwardRaw msg) ;! f msg) Q w.
Proof.
  intros Herr Hok. unfold wp, bind at 1, read_client.
  pose proof (ReadMessage_no_panic (cin w)). destruct (ReadMessage (cin w)) as [[m r]| |] eqn:E; [|by apply (Herr w [] []); [apply moved_refl|..]|done].
  destruct (ReadMessage_split _ _ _ E) as [Hs _].
  unfold bind at 1, must_backend, write_backend, next_write, bind, emit, ret, fail. cbn [faults].
  destruct (faults w) as [|[] fs]; cbn [negb fst snd].
  - apply (Hok m); [done|]. split; cbn; auto; by repeat constructor.
  - eapply (Herr _ [EvSend c (ForwardRaw m) false]); [|done..]. split; cbn; auto; by repeat constructor.
  - apply (Hok m); [done|]. split; cbn; auto; by repeat constructor.
Qed.

Lemma relays_nothing c ok w w' evs b k :
  moved c w w' evs b k -> to_client evs = [] -> to_backend evs = [] -> (ok = true -> b = [] /\ k = []) -> relays c ok w w'.
Proof. intros Hm Hc Hb Hok. exists evs, b, k. rewrite Hc, Hb. split_and!; [done|apply prefix_nil..|]. intros [-> ->]%Hok. done. Qed.

Lemma relays_client c ok w w' bs : moved c w w' [EvClient bs] bs [] -> relays c ok w w'.
Proof.
  intros Hm. exists [EvClient bs], bs, []. unfold to_client, to_backend. cbn. rewrite app_nil_r. by split_and!.
Qed.

Lemma relays_backend c ok w w' bs : moved c w w' [EvSend c bs true] [] bs -> relays c ok w w'.
Proof.
  intros Hm. exists [EvSend c bs true], [], bs. unfold to_client, to_backend. cbn. rewrite app_nil_r. by split_and!.
Qed.

Lemma relaying_trans {A} c w w1 (r : res unit A) w2 : relays c true w w1 -> relaying c w1 r w2 -> relaying c w r w2.
Proof. intros H [H1 H2]. split; [by eapply relays_trans|done]. Qed.

(** Relaying one message, then more of it. *)
Lemma wp_relay_client {A} c (f : Message -> M A) w :
  (forall msg w', ReadMessage (stream c w) = Ok (msg, stream c w') -> wp (f msg) (relaying c w') w') ->
  wp (msg <-! read_backend c; must_client (ForwardRaw msg) ;! f msg) (relaying c w) w.
Proof.
  intros Hf. apply wp_to_client.
  - intros w' b Hm. split; [|done]. by eapply relays_nothing.
  - intros msg w' Hr Hm. eapply wp_mono; [by apply Hf|]. intros r w2. apply relaying_trans. by eapply relays_client.
Qed.

Lemma wp_relay_backend {A} c (f : Message -> M A) w :
  (forall msg w', ReadMessage (cin w) = Ok (msg, cin w') -> wp (f msg) (relaying c w') w') ->
  wp (msg <-! read_client; must_backend c (ForwardRaw msg) ;! f msg) (relaying c w) w.
Proof.
  intros Hf. apply wp_to_backend.
  - intros w' evs k Hm Hc Hb. split; [|done]. by eapply relays_nothing.
  - intros msg w' Hr Hm. eapply wp_mono; [by apply Hf|]. intros r w2. apply relaying_trans. by eapply relays_backend.
Qed.

Lemma wp_relay_bind {A C} c (m : M A) (k : A -> M C) w :
  wp m (relaying c w) w -> (forall a w', wp (k a) (relaying c w') w') -> wp (bind m k) (relaying c w) w.
Proof.
  intros Hm Hk. apply wp_bind. eapply wp_mono; [exact Hm|]. intros [a|e|] w' [H Hp]; [|done..].
  eapply wp_mono; [apply Hk|]. intros r w2. by apply relaying_trans.
Qed.

Lemma wp_relay_ret {A} c (a : A) w : wp (ret a) (relaying c w) w.
Proof. split; [apply relays_refl|done]. Qed.

Lemma wp_relay_fail {A} c w : wp (fail : M A) (relaying c w) w.
Proof. split; [apply relays_refl|done]. Qed.

Hint Resolve wp_relay_ret wp_relay_fail : pgmux.

Lemma wp_rounds_client (loop : nat -> M unit) Q w : (forall n, wp (loop n) Q w) -> wp (rounds_client loop) Q w.
Proof. intros H. apply H. Qed.

Lemma wp_rounds_backend c {A} (loop : nat -> M A) Q w : (forall n, wp (loop n) Q w) -> wp (rounds_backend c loop) Q w.
Proof. intros H. apply H. Qed.

Lemma relayCopyIn_relaying c w : wp (relayCopyIn c) (relaying c w) w.
Proof.
  apply wp_rounds_client. intros n. revert w. induction n as [|n IH]; intros w; cbn [relayCopyIn_loop]; auto with pgmux.
  apply wp_relay_backend. intros msg w' _. repeat case_match; auto with pgmux.
Qed.

Lemma relayCopyOut_relaying c w : wp (relayCopyOut c) (relaying c w) w.
Proof.
  apply wp_rounds_backend. intros n. revert w. induction n as [|n IH]; intros w; cbn [relayCopyOut_loop]; auto with pgmux.
  apply wp_relay_client. intros msg w' _. repeat case_match; auto with pgmux.
Qed.

(** The goroutines of [relayCopyBoth] each serve one direction only. *)
Definition one_way (c : Pool.Conn) (up : bool) (w : World S) (r : res unit unit) (w' : World S) : Prop :=
  r <> Panic /\ exists evs bs,
    let passed := if up then to_backend evs else to_client evs in
    moved c w w' evs (if up then [] else bs) (if up then bs else []) /\
    (if up then to_client evs else to_backend evs) = [] /\
    passed `prefix_of` bs /\ (is_ok r = true -> passed = bs).

Lemma one_way_step c (up : bool) w w1 e bs r w2 :
  (e = if up then EvSend c bs true else EvClient bs) ->
  moved c w w1 [e] (if up then [] else bs) (if up then bs else []) -> one_way c up w1 r w2 -> one_way c up w r w2.
Proof.
  intros -> Hm [Hp (evs & bs' & Hm' & Ho & Hpre & Hok)]. split; [done|].
  exists ((if up then EvSend c bs true else EvClient bs) :: evs), (bs ++ bs').
  pose proof (moved_trans _ _ _ _ _ _ _ _ _ _ Hm Hm') as Ht. cbv zeta in *. unfold to_client, to_backend in *.
  destruct up; cbn in *; split_and!; try done; try by apply prefix_app.
  - by intros ->%Hok.
  - by intros ->%Hok.
Qed.

Lemma copyBoth_to_client_one_way c n w : wp (copyBoth_to_client c n) (one_way c false w) w.
Proof.
  revert w. induction n as [|n IH]; intros w; cbn [copyBoth_to_client].
  { split; [done|]. exists [], []. split_and!; [apply moved_refl|done..]. }
  apply wp_to_client.
  - intros w' b Hm. split; [done|]. exists [], b. split_and!; [done..|apply prefix_nil|done].
  - intros msg w' _ Hm. eapply wp_mono; [|intros r w2; exact (one_way_step c false _ _ _ _ _ _ eq_refl Hm)].
    case_match; [|apply IH]. split; [done|]. exists [], []. split_and!; [apply moved_refl|done..].
Qed.

Lemma copyBoth_to_backend_one_way c n w : wp (copyBoth_to_backend c n) (one_way c true w) w.
Proof.
  revert w. induction n as [|n IH]; intros w; cbn [copyBoth_to_backend].
  { split; [done|]. exists [], []. split_and!; [apply moved_refl|done..]. }
  apply wp_to_backend.
  - intros w' evs k Hm Hc Hb. split; [done|]. exists evs, k. cbv zeta. rewrite Hb. split_and!; [done..|apply prefix_nil|done].
  - intros msg w' _ Hm. eapply wp_mono; [|intros r w2; exact (one_way_step c true _ _ _ _ _ _ eq_refl Hm)].
    case_match; [|apply IH]. split; [done|]. exists [], []. split_and!; [apply moved_refl|done..].
Qed.

Lemma relayCopyBoth_relaying c w : wp (relayCopyBoth c) (relaying c w) w.
Proof.
  apply wp_bind, wp_attempt. eapply wp_mono; [apply wp_rounds_backend; intros n; apply copyBoth_to_client_one_way|].
  intros r1 w1 [Hp1 (e1 & b & M1 & O1 & P1 & K1)].
  assert (wp (bind (attempt (rounds_client (copyBoth_to_backend c)))
                 (fun e2 : option unit => match is_ok r1, e2 with true, Some _ => ret tt | _, _ => fail end))
             (relaying c w) w1) as Hw; [|by destruct r1 as [[]|[]|]; [exact Hw|exact Hw|done]].
  apply wp_bind, wp_attempt. eapply wp_mono; [apply wp_rounds_client; intros n; apply copyBoth_to_backend_one_way|].
  intros r2 w2 [Hp2 (e2 & k & M2 & O2 & P2 & K2)].
  assert (forall ok, (ok = true -> is_ok r1 = true /\ is_ok r2 = true) -> relays c ok w w2) as Hr.
  { intros ok Hok. exists (e1 ++ e2), b, k. pose proof (moved_trans _ _ _ _ _ _ _ _ _ _ M1 M2) as Ht.
    rewrite app_nil_r in Ht. rewrite to_client_app, to_backend_app, O1, O2, app_nil_r. split_and!; try done.
    intros [E1 E2]%Hok. auto. }
  destruct (is_ok r1), r2 as [[]|[]|]; try done; (split; [by apply Hr|done]).
Qed.

Hint Resolve relayCopyIn_relaying relayCopyOut_relaying relayCopyBoth_relaying : pgmux.


Lemma read_wire_bind {A} c (f : byte -> bytes -> M A) w :
  bind (read_wire c) (fun x => match x with (t, wire) => f t wire end) w =
  bind (read_backend c) (fun m => f (mType m) (ForwardRaw m)) w.
Proof. unfold bind. rewrite read_wire_spec. by destruct (read_backend c w) as [[] ?]. Qed.

Lemma read_backend_bind {A} c (f g : Message -> M A) w :
  (forall m w', read_backend c w = (Ok m, w') -> default [] (mRaw m) = ForwardRaw m -> f m w' = g m w') ->
  bind (read_backend c) f w = bind (read_backend c) g w.
Proof.
  unfold bind. destruct (read_backend c w) as [[m| |] w'] eqn:E; auto. intros H. apply (H m w'); [done|].
  unfold read_backend in E. destruct (ReadMessage (stream c w)) as [[m' r]| |] eqn:Er; try done.
  injection E as <- <-. apply (ReadMessage_split _ _ _ Er).
Qed.

Lemma wp_ext {A} (m m' : M A) Q w : m w = m' w -> wp m' Q w -> wp m Q w.
Proof. unfold wp. by intros ->. Qed.

(** The last message relayed was a ReadyForQuery. *)
Definition ends_ready (c : Pool.Conn) (w w' : World S) : Prop :=
  exists w1 m, relays c true w w1 /\ ReadMessage (stream c w1) = Ok (m, stream c w') /\ mType m = Msg.ReadyForQuery /\
    moved c w1 w' [EvClient (ForwardRaw m)] (ForwardRaw m) [].

Definition answering {A} (c : Pool.Conn) (w : World S) (r : res unit A) (w' : World S) : Prop :=
  relaying c w r w' /\ (is_ok r = true -> ends_ready c w w').

Lemma answering_trans {A} c w w1 (r : res unit A) w2 : relays c true w w1 -> answering c w1 r w2 -> answering c w r w2.
Proof.
  intros H [H1 H2]. split; [by eapply relaying_trans|]. intros (w' & m & Hr & Hm)%H2. exists w', m.
  split; [by eapply relays_trans|done].
Qed.

Lemma wp_answer_bind {A C} c (m : M A) (k : A -> M C) w :
  wp m (relaying c w) w -> (forall a w', wp (k a) (answering c w') w') -> wp (bind m k) (answering c w) w.
Proof.
  intros Hm Hk. apply wp_bind. eapply wp_mono; [exact Hm|]. intros [a|e|] w' [H Hp]; [|by repeat split..].
  eapply wp_mono; [apply Hk|]. intros r w2. by apply answering_trans.
Qed.

Lemma wp_answer_fail {A} c w : wp (fail : M A) (answering c w) w.
Proof. split; [apply wp_relay_fail|done]. Qed.

(** A round of the relay loops: the message is relayed; after a ReadyForQuery the
    loop ends. *)
Lemma wp_answer_round {A} c (f : Message -> M A) w :
  (forall msg w', mType msg = Msg.ReadyForQuery -> exists a, f msg w' = (Ok a, w')) ->
  (forall msg w', mType msg <> Msg.ReadyForQuery -> wp (f msg) (answering c w') w') ->
  wp (msg <-! read_backend c; must_client (ForwardRaw msg) ;! f msg) (answering c w) w.
Proof.
  intros Hz Hf. apply wp_to_client.
  - intros w' b Hm. split; [|done]. split; [|done]. by eapply relays_nothing.
  - intros msg w' Hr Hm. destruct (decide (mType msg = Msg.ReadyForQuery)) as [Ez|Ez].
    + destruct (Hz msg w' Ez) as [a Ha]. unfold wp. rewrite Ha. split; [split; [by eapply relays_client|done]|].
      intros _. exists w, msg. split_and!; [apply relays_refl|done..].
    + eapply wp_mono; [by apply Hf|]. intros r w2. apply answering_trans. by eapply relays_client.
Qed.

Hint Resolve wp_answer_bind wp_answer_fail : pgmux.

Lemma relay_loop_answering c n w : wp (relay_loop c n) (answering c w) w.
Proof.
  revert w. induction n as [|n IH]; intros w; cbn [relay_loop]; auto with pgmux.
  eapply wp_ext; [apply (read_wire_bind c (fun t wire => must_client wire ;! _))|]. apply wp_answer_round.
  - intros msg w' ->. by exists tt.
  - intros msg w' Hz. rewrite byte_eqb_ne by done. repeat case_match; auto with pgmux.
Qed.

Lemma collect_loop_answering c maxSize buf n w : wp (collect_loop c maxSize buf n) (answering c w) w.
Proof.
  revert w buf. induction n as [|n IH]; intros w buf; cbn [collect_loop]; auto with pgmux.
  eapply wp_ext; [apply read_backend_bind; intros m w' _ ->; reflexivity|]. apply wp_answer_round.
  - intros msg w' ->. by eexists.
  - intros msg w' Hz. rewrite (byte_eqb_ne _ _ Hz). repeat case_match; auto with pgmux.
Qed.

(** Collecting does the same as relaying; what it returns is what [buf] held and
    the bytes the client received since. *)
Definition collects (maxSize : Z) (buf : option bytes) (w : World S) (x : res unit (option bytes) * World S) (y : res unit unit * World S) : Prop :=
  x.2 = y.2 /\ is_ok x.1 = is_ok y.1 /\
  forall out, x.1 = Ok (Some out) -> exists b evs,
    buf = Some b /\ trace x.2 = trace w ++ evs /\ out = b ++ to_client evs /\
    (0 < maxSize -> Z.of_nat (length out) <= maxSize)%Z.

Lemma collects_err maxSize buf w e w' : collects maxSize buf w (Err e, w') (Err e, w').
Proof. split_and!; try done; by intros out [=]. Qed.
Lemma collects_panic maxSize buf w w' : collects maxSize buf w (Panic, w') (Panic, w').
Proof. split_and!; try done; by intros out [=]. Qed.
Hint Resolve collects_err collects_panic : pgmux.

Lemma collects_None maxSize buf w w0 x y : collects maxSize None w x y -> collects maxSize buf w0 x y.
Proof. intros (H1 & H2 & H3). split_and!; [done..|]. by intros out (b & evs & [=] & _)%H3. Qed.

Lemma collects_bind {A} maxSize buf w w0 (m : M A) k1 k2 :
  (forall a w', m w = (Ok a, w') -> collects maxSize buf w0 (k1 a w') (k2 a w')) -> collects maxSize buf w0 (bind m k1 w) (bind m k2 w).
Proof. intros H. unfold bind. destruct (m w) as [[a| |] w']; auto with pgmux. Qed.

Lemma must_client_Ok bs w a w' : must_client bs w = (Ok a, w') -> trace w' = trace w ++ [EvClient bs].
Proof. unfold must_client, write_client, next_write, bind, emit, ret, fail. destruct (faults w) as [|[] fs]; cbn; by intros [= _ <-]. Qed.

Lemma collect_relay c maxSize n buf w : collects maxSize buf w (collect_loop c maxSize buf n w) (relay_loop c n w).
Proof.
  revert buf w. induction n as [|n IH]; intros buf w; [apply collects_err|]. cbn [collect_loop relay_loop].
  rewrite (read_wire_bind c (fun t wire => must_client wire ;! _)).
  apply collects_bind. unfold read_backend. intros m w1. destruct (ReadMessage (stream c w)) as [[m' r]| |] eqn:E; [|done..].
  destruct (ReadMessage_split _ _ _ E) as [_ Hraw]. intros [= <- <-]. cbv zeta. rewrite Hraw. apply collects_bind. intros _ w2 Ht%must_client_Ok.
  rename m' into m. cbn [trace set_stream] in Ht.
  set (buf' := match buf with Some b => _ | None => None end).
  assert (forall x y, collects maxSize buf' w2 x y -> collects maxSize buf w x y) as Hbuf.
  { intros x y (H1 & H2 & H3). split_and!; [done..|]. intros out (b & evs & Eb & Et & Ho & Hmax)%H3.
    unfold buf' in Eb. destruct buf as [b0|]; [|done]. destruct (_ && _)%bool; [done|]. injection Eb as <-.
    exists b0, (EvClient (ForwardRaw m) :: evs). split_and!; [done| |by rewrite Ho, <- app_assoc|done].
    by rewrite Et, Ht, <- app_assoc. }
  repeat case_match; try (apply (collects_None _ _ w2), collects_bind; intros _ w3 _; by eapply collects_None); try (by apply Hbuf, IH).
  apply Hbuf. split_and!; [done..|]. cbn. intros out [= Hout]. exists out, []. rewrite app_nil_r. split_and!; [done..|by rewrite app_nil_r|].
  unfold buf' in Hout. destruct buf as [b0|]; [|done]. destruct ((0 <? maxSize)%Z && _)%bool eqn:Em; [done|]. injection Hout as <-.
  intros. bool_to_prop. destruct Em; bool_to_prop; lia.
Qed.

(** ** The loops end: the bounds on their rounds are never reached *)

Lemma ReadMessage_shorter r m rest : ReadMessage r = Ok (m, rest) -> length rest < length r.
Proof. intros (t & len & body & -> & ? & ? & ? & ->)%ReadMessage_Ok. rewrite !length_app. cbn. lia. Qed.

Lemma relays_shorter c ok w w' : relays c ok w w' -> length (stream c w') <= length (stream c w) /\ length (cin w') <= length (cin w).
Proof. intros (evs & b & k & [] & _). rewrite moved_backend0, moved_client0, !length_app. lia. Qed.

Lemma bind_ext {A C} (m : M A) (k1 k2 : A -> M C) w :
  (forall a w', m w = (Ok a, w') -> k1 a w' = k2 a w') -> bind m k1 w = bind m k2 w.
Proof. intros H. unfold bind. destruct (m w) as [[a| |] w']; auto. Qed.

Lemma read_client_Ok w m w' : read_client w = (Ok m, w') -> length (cin w') < length (cin w).
Proof.
  unfold read_client. destruct (ReadMessage (cin w)) as [[m' r]| |] eqn:E; [|done..]. intros [= <- <-].
  by apply ReadMessage_shorter in E.
Qed.

Lemma read_backend_Ok c w m w' : read_backend c w = (Ok m, w') -> length (stream c w') < length (stream c w).
Proof.
  unfold read_backend. destruct (ReadMessage (stream c w)) as [[m' r]| |] eqn:E; [|done..]. intros [= <- <-].
  rewrite stream_set. by apply ReadMessage_shorter in E.
Qed.

Lemma must_client_streams bs w r w' : must_client bs w = (r, w') -> cin w' = cin w /\ forall c, stream c w' = stream c w.
Proof. unfold must_client, write_client, next_write, bind, emit, ret, fail. destruct (faults w) as [|[] fs]; cbn; by intros [= _ <-]. Qed.

Lemma must_backend_streams c bs w r w' : must_backend c bs w = (r, w') -> cin w' = cin w /\ forall c', stream c' w' = stream c' w.
Proof. unfold must_backend, write_backend, next_write, bind, emit, ret, fail. destruct (faults w) as [|[] fs]; cbn; by intros [= _ <-]. Qed.

Lemma relaying_Ok {A} c (m : M A) w a w' :
  wp m (relaying c w) w -> m w = (Ok a, w') -> length (stream c w') <= length (stream c w).
Proof. unfold wp. intros H E. rewrite E in H. apply (relays_shorter _ _ _ _ (proj1 H)). Qed.

Lemma relayCopyIn_rounds c n1 n2 w :
  length (cin w) < n1 -> length (cin w) < n2 -> relayCopyIn_loop c n1 w = relayCopyIn_loop c n2 w.
Proof.
  revert n2 w. induction n1 as [|n1 IH]; intros [|n2] w H1 H2; try lia. cbn [relayCopyIn_loop].
  apply bind_ext. intros m w1 E1%read_client_Ok. apply bind_ext. intros _ w2 [E2 _]%must_backend_streams.
  repeat case_match; auto. apply IH; rewrite E2; lia.
Qed.

Lemma relayCopyOut_rounds c n1 n2 w :
  length (stream c w) < n1 -> length (stream c w) < n2 -> relayCopyOut_loop c n1 w = relayCopyOut_loop c n2 w.
Proof.
  revert n2 w. induction n1 as [|n1 IH]; intros [|n2] w H1 H2; try lia. cbn [relayCopyOut_loop].
  apply bind_ext. intros m w1 E1%read_backend_Ok. apply bind_ext. intros _ w2 [_ E2]%must_client_streams.
  repeat case_match; auto. apply IH; rewrite E2; lia.
Qed.

Lemma copyBoth_rounds c n1 n2 w :
  (length (stream c w) < n1 -> length (stream c w) < n2 -> copyBoth_to_client c n1 w = copyBoth_to_client c n2 w) /\
  (length (cin w) < n1 -> length (cin w) < n2 -> copyBoth_to_backend c n1 w = copyBoth_to_backend c n2 w).
Proof.
  revert n2 w. induction n1 as [|n1 IH]; intros [|n2] w; split; intros H1 H2; try lia; cbn [copyBoth_to_client copyBoth_to_backend].
  - apply bind_ext. intros m w1 E1%read_backend_Ok. apply bind_ext. intros _ w2 [_ E2]%must_client_streams.
    case_match; auto. apply IH; rewrite E2; lia.
  - apply bind_ext. intros m w1 E1%read_client_Ok. apply bind_ext. intros _ w2 [E2 _]%must_backend_streams.
    case_match; auto. apply IH; rewrite E2; lia.
Qed.

Lemma relay_rounds c n1 n2 w :
  length (stream c w) < n1 -> length (stream c w) < n2 -> relay_loop c n1 w = relay_loop c n2 w.
Proof.
  revert n2 w. induction n1 as [|n1 IH]; intros [|n2] w H1 H2; try lia. cbn [relay_loop].
  rewrite !(read_wire_bind c (fun t wire => must_client wire ;! _)).
  apply bind_ext. intros m w1 E1%read_backend_Ok. apply bind_ext. intros _ w2 [_ E2]%must_client_streams.
  assert (length (stream c w2) < length (stream c w)) by (rewrite E2; lia).
  repeat case_match; auto; try (by apply IH; lia);
    apply bind_ext; intros _ w3 E3%(relaying_Ok c); auto with pgmux; apply IH; lia.
Qed.

Lemma collect_rounds c maxSize buf n1 n2 w :
  length (stream c w) < n1 -> length (stream c w) < n2 -> collect_loop c maxSize buf n1 w = collect_loop c maxSize buf n2 w.
Proof.
  revert buf n2 w. induction n1 as [|n1 IH]; intros buf [|n2] w H1 H2; try lia. cbn [collect_loop].
  apply bind_ext. intros m w1 E1%read_backend_Ok. apply bind_ext. intros _ w2 [_ E2]%must_client_streams.
  assert (length (stream c w2) < length (stream c w)) by (rewrite E2; lia).
  set (buf' := match buf with Some b => _ | None => None end). clearbody buf'.
  repeat case_match; auto; try (by apply IH; lia);
    apply bind_ext; intros _ w3 E3%(relaying_Ok c); auto with pgmux; apply IH; lia.
Qed.

(** ** A response without COPY *)

(** Messages a backend may send before ReadyForQuery. *)
Definition plain_message (m : byte * bytes) : Prop :=
  ~ m.1 ∈ [Msg.ReadyForQuery; Msg.CopyInResponse; Msg.CopyOutResponse; Msg.CopyBothResponse] /\
  (Z.of_nat (length m.2) <= MaxMessageSize)%Z.

Definition frame (m : byte * bytes) : bytes := WriteMessage m.1 m.2.
Definition frames (ms : list (byte * bytes)) : bytes := concat (frame <$> ms).

(** The world after the messages [ms] went from [c] to the client. *)
Definition passed_on (c : Pool.Conn) (ms : list (byte * bytes)) (rest : bytes) (w : World S) : World S :=
  {| cin := cin w; bin := <[Pool.conn_id c := rest]> (bin w); faults := []; grants := grants w;
     trace := trace w ++ (EvClient ∘ frame <$> ms); sh := sh w |}.

Lemma passed_on_cons c m ms r rest w : passed_on c ms rest (passed_on c [m] r w) = passed_on c (m :: ms) rest w.
Proof. unfold passed_on. cbn. by rewrite insert_insert_eq, <- app_assoc. Qed.

(** The first message of the stream goes to the client. *)
Lemma pass_message {A} c m rest (f : Message -> M A) w :
  (Z.of_nat (length m.2) <= MaxMessageSize)%Z -> faults w = [] -> stream c w = frame m ++ rest ->
  (msg <-! read_backend c; must_client (default [] (mRaw msg)) ;! f msg) w =
  f (mkMessage m.1 m.2 (Some (frame m))) (passed_on c [m] rest w) /\
  (msg <-! read_backend c; must_client (ForwardRaw msg) ;! f msg) w =
  f (mkMessage m.1 m.2 (Some (frame m))) (passed_on c [m] rest w).
Proof.
  intros Hm Hf Hs. unfold bind at 1 3, read_backend. rewrite Hs. unfold frame. rewrite ReadMessage_frame by done.
  unfold bind, must_client, write_client, next_write, bind, emit, ret. cbn [faults set_stream]. rewrite Hf. cbn.
  unfold passed_on. cbn. rewrite Hf. done.
Qed.

Lemma plain_tests m : plain_message m ->
  (m.1 =b Msg.ReadyForQuery) = false /\ (m.1 =b Msg.CopyInResponse) = false /\
  (m.1 =b Msg.CopyOutResponse) = false /\ (m.1 =b Msg.CopyBothResponse) = false /\ (Z.of_nat (length m.2) <= MaxMessageSize)%Z.
Proof. intros [Hno Hlen]. split_and!; try done; apply byte_eqb_ne; set_solver. Qed.

Lemma relay_response c ms status rest n w :
  Forall plain_message ms -> faults w = [] -> length ms < n ->
  stream c w = frames ms ++ frame (Msg.ReadyForQuery, [status]) ++ rest ->
  relay_loop c n w = (Ok tt, passed_on c (ms ++ [(Msg.ReadyForQuery, [status])]) rest w).
Proof.
  intros Hms. revert n w. induction Hms as [|m ms Hm Hms IH]; intros n w Hf Hn Hs; (destruct n as [|n]; [cbn in Hn; lia|]); cbn [relay_loop];
    rewrite (read_wire_bind c (fun t wire => must_client wire ;! _)).
  - by rewrite (proj2 (pass_message c (Msg.ReadyForQuery, [status]) rest _ w ltac:(done) Hf Hs)).
  - destruct (plain_tests m Hm) as (H1 & H2 & H3 & H4 & H5). unfold frames in Hs. cbn [fmap list_fmap concat] in Hs. rewrite <- app_assoc in Hs.
    rewrite (proj2 (pass_message c m _ _ w H5 Hf Hs)). cbn [mType]. rewrite H1, H2, H3, H4.
    rewrite IH; [|done|cbn in Hn; lia|by apply stream_set]. by rewrite passed_on_cons.
Qed.

Lemma collect_response c maxSize ms status rest n buf w :
  Forall plain_message ms -> faults w = [] -> length ms < n ->
  stream c w = frames ms ++ frame (Msg.ReadyForQuery, [status]) ++ rest ->
  let total b := b ++ frames ms ++ frame (Msg.ReadyForQuery, [status]) in
  (collect_loop c maxSize buf n w).1 =
    Ok (match buf with
        | Some b => if (0 <? maxSize)%Z && (maxSize <? Z.of_nat (length (total b)))%Z then None else Some (total b)
        | None => None
        end).
Proof.
  intros Hms. revert n buf w. induction Hms as [|m ms Hm Hms IH]; intros n buf w Hf Hn Hs; (destruct n as [|n]; [cbn in Hn; lia|]); cbn [collect_loop].
  - rewrite (proj1 (pass_message c (Msg.ReadyForQuery, [status]) rest _ w ltac:(done) Hf Hs)). by destruct buf.
  - destruct (plain_tests m Hm) as (H1 & H2 & H3 & H4 & H5). unfold frames in *. cbn [fmap list_fmap concat] in *. rewrite <- app_assoc in Hs.
    rewrite (proj1 (pass_message c m _ _ w H5 Hf Hs)). cbn [mType mRaw default from_option id]. rewrite H1, H2, H3, H4.
    rewrite IH; [|done|cbn in Hn; lia|by apply stream_set]. destruct buf as [b|]; [|done].
    destruct ((0 <? maxSize)%Z && _)%bool eqn:Em; [|by rewrite <- !app_assoc].
    bool_to_prop. rewrite (proj2 (Z.ltb_lt 0 maxSize)), (proj2 (Z.ltb_lt maxSize _)); [done| |done]. rewrite !length_app in *. lia.
Qed.

(** ** Properties *)

(** C20: relaying a response is transparent. Whatever the backend and the client send,
    COPY in either direction included, the client receives the bytes the proxy read from
    the backend and the backend those it read from the client, unchanged and in
    order, nothing else is sent and no other connection is touched; on success that is all
    that was read, the last message being a ReadyForQuery, and after a failed read or write it is
    a first part of it. There is no panic. *)
Theorem relayUntilReady_transparent c w :
  match relayUntilReady c w with
  | (r, w') => relays c (is_ok r) w w' /\ r <> Panic /\ (is_ok r = true -> ends_ready c w w')
  end.
Proof.
  pose proof (wp_rounds_backend c (relay_loop c) (answering c w) w (fun n => relay_loop_answering c n w)) as H.
  unfold wp in H. unfold relayUntilReady. destruct (rounds_backend c (relay_loop c) w) as [r w']. destruct H as [[? ?] ?]. done.
Qed.

(** collecting a response for the cache does not change it: [relayAndCollect] leaves
    the session exactly as [relayUntilReady] does and fails when it does, and the bytes it
    returns are those the client received, within the size limit. *)
Theorem relayAndCollect_relays c maxSize w :
  match relayAndCollect c maxSize w, relayUntilReady c w with
  | (r, w'), (r0, w0) =>
      w' = w0 /\ is_ok r = is_ok r0 /\
      forall out, r = Ok (Some out) ->
        (0 < maxSize -> Z.of_nat (length out) <= maxSize)%Z /\
        exists evs, trace w' = trace w ++ evs /\ to_client evs = out
  end.
Proof.
  pose proof (collect_relay c maxSize (Datatypes.S (length (stream c w))) (Some []) w) as (H1 & H2 & H3).
  unfold relayAndCollect, relayUntilReady, rounds_backend. destruct (collect_loop _ _ _ _ w) as [r w'], (relay_loop _ _ w) as [r0 w0].
  split; [done|]. split; [done|]. intros out (b & evs & [= <-] & Ht & Ho & Hm)%H3. eauto.
Qed.

(** a response without COPY whose messages can be delivered is delivered: the client
    receives it up to its ReadyForQuery, what follows on the connection stays there for the
    next query, and collecting it returns all of it unless it is over the limit. *)
Theorem relay_delivers c ms status rest maxSize w :
  Forall plain_message ms -> faults w = [] ->
  stream c w = frames ms ++ frame (Msg.ReadyForQuery, [status]) ++ rest ->
  let w' := passed_on c (ms ++ [(Msg.ReadyForQuery, [status])]) rest w in
  let all := frames ms ++ frame (Msg.ReadyForQuery, [status]) in
  relayUntilReady c w = (Ok tt, w') /\
  relayAndCollect c maxSize w =
    (Ok (if (0 <? maxSize)%Z && (maxSize <? Z.of_nat (length all))%Z then None else Some all), w').
Proof.
  intros Hms Hf Hs w' all. assert (length ms < Datatypes.S (length (stream c w))) as Hn.
  { rewrite Hs, length_app. enough (length ms <= length (frames ms)) by lia. clear. unfold frames.
    induction ms as [|m ms IH]; [done|]. cbn [fmap list_fmap concat]. rewrite length_app. cbn. lia. }
  pose proof (relay_response c ms status rest _ w Hms Hf Hn Hs) as Hr. split; [exact Hr|].
  pose proof (collect_response c maxSize ms status rest _ (Some []) w Hms Hf Hn Hs) as Hc.
  pose proof (collect_relay c maxSize (Datatypes.S (length (stream c w))) (Some []) w) as (H1 & _ & _).
  unfold relayAndCollect, rounds_backend. destruct (collect_loop _ _ _ _ w) as [r wc]. cbn [fst snd] in Hc, H1. by rewrite Hc, H1, Hr.
Qed.

(** the relay loops end by themselves: each round consumes a message, so that
    allowing more rounds than the bytes still to be read changes nothing. *)
Theorem relay_rounds_suffice c maxSize n w :
  relay_loop c (Datatypes.S (length (stream c w)) + n) w = relayUntilReady c w /\
  collect_loop c maxSize (Some []) (Datatypes.S (length (stream c w)) + n) w = relayAndCollect c maxSize w /\
  relayCopyIn_loop c (Datatypes.S (length (cin w)) + n) w = relayCopyIn c w /\
  relayCopyOut_loop c (Datatypes.S (length (stream c w)) + n) w = relayCopyOut c w /\
  copyBoth_to_client c (Datatypes.S (length (stream c w)) + n) w = rounds_backend c (copyBoth_to_client c) w /\
  copyBoth_to_backend c (Datatypes.S (length (cin w)) + n) w = rounds_client (copyBoth_to_backend c) w.
Proof.
  split_and!; [apply relay_rounds|apply collect_rounds|apply relayCopyIn_rounds|apply relayCopyOut_rounds|
    apply copyBoth_rounds|apply copyBoth_rounds]; lia.
Qed.
(** ** Single steps of a dialogue *)

Lemma wp_read_backend_cases {A} c (f : Message -> M A) Q w :
  ((forall m rest, ReadMessage (stream c w) <> Ok (m, rest)) -> Q (Err tt) w) ->
  (forall m w', ReadMessage (stream c w) = Ok (m, stream c w') -> faults w' = faults w -> moved c w w' [] (ForwardRaw m) [] -> wp (f m) Q w') ->
  wp (bind (read_backend c) f) Q w.
Proof.
  intros He Hok. apply wp_bind. unfold wp, read_backend. pose proof (ReadMessage_no_panic (stream c w)).
  destruct (ReadMessage (stream c w)) as [[m r]| |] eqn:E; [|by apply He|done]. apply ReadMessage_split in E as E'. destruct E' as [Hs _].
  apply (Hok m); [by rewrite stream_set|done|]. split; rewrite ?stream_set, ?app_nil_r; auto.
  intros c' Hc. by apply stream_set_ne.
Qed.

Lemma wp_read_backend {A} c (f : Message -> M A) Q w :
  Q (Err tt) w ->
  (forall m w', ReadMessage (stream c w) = Ok (m, stream c w') -> faults w' = faults w -> moved c w w' [] (ForwardRaw m) [] -> wp (f m) Q w') ->
  wp (bind (read_backend c) f) Q w.
Proof. intros He. by apply wp_read_backend_cases. Qed.

Lemma wp_read_client {A} c (f : Message -> M A) Q w :
  Q (Err tt) w ->
  (forall m w', ReadMessage (cin w) = Ok (m, cin w') -> faults w' = faults w -> moved c w w' [] [] (ForwardRaw m) -> wp (f m) Q w') ->
  wp (bind read_client f) Q w.
Proof.
  intros He Hok. apply wp_bind. unfold wp, read_client. pose proof (ReadMessage_no_panic (cin w)).
  destruct (ReadMessage (cin w)) as [[m r]| |] eqn:E; [|done..]. apply ReadMessage_split in E as E'. destruct E' as [Hs _].
  apply (Hok m); [done..|]. split; cbn; rewrite ?app_nil_r; auto.
Qed.

Lemma wp_tell_client {A} c bs (f : unit -> M A) Q w :
  (forall w', moved c w w' [] [] [] -> Q (Err tt) w') ->
  (forall w', faults w' = tl (faults w) -> moved c w w' [EvClient bs] [] [] -> wp (f tt) Q w') ->
  wp (bind (must_client bs) f) Q w.
Proof.
  intros He Hok. unfold wp, must_client, write_client, next_write, bind, emit, ret, fail.
  destruct (faults w) as [|[] fs] eqn:E; cbn.
  1, 3: apply Hok; [by cbn; rewrite ?E|]; split; cbn; auto; by repeat constructor.
  apply He. split; cbn; rewrite ?app_nil_r; auto.
Qed.

Lemma wp_tell_backend {A} c bs (f : unit -> M A) Q w :
  (forall w', moved c w w' [EvSend c bs false] [] [] -> Q (Err tt) w') ->
  (forall w', faults w' = tl (faults w) -> moved c w w' [EvSend c bs true] [] [] -> wp (f tt) Q w') ->
  wp (bind (must_backend c bs) f) Q w.
Proof.
  intros He Hok. unfold wp, must_backend, write_backend, next_write, bind, emit, ret, fail.
  destruct (faults w) as [|[] fs] eqn:E; cbn.
  1, 3: apply Hok; [by cbn; rewrite ?E|]; split; cbn; auto; by repeat constructor.
  apply He. split; cbn; auto; by repeat constructor.
Qed.

(** Only the trace grows. *)
Definition traces (w w' : World S) (evs : list event) : Prop := trace w' = trace w ++ evs /\ cin w' = cin w /\ bin w' = bin w /\ sh w' = sh w.

Lemma wp_acquire {A} p (f : option Pool.Conn -> M A) Q w :
  (forall w', traces w w' [EvNoConn p] -> wp (f None) Q w') ->
  (forall c w', traces w w' [EvAcquire p c] -> wp (f (Some c)) Q w') ->
  wp (bind (acquire p) f) Q w.
Proof. intros Hn Hs. apply wp_bind. unfold wp at 1, acquire. destruct (grants w p (trace w)) as [c|]; cbn; [by apply Hs|by apply Hn]. Qed.

Lemma wp_write {A} c bs (f : bool -> M A) Q w :
  (forall ok w', traces w w' [EvSend c bs ok] -> wp (f ok) Q w') -> wp (bind (write_backend c bs) f) Q w.
Proof.
  intros Hf. apply wp_bind. unfold wp at 1, write_backend, next_write, bind, emit, ret. by destruct (faults w) as [|[] fs]; cbn; apply Hf.
Qed.

Lemma wp_emit {A} e (f : unit -> M A) Q w : (forall w', traces w w' [e] -> wp (f tt) Q w') -> wp (bind (emit e) f) Q w.
Proof. intros Hf. by apply wp_bind, Hf. Qed.

Lemma wp_get {A} (f : S -> M A) Q w : wp (f (sh w)) Q w -> wp (bind get f) Q w.
Proof. intros Hf. by apply wp_bind. Qed.

End Relay.

Module Examples.
Definition conn0 : Pool.Conn := {| Pool.conn_id := 7; Pool.CreatedAt := 0; Pool.LastUsedAt := 0; Pool.BackendPID := 0; Pool.BackendSecret := 0 |}.

Definition example_world (bin0 cin0 : bytes) : World unit :=
  {| cin := cin0; bin := {[ 7 := bin0 ]}; faults := []; grants := fun _ _ => None; trace := []; sh := tt |}.

(** A row, its completion and the ReadyForQuery, then the start of another message. *)
Lemma relay_delivers_witness :
  relayUntilReady conn0 (example_world (WriteMessage Msg.DataRow $"row" ++ WriteMessage Msg.CommandComplete $"SELECT 1" ++ WriteMessage Msg.ReadyForQuery $"I" ++ $"next") [])
  = (Ok tt, passed_on conn0 [(Msg.DataRow, $"row"); (Msg.CommandComplete, $"SELECT 1"); (Msg.ReadyForQuery, $"I")] $"next"
       (example_world (WriteMessage Msg.DataRow $"row" ++ WriteMessage Msg.CommandComplete $"SELECT 1" ++ WriteMessage Msg.ReadyForQuery $"I" ++ $"next") [])).
Proof.
  apply (relay_delivers conn0 [(Msg.DataRow, $"row"); (Msg.CommandComplete, $"SELECT 1")] "I"%byte $"next" 0); [|by vm_compute..].
  repeat constructor; cbn; try (by vm_compute); set_solver.
Defined.

(** When the LSN query after a write fails, [queryCurrentLSN] returns at the
    ErrorResponse and leaves the ReadyForQuery that follows it unread: the next
    query on the connection is answered with it at once, and its own answer is left
    for the query after that. *)
Example lsn_error_desynchronises :
  let w := example_world (WriteMessage Msg.ErrorResponse $"E" ++ WriteMessage Msg.ReadyForQuery $"E" ++
                          WriteMessage Msg.DataRow $"secret" ++ WriteMessage Msg.ReadyForQuery $"I") [] in
  let '(r, w1) := queryCurrentLSN conn0 w in
  let '(r2, w2) := forwardAndRelay conn0 (mkMessage Msg.Query $"SELECT 1" None) w1 in
  r = Err tt /\ r2 = Ok tt /\
  to_client (trace w2) = WriteMessage Msg.ReadyForQuery $"E" /\
  stream conn0 w2 = WriteMessage Msg.DataRow $"secret" ++ WriteMessage Msg.ReadyForQuery $"I".
Proof. by vm_compute. Qed.
End Examples.
