(* ===== verification/DbGroup.v ===== *)
(** * Database groups (internal/proxy/dbgroup.go)

    A group holds the pools, the balancer and the circuit breakers of one database.
    Pools are shared objects: groups and sessions hold their locations in a heap,
    in which a pool comes with the address and the credentials its dial function has
    captured. Health checks and warming are steps of the pools (see the pool file). *)

From S2P Require Import Prelude GoStrings Float64 Net Config Lsn Balancer Breaker Pool.

Local Open Scope nat_scope.

Record PoolObj := { p_addr : bytes; p_backend : BackendConfig; p_pool : Pool.Pool }.

Record Heap := { objs : gmap pool_loc PoolObj; next_pool : pool_loc }.

Record DatabaseGroup := {
  g_name : bytes;
  writerAddr : bytes;
  writerPool : option pool_loc;
  readerPools : gmap bytes pool_loc;
  balancer : RoundRobin;
  writerCB : option CircuitBreaker;
  readerCBs : gmap bytes CircuitBreaker;   (* a nil map reads as an empty one *)
  backendCfg : BackendConfig
}.

(** [fmt.Sprintf("%s:%d", host, port)]. *)
Definition addr_of (db : DBConfig) : bytes := Host db ++ $":" ++ FormatInt (Port db).

Definition pool_config (p : PoolConfig) : Pool.Config :=
  {| Pool.MinConnections := Pool_MinConnections p; Pool.MaxConnections := Pool_MaxConnections p;
     Pool.IdleTimeout := Pool_IdleTimeout p; Pool.MaxLifetime := Pool_MaxLifetime p;
     Pool.ConnectionTimeout := Pool_ConnectionTimeout p |}.

(** [pool.New] returns no error; it panics when it makes a slice or a channel of negative size. *)
Definition new_pool (h : Heap) (addr : bytes) (b : BackendConfig) (p : PoolConfig) : res unit (pool_loc * Heap) :=
  if (Pool_MaxConnections p <? 0)%Z then Panic
  else Ok (next_pool h,
           {| objs := <[next_pool h := {| p_addr := addr; p_backend := b; p_pool := Pool.New (pool_config p) |}]> (objs h);
              next_pool := S (next_pool h) |}).

Definition close_pool (h : Heap) (l : pool_loc) : Heap :=
  {| objs := alter (fun o => {| p_addr := p_addr o; p_backend := p_backend o; p_pool := (Pool.Close (p_pool o)).1 |}) l (objs h);
     next_pool := next_pool h |}.

Definition breaker_config (c : CircuitBreakerConfig) : BreakerConfig :=
  {| ErrorThreshold := CB_ErrorThreshold c; OpenDuration := CB_OpenDuration c; HalfOpenMax := CB_HalfOpenMax c;
     WindowSize := CB_WindowSize c |}.

(** The loop that creates the reader pools. *)
Fixpoint new_readers (h : Heap) (db : DatabaseConfig) (addrs : list bytes) (pools : gmap bytes pool_loc)
  : res unit (gmap bytes pool_loc * Heap) :=
  match addrs with
  | [] => Ok (pools, h)
  | addr :: addrs' =>
      '(p, h) <-? new_pool h addr (DB_Backend db) (DB_Pool db) ;
      new_readers h db addrs' (<[addr := p]> pools)
  end.

Definition new_breakers (cb : CircuitBreaker) (addrs : list bytes) : gmap bytes CircuitBreaker :=
  fold_left (fun m addr => <[addr := cb]> m) addrs ∅.

Definition newDatabaseGroup (h : Heap) (name : bytes) (db : DatabaseConfig) (cbCfg : CircuitBreakerConfig)
  : res unit (DatabaseGroup * Heap) :=
  let writerAddr := addr_of (Writer db) in
  let readerAddrs := addr_of <$> Readers db in
  '(wp, h) <-? new_pool h writerAddr (DB_Backend db) (DB_Pool db) ;
  '(readers, h) <-? new_readers h db readerAddrs ∅ ;
  let cb := NewCircuitBreaker (breaker_config cbCfg) in
  Ok ({| g_name := name; writerAddr := writerAddr; writerPool := Some wp; readerPools := readers;
         balancer := NewRoundRobin readerAddrs;
         writerCB := if CircuitBreaker_Enabled cbCfg then Some cb else None;
         readerCBs := if CircuitBreaker_Enabled cbCfg then new_breakers cb readerAddrs else ∅;
         backendCfg := DB_Backend db |}, h).

Definition close_all (h : Heap) (ls : list pool_loc) : Heap := fold_left close_pool ls h.

Definition Close (h : Heap) (g : DatabaseGroup) : Heap :=
  let h := match writerPool g with Some l => close_pool h l | None => h end in
  close_all h (map_to_list (readerPools g)).*2.

(** ** Reload *)

Definition credsChanged (old new : BackendConfig) : bool :=
  bool_decide (Backend_User old <> Backend_User new) || bool_decide (Backend_Password old <> Backend_Password new)
  || bool_decide (Backend_Database old <> Backend_Database new).

(** The writer pool, recreated when the address or the credentials changed. *)
Definition reload_writer (h : Heap) (g : DatabaseGroup) (db : DatabaseConfig) (replace : bool) : res unit (option pool_loc * Heap) :=
  if replace then
    let h := match writerPool g with Some l => close_pool h l | None => h end in
    '(p, h) <-? new_pool h (addr_of (Writer db)) (DB_Backend db) (DB_Pool db) ; Ok (Some p, h)
  else Ok (writerPool g, h).

Fixpoint reload_readers (h : Heap) (g : DatabaseGroup) (db : DatabaseConfig) (changed : bool) (addrs : list bytes)
  (newPools : gmap bytes pool_loc) : res unit (gmap bytes pool_loc * Heap) :=
  match addrs with
  | [] => Ok (newPools, h)
  | addr :: addrs' =>
      match (if changed then None else readerPools g !! addr) with
      | Some p => reload_readers h g db changed addrs' (<[addr := p]> newPools)
      | None =>
          '(p, h) <-? new_pool h addr (DB_Backend db) (DB_Pool db) ;
          reload_readers h g db changed addrs' (<[addr := p]> newPools)
      end
  end.

(** The pools whose address is not in [newPools]. *)
Definition removed_readers (g : DatabaseGroup) (newPools : gmap bytes pool_loc) : list pool_loc :=
  (map_to_list (filter (fun kv => newPools !! kv.1 = None) (readerPools g))).*2.

Definition reload_breakers (g : DatabaseGroup) (cbCfg : CircuitBreakerConfig) (addrs : list bytes) : gmap bytes CircuitBreaker :=
  fold_left (fun m addr => <[addr := default (NewCircuitBreaker (breaker_config cbCfg)) (readerCBs g !! addr)]> m) addrs ∅.

Definition Reload (h : Heap) (g : DatabaseGroup) (db : DatabaseConfig) (cbCfg : CircuitBreakerConfig)
  : res unit (DatabaseGroup * Heap) :=
  let changed := credsChanged (backendCfg g) (DB_Backend db) in
  let newWriterAddr := addr_of (Writer db) in
  let replace := changed || bool_decide (newWriterAddr <> writerAddr g) in
  '(wp, h) <-? reload_writer h g db replace ;
  let newReaderAddrs := addr_of <$> Readers db in
  '(newPools, h) <-? reload_readers h g db changed newReaderAddrs ∅ ;
  let h := close_all h (removed_readers g newPools) in
  Ok ({| g_name := g_name g;
         writerAddr := if replace then newWriterAddr else writerAddr g;
         writerPool := wp; readerPools := newPools; balancer := UpdateBackends (balancer g) newReaderAddrs;
         writerCB := if CircuitBreaker_Enabled cbCfg
                     then Some (default (NewCircuitBreaker (breaker_config cbCfg)) (writerCB g)) else None;
         readerCBs := if CircuitBreaker_Enabled cbCfg then reload_breakers g cbCfg newReaderAddrs else ∅;
         backendCfg := DB_Backend db |}, h).

Definition ReaderPool (g : DatabaseGroup) (addr : bytes) : option pool_loc := readerPools g !! addr.
Definition ReaderCB (g : DatabaseGroup) (addr : bytes) : option CircuitBreaker := readerCBs g !! addr.

(** ** What a group promises *)

(** [l] is an open pool for [addr] with credentials [b]. *)
Definition open (h : Heap) (l : pool_loc) (addr : bytes) (b : BackendConfig) : Prop :=
  exists o, objs h !! l = Some o /\ p_addr o = addr /\ p_backend o = b /\ Pool.closed (p_pool o) = false.

Definition is_closed (h : Heap) (l : pool_loc) : Prop := exists o, objs h !! l = Some o /\ Pool.closed (p_pool o) = true.

(** The pools of a group are open, connect to its addresses with its credentials,
    and are pairwise different objects (two readers differ by their address). *)
Record well_formed (h : Heap) (g : DatabaseGroup) : Prop := {
  wf_writer : exists w, writerPool g = Some w /\ open h w (writerAddr g) (backendCfg g) /\
                forall a, readerPools g !! a <> Some w;
  wf_readers : forall a l, readerPools g !! a = Some l -> open h l a (backendCfg g);
  wf_balancer : Balancer.wf (balancer g) /\ forall a, a ∈ Backends (balancer g) <-> is_Some (readerPools g !! a);
  wf_allocated : forall l, l ∈ dom (objs h) -> l < next_pool h
}.

(** The heaps agree on the pools below [n]. *)
Definition unchanged_below (n : pool_loc) (h h' : Heap) : Prop := forall l, l < n -> objs h' !! l = objs h !! l.

Definition allocated (h : Heap) : Prop := forall l, l ∈ dom (objs h) -> l < next_pool h.

Lemma new_pool_spec h addr b p l h' :
  allocated h -> new_pool h addr b p = Ok (l, h') ->
  l = next_pool h /\ next_pool h' = S (next_pool h) /\ open h' l addr b /\ unchanged_below (next_pool h) h h' /\ allocated h'.
Proof.
  unfold new_pool. intros Ha. destruct (_ <? 0)%Z; [done|]. intros [= <- <-]. split_and!; [done..| | |].
  - eexists. cbn. rewrite lookup_insert_eq. done.
  - intros l Hl. cbn. by rewrite lookup_insert_ne by lia.
  - intros l. cbn. rewrite dom_insert, elem_of_union, elem_of_singleton. intros [->|Hl]; [lia|]. pose proof (Ha l Hl). lia.
Qed.

Lemma open_below h h' n l addr b : unchanged_below n h h' -> l < n -> open h l addr b -> open h' l addr b.
Proof. intros H Hl (o & Ho & Hr). exists o. by rewrite H. Qed.

Lemma unchanged_trans n1 n2 h1 h2 h3 : n1 <= n2 -> unchanged_below n1 h1 h2 -> unchanged_below n2 h2 h3 -> unchanged_below n1 h1 h3.
Proof. intros Hn H1 H2 l Hl. rewrite H2 by lia. by apply H1. Qed.

Lemma open_allocated h l addr b : allocated h -> open h l addr b -> l < next_pool h.
Proof. intros Ha (o & Ho & _). apply Ha. by apply elem_of_dom_2 in Ho. Qed.

(** The reader pools a (re)load makes: each is the old one of its address, unless the
    credentials changed, or a new one. *)
Lemma is_Some_or_cons (addr a : bytes) (P : Prop) (Q : Prop) : (addr = a \/ (addr <> a /\ P)) \/ Q <-> P \/ (a = addr \/ Q).
Proof. destruct (decide (addr = a)); naive_solver. Qed.

Lemma reload_readers_spec g db changed n h addrs acc m h' :
  allocated h -> n <= next_pool h ->
  (forall a l, acc !! a = Some l -> open h l a (DB_Backend db) /\ (n <= l \/ changed = false /\ readerPools g !! a = Some l)) ->
  (changed = false -> forall a l, readerPools g !! a = Some l -> open h l a (DB_Backend db)) ->
  reload_readers h g db changed addrs acc = Ok (m, h') ->
  allocated h' /\ next_pool h <= next_pool h' /\ unchanged_below (next_pool h) h h' /\
  (forall a l, m !! a = Some l -> open h' l a (DB_Backend db) /\ (n <= l \/ changed = false /\ readerPools g !! a = Some l)) /\
  (forall a, is_Some (m !! a) <-> is_Some (acc !! a) \/ a ∈ addrs) /\
  (forall a l, changed = false -> readerPools g !! a = Some l -> acc !! a = Some l \/ a ∈ addrs -> acc !! a = None \/ acc !! a = Some l -> m !! a = Some l).
Proof.
  revert h acc. induction addrs as [|addr addrs IH]; intros h acc Ha Hn Hacc Hg; cbn [reload_readers].
  { intros [= <- <-]. split_and!; [done..| | |]; try done; set_solver. }
  destruct (if changed then None else readerPools g !! addr) as [p|] eqn:Ep.
  - destruct changed; [done|]. intros Hr. apply IH in Hr as (H1 & H2 & H3 & H4 & H5 & H6); [|done..| |done].
    + split_and!; [done..| |].
      * intros a. rewrite H5, lookup_insert_is_Some, list.elem_of_cons. apply is_Some_or_cons.
      * intros a l Hc Hl Hin Hno. destruct (decide (addr = a)) as [->|Hne].
        -- rewrite Ep in Hl. injection Hl as ->. apply H6; [done..| |]; rewrite lookup_insert_eq; auto.
        -- apply H6; [assumption..| |]; rewrite lookup_insert_ne by assumption; [|assumption];
            destruct Hin as [Hin|[->|Hin]%list.elem_of_cons]; [by left|done|by right].
    + intros a l. rewrite lookup_insert_Some. intros [[<- <-]|[_ Hl]]; auto.
  - destruct (new_pool h addr (DB_Backend db) (DB_Pool db)) as [[p h1]| |] eqn:En; [|done..]. cbn [res_bind].
    destruct (new_pool_spec _ _ _ _ _ _ Ha En) as (-> & Hn1 & Hopen & Hun & Ha1). intros Hr.
    apply IH in Hr as (H1 & H2 & H3 & H4 & H5 & H6); [|done|lia| |].
    + split_and!; [done|lia|by eapply unchanged_trans; [|done|done]; lia|done| |].
      * intros a. rewrite H5, lookup_insert_is_Some, list.elem_of_cons. apply is_Some_or_cons.
      * intros a l Hc Hl Hin Hno. destruct (decide (addr = a)) as [->|Hne]; [subst; congruence|].
        apply H6; [assumption..| |]; rewrite lookup_insert_ne by assumption; [|assumption];
            destruct Hin as [Hin|[->|Hin]%list.elem_of_cons]; [by left|done|by right].
    + intros a l. rewrite lookup_insert_Some. intros [[<- <-]|[_ Hl]]; [auto|]. destruct (Hacc a l Hl) as [Ho Hor].
      split; [|done]. eapply open_below; [done|by eapply open_allocated|done].
    + intros Hc a l Hl. eapply open_below; [done| |by apply Hg]. by eapply open_allocated, Hg.
Qed.

Lemma close_pool_ne h l l' : l <> l' -> objs (close_pool h l) !! l' = objs h !! l'.
Proof. intros. cbn. by rewrite lookup_alter_ne. Qed.

Lemma close_pool_closed h l : is_Some (objs h !! l) -> is_closed (close_pool h l) l.
Proof.
  intros [o Ho]. exists {| p_addr := p_addr o; p_backend := p_backend o; p_pool := (Pool.Close (p_pool o)).1 |}. cbn.
  rewrite lookup_alter_eq, Ho. split; [done|]. cbn. unfold Pool.Close. by destruct (Pool.closed (p_pool o)) eqn:E.
Qed.

Lemma close_pool_keeps_closed h l l' : is_closed h l' -> is_closed (close_pool h l) l'.
Proof.
  intros Hc. destruct (decide (l = l')) as [->|Hne].
  - apply close_pool_closed. destruct Hc as (o & -> & _). done.
  - destruct Hc as (o & Ho & Hc). exists o. by rewrite close_pool_ne.
Qed.

Lemma close_pool_dom h l : dom (objs (close_pool h l)) = dom (objs h).
Proof. apply dom_alter_L. Qed.

Lemma close_all_spec ls h :
  (forall l, l ∉ ls -> objs (close_all h ls) !! l = objs h !! l) /\
  (forall l, l ∈ ls -> is_Some (objs h !! l) -> is_closed (close_all h ls) l) /\
  dom (objs (close_all h ls)) = dom (objs h) /\ next_pool (close_all h ls) = next_pool h.
Proof.
  unfold close_all. revert h. induction ls as [|x ls IH]; intros h; cbn [fold_left]; [set_solver|].
  destruct (IH (close_pool h x)) as (H1 & H2 & H3 & H4). split_and!.
  - intros l Hl. rewrite H1 by set_solver. apply close_pool_ne. set_solver.
  - intros l Hl Hs. destruct (decide (l ∈ ls)) as [Hin|Hno].
    + apply H2; [done|]. destruct (decide (x = l)) as [->|Hne]; [cbn; by rewrite lookup_alter_eq, fmap_is_Some|by rewrite close_pool_ne].
    + assert (l = x) as -> by set_solver. destruct (close_pool_closed h x Hs) as (o & Ho & Hc). exists o. by rewrite H1.
  - by rewrite H3, close_pool_dom.
  - by rewrite H4.
Qed.

Lemma elem_of_removed g m l : l ∈ removed_readers g m <-> exists a, readerPools g !! a = Some l /\ m !! a = None.
Proof.
  unfold removed_readers. rewrite list_elem_of_fmap. split.
  - intros ([a l'] & -> & Hin). apply elem_of_map_to_list, map_lookup_filter_Some in Hin. exists a. done.
  - intros (a & Ha & Hn). exists (a, l). split; [done|]. apply elem_of_map_to_list, map_lookup_filter_Some. done.
Qed.

Lemma credsChanged_false b1 b2 : credsChanged b1 b2 = false -> b1 = b2.
Proof.
  unfold credsChanged. intros H. apply orb_false_iff in H as [[H1 H2]%orb_false_iff H3].
  apply bool_decide_eq_false, dec_stable in H1, H2, H3. destruct b1, b2. cbn in *. congruence.
Qed.

Lemma reload_writer_spec h g db wp h1 :
  well_formed h g ->
  let replace := credsChanged (backendCfg g) (DB_Backend db) || bool_decide (addr_of (Writer db) <> writerAddr g) in
  reload_writer h g db replace = Ok (wp, h1) ->
  allocated h1 /\ next_pool h <= next_pool h1 /\
  (forall l, l < next_pool h -> writerPool g <> Some l -> objs h1 !! l = objs h !! l) /\
  exists w, wp = Some w /\ open h1 w (addr_of (Writer db)) (DB_Backend db) /\ w < next_pool h1 /\
    (if replace then w = next_pool h /\ (forall l, writerPool g = Some l -> is_closed h1 l) else writerPool g = Some w /\ h1 = h).
Proof.
  intros [(w0 & Hw & Hopen & Hsep) Hr _ Ha] replace. unfold reload_writer. destruct replace eqn:Erep; unfold replace in Erep.
  - rewrite Hw. assert (allocated (close_pool h w0)) as Ha0 by (intros l; rewrite close_pool_dom; apply Ha).
    destruct (new_pool _ _ _ _) as [[p h']| |] eqn:En; [|done..]. intros [= <- <-].
    destruct (new_pool_spec _ _ _ _ _ _ Ha0 En) as (-> & Hn & Ho & Hun & Ha'). change (next_pool (close_pool h w0)) with (next_pool h) in *.
    split_and!; [done|lia| |].
    + intros l Hl Hne. rewrite Hun by done. apply close_pool_ne. congruence.
    + exists (next_pool h). split_and!; [done..|lia|done|]. intros l [= <-].
      destruct (close_pool_closed h w0) as (o & Hco & Hc); [destruct Hopen as (o & -> & _); done|].
      exists o. rewrite Hun; [done|]. by eapply open_allocated.
  - apply orb_false_iff in Erep as [Hc He]. apply bool_decide_eq_false, dec_stable in He. apply credsChanged_false in Hc.
    intros [= <- <-]. split_and!; [done..|]. exists w0. rewrite He, <- Hc. split_and!; try done. by eapply open_allocated.
Qed.

Lemma UpdateBackends_addrs r addrs : Balancer.wf r -> Balancer.wf (UpdateBackends r addrs) /\ Backends (UpdateBackends r addrs) = addrs.
Proof.
  intros Hwf. destruct (UpdateBackends_view r addrs Hwf) as [Hwf' Hv]. split; [done|]. unfold Backends. clear -Hv.
  induction Hv as [|a b addrs bs [Ha _] Hv IH]; [done|]. cbn. by rewrite Ha, IH.
Qed.

(** What a reload does to the pools. *)
Section Reloaded.
Context (h : Heap) (g : DatabaseGroup) (db : DatabaseConfig) (cbCfg : CircuitBreakerConfig) (g' : DatabaseGroup) (h' : Heap).
Hypothesis Hwf : well_formed h g.
Hypothesis Hreload : Reload h g db cbCfg = Ok (g', h').
Let addrs := addr_of <$> Readers db.
Let changed := credsChanged (backendCfg g) (DB_Backend db).

(** The new pools as the steps of [Reload] leave them. *)
Lemma Reload_pools :
  (exists w, writerPool g' = Some w /\ open h' w (addr_of (Writer db)) (DB_Backend db) /\
     ((changed = false /\ addr_of (Writer db) = writerAddr g /\ writerPool g = Some w) \/
      ((changed = true \/ addr_of (Writer db) <> writerAddr g) /\ next_pool h <= w /\ forall l, writerPool g = Some l -> is_closed h' l)) /\
     forall a, readerPools g' !! a <> Some w) /\
  (forall a l, readerPools g' !! a = Some l -> open h' l a (DB_Backend db) /\
     (next_pool h <= l \/ changed = false /\ readerPools g !! a = Some l)) /\
  (forall a, is_Some (readerPools g' !! a) <-> a ∈ addrs) /\
  (forall a l, changed = false -> readerPools g !! a = Some l -> a ∈ addrs -> readerPools g' !! a = Some l) /\
  (forall a l, readerPools g !! a = Some l -> a ∉ addrs -> is_closed h' l) /\
  (forall l, l < next_pool h -> writerPool g <> Some l -> (forall a, readerPools g !! a = Some l -> a ∈ addrs) -> objs h' !! l = objs h !! l) /\
  allocated h' /\ writerAddr g' = addr_of (Writer db) /\ backendCfg g' = DB_Backend db /\ balancer g' = UpdateBackends (balancer g) addrs.
Proof.
  revert Hreload. unfold Reload. destruct (reload_writer h g db _) as [[wp h1]| |] eqn:Ew; [|done..]. cbn [res_bind].
  destruct (reload_writer_spec _ _ _ _ _ Hwf Ew) as (Ha1 & Hn1 & Hun1 & w & -> & Hopen & Hw1 & Hrep).
  destruct Hwf as [(w0 & Hw0 & Hopen0 & Hsep0) Hr _ Ha]. fold changed in Hrep |- *.
  destruct (reload_readers h1 g db changed (addr_of <$> Readers db) ∅) as [[m h2]| |] eqn:Er; [|done..]. cbn [res_bind].
  assert (changed = false -> forall a l, readerPools g !! a = Some l -> open h1 l a (DB_Backend db)) as Hg.
  { intros Hc a l Hl. rewrite <- (credsChanged_false _ _ Hc). pose proof (Hr a l Hl) as (o & Ho & Hrest). exists o.
    rewrite Hun1; [done|by apply Ha; apply elem_of_dom_2 in Ho|]. rewrite Hw0. intros [= ->]. by eapply Hsep0. }
  destruct (reload_readers_spec g db changed (next_pool h1) h1 _ ∅ m h2 Ha1 (le_n _) ltac:(intros ??; by rewrite lookup_empty) Hg Er) as (Ha2 & Hn2 & Hun2 & Hm & Hdom & Hkeep).
  destruct (close_all_spec (removed_readers g m) h2) as (C1 & C2 & C3 & C4). intros [= <- <-].
  assert (forall a, is_Some (m !! a) <-> a ∈ addrs) as Hdom'.
  { intros a. rewrite Hdom, lookup_empty. split; [intros [[? [=]]|]; done|auto]. }
  assert (forall a l, readerPools g !! a = Some l -> l < next_pool h /\ l <> w0) as Hold.
  { intros a l Hl. split; [by eapply open_allocated, Hr|]. intros ->. by eapply Hsep0. }
  assert (forall a l, m !! a = Some l -> (l ∉ removed_readers g m) /\ l <> w) as Hnr.
  { intros a l Hl. destruct (Hm a l Hl) as [_ Hor]. split.
    - intros (a' & Ha' & Hn)%elem_of_removed. destruct (Hold a' l Ha') as [Hlt _]. destruct Hor as [Hge|[_ Hga]]; [lia|].
      destruct (Hr a l Hga) as (o & Ho & Hoa & _), (Hr a' l Ha') as (o' & Ho' & Hoa' & _). congruence.
    - intros ->. destruct Hor as [Hge|[_ Hga]]; [lia|]. destruct (Hold a w Hga) as [Hlt Hne].
      destruct (changed || _) eqn:Erep in Hrep; [destruct Hrep; lia|]. destruct Hrep as [Hrep _]. congruence. }
  assert (w ∉ removed_readers g m) as Hwr.
  { intros (a' & Ha' & Hn)%elem_of_removed. destruct (Hold a' w Ha') as [Hlt Hne].
    destruct (changed || _) eqn:Erep in Hrep; [destruct Hrep; lia|]. destruct Hrep as [Hrep _]. congruence. }
  assert (w0 ∉ removed_readers g m) as Hw0r by (intros (a' & Ha' & _)%elem_of_removed; by destruct (Hold a' w0 Ha')).
  assert (forall l a b, l ∉ removed_readers g m -> open h2 l a b -> open (close_all h2 (removed_readers g m)) l a b) as Hop
    by (intros l a b Hl (o & Ho & Hrest); exists o; by rewrite C1).
  pose proof (open_allocated _ _ _ _ Ha Hopen0) as Hw0lt. cbn [writerPool readerPools writerAddr backendCfg balancer].
  split_and!; try done.
  - exists w. split_and!; [done| | |intros a Hl; by destruct (Hnr a w Hl)].
    + apply Hop; [done|]. by eapply open_below.
    + destruct (changed || bool_decide _) eqn:Erep in Hrep.
      * right. destruct Hrep as [-> Hcl]. split_and!; [|lia|].
        -- apply orb_true_iff in Erep as [|Hb%bool_decide_eq_true]; auto.
        -- intros l Hl. assert (l = w0) as -> by congruence. destruct (Hcl w0 Hw0) as (o & Ho & Hc). exists o.
           rewrite C1, Hun2; [done|lia|done].
      * left. apply orb_false_iff in Erep as [Hc He]. apply bool_decide_eq_false, dec_stable in He. by destruct Hrep.
  - intros a l Hl. destruct (Hm a l Hl) as [Ho Hor]. split; [apply Hop; [by apply (Hnr a)|done]|]. destruct Hor; [left; lia|auto].
  - intros a l Hc Hl Hin. apply Hkeep; auto.
  - intros a l Hl Hno. apply C2.
    + apply elem_of_removed. exists a. split; [done|]. destruct (m !! a) eqn:E; [|done]. exfalso. apply Hno, Hdom'. by rewrite E.
    + destruct (Hold a l Hl) as [Hlt Hne]. destruct (Hr a l Hl) as (o & Ho & _). rewrite Hun2, Hun1, Ho by (congruence || lia). done.
  - intros l Hlt Hne Hin. rewrite C1, Hun2, Hun1; try done; [lia|]. intros (a & Hl & Hn)%elem_of_removed.
    apply Hin, Hdom' in Hl. rewrite Hn in Hl. by destruct Hl.
  - intros l. rewrite C3, C4. apply Ha2.
  - by destruct (changed || bool_decide _) eqn:Erep; [|apply orb_false_iff in Erep as [_ He]; apply bool_decide_eq_false, dec_stable in He].
Qed.

Lemma Reload_well_formed : well_formed h' g'.
Proof.
  destruct Reload_pools as ((w & Hw & Ho & _ & Hsep) & Hr & Hdom & _ & _ & _ & Ha & Hwa & Hb & Hbal).
  destruct (UpdateBackends_addrs (balancer g) addrs (proj1 (wf_balancer _ _ Hwf))) as [Hbwf Hbk].
  split; [exists w; by rewrite Hwa, Hb|intros a l Hl; rewrite Hb; by apply Hr| |done].
  rewrite Hbal. split; [done|]. intros a. by rewrite Hbk, Hdom.
Qed.
End Reloaded.

(** a reload of a database keeps what did not change and replaces the rest. Afterwards
    the group's pools are open, connect to the new configuration's addresses with its
    credentials, and there is one for each address the balancer returns; unless the
    credentials changed the pools of addresses that stay are the same objects, with
    their connections; a replaced writer pool and the pools of removed readers are closed;
    no other pool is touched. *)
Theorem Reload_spec h g db cbCfg g' h' :
  well_formed h g -> Reload h g db cbCfg = Ok (g', h') ->
  let addrs := addr_of <$> Readers db in
  well_formed h' g' /\ writerAddr g' = addr_of (Writer db) /\ backendCfg g' = DB_Backend db /\ Backends (balancer g') = addrs /\
  (backendCfg g' = backendCfg g ->
     (writerAddr g' = writerAddr g -> writerPool g' = writerPool g) /\
     forall a l, readerPools g !! a = Some l -> a ∈ addrs -> readerPools g' !! a = Some l) /\
  (forall l, writerPool g = Some l -> writerPool g' <> Some l -> is_closed h' l) /\
  (forall a l, readerPools g !! a = Some l -> a ∉ addrs -> is_closed h' l) /\
  (forall l, l < next_pool h -> writerPool g <> Some l -> (forall a, readerPools g !! a <> Some l) -> objs h' !! l = objs h !! l).
Proof.
  intros Hwf Hr addrs. pose proof (Reload_well_formed _ _ _ _ _ _ Hwf Hr) as Hwf'.
  destruct (Reload_pools _ _ _ _ _ _ Hwf Hr) as ((w & Hw & _ & Hcase & _) & _ & _ & Hkeep & Hcl & Hun & _ & Hwa & Hb & Hbal).
  assert (backendCfg g' = backendCfg g -> credsChanged (backendCfg g) (DB_Backend db) = false) as Hsame.
  { intros He. rewrite <- Hb, He. unfold credsChanged. by rewrite !bool_decide_eq_false_2 by (intros Hn; by apply Hn). }
  split_and!; try done.
  - rewrite Hbal. by destruct (UpdateBackends_addrs (balancer g) addrs (proj1 (wf_balancer _ _ Hwf))).
  - intros He%Hsame. split; [|by intros a l; apply Hkeep]. intros Haddr. rewrite Hwa in Haddr. rewrite Hw.
    destruct Hcase as [(_ & _ & ->)|([Hc|Hc] & _)]; congruence.
  - intros l Hl Hne. destruct Hcase as [(_ & _ & E)|(_ & _ & Hc)]; [congruence|by apply Hc].
  - intros l Hl Hne Hno. apply Hun; [done..|]. intros a Ha. by destruct (Hno a).
Qed.

(** When the credentials change, the old pool of a reader that stays is dropped without
    being closed: it stays open, and the group has forgotten it. *)
Theorem Reload_leaks h g db cbCfg g' h' a l :
  well_formed h g -> Reload h g db cbCfg = Ok (g', h') -> backendCfg g <> DB_Backend db ->
  readerPools g !! a = Some l -> a ∈ (addr_of <$> Readers db) ->
  open h' l a (backendCfg g) /\ writerPool g' <> Some l /\ forall a', readerPools g' !! a' <> Some l.
Proof.
  intros Hwf Hr Hne Hl Hin. pose proof Hwf as [(w0 & Hw0 & Ho0 & Hsep) Hrd Hbal Ha].
  destruct (Reload_pools _ _ _ _ _ _ Hwf Hr) as ((w & Hw & _ & Hcase & _) & Hnew & _ & _ & _ & Hun & _).
  pose proof (open_allocated _ _ _ _ Ha (Hrd a l Hl)) as Hlt.
  assert (credsChanged (backendCfg g) (DB_Backend db) = true) as Hc.
  { destruct (credsChanged _ _) eqn:E; [done|]. by apply credsChanged_false in E. }
  rewrite Hc in *. split_and!.
  - destruct (Hrd a l Hl) as (o & Ho & Hrest). exists o. rewrite Hun; [done|done| |].
    + rewrite Hw0. intros [= ->]. by eapply Hsep.
    + intros a' Ha'. destruct (Hrd a l Hl) as (o1 & Ho1 & <- & _), (Hrd a' l Ha') as (o2 & Ho2 & <- & _). congruence.
  - rewrite Hw. destruct Hcase as [[? _]|(_ & Hge & _)]; [done|]. intros [= ->]. lia.
  - intros a' Ha'. destruct (Hnew a' l Ha') as [_ [Hge|[? _]]]; [lia|done].
Qed.

(** ** New groups *)

Lemma new_readers_reload h g db addrs acc : new_readers h db addrs acc = reload_readers h g db true addrs acc.
Proof.
  revert h acc. induction addrs as [|a addrs IH]; intros h acc; [done|]. cbn [new_readers reload_readers].
  destruct (new_pool _ _ _ _) as [[p h1]| |]; [apply IH|done..].
Qed.

Lemma NewRoundRobin_addrs addrs : Balancer.wf (NewRoundRobin addrs) /\ Backends (NewRoundRobin addrs) = addrs.
Proof.
  change (NewRoundRobin addrs) with (UpdateBackends (NewRoundRobin []) addrs). apply UpdateBackends_addrs.
  split_and!; [constructor|intros l b; cbn; by rewrite lookup_empty|done].
Qed.

Lemma new_group h name db cbCfg g h' :
  allocated h -> newDatabaseGroup h name db cbCfg = Ok (g, h') ->
  well_formed h' g /\ unchanged_below (next_pool h) h h' /\
  writerAddr g = addr_of (Writer db) /\ backendCfg g = DB_Backend db /\ Backends (balancer g) = addr_of <$> Readers db.
Proof.
  intros Ha. unfold newDatabaseGroup. destruct (new_pool h _ _ _) as [[w h1]| |] eqn:Ew; [|done..]. cbn [res_bind].
  destruct (new_pool_spec _ _ _ _ _ _ Ha Ew) as (-> & Hn1 & Ho & Hun1 & Ha1).
  set (g0 := {| g_name := []; writerAddr := []; writerPool := None; readerPools := ∅; balancer := NewRoundRobin []; writerCB := None;
                readerCBs := ∅; backendCfg := DB_Backend db |}).
  rewrite (new_readers_reload _ g0). destruct (reload_readers _ _ _ _ _ _) as [[m h2]| |] eqn:Er; [|done..]. cbn [res_bind].
  destruct (reload_readers_spec g0 db true (next_pool h1) h1 _ ∅ m h2 Ha1 (le_n _) ltac:(intros ??; by rewrite lookup_empty) ltac:(done) Er)
    as (Ha2 & Hn2 & Hun2 & Hm & Hdom & _).
  intros [= <- <-]. destruct (NewRoundRobin_addrs (addr_of <$> Readers db)) as [Hbwf Hbk].
  split_and!; try done; [|apply (unchanged_trans _ (next_pool h1) _ h1); [lia|done..]]. split; cbn [writerPool readerPools writerAddr backendCfg balancer]; [| | |done].
  - exists (next_pool h). split_and!; [done|by eapply open_below; [exact Hun2|lia|]|]. intros a Hl. destruct (Hm a _ Hl) as [_ [Hge|[? _]]]; [lia|done].
  - intros a l Hl. by apply Hm.
  - split; [done|]. intros a. rewrite Hbk, Hdom, lookup_empty. split; [auto|intros [[? [=]]|]; done].
Qed.

(** ** Which pools a group's operations touch *)

Definition pool_of (g : DatabaseGroup) (l : pool_loc) : Prop := writerPool g = Some l \/ exists a, readerPools g !! a = Some l.

Lemma new_pool_next h addr b p l h' : new_pool h addr b p = Ok (l, h') -> next_pool h' = S (next_pool h).
Proof. unfold new_pool. destruct (_ <? 0)%Z; [done|]. by intros [= _ <-]. Qed.

Lemma reload_readers_next h g db changed addrs acc m h' : reload_readers h g db changed addrs acc = Ok (m, h') -> next_pool h <= next_pool h'.
Proof.
  revert h acc. induction addrs as [|a addrs IH]; intros h acc; cbn [reload_readers]; [by intros [= _ <-]|].
  destruct (if changed then None else readerPools g !! a); [apply IH|].
  destruct (new_pool _ _ _ _) as [[p h1]| |] eqn:En; [|done..]. apply new_pool_next in En. intros Hr%IH. lia.
Qed.

Lemma Reload_next h g db cbCfg g' h' : Reload h g db cbCfg = Ok (g', h') -> next_pool h <= next_pool h'.
Proof.
  unfold Reload. destruct (reload_writer h g db _) as [[wp h1]| |] eqn:Ew; [|done..]. cbn [res_bind].
  destruct (reload_readers h1 _ _ _ _ _) as [[m h2]| |] eqn:Er; [|done..]. cbn [res_bind]. intros [= _ <-].
  apply reload_readers_next in Er. destruct (close_all_spec (removed_readers g m) h2) as (_ & _ & _ & ->).
  revert Ew. unfold reload_writer. case_match; [|intros [= _ <-]; lia].
  destruct (new_pool _ _ _ _) as [[p h3]| |] eqn:En; [|done..]. apply new_pool_next in En. intros [= _ <-].
  destruct (writerPool g); cbn in En; lia.
Qed.

(** A reload makes new pools or keeps some of the group's own, and touches no others. *)
Lemma Reload_frame h g db cbCfg g' h' :
  well_formed h g -> Reload h g db cbCfg = Ok (g', h') ->
  (forall l, pool_of g' l -> pool_of g l \/ next_pool h <= l) /\
  (forall l, l < next_pool h -> ~ pool_of g l -> objs h' !! l = objs h !! l) /\ allocated h' /\ next_pool h <= next_pool h'.
Proof.
  intros Hwf Hr. pose proof (Reload_next _ _ _ _ _ _ Hr).
  destruct (Reload_pools _ _ _ _ _ _ Hwf Hr) as ((w & Hw & _ & Hcase & _) & Hrd & _ & _ & _ & Hun & Ha & _).
  split_and!; [|..|done|done].
  - intros l [E|[a E]].
    + rewrite Hw in E. injection E as <-. destruct Hcase as [(_ & _ & ?)|(_ & ? & _)]; [by left; left|by right].
    + destruct (Hrd a l E) as [_ [?|[_ ?]]]; [by right|left; right; by exists a].
  - intros l Hl Hno. apply Hun; [done|intros ?; by destruct Hno; left|]. intros a Ha'. destruct Hno. right. by exists a.
Qed.

Lemma new_group_frame h name db cbCfg g h' :
  allocated h -> newDatabaseGroup h name db cbCfg = Ok (g, h') ->
  (forall l, pool_of g l -> next_pool h <= l) /\ unchanged_below (next_pool h) h h' /\ allocated h' /\ next_pool h <= next_pool h'.
Proof.
  intros Ha Hn. destruct (new_group _ _ _ _ _ _ Ha Hn) as (Hwf & Hun & _). revert Hn. unfold newDatabaseGroup.
  destruct (new_pool h _ _ _) as [[w h1]| |] eqn:Ew; [|done..]. cbn [res_bind].
  destruct (new_pool_spec _ _ _ _ _ _ Ha Ew) as (-> & Hn1 & _ & _ & Ha1).
  set (g0 := {| g_name := []; writerAddr := []; writerPool := None; readerPools := ∅; balancer := NewRoundRobin []; writerCB := None;
                readerCBs := ∅; backendCfg := DB_Backend db |}).
  rewrite (new_readers_reload _ g0). destruct (reload_readers _ _ _ _ _ _) as [[m h2]| |] eqn:Er; [|done..]. cbn [res_bind].
  destruct (reload_readers_spec g0 db true (next_pool h1) h1 _ ∅ m h2 Ha1 (le_n _) ltac:(intros ??; by rewrite lookup_empty) ltac:(done) Er)
    as (Ha2 & Hn2 & Hun2 & Hm & _).
  intros [= <- <-]. split_and!; [|done|done|lia]. intros l [E|[a E]]; cbn in E.
  - injection E as <-. done.
  - destruct (Hm a l E) as [_ [?|[? _]]]; [lia|done].
Qed.

Lemma Close_spec h g :
  (forall l, ~ pool_of g l -> objs (Close h g) !! l = objs h !! l) /\
  (forall l, pool_of g l -> is_Some (objs h !! l) -> is_closed (Close h g) l) /\
  dom (objs (Close h g)) = dom (objs h) /\ next_pool (Close h g) = next_pool h.
Proof.
  unfold Close. set (h1 := match writerPool g with Some l => close_pool h l | None => h end).
  destruct (close_all_spec (map_to_list (readerPools g)).*2 h1) as (C1 & C2 & C3 & C4).
  assert (forall l, l ∈ (map_to_list (readerPools g)).*2 <-> exists a, readerPools g !! a = Some l) as Hin.
  { intros l. rewrite list_elem_of_fmap. split; [intros ([a l'] & -> & Hx%elem_of_map_to_list); by exists a|].
    intros [a Ha]. exists (a, l). split; [done|]. by apply elem_of_map_to_list. }
  assert (dom (objs h1) = dom (objs h)) as Hd by (unfold h1; destruct (writerPool g); [apply close_pool_dom|done]).
  split_and!.
  - intros l Hno. rewrite C1 by (rewrite Hin; intros ?; apply Hno; by right). unfold h1. destruct (writerPool g) as [w|] eqn:Ew; [|done].
    apply close_pool_ne. intros ->. apply Hno. by left.
  - intros l Hp Hs. destruct (decide (l ∈ (map_to_list (readerPools g)).*2)) as [Hl|Hl].
    + apply C2; [done|]. apply elem_of_dom. rewrite Hd. by apply elem_of_dom.
    + destruct Hp as [Ew|Hr]; [|by apply Hin in Hr]. unfold is_closed. rewrite C1 by done. unfold h1. rewrite Ew.
      by apply close_pool_closed.
  - by rewrite C3.
  - rewrite C4. unfold h1. by destruct (writerPool g).
Qed.

(** a new database group is well formed: its pools are open, different, and connect to
    the configured addresses with the configured credentials, one for each address the
    balancer returns; no other pool is touched. *)
Theorem newDatabaseGroup_well_formed h name db cbCfg g h' :
  allocated h -> newDatabaseGroup h name db cbCfg = Ok (g, h') ->
  well_formed h' g /\ unchanged_below (next_pool h) h h' /\
  writerAddr g = addr_of (Writer db) /\ backendCfg g = DB_Backend db /\ Backends (balancer g) = addr_of <$> Readers db.
Proof. apply new_group. Qed.

Module Examples.
Definition pool_cfg : PoolConfig :=
  {| Pool_MinConnections := 1; Pool_MaxConnections := 5; Pool_IdleTimeout := 0; Pool_MaxLifetime := 0; Pool_ConnectionTimeout := 0;
     Pool_QueryTimeout := 0; Pool_ResetQuery := []; Pool_PreparedStatementMode := $"proxy" |}.

Definition db (user : bytes) (readers : list bytes) : DatabaseConfig :=
  {| Writer := {| Host := $"w"; Port := 5432 |}; Readers := (fun r => {| Host := r; Port := 5432 |}) <$> readers;
     DB_Backend := {| Backend_User := user; Backend_Password := []; Backend_Database := $"app" |}; DB_Pool := pool_cfg; DB_MaxConnections := 0 |}.

Definition no_cb : CircuitBreakerConfig :=
  {| CircuitBreaker_Enabled := false; CB_ErrorThreshold := f_half; CB_OpenDuration := 0; CB_HalfOpenMax := 0; CB_WindowSize := 0 |}.

Definition empty_heap : Heap := {| objs := ∅; next_pool := 0 |}.

Lemma empty_allocated : allocated empty_heap.
Proof. intros l. cbn. rewrite dom_empty. set_solver. Qed.

Definition group0 : res unit (DatabaseGroup * Heap) := newDatabaseGroup empty_heap $"app" (db $"u" [$"r1"; $"r2"]) no_cb.

(** What the witnesses look at. *)
Definition group_view (x : res unit (DatabaseGroup * Heap)) : option (option pool_loc * option pool_loc * option pool_loc * bytes * BackendConfig) :=
  match x with
  | Ok (g, _) => Some (readerPools g !! $"r1:5432", readerPools g !! $"r2:5432", writerPool g, writerAddr g, backendCfg g)
  | _ => None
  end.

Lemma group0_Ok : exists g h, group0 = Ok (g, h) /\ readerPools g !! $"r1:5432" = Some 1 /\ readerPools g !! $"r2:5432" = Some 2 /\
  writerPool g = Some 0 /\ writerAddr g = $"w:5432" /\ backendCfg g = DB_Backend (db $"u" []).
Proof.
  assert (group_view group0 = Some (Some 1, Some 2, Some 0, $"w:5432", DB_Backend (db $"u" []))) as E by (by vm_compute).
  destruct group0 as [[g h]| |]; [|done..]. injection E as E1 E2 E3 E4 E5. by exists g, h.
Qed.

Lemma newDatabaseGroup_well_formed_witness : exists g h, group0 = Ok (g, h) /\ well_formed h g.
Proof.
  destruct group0_Ok as (g & h & E & _). exists g, h. split; [done|].
  by apply (newDatabaseGroup_well_formed empty_heap $"app" (db $"u" [$"r1"; $"r2"]) no_cb g h empty_allocated).
Defined.

(** r1 goes, r3 comes. *)
Definition group1 : res unit (DatabaseGroup * Heap) :=
  match group0 with Ok (g, h) => Reload h g (db $"u" [$"r2"; $"r3"]) no_cb | _ => Err tt end.

Lemma group1_Ok : exists g h, group1 = Ok (g, h).
Proof.
  assert (group_view group1 = Some (None, Some 2, Some 0, $"w:5432", DB_Backend (db $"u" []))) as E by (by vm_compute).
  destruct group1 as [[g h]| |]; [|done..]. by exists g, h.
Qed.

Lemma group1_addrs : ($"r1:5432" ∉ (addr_of <$> Readers (db $"u" [$"r2"; $"r3"]))) /\ ($"r2:5432" ∈ (addr_of <$> Readers (db $"u" [$"r2"; $"r3"]))).
Proof. apply (bool_decide_unpack _). by vm_compute. Qed.

(** r2 keeps its pool and the pool of r1 is closed. *)
Lemma Reload_spec_witness : exists g h g' h', group0 = Ok (g, h) /\ Reload h g (db $"u" [$"r2"; $"r3"]) no_cb = Ok (g', h') /\
  writerPool g' = Some 0 /\ is_closed h' 1 /\ readerPools g' !! $"r2:5432" = Some 2.
Proof.
  destruct group0_Ok as (g & h & E & H1 & H2 & Hw & Hwa0 & Hb0), group1_Ok as (g' & h' & Er), group1_addrs as [Hout Hin].
  unfold group1 in Er. rewrite E in Er.
  assert (well_formed h g) as Hwf by (by apply (new_group empty_heap $"app" (db $"u" [$"r1"; $"r2"]) no_cb g h empty_allocated)).
  destruct (Reload_spec h g (db $"u" [$"r2"; $"r3"]) no_cb g' h' Hwf Er) as (_ & Hwa & Hb & _ & Hkeep & _ & Hcl & _).
  assert (backendCfg g' = backendCfg g) as Hbb by (by rewrite Hb, Hb0). destruct (Hkeep Hbb) as [Hkw Hkr].
  exists g, h, g', h'. split_and!; [done..| | |].
  - rewrite Hkw; [done|]. rewrite Hwa, Hwa0. by vm_compute.
  - by apply (Hcl $"r1:5432").
  - by apply Hkr.
Defined.
End Examples.
