(* ===== verification/Crypto.v ===== *)
(** * Hashes and base64

    What the source uses of Go's crypto and encoding packages: [crypto/md5],
    [crypto/sha256], [crypto/hmac] and the standard encoding of [encoding/base64]. *)

From S2P Require Import Prelude GoStrings Wire.

Local Open Scope Z_scope.

(** ** 32-bit words *)

Definition add32 (a b : Z) : Z := wrapU 32 (a + b).
Definition not32 (a : Z) : Z := 2 ^ 32 - 1 - a.
Definition rotl (n x : Z) : Z := Z.lor (wrapU 32 (Z.shiftl x n)) (Z.shiftr x (32 - n)).
Definition rotr (n x : Z) : Z := rotl (32 - n) x.

Definition le_value (l : bytes) : Z := be_value (reverse l).
Definition le_bytes (n : nat) (z : Z) : bytes := reverse (be_bytes n z).

Fixpoint chunks (fuel n : nat) (s : bytes) : list bytes :=
  match fuel with
  | O => []
  | S k => match s with [] => [] | _ => take n s :: chunks k n (drop n s) end
  end.

(** The message, the byte 0x80 and zeros, up to eight bytes short of a block; [len] is the
    encoded length in bits that fills it. *)
Definition padded (msg len : bytes) : bytes :=
  let zeros := Z.to_nat ((55 - Z.of_nat (length msg)) mod 64) in
  msg ++ [x80] ++ replicate zeros x00 ++ len.

Definition blocks (n : nat) (msg : bytes) : list bytes := chunks (S (length msg)) n msg.

(** ** MD5 *)

Definition md5_table : list Z :=
  [0xd76aa478; 0xe8c7b756; 0x242070db; 0xc1bdceee; 0xf57c0faf; 0x4787c62a; 0xa8304613; 0xfd469501;
   0x698098d8; 0x8b44f7af; 0xffff5bb1; 0x895cd7be; 0x6b901122; 0xfd987193; 0xa679438e; 0x49b40821;
   0xf61e2562; 0xc040b340; 0x265e5a51; 0xe9b6c7aa; 0xd62f105d; 0x02441453; 0xd8a1e681; 0xe7d3fbc8;
   0x21e1cde6; 0xc33707d6; 0xf4d50d87; 0x455a14ed; 0xa9e3e905; 0xfcefa3f8; 0x676f02d9; 0x8d2a4c8a;
   0xfffa3942; 0x8771f681; 0x6d9d6122; 0xfde5380c; 0xa4beea44; 0x4bdecfa9; 0xf6bb4b60; 0xbebfbc70;
   0x289b7ec6; 0xeaa127fa; 0xd4ef3085; 0x04881d05; 0xd9d4d039; 0xe6db99e5; 0x1fa27cf8; 0xc4ac5665;
   0xf4292244; 0x432aff97; 0xab9423a7; 0xfc93a039; 0x655b59c3; 0x8f0ccc92; 0xffeff47d; 0x85845dd1;
   0x6fa87e4f; 0xfe2ce6e0; 0xa3014314; 0x4e0811a1; 0xf7537e82; 0xbd3af235; 0x2ad7d2bb; 0xeb86d391].

Definition md5_shifts : list Z :=
  [7; 12; 17; 22; 5; 9; 14; 20; 4; 11; 16; 23; 6; 10; 15; 21].

(** Step [i] on the block's words [m]. *)
Definition md5_step (m : list Z) (st : Z * Z * Z * Z) (i : nat) : Z * Z * Z * Z :=
  let '(a, b, c, d) := st in
  let '(f, g) :=
    match (i / 16)%nat with
    | 0%nat => (Z.lor (Z.land b c) (Z.land (not32 b) d), i)
    | 1%nat => (Z.lor (Z.land d b) (Z.land (not32 d) c), (5 * i + 1) mod 16)%nat
    | 2%nat => (Z.lxor b (Z.lxor c d), (3 * i + 5) mod 16)%nat
    | _ => (Z.lxor c (Z.lor b (not32 d)), (7 * i) mod 16)%nat
    end in
  let f := add32 (add32 (add32 f a) (nth i md5_table 0)) (nth g m 0) in
  (d, add32 b (rotl (nth (4 * (i / 16) + i mod 4)%nat md5_shifts 0) f), b, c).

Definition md5_block (st : Z * Z * Z * Z) (block : bytes) : Z * Z * Z * Z :=
  let m := le_value <$> blocks 4 block in
  let '(a, b, c, d) := st in
  let '(a', b', c', d') := fold_left (md5_step m) (seq 0 64) st in
  (add32 a a', add32 b b', add32 c c', add32 d d').

(** [md5.New], [Write] and [Sum]. *)
Definition md5_sum (msg : bytes) : bytes :=
  let '(a, b, c, d) :=
    fold_left md5_block (blocks 64 (padded msg (le_bytes 8 (8 * Z.of_nat (length msg)))))
      (0x67452301, 0xefcdab89, 0x98badcfe, 0x10325476) in
  le_bytes 4 a ++ le_bytes 4 b ++ le_bytes 4 c ++ le_bytes 4 d.

(** ** SHA-256 *)

(** The constants are the first 32 bits of the fractional parts of the cube roots of the first 64 primes, and of
    the square roots of the first eight. *)
Fixpoint cube_root (bits : nat) (r n : Z) : Z :=
  match bits with
  | O => r
  | S k => let r' := r + 2 ^ Z.of_nat k in cube_root k (if r' ^ 3 <=? n then r' else r) n
  end.

Definition is_prime (n : Z) : bool := forallb (fun d => negb (n mod d =? 0)) (seqZ 2 (n - 2)).
Definition primes : list Z := Eval vm_compute in List.filter is_prime (seqZ 2 310).

Definition sha256_table : list Z := Eval vm_compute in (fun p => cube_root 36 0 (p * 2 ^ 96) mod 2 ^ 32) <$> primes.
Definition sha256_start : list Z := Eval vm_compute in (fun p => Z.sqrt (p * 2 ^ 64) mod 2 ^ 32) <$> take 8 primes.

(** The schedule, latest word first. *)
Definition schedule_word (w : list Z) : Z :=
  let w15 := nth 14 w 0 in
  let w2 := nth 1 w 0 in
  let s0 := Z.lxor (rotr 7 w15) (Z.lxor (rotr 18 w15) (Z.shiftr w15 3)) in
  let s1 := Z.lxor (rotr 17 w2) (Z.lxor (rotr 19 w2) (Z.shiftr w2 10)) in
  add32 (add32 (nth 15 w 0) s0) (add32 (nth 6 w 0) s1).

Fixpoint schedule (n : nat) (w : list Z) : list Z :=
  match n with
  | O => reverse w
  | S k => schedule k (schedule_word w :: w)
  end.

Definition sha256_step (st : list Z) (kw : Z * Z) : list Z :=
  match st with
  | [a; b; c; d; e; f; g; h] =>
      let s1 := Z.lxor (rotr 6 e) (Z.lxor (rotr 11 e) (rotr 25 e)) in
      let ch := Z.lxor (Z.land e f) (Z.land (not32 e) g) in
      let t1 := add32 (add32 h s1) (add32 ch (add32 kw.1 kw.2)) in
      let s0 := Z.lxor (rotr 2 a) (Z.lxor (rotr 13 a) (rotr 22 a)) in
      let maj := Z.lxor (Z.land a b) (Z.lxor (Z.land a c) (Z.land b c)) in
      [add32 t1 (add32 s0 maj); a; b; c; add32 d t1; e; f; g]
  | _ => st
  end.

Definition sha256_block (st : list Z) (block : bytes) : list Z :=
  let w := schedule 48 (reverse (be_value <$> blocks 4 block)) in
  zip_with add32 st (fold_left sha256_step (zip sha256_table w) st).

Definition sha256_sum (msg : bytes) : bytes :=
  concat (be_bytes 4 <$> fold_left sha256_block (blocks 64 (padded msg (be_bytes 8 (8 * Z.of_nat (length msg))))) sha256_start).

(** ** HMAC *)

Definition xor_with (v : Z) (s : bytes) : bytes := (fun b => zb (Z.lxor (bz b) v)) <$> s.

(** [hmac.New(sha256.New, key)], [Write] and [Sum]. *)
Definition hmac_sha256 (key data : bytes) : bytes :=
  let key := if (64 <? length key)%nat then sha256_sum key else key in
  let key := key ++ replicate (64 - length key) x00 in
  sha256_sum (xor_with 0x5c key ++ sha256_sum (xor_with 0x36 key ++ data)).

(** ** Base64 *)

Definition base64_alphabet : bytes := $"ABCDEFGHIJKLMNOPQRSTUVWXYZabcdefghijklmnopqrstuvwxyz0123456789+/".
Definition base64_char (v : Z) : byte := nth (Z.to_nat v) base64_alphabet x00.
Definition base64_val (c : byte) : option Z :=
  (fun i => Z.of_nat i) <$> IndexByte base64_alphabet c.

(** [base64.StdEncoding.EncodeToString]. *)
Fixpoint base64_encode (s : bytes) : bytes :=
  match s with
  | a :: b :: c :: s' =>
      let v := bz a * 65536 + bz b * 256 + bz c in
      base64_char (v / 262144) :: base64_char (v / 4096 mod 64) :: base64_char (v / 64 mod 64) :: base64_char (v mod 64) :: base64_encode s'
  | [a; b] =>
      let v := bz a * 1024 + bz b * 4 in
      [base64_char (v / 4096); base64_char (v / 64 mod 64); base64_char (v mod 64); "="%byte]
  | [a] =>
      let v := bz a * 16 in
      [base64_char (v / 64); base64_char (v mod 64); "="%byte; "="%byte]
  | [] => []
  end.

(** [base64.StdEncoding.DecodeString] skips line breaks wherever they are. *)
Definition not_newline (c : byte) : bool := negb ((c =b x0d) || (c =b x0a)).

Fixpoint base64_quads (s : bytes) : option bytes :=
  match s with
  | [] => Some []
  | a :: b :: c :: d :: s' =>
      va ← base64_val a; vb ← base64_val b;
      if (c =b "=") then
        if (d =b "=") then match s' with [] => Some [zb (va * 4 + vb / 16)] | _ => None end else None
      else
        vc ← base64_val c;
        if (d =b "=") then match s' with [] => Some [zb (va * 4 + vb / 16); zb (vb * 16 + vc / 4)] | _ => None end
        else
          vd ← base64_val d;
          rest ← base64_quads s';
          Some (zb (va * 4 + vb / 16) :: zb (vb * 16 + vc / 4) :: zb (vc * 64 + vd) :: rest)
  | _ => None
  end.

Definition base64_decode (s : bytes) : option bytes := base64_quads (filter not_newline s).

(** ** Facts *)

Lemma base64_val_char v : 0 <= v < 64 -> base64_val (base64_char v) = Some v.
Proof.
  intros Hv. assert (forallb (fun n => bool_decide (base64_val (base64_char (Z.of_nat n)) = Some (Z.of_nat n))) (seq 0 64) = true) as H by (by vm_compute).
  rewrite forallb_forall in H. specialize (H (Z.to_nat v)). rewrite <- list_elem_of_In, elem_of_seq in H.
  specialize (H ltac:(lia)). apply bool_decide_eq_true in H. by rewrite Z2Nat.id in H by lia.
Qed.

Lemma base64_char_plain v : 0 <= v < 64 -> not_newline (base64_char v) = true /\ (base64_char v =b "=") = false.
Proof.
  intros Hv. assert (forallb (fun n => not_newline (base64_char (Z.of_nat n)) && negb (base64_char (Z.of_nat n) =b "=")) (seq 0 64) = true) as H
    by (by vm_compute).
  rewrite forallb_forall in H. specialize (H (Z.to_nat v)). rewrite <- list_elem_of_In, elem_of_seq in H.
  specialize (H ltac:(lia)). rewrite Z2Nat.id in H by lia. by apply andb_true_iff in H as [? ?%negb_true_iff].
Qed.

Lemma zb_id b z : z mod 256 = bz b -> zb z = b.
Proof. intros H. apply (inj bz). by rewrite bz_zb. Qed.

(** The characters of an encoding. *)
Lemma base64_encode_Forall (P : byte -> Prop) s :
  P "="%byte -> (forall v, 0 <= v < 64 -> P (base64_char v)) -> Forall P (base64_encode s).
Proof.
  intros Hpad Hc. assert (forall n s, (length s <= n)%nat -> Forall P (base64_encode s)) as H; [|by apply (H (length s))].
  intros n. induction n as [|n IH]; intros [|a [|b [|c s']]] Hn; cbn [base64_encode length] in *; try lia; try constructor;
    pose proof (bz_range a); try pose proof (bz_range b); try pose proof (bz_range c);
    repeat constructor; try (apply Hc; Z.div_mod_to_equations; lia); try done. apply IH. lia.
Qed.

Lemma encode_plain s : filter not_newline (base64_encode s) = base64_encode s.
Proof.
  assert (Forall (fun c => not_newline c = true) (base64_encode s)) as H
    by (apply base64_encode_Forall; [done|]; intros v Hv; by apply base64_char_plain).
  induction H as [|c l Hc Hl IH]; [done|]. rewrite filter_cons_True by (by rewrite Hc). by rewrite IH.
Qed.

Lemma base64_quads_encode s : base64_quads (base64_encode s) = Some s.
Proof.
  assert (forall n s, (length s <= n)%nat -> base64_quads (base64_encode s) = Some s) as H; [|by apply (H (length s))].
  clear s. intros n. induction n as [|n IH]; intros [|a [|b [|c s']]] Hn; cbn [length] in *; try lia; try done;
    pose proof (bz_range a); try pose proof (bz_range b); try pose proof (bz_range c); cbn [base64_encode].
  - cbn [base64_quads]. rewrite !base64_val_char by (Z.div_mod_to_equations; lia). cbn. do 2 f_equal.
    apply zb_id. Z.div_mod_to_equations. lia.
  - cbn [base64_quads]. rewrite !base64_val_char by (Z.div_mod_to_equations; lia).
    rewrite !(fun v H => proj2 (base64_char_plain v H)) by (Z.div_mod_to_equations; lia). cbn. do 2 f_equal; [|f_equal]; apply zb_id; Z.div_mod_to_equations; lia.
  - cbn [base64_quads]. rewrite !base64_val_char by (Z.div_mod_to_equations; lia).
    rewrite !(fun v H => proj2 (base64_char_plain v H)) by (Z.div_mod_to_equations; lia). cbn. rewrite IH by lia. cbn. repeat f_equal;
    apply zb_id; Z.div_mod_to_equations; lia.
Qed.

(** Base64: decoding an encoding gives the bytes back. *)
Lemma base64_roundtrip s : base64_decode (base64_encode s) = Some s.
Proof. unfold base64_decode. by rewrite encode_plain, base64_quads_encode. Qed.

Lemma length_md5 msg : length (md5_sum msg) = 16%nat.
Proof.
  unfold md5_sum. destruct (fold_left _ _ _) as [[[a b] c] d]. unfold le_bytes. by rewrite !length_app, !length_reverse, !length_be_bytes.
Qed.

Lemma length_sha256_step st kw : length (sha256_step st kw) = length st.
Proof. by do 9 (destruct st as [|? st]; try done). Qed.

Lemma length_sha256 msg : length (sha256_sum msg) = 32%nat.
Proof.
  unfold sha256_sum. assert (forall bs st, length st = 8%nat -> length (fold_left sha256_block bs st) = 8%nat) as H.
  { induction bs as [|b bs IH]; intros st Hst; [done|]. cbn. apply IH. unfold sha256_block. rewrite length_zip_with.
    assert (forall l st0, length (fold_left sha256_step l st0) = length st0) as ->; [|lia].
    induction l as [|kw l IHl]; intros st0; [done|]. cbn. by rewrite IHl, length_sha256_step. }
  set (bs := blocks _ _). specialize (H bs sha256_start eq_refl). set (st := fold_left _ _ _) in *. clearbody st. clear bs.
  do 9 (destruct st as [|? st]; try done).
Qed.

Lemma length_hmac key data : length (hmac_sha256 key data) = 32%nat.
Proof. apply length_sha256. Qed.

(** Test vectors of RFC 1321, FIPS 180-4, RFC 4231 and RFC 4648. *)
Example md5_abc : EncodeToString (md5_sum $"abc") = $"900150983cd24fb0d6963f7d28e17f72".
Proof. by vm_compute. Qed.
Example md5_long : EncodeToString (md5_sum $"12345678901234567890123456789012345678901234567890123456789012345678901234567890") = $"57edf4a22be3c955ac49da2e2107b67a".
Proof. by vm_compute. Qed.
Example sha256_abc : EncodeToString (sha256_sum $"abc") = $"ba7816bf8f01cfea414140de5dae2223b00361a396177a9cb410ff61f20015ad".
Proof. by vm_compute. Qed.
Example sha256_long : EncodeToString (sha256_sum $"abcdbcdecdefdefgefghfghighijhijkijkljklmklmnlmnomnopnopq") = $"248d6a61d20638b8e5c026930c3e6039a33ce45964ff2167f6ecedd419db06c1".
Proof. by vm_compute. Qed.
Example hmac_jefe : EncodeToString (hmac_sha256 $"Jefe" $"what do ya want for nothing?") = $"5bdcc146bf60754e6a042426089575c75a003f089d2739839dec58b964ec3843".
Proof. by vm_compute. Qed.
Example base64_foobar : base64_encode $"foobar" = $"Zm9vYmFy" /\ base64_encode $"fooba" = $"Zm9vYmE=" /\ base64_encode $"foob" = $"Zm9vYg==".
Proof. by vm_compute. Qed.
