(* ===== verification/Auth.v ===== *)
(** * Authentication (internal/proxy/auth.go and pgconn.go)

    The three authentication dialogues of the proxy: [relayAuth] passes a backend's
    dialogue on to the client, [frontendAuth] authenticates a client by MD5 at the proxy,
    [pgConnect] authenticates the proxy itself at a backend by a cleartext password, MD5
    or SCRAM-SHA-256. They run in the session monad of Relay.v; random bytes are
    arguments, and [pbkdf2.Key] of golang.org/x/crypto is a parameter. The state of the
    world of [pgConnect] holds the connections it closed. The SCRAM dialogue is verified against a server written from
    RFC 5802, which parses the messages and checks the proof by itself. *)

From S2P Require Import Prelude GoStrings Wire Config Pool Relay Crypto.

Local Open Scope nat_scope.

(** [pbkdf2.Key(password, salt, iter, keyLen, sha256.New)]. *)
Class Pbkdf2 := { pbkdf2_key : bytes -> bytes -> Z -> nat -> bytes }.

(** ** Hashes *)

Definition pgMD5Password (user password salt : bytes) : bytes :=
  let inner := EncodeToString (md5_sum (password ++ user)) in
  $"md5" ++ EncodeToString (md5_sum (inner ++ salt)).

Definition hmacSHA256 (key data : bytes) : bytes := hmac_sha256 key data.
Definition sha256Sum (data : bytes) : bytes := sha256_sum data.

Fixpoint xorBytes (a b : bytes) : res unit bytes :=
  match a, b with
  | [], _ => Ok []
  | _ :: _, [] => Panic
  | x :: a', y :: b' =>
      rest <-? xorBytes a' b';
      Ok (zb (Z.lxor (bz x) (bz y)) :: rest)
  end.

(** [buf] is what [rand.Read] fills in. *)
Definition generateNonce (buf : bytes) : bytes := base64_encode buf.

(** ** The server-first-message *)

Fixpoint digit_prefix (s : bytes) : bytes :=
  match s with
  | c :: s' => if byte_in "0" "9" c then c :: digit_prefix s' else []
  | [] => []
  end.

(** [fmt.Sscanf(s, "%d", &n)]: white space is skipped, but not a new line, then a sign and
    the digits are read, and what follows them is ignored. *)
Definition Sscanf_d (s : bytes) : option Z :=
  let t := TrimLeftSpace s in
  if Contains (take (length s - length t) s) [x0a] then None
  else match t with
       | c :: t' =>
           if (c =b "-") || (c =b "+") then ParseInt (c :: digit_prefix t') else ParseInt (digit_prefix t)
       | [] => None
       end.

(** The loop over the attributes: [None] is the error of an undecodable salt. *)
Fixpoint attributes (parts : list bytes) (nonce : bytes) (salt : option bytes) (iterations : Z)
    : option (bytes * option bytes * Z) :=
  match parts with
  | [] => Some (nonce, salt, iterations)
  | p :: ps =>
      if HasPrefix p $"r=" then attributes ps (drop 2 p) salt iterations
      else if HasPrefix p $"s=" then
        match base64_decode (drop 2 p) with
        | Some sl => attributes ps nonce (Some sl) iterations
        | None => None
        end
      else if HasPrefix p $"i=" then attributes ps nonce salt (default iterations (Sscanf_d (drop 2 p)))
      else attributes ps nonce salt iterations
  end.

Definition parseServerFirst (msg : bytes) : option (bytes * bytes * Z) :=
  match attributes (Split1 msg ",") [] None 0 with
  | Some (nonce, Some salt, iterations) =>
      if bool_decide (nonce = []) || (iterations =? 0)%Z then None else Some (nonce, salt, iterations)
  | _ => None
  end.

(** ** Authenticating the client at the proxy *)

Definition authNeedsResponse (authType : Z) : bool :=
  (authType =? 3)%Z || (authType =? 5)%Z || (authType =? 10)%Z || (authType =? 11)%Z.

Definition key_message (pid secret : Z) : bytes :=
  WriteMessage Msg.BackendKeyData (PutUint32 pid ++ PutUint32 secret).
Definition challenge (salt : bytes) : bytes := WriteMessage Msg.Authentication (PutUint32 5 ++ salt).
Definition auth_ok : bytes := WriteMessage Msg.Authentication (PutUint32 0).
Definition idle : bytes := WriteMessage Msg.ReadyForQuery ["I"%byte].

(** [strings.TrimRight(s, "\x00")]. *)
Fixpoint trim_zeros (s : bytes) : bytes :=
  match s with
  | [] => []
  | c :: s' => match trim_zeros s' with
               | [] => if (c =b x00) then [] else [c]
               | t => c :: t
               end
  end.

Definition find_user (users : list Config.AuthUser) (username : bytes) : option bytes :=
  Config.Password <$> List.find (fun u => bool_decide (Config.Username u = username)) users.

Section Auth.
Context {S : Type}.
Local Abbreviation M := (M S).

(** [salt] is what [rand.Read] gives, [None] its error. *)
Definition frontendAuth (users : list Config.AuthUser) (username : bytes) (proxyPID proxySecret : Z) (salt : option bytes) : M unit :=
  match find_user users username with
  | None => sendError ($"user " ++ [x22] ++ username ++ [x22] ++ $" is not allowed to connect") ;! fail
  | Some password =>
      match salt with
      | None => fail
      | Some salt =>
          must_client (challenge salt) ;!
          msg <-! read_client;
          if negb (mType msg =b "p") then fail
          else
            let clientHash := trim_zeros (mPayload msg) in
            let expectedHash := pgMD5Password username password salt in
            if negb (bool_decide (clientHash = expectedHash)) then
              sendError ($"password authentication failed for user " ++ [x22] ++ username ++ [x22]) ;! fail
            else
              must_client auth_ok ;!
              must_client (key_message proxyPID proxySecret) ;!
              must_client idle
      end
  end.

(** ** Relaying the backend's authentication *)

Fixpoint relayAuth_loop (c : Pool.Conn) (proxyPID proxySecret : Z) (rounds : nat) : M unit :=
  match rounds with
  | O => fail
  | Datatypes.S n =>
      msg <-! read_backend c;
      if (mType msg =b Msg.BackendKeyData) then
        must_client (key_message proxyPID proxySecret) ;! relayAuth_loop c proxyPID proxySecret n
      else
        must_client (ForwardRaw msg) ;!
        if (mType msg =b Msg.ErrorResponse) then fail
        else if (mType msg =b Msg.ReadyForQuery) then ret tt
        else if (mType msg =b Msg.Authentication) && (4 <=? length (mPayload msg)) &&
                authNeedsResponse (be_value (take 4 (mPayload msg))) then
          clientMsg <-! read_client;
          must_backend c (WriteMessage (mType clientMsg) (mPayload clientMsg)) ;!
          relayAuth_loop c proxyPID proxySecret n
        else relayAuth_loop c proxyPID proxySecret n
  end.
Definition relayAuth (c : Pool.Conn) (proxyPID proxySecret : Z) : M unit :=
  rounds_backend c (relayAuth_loop c proxyPID proxySecret).

(** ** Authenticating the proxy at a backend *)

Context `{Pbkdf2}.

Definition client_first_bare (user nonce : bytes) : bytes := $"n=" ++ user ++ $",r=" ++ nonce.

Definition sasl_initial (user nonce : bytes) : bytes :=
  let respData := $"n,," ++ client_first_bare user nonce in
  $"SCRAM-SHA-256" ++ [x00] ++ PutUint32 (Z.of_nat (length respData)) ++ respData.

Definition final_without_proof (nonce : bytes) : bytes := $"c=biws,r=" ++ nonce.

(** The next message, which has to be an authentication message of type [expected]; its data. *)
Definition read_sasl (c : Pool.Conn) (expected : Z) : M bytes :=
  msg <-! read_backend c;
  if (mType msg =b Msg.ErrorResponse) then fail
  else if negb (mType msg =b Msg.Authentication) || (length (mPayload msg) <? 4) then fail
  else if negb (be_value (take 4 (mPayload msg)) =? expected)%Z then fail
  else ret (drop 4 (mPayload msg)).

(** [buf] is what [generateNonce] reads from [rand]. *)
Definition handleSCRAM (c : Pool.Conn) (mechanisms user password buf : bytes) : M unit :=
  if negb (Contains mechanisms $"SCRAM-SHA-256") then fail
  else
    let clientNonce := generateNonce buf in
    let clientFirstBare := client_first_bare user clientNonce in
    must_backend c (WriteMessage "p" (sasl_initial user clientNonce)) ;!
    serverFirstMsg <-! read_sasl c 11;
    match parseServerFirst serverFirstMsg with
    | None => fail
    | Some (serverNonce, salt, iterations) =>
        if negb (HasPrefix serverNonce clientNonce) then fail
        else
          let saltedPassword := pbkdf2_key password salt iterations 32 in
          let clientKey := hmacSHA256 saltedPassword $"Client Key" in
          let storedKey := sha256Sum clientKey in
          let clientFinalWithoutProof := final_without_proof serverNonce in
          let authMessage := clientFirstBare ++ $"," ++ serverFirstMsg ++ $"," ++ clientFinalWithoutProof in
          let clientSignature := hmacSHA256 storedKey authMessage in
          clientProof <-! lift (xorBytes clientKey clientSignature);
          must_backend c (WriteMessage "p" (clientFinalWithoutProof ++ $",p=" ++ base64_encode clientProof)) ;!
          serverFinalMsg <-! read_sasl c 12;
          let serverKey := hmacSHA256 saltedPassword $"Server Key" in
          let expectedServerSig := hmacSHA256 serverKey authMessage in
          if negb (HasPrefix serverFinalMsg $"v=") then fail
          else match base64_decode (drop 2 serverFinalMsg) with
               | None => fail
               | Some serverSig => if bool_decide (serverSig = expectedServerSig) then ret tt else fail
               end
    end.

(** The message that answers an authentication request. *)
Definition answer_auth (c : Pool.Conn) (payload user password buf : bytes) : M unit :=
  if length payload <? 4 then fail
  else
    let authType := be_value (take 4 payload) in
    if (authType =? 0)%Z then ret tt
    else if (authType =? 3)%Z then must_backend c (WriteMessage "p" (password ++ [x00]))
    else if (authType =? 5)%Z then
      if length payload <? 8 then fail
      else must_backend c (WriteMessage "p" (pgMD5Password user password (take 4 (drop 4 payload)) ++ [x00]))
    else if (authType =? 10)%Z then handleSCRAM c (drop 4 payload) user password buf
    else fail.

Record backendKeyConn := mkKeyConn { keyConn : Pool.Conn; pid : Z; secretKey : Z }.

(** [nonces] gives the random bytes of the [n]th SCRAM exchange from the end. *)
Fixpoint connect_loop (c : Pool.Conn) (user password : bytes) (nonces : nat -> bytes) (backendPID backendSecret : Z) (rounds : nat)
    : M backendKeyConn :=
  match rounds with
  | O => fail
  | Datatypes.S n =>
      msg <-! read_backend c;
      if (mType msg =b Msg.Authentication) then
        answer_auth c (mPayload msg) user password (nonces n) ;!
        connect_loop c user password nonces backendPID backendSecret n
      else if (mType msg =b Msg.ErrorResponse) then fail
      else if (mType msg =b Msg.BackendKeyData) then
        if 8 <=? length (mPayload msg) then
          connect_loop c user password nonces (be_value (take 4 (mPayload msg))) (be_value (take 4 (drop 4 (mPayload msg)))) n
        else connect_loop c user password nonces backendPID backendSecret n
      else if (mType msg =b Msg.ReadyForQuery) then ret (mkKeyConn c backendPID backendSecret)
      else connect_loop c user password nonces backendPID backendSecret n
  end.

End Auth.

(** The startup packet: [BuildStartupMessage] ranges over a map, in either order. *)
Definition startup_packet (user database : bytes) (user_first : bool) : bytes :=
  BuildStartupMessage (if user_first then [($"user", user); ($"database", database)] else [($"database", database); ($"user", user)]).

(** The connections closed so far are the state. [dialed] is what [net.DialTimeout] gives. *)
Definition close_conn (c : Pool.Conn) : M (list nat) unit := modify (fun closed => Pool.conn_id c :: closed).

Definition pgConnect `{Pbkdf2} (dialed : option Pool.Conn) (user password database : bytes) (user_first : bool) (nonces : nat -> bytes)
    : M (list nat) backendKeyConn :=
  match dialed with
  | None => fail
  | Some c =>
      r <-! attempt (must_backend c (startup_packet user database user_first) ;!
                     rounds_backend c (connect_loop c user password nonces 0 0));
      match r with
      | Some k => ret k
      | None => close_conn c ;! fail
      end
  end.

(** ** Steps of a dialogue *)

Section Steps.
Context {S : Type}.
Local Abbreviation M := (M S).
Implicit Types (w : World S) (c : Pool.Conn).

Lemma be_value_inj l1 l2 : length l1 = length l2 -> be_value l1 = be_value l2 -> l1 = l2.
Proof.
  revert l2. induction l1 as [|b1 l1 IH]; intros [|b2 l2] Hl; try done. cbn in Hl. injection Hl as Hl.
  rewrite !be_value_cons, Hl. intros E. pose proof (be_value_range l1) as R1. pose proof (be_value_range l2) as R2. rewrite Hl in R1.
  assert (bz b1 = bz b2 /\ be_value l1 = be_value l2) as [E1 E2].
  { assert (bz b1 = bz b2) as E1; [|rewrite E1 in E; lia]. destruct (Z.lt_trichotomy (bz b1) (bz b2)) as [?|[?|?]]; [nia|done|nia]. }
  f_equal; [by apply bz_inj|by apply IH].
Qed.

(** Writing a message that was read gives the bytes it came as. *)
Lemma WriteMessage_read r m rest : ReadMessage r = Ok (m, rest) -> WriteMessage (mType m) (mPayload m) = ForwardRaw m.
Proof.
  intros (t & len & body & -> & Hl & Hv & Hm & ->)%ReadMessage_Ok. unfold WriteMessage, ForwardRaw. cbn [mType mPayload mRaw].
  assert (PutUint32 (4 + Z.of_nat (length body)) = len) as ->; [|done].
  apply be_value_inj; [by rewrite length_PutUint32|]. rewrite be_value_PutUint32; [done|]. unfold MaxMessageSize in Hm. lia.
Qed.

(** ** The relayed dialogue *)

(** What the client is shown of a message of the backend. *)
Definition shown (pid secret : Z) (m : Message) : bytes :=
  if (mType m =b Msg.BackendKeyData) then key_message pid secret else ForwardRaw m.

Definition unfinished (m : Message) : Prop := mType m <> Msg.ErrorResponse /\ mType m <> Msg.ReadyForQuery.

Definition auth_relayed c (pid secret : Z) w (r : res unit unit) w' : Prop :=
  r <> Panic /\ exists evs ms k, moved c w w' evs (concat (ForwardRaw <$> ms)) k /\
    to_client evs `prefix_of` concat (shown pid secret <$> ms) /\ to_backend evs `prefix_of` k /\
    (r = Ok tt -> to_client evs = concat (shown pid secret <$> ms) /\ to_backend evs = k /\
       exists ms' m, ms = ms' ++ [m] /\ mType m = Msg.ReadyForQuery /\ Forall unfinished ms').

Lemma auth_relayed_step c pid secret w w1 evs m k r w' :
  moved c w w1 evs (ForwardRaw m) k -> to_client evs = shown pid secret m -> to_backend evs = k -> unfinished m ->
  auth_relayed c pid secret w1 r w' -> auth_relayed c pid secret w r w'.
Proof.
  intros Hm Hc Hb Hne (Hp & evs' & ms & k' & Hm' & Hc' & Hb' & Hok). split; [done|].
  exists (evs ++ evs'), (m :: ms), (k ++ k'). cbn [fmap list_fmap concat]. split; [by eapply moved_trans|].
  rewrite to_client_app, to_backend_app, Hc, Hb. split_and!; [by apply prefix_app..|].
  intros E. destruct (Hok E) as (-> & -> & ms' & z & -> & Hz & Hf). split_and!; try done.
  exists (m :: ms'), z. split_and!; auto.
Qed.

(** A dialogue that failed after [m] was read. *)
Lemma auth_relayed_failed c pid secret w w1 evs m k :
  moved c w w1 evs (ForwardRaw m) k -> to_client evs `prefix_of` shown pid secret m -> to_backend evs `prefix_of` k ->
  auth_relayed c pid secret w (Err tt) w1.
Proof.
  intros Hm Hc Hb. split; [done|]. exists evs, [m], k. cbn [fmap list_fmap concat]. rewrite !app_nil_r. by split_and!.
Qed.

Lemma relayAuth_loop_relayed c pid secret n w : wp (relayAuth_loop c pid secret n) (auth_relayed c pid secret w) w.
Proof.
  assert (forall w, auth_relayed c pid secret w (Err tt) w) as Hnone.
  { intros w0. split; [done|]. exists [], [], []. split_and!; try done. apply moved_refl. }
  revert w. induction n as [|n IH]; intros w; [apply Hnone|]. cbn [relayAuth_loop].
  apply wp_read_backend; [apply Hnone|]. intros m w1 Hr _ H1.
  destruct (mType m =b Msg.BackendKeyData) eqn:Ek.
  - assert (shown pid secret m = key_message pid secret) as Hs by (unfold shown; by rewrite Ek).
    apply (wp_tell_client c); [intros w2 H2|intros w2 _ H2]; pose proof (moved_trans _ _ _ _ _ _ _ _ _ _ H1 H2) as H12;
      cbn in H12; rewrite app_nil_r in H12.
    + eapply auth_relayed_failed; [exact H12|apply prefix_nil|done].
    + eapply wp_mono; [apply IH|]. intros r w3. eapply auth_relayed_step; [exact H12| |done|].
      * rewrite Hs. unfold to_client. cbn. done.
      * apply Byte.byte_dec_bl in Ek. unfold unfinished. by rewrite Ek.
  - assert (shown pid secret m = ForwardRaw m) as Hs by (unfold shown; by rewrite Ek).
    apply (wp_tell_client c); [intros w2 H2|intros w2 _ H2]; pose proof (moved_trans _ _ _ _ _ _ _ _ _ _ H1 H2) as H12;
      cbn in H12; rewrite app_nil_r in H12; [eapply auth_relayed_failed; [exact H12|apply prefix_nil|done]|].
    assert (to_client [EvClient (ForwardRaw m)] = shown pid secret m) as Hc by (rewrite Hs; unfold to_client; cbn; by rewrite ?app_nil_r).
    destruct (mType m =b Msg.ErrorResponse) eqn:Ee; [eapply auth_relayed_failed; [exact H12|by rewrite Hc|done]|].
    apply Byte.eqb_false in Ee. destruct (mType m =b Msg.ReadyForQuery) eqn:Ez.
    { split; [done|]. exists [EvClient (ForwardRaw m)], [m], []. cbn [fmap list_fmap concat]. rewrite !app_nil_r, Hc. apply Byte.byte_dec_bl in Ez.
      split_and!; try done. intros _. split_and!; try done. by exists [], m. }
    apply Byte.eqb_false in Ez.
    destruct (_ && authNeedsResponse _).
    + apply (wp_read_client c); [eapply auth_relayed_failed; [exact H12|by rewrite Hc|done]|]. intros m' w3 Hr' _ H3.
      rewrite (WriteMessage_read _ _ _ Hr'). pose proof (moved_trans _ _ _ _ _ _ _ _ _ _ H12 H3) as H13. cbn in H13. rewrite app_nil_r in H13.
      apply (wp_tell_backend c); [intros w4 H4|intros w4 _ H4]; pose proof (moved_trans _ _ _ _ _ _ _ _ _ _ H13 H4) as H14;
        cbn in H14; rewrite !app_nil_r in H14.
      * eapply auth_relayed_failed; [exact H14| |apply prefix_nil]. unfold to_client in *. cbn in *. by rewrite Hc.
      * eapply wp_mono; [apply IH|]. intros r w5. eapply auth_relayed_step; [exact H14| | |done].
        -- unfold to_client in *. cbn in *. by rewrite Hc.
        -- unfold to_backend. cbn. by rewrite app_nil_r.
    + eapply wp_mono; [apply IH|]. intros r w3. by eapply auth_relayed_step.
Qed.

(** the relayed dialogue is transparent but for the cancel key. On success the client
    received exactly the messages of the backend, up to the first ReadyForQuery and with none
    an ErrorResponse, each BackendKeyData replaced by the proxy's own key; the backend
    received exactly the client's responses; the session did nothing else. A dialogue that
    fails delivered a first part of this, and none panics. *)
Theorem relayAuth_relays c pid secret w :
  let '(r, w') := relayAuth c pid secret w in auth_relayed c pid secret w r w'.
Proof. apply (wp_rounds_backend c (relayAuth_loop c pid secret)). intros n. apply relayAuth_loop_relayed. Qed.
End Steps.

(** ** The MD5 dialogue *)

Section Md5.
Context {S : Type}.
Implicit Types (w : World S) (c : Pool.Conn).

(** The client answers with the hash of the password configured for the user. *)
Definition authentic (users : list Config.AuthUser) (username salt : bytes) w : Prop :=
  exists password m rest, find_user users username = Some password /\ ReadMessage (cin w) = Ok (m, rest) /\
    mType m = "p"%byte /\ trim_zeros (mPayload m) = pgMD5Password username password salt.

(** From [w] to [w'] the session talked to the client only. *)
Definition client_events w w' (evs : list bytes) : Prop := trace w' = trace w ++ (EvClient <$> evs).

Lemma wp_sendError {A} text (f : unit -> M S A) Q w :
  (forall w' evs, client_events w w' evs -> evs ⊆ [WriteMessage Msg.ErrorResponse (error_payload text)] -> wp (f tt) Q w') ->
  wp (bind (sendError text) f) Q w.
Proof.
  intros Hok. unfold wp, sendError, try_client, write_client, next_write, bind, emit, ret.
  destruct (faults w) as [|[] fs] eqn:E; cbn.
  1, 3: eapply (Hok _ [_]); [by unfold client_events|set_solver].
  eapply (Hok _ []); [by unfold client_events; rewrite app_nil_r|set_solver].
Qed.

Lemma trim_zeros_app s : Forall (fun b => b <> x00) s -> trim_zeros (s ++ [x00]) = s.
Proof.
  induction 1 as [|b s Hb _ IH]; [done|]. cbn [trim_zeros app]. rewrite IH. destruct s; [|done].
  by rewrite byte_eqb_ne.
Qed.

Lemma pgMD5Password_plain user password salt : Forall (fun b => b <> x00) (pgMD5Password user password salt).
Proof.
  assert (forall s, Forall (fun b => b <> x00) (EncodeToString s)) as Hx.
  { intros s. unfold EncodeToString. apply Forall_concat, Forall_fmap, Forall_true. intros b.
    pose proof (forall_bytes (fun b => bool_decide (Forall (fun b => b <> x00) (hex1 b))) ltac:(by vm_compute) b) as Hb.
    by apply bool_decide_eq_true in Hb. }
  unfold pgMD5Password. apply Forall_app. split; [|apply Hx]. by repeat constructor.
Qed.

Lemma length_pgMD5Password user password salt : length (pgMD5Password user password salt) = 35.
Proof.
  assert (forall s, length (EncodeToString s) = 2 * length s) as Hx.
  { intros s. unfold EncodeToString. induction s as [|b s IH]; [done|]. cbn [fmap list_fmap concat]. rewrite length_app, IH. cbn. lia. }
  unfold pgMD5Password. by rewrite length_app, Hx, length_md5.
Qed.

Lemma client_trans w1 w2 w3 e1 e2 : client_events w1 w2 e1 -> client_events w2 w3 e2 -> client_events w1 w3 (e1 ++ e2).
Proof. unfold client_events. intros -> ->. by rewrite fmap_app, app_assoc. Qed.

(** What the MD5 dialogue may do: the client learns that it is authenticated, and the
    session goes on, only when its answer is the expected one. *)
Definition md5_outcome users username pid secret salt w (r : res unit unit) w' : Prop :=
  r <> Panic /\
  exists evs, client_events w w' evs /\
    (r = Ok tt \/ auth_ok ∈ evs -> authentic users username salt w) /\
    (r = Ok tt -> evs = [challenge salt; auth_ok; key_message pid secret; idle]) /\
    (authentic users username salt w -> faults w = [] -> r = Ok tt).

Lemma wp_say {A} bs (f : unit -> M S A) Q w :
  (forall w', client_events w w' [] -> faults w <> [] -> Q (Err tt) w') ->
  (forall w', client_events w w' [bs] -> faults w' = tl (faults w) -> cin w' = cin w -> wp (f tt) Q w') ->
  wp (bind (must_client bs) f) Q w.
Proof.
  intros He Hok. unfold wp, must_client, write_client, next_write, bind, emit, ret, fail, client_events in *.
  destruct (faults w) as [|[] fs] eqn:E; cbn.
  1, 3: apply Hok; cbn; by rewrite ?E.
  apply He; cbn; by rewrite ?app_nil_r.
Qed.

Lemma wp_hear {A} (f : Message -> M S A) Q w :
  (forall x, ReadMessage (cin w) <> Ok x) /\ Q (Err tt) w \/
  (exists m rest, ReadMessage (cin w) = Ok (m, rest) /\
     forall w', client_events w w' [] -> faults w' = faults w -> wp (f m) Q w') ->
  wp (bind read_client f) Q w.
Proof.
  unfold wp, bind, read_client. pose proof (ReadMessage_no_panic (cin w)). destruct (ReadMessage (cin w)) as [[m r]| |] eqn:E; [|naive_solver..].
  intros [[Hn _]|(m' & rest & [= <- <-] & Hf)]; [by destruct (Hn (m, r))|]. apply Hf; [unfold client_events; cbn; by rewrite app_nil_r|done].
Qed.

(** An outcome that is not a success, of a client that is not authentic or does not get
    all messages. *)
Lemma md5_refused users username pid secret salt w w' evs :
  client_events w w' evs -> auth_ok ∉ evs -> ~ (authentic users username salt w /\ faults w = []) ->
  md5_outcome users username pid secret salt w (Err tt) w'.
Proof. intros Hc Ho Hn. split; [done|]. exists evs. split_and!; [done|naive_solver|done|naive_solver]. Qed.

Lemma frontendAuth_outcome users username pid secret salt w :
  length salt = 4 -> wp (frontendAuth users username pid secret (Some salt)) (md5_outcome users username pid secret salt w) w.
Proof.
  intros Hs. unfold frontendAuth. destruct (find_user users username) as [password|] eqn:Eu.
  2:{ apply wp_sendError. intros w' evs Hc He. eapply md5_refused; [exact Hc| |intros [(? & ? & ? & ? & _) _]; congruence].
      intros Hin%He. by apply list_elem_of_singleton in Hin. }
  assert (challenge salt <> auth_ok) as Hne. { unfold challenge, auth_ok. intros E%(f_equal length). cbn in E. lia. }
  apply wp_say; [intros w1 H1 Hf; eapply md5_refused; [exact H1|set_solver|tauto]|]. intros w1 H1 F1 C1.
  apply wp_hear. rewrite C1. destruct (ReadMessage (cin w)) as [[m rest]| |] eqn:Er.
  2, 3: left; split; [done|]; eapply md5_refused; [exact H1|set_solver|intros [(? & ? & ? & ? & ? & _) _]; congruence].
  right. exists m, rest. split; [done|]. intros w2 H2 F2. pose proof (client_trans _ _ _ _ _ H1 H2) as H12.
  destruct (byte_eqb_spec (mType m) "p") as [Et|Et]; cbn [negb];
    [|eapply md5_refused; [exact H12|set_solver|intros [(? & ? & ? & ? & ? & ? & _) _]; congruence]].
  destruct (bool_decide_reflect (trim_zeros (mPayload m) = pgMD5Password username password salt)) as [Eh|Eh]; cbn [negb].
  2:{ apply wp_sendError. intros w' evs Hc He. eapply md5_refused; [exact (client_trans _ _ _ _ _ H12 Hc)| |].
      - rewrite elem_of_app. intros [Hin|Hin%He]; [set_solver|by apply list_elem_of_singleton in Hin].
      - intros [(? & ? & ? & ? & ? & ? & ?) _]. congruence. }
  assert (authentic users username salt w) as Ha by (by exists password, m, rest).
  assert (forall w' evs, client_events w w' evs -> faults w <> [] -> md5_outcome users username pid secret salt w (Err tt) w') as Hlate.
  { intros w' evs Hc Hf. split; [done|]. exists evs. by split_and!. }
  assert (faults w = [] -> faults w2 = []) as Hfw by (intros E; by rewrite F2, F1, E).
  apply wp_say; [intros w3 H3 Hf; eapply Hlate; [exact (client_trans _ _ _ _ _ H12 H3)|tauto]|]. intros w3 H3 F3 _.
  pose proof (client_trans _ _ _ _ _ H12 H3) as H13.
  apply wp_say; [intros w4 H4 Hf; eapply Hlate; [exact (client_trans _ _ _ _ _ H13 H4)|intros E; rewrite F3, Hfw in Hf; done]|]. intros w4 H4 F4 _.
  pose proof (client_trans _ _ _ _ _ H13 H4) as H14.
  assert (wp (bind (must_client idle) ret) (md5_outcome users username pid secret salt w) w4) as Hlast.
  { apply wp_say; [intros w5 H5 Hf; eapply Hlate; [exact (client_trans _ _ _ _ _ H14 H5)|intros E; rewrite F4, F3, Hfw in Hf; done]|]. intros w5 H5 _ _.
    split; [done|]. exists [challenge salt; auth_ok; key_message pid secret; idle]. split_and!; [|done..].
    exact (client_trans _ _ _ _ _ H14 H5). }
  revert Hlast. unfold wp, bind, ret. by destruct (must_client idle w4) as [[[]|[]|] ?].
Qed.

(** C11: a client is authenticated at the proxy only by the MD5 hash of its user's configured
    password under the salt of this dialogue: only then does [frontendAuth] succeed or the
    client receive AuthenticationOk, and then the client has received the challenge, the
    AuthenticationOk, the proxy's cancel key and ReadyForQuery. A client that answers so is
    let in unless a write to it fails. *)
Theorem frontendAuth_authenticates users username pid secret salt w :
  length salt = 4 ->
  let '(r, w') := frontendAuth users username pid secret (Some salt) w in
  md5_outcome users username pid secret salt w r w'.
Proof. apply frontendAuth_outcome. Qed.

End Md5.

(** ** Dialogues of the proxy with a backend *)

Section Backend.
Context `{Pbkdf2} {S : Type}.
Implicit Types (w : World S) (c : Pool.Conn).

(** The world [w] in which the backend will still send [rest] on [c] and the messages [sent]
    were sent to it, all writes succeeding. *)
Definition dialogue c (sent : list bytes) (rest : bytes) w : World S :=
  {| cin := cin w; bin := <[Pool.conn_id c := rest]> (bin w); faults := []; grants := grants w;
     trace := trace w ++ ((fun bs => EvSend c bs true) <$> sent); sh := sh w |}.

Lemma run_tell c bs sent rest w : must_backend c bs (dialogue c sent rest w) = (Ok tt, dialogue c (sent ++ [bs]) rest w).
Proof. unfold must_backend, write_backend, next_write, bind, emit, ret. cbn. unfold dialogue. by rewrite fmap_app, app_assoc. Qed.

Lemma run_send {A} c bs (f : unit -> M S A) sent rest w :
  bind (must_backend c bs) f (dialogue c sent rest w) = f tt (dialogue c (sent ++ [bs]) rest w).
Proof. unfold bind. by rewrite run_tell. Qed.

Lemma run_read {A} c t p (f : Message -> M S A) sent rest w :
  (Z.of_nat (length p) <= MaxMessageSize)%Z ->
  bind (read_backend c) f (dialogue c sent (WriteMessage t p ++ rest) w) =
  f (mkMessage t p (Some (WriteMessage t p))) (dialogue c sent rest w).
Proof.
  intros Hp. unfold bind, read_backend. rewrite (stream_set c _ w : stream c (dialogue c sent _ w) = _), ReadMessage_frame by done.
  unfold set_stream, dialogue. cbn. by rewrite insert_insert_eq.
Qed.

Lemma take4_PutUint32 z s : take 4 (PutUint32 z ++ s) = PutUint32 z.
Proof. rewrite take_app_le by (rewrite length_PutUint32; lia). apply take_ge. rewrite length_PutUint32. lia. Qed.

Lemma drop4_PutUint32 z s : drop 4 (PutUint32 z ++ s) = s.
Proof. rewrite <- (length_PutUint32 z). apply drop_app_length. Qed.

(** An authentication message of type [k]. *)
Definition auth_message (k : Z) (data : bytes) : bytes := WriteMessage Msg.Authentication (PutUint32 k ++ data).

Lemma run_sasl {A} c k data (f : bytes -> M S A) sent rest w :
  (0 <= k < 2 ^ 32)%Z -> (4 + Z.of_nat (length data) <= MaxMessageSize)%Z ->
  bind (read_sasl c k) f (dialogue c sent (auth_message k data ++ rest) w) = f data (dialogue c sent rest w).
Proof.
  intros Hk Hl. unfold bind at 1, read_sasl. unfold auth_message. rewrite run_read by (rewrite length_app, length_PutUint32; lia).
  cbn [mType mPayload]. rewrite take4_PutUint32, drop4_PutUint32, be_value_PutUint32, Z.eqb_refl by done.
  destruct (Nat.ltb_spec (length (PutUint32 k ++ data)) 4) as [Hx|]; [rewrite length_app, length_PutUint32 in Hx; lia|]. done.
Qed.

(** ** The SCRAM-SHA-256 dialogue with a server of RFC 5802 *)

Lemma xorBytes_Ok a b : length a <= length b -> exists r, xorBytes a b = Ok r /\ length r = length a.
Proof.
  revert b. induction a as [|x a IH]; intros [|y b] Hl; cbn in *; try lia; [by eexists..|].
  destruct (IH b ltac:(lia)) as (r & -> & Hr). cbn. eexists. split; [done|]. cbn. lia.
Qed.

Lemma xorBytes_cancel a b r : xorBytes a b = Ok r -> xorBytes r b = Ok a.
Proof.
  revert b r. induction a as [|x a IH]; intros b r; cbn [xorBytes]; [by intros [= <-]|]. destruct b as [|y b]; [done|].
  destruct (xorBytes a b) as [r'| |] eqn:E; cbn [res_bind]; [|done..]. intros [= <-]. cbn [xorBytes]. rewrite (IH _ _ E). cbn. do 2 f_equal.
  pose proof (forall_bytes (fun x => forallb (fun y => zb (Z.lxor (bz (zb (Z.lxor (bz x) (bz y)))) (bz y)) =b x) all_bytes) ltac:(by vm_compute) x) as Hx.
  rewrite forallb_forall in Hx. apply Byte.byte_dec_bl, Hx, list_elem_of_In, elem_of_all_bytes.
Qed.

Lemma base64_no_comma s : ","%byte ∉ base64_encode s.
Proof.
  assert (Forall (fun b => b <> ","%byte) (base64_encode s)) as HF; [|rewrite list.Forall_forall in HF; intros Hin; by apply (HF _ Hin)].
  apply base64_encode_Forall; [done|]. intros v Hv E. pose proof (base64_val_char v Hv) as Hc. by rewrite E in Hc.
Qed.

Lemma FormatInt_digits v :
  (0 <= v < 2 ^ 63)%Z -> Forall (fun b => byte_in "0" "9" b = true) (FormatInt v) /\ exists b s, FormatInt v = b :: s.
Proof.
  intros Hv. unfold FormatInt. destruct (Z.ltb_spec v 0); [lia|]. split; [|apply FormatUint_head; lia].
  eapply Forall_impl; [|apply (FormatUint_digits 10); lia]. intros b (d & Hd & ->).
  assert (forallb (fun d => byte_in "0" "9" (digit_char d)) (seqZ 0 10) = true) as Hall by by vm_compute.
  rewrite forallb_forall in Hall. apply Hall, list_elem_of_In, elem_of_seqZ. lia.
Qed.

Lemma digit_prefix_all s : Forall (fun b => byte_in "0" "9" b = true) s -> digit_prefix s = s.
Proof. induction 1 as [|b s Hb _ IH]; [done|]. cbn [digit_prefix]. by rewrite Hb, IH. Qed.

Lemma find_prefix_none encs b s :
  forallb (fun e => match e with x :: _ => negb (b =b x) | [] => false end) encs = true -> List.find (HasPrefix (b :: s)) encs = None.
Proof.
  induction encs as [|[|x e] encs IH]; [done..|]. cbn [forallb List.find HasPrefix]. intros [Hx Hr]%andb_true_iff.
  destruct (byte_eqb_spec b x) as [->|Hne]; [done|]. by rewrite byte_eqb_ne, IH by done.
Qed.

Lemma Sscanf_FormatInt v : (0 <= v < 2 ^ 63)%Z -> Sscanf_d (FormatInt v) = Some v.
Proof.
  intros Hv. destruct (FormatInt_digits v Hv) as [Hd (b & s & E)].
  assert (TrimLeftSpace (FormatInt v) = FormatInt v /\ (b =b "-") = false /\ (b =b "+") = false) as (Ht & Hm & Hp).
  { rewrite E in Hd |- *. inversion_clear Hd as [|? ? Hb _].
    pose proof (forall_bytes (fun b => negb (byte_in "0" "9" b) || (forallb (fun e => match e with x :: _ => negb (b =b x) | [] => false end) space_encodings
       && negb (b =b "-") && negb (b =b "+"))) ltac:(by vm_compute) b) as Hx. cbv beta in Hx. rewrite Hb in Hx. cbn [negb orb] in Hx.
    apply andb_true_iff in Hx as [[Hx ?%negb_true_iff]%andb_true_iff ?%negb_true_iff]. split_and!; try done.
    unfold TrimLeftSpace. cbn [trim_left]. unfold space_len. by rewrite find_prefix_none. }
  unfold Sscanf_d. rewrite Ht, Nat.sub_diag. cbn [take Contains]. rewrite E at 2. rewrite Hm, Hp. cbn [orb].
  rewrite digit_prefix_all by done. apply ParseInt_FormatInt. unfold MinInt64, MaxInt64. lia.
Qed.

(** ** The server's side *)

Definition server_first (nonce salt : bytes) (iterations : Z) : bytes :=
  $"r=" ++ nonce ++ $",s=" ++ base64_encode salt ++ $",i=" ++ FormatInt iterations.

Lemma parseServerFirst_server_first nonce salt iterations :
  nonce <> [] -> ","%byte ∉ nonce -> (0 < iterations < 2 ^ 63)%Z ->
  parseServerFirst (server_first nonce salt iterations) = Some (nonce, salt, iterations).
Proof.
  intros Hn Hc Hi. destruct (FormatInt_digits iterations ltac:(lia)) as [Hd _].
  assert (Split1 (server_first nonce salt iterations) "," = [$"r=" ++ nonce; $"s=" ++ base64_encode salt; $"i=" ++ FormatInt iterations]) as Hs.
  { unfold server_first. pose proof (base64_no_comma salt).
    transitivity (Split1 (($"r=" ++ nonce) ++ ","%byte :: ($"s=" ++ base64_encode salt) ++ ","%byte :: $"i=" ++ FormatInt iterations) ",").
    { by f_equal. }
    assert (forall p s, bool_decide (","%byte ∈ p) = false -> ","%byte ∉ s -> ","%byte ∉ p ++ s) as Hp.
    { intros p s ?%bool_decide_eq_false ?. by apply not_elem_of_app. }
    rewrite !Split1_app, Split1_plain; [done|..]; (apply Hp; [done|]); try done.
    rewrite list.Forall_forall in Hd. intros Hin. by apply Hd in Hin. }
  unfold parseServerFirst. rewrite Hs. cbn [attributes]. rewrite !HasPrefix_app.
  replace (HasPrefix ($"s=" ++ base64_encode salt) $"r=") with false by done.
  replace (HasPrefix ($"i=" ++ FormatInt iterations) $"r=") with false by done.
  replace (HasPrefix ($"i=" ++ FormatInt iterations) $"s=") with false by done.
  rewrite !(drop_app_length' _ _ 2) by done. rewrite base64_roundtrip, Sscanf_FormatInt by lia. cbn [default].
  rewrite bool_decide_false by done. unfold id. destruct (Z.eqb_spec iterations 0); [lia|done].
Qed.

(** What the server keeps of a password. *)
Definition salted (password salt : bytes) (iterations : Z) : bytes := pbkdf2_key password salt iterations 32.
Definition stored_key (sp : bytes) : bytes := sha256_sum (hmac_sha256 sp $"Client Key").
Definition server_key (sp : bytes) : bytes := hmac_sha256 sp $"Server Key".

(** Reading: up to a delimiter; the value of an attribute; a name with its escapes. *)
Fixpoint until (b : byte) (s : bytes) : option (bytes * bytes) :=
  match s with
  | [] => None
  | x :: s' => if (x =b b) then Some ([], s') else '(p, r) ← until b s'; Some (x :: p, r)
  end.

Definition attribute (k : byte) (s : bytes) : option bytes :=
  match s with x :: e :: v => if (x =b k) && (e =b "=") then Some v else None | _ => None end.

Fixpoint unescape (s : bytes) : option bytes :=
  match s with
  | [] => Some []
  | x :: s' =>
      if (x =b "=") then
        match s' with
        | a :: b :: s'' =>
            if (a =b "2") && (b =b "C") then (cons ","%byte) <$> unescape s''
            else if (a =b "3") && (b =b "D") then (cons "="%byte) <$> unescape s'' else None
        | _ => None
        end
      else (cons x) <$> unescape s'
  end.

Definition xor_bytes (a b : bytes) : bytes := zip_with (fun x y => zb (Z.lxor (bz x) (bz y))) a b.

(** An account of the server, and an exchange after the first message. *)
Record account := { a_name : bytes; a_salt : bytes; a_iterations : Z; a_stored : bytes; a_server : bytes }.
Record exchange := { x_account : account; x_gs2 : bytes; x_bare : bytes; x_first : bytes; x_nonce : bytes }.

(** RFC 5802, the server. The SASLInitialResponse of PostgreSQL is the name of the mechanism with a NUL, a length and
    that many bytes: a GS2 header without channel binding and without an authorization
    identity, the name and the nonce of the client. The answer extends the nonce by [snonce]. *)
Definition scram_first (acc : account) (snonce payload : bytes) : option (exchange * bytes) :=
  '(mechanism, r) ← until x00 payload;
  if bool_decide (mechanism = $"SCRAM-SHA-256") && (4 <=? length r) && (be_value (take 4 r) =? Z.of_nat (length (drop 4 r)))%Z then
    '(flag, r1) ← until "," (drop 4 r);
    '(authzid, bare) ← until "," r1;
    '(name, nonce) ← until "," bare;
    user ← (attribute "n" name ≫= unescape);
    cnonce ← attribute "r" nonce;
    if bool_decide (flag = $"n") && bool_decide (authzid = []) && bool_decide (user = a_name acc) && bool_decide (","%byte ∉ cnonce) then
      let first := server_first (cnonce ++ snonce) (a_salt acc) (a_iterations acc) in
      Some ({| x_account := acc; x_gs2 := flag ++ $"," ++ authzid ++ $","; x_bare := bare; x_first := first; x_nonce := cnonce ++ snonce |}, first)
    else None
  else None.

(** The client's last message: the channel binding is the GS2 header, the nonce the server's, and the
    proof opens the stored key: with the signature that the server computes itself it gives a client key
    whose hash is the stored key. The answer is the signature of the server. *)
Definition scram_final (x : exchange) (payload : bytes) : option bytes :=
  '(binding, r) ← until "," payload;
  '(nonce, proof) ← until "," r;
  gs2 ← (attribute "c" binding ≫= base64_decode);
  n ← attribute "r" nonce;
  p ← (attribute "p" proof ≫= base64_decode);
  let authMessage := x_bare x ++ $"," ++ x_first x ++ $"," ++ binding ++ $"," ++ nonce in
  let clientKey := xor_bytes p (hmac_sha256 (a_stored (x_account x)) authMessage) in
  if bool_decide (gs2 = x_gs2 x) && bool_decide (n = x_nonce x) && (length p =? 32) && bool_decide (sha256_sum clientKey = a_stored (x_account x))
  then Some ($"v=" ++ base64_encode (hmac_sha256 (a_server (x_account x)) authMessage))
  else None.

Lemma until_app b p r : b ∉ p -> until b (p ++ b :: r) = Some (p, r).
Proof.
  induction p as [|x p IH]; cbn [app until]; intros Hb.
  - by destruct (byte_eqb_spec b b).
  - apply not_elem_of_cons in Hb as [Hx Hp]. rewrite byte_eqb_ne by done. by rewrite IH.
Qed.

Lemma unescape_plain s : "="%byte ∉ s -> unescape s = Some s.
Proof. induction s as [|x s IH]; [done|]. intros [Hx Hs]%not_elem_of_cons. cbn [unescape]. rewrite byte_eqb_ne by done. by rewrite IH. Qed.

Lemma xorBytes_xor a b r : xorBytes a b = Ok r -> r = xor_bytes a b.
Proof.
  revert b r. induction a as [|x a IH]; intros b r; cbn [xorBytes]; [by intros [= <-]|]. destruct b as [|y b]; [done|].
  destruct (xorBytes a b) as [r'| |] eqn:E; cbn [res_bind]; [|done..]. intros [= <-]. by rewrite (IH _ _ E).
Qed.

Lemma length_base64 s : length (base64_encode s) = 4 * ((length s + 2) / 3).
Proof.
  assert (forall n s, length s <= n -> length (base64_encode s) = 4 * ((length s + 2) / 3)) as Hn; [|by apply (Hn (length s))].
  intros n. induction n as [|n IH]; intros [|a [|b [|d s']]] Hl; cbn [length] in *; try lia; try done. cbn [base64_encode length].
  rewrite IH by lia. replace (Datatypes.S (Datatypes.S (Datatypes.S (length s'))) + 2) with (length s' + 2 + 1 * 3) by lia.
  rewrite Nat.div_add by lia. lia.
Qed.

#[local] Strategy opaque [hmac_sha256 sha256_sum base64_encode].

(** What the code signs. *)
Definition auth_message_of (user clientNonce nonce first : bytes) : bytes :=
  client_first_bare user clientNonce ++ $"," ++ first ++ $"," ++ final_without_proof nonce.

Definition account_of (user password salt : bytes) (iterations : Z) : account :=
  {| a_name := user; a_salt := salt; a_iterations := iterations;
     a_stored := stored_key (salted password salt iterations); a_server := server_key (salted password salt iterations) |}.

Definition exchange_of (acc : account) (user clientNonce snonce : bytes) : exchange :=
  {| x_account := acc; x_gs2 := $"n,,"; x_bare := client_first_bare user clientNonce;
     x_first := server_first (clientNonce ++ snonce) (a_salt acc) (a_iterations acc); x_nonce := clientNonce ++ snonce |}.

(** The server understands the first message. *)
Lemma server_reads_first user password salt iterations buf snonce :
  ","%byte ∉ user -> "="%byte ∉ user -> (Z.of_nat (length (client_first_bare user (generateNonce buf))) + 3 < 2 ^ 32)%Z ->
  let acc := account_of user password salt iterations in
  scram_first acc snonce (sasl_initial user (generateNonce buf)) =
    Some (exchange_of acc user (generateNonce buf) snonce, server_first (generateNonce buf ++ snonce) salt iterations).
Proof.
  intros Hc He Hl acc. unfold scram_first, sasl_initial. change ([x00] ++ ?s) with (x00 :: s). rewrite until_app by (by apply (bool_decide_unpack _)).
  cbn [mbind option_bind]. rewrite take4_PutUint32, drop4_PutUint32. set (resp := $"n,," ++ _).
  assert (Z.of_nat (length resp) = Z.of_nat (length (client_first_bare user (generateNonce buf))) + 3)%Z as Hr by (unfold resp; rewrite length_app; cbn; lia).
  rewrite be_value_PutUint32, Z.eqb_refl, length_app, length_PutUint32 by lia. rewrite bool_decide_true, (proj2 (Nat.leb_le _ _)) by (done || lia). cbn [andb].
  unfold resp. change ($"n,," ++ ?s) with ($"n" ++ ","%byte :: [] ++ ","%byte :: s). rewrite until_app by (by apply (bool_decide_unpack _)). cbn [mbind option_bind].
  change (until "," ([] ++ ","%byte :: ?s)) with (Some ([] : bytes, s)). cbn [mbind option_bind]. 
  assert (until "," (client_first_bare user (generateNonce buf)) = Some ($"n=" ++ user, $"r=" ++ generateNonce buf)) as ->.
  { unfold client_first_bare. change ($"n=" ++ user ++ $",r=" ++ generateNonce buf) with (($"n=" ++ user) ++ ","%byte :: $"r=" ++ generateNonce buf).
    apply until_app. rewrite not_elem_of_app. split; [by apply (bool_decide_unpack _)|done]. }
  cbn [mbind option_bind].
  change (attribute "n" ($"n=" ++ user)) with (Some user). change (attribute "r" ($"r=" ++ generateNonce buf)) with (Some (generateNonce buf)).
  cbn [mbind option_bind]. rewrite unescape_plain by done. cbn [mbind option_bind]. rewrite !bool_decide_true by (done || apply base64_no_comma). done.
Qed.

(** And the last one, when the proof opens the stored key. *)
Definition server_final (sp authMessage : bytes) : bytes := $"v=" ++ base64_encode (hmac_sha256 (server_key sp) authMessage).

Lemma server_reads_final user password salt iterations buf snonce proof :
  let nonce := generateNonce buf ++ snonce in
  let sp := salted password salt iterations in
  let am := auth_message_of user (generateNonce buf) nonce (server_first nonce salt iterations) in
  ","%byte ∉ snonce -> length proof = 32 -> sha256_sum (xor_bytes proof (hmac_sha256 (stored_key sp) am)) = stored_key sp ->
  scram_final (exchange_of (account_of user password salt iterations) user (generateNonce buf) snonce)
    (final_without_proof nonce ++ $",p=" ++ base64_encode proof) = Some (server_final sp am).
Proof.
  intros nonce sp am Hc Hl Hk. unfold scram_final, final_without_proof.
  replace (($"c=biws,r=" ++ nonce) ++ $",p=" ++ base64_encode proof) with ($"c=biws" ++ ","%byte :: ($"r=" ++ nonce) ++ ","%byte :: $"p=" ++ base64_encode proof)
    by (by rewrite <- app_assoc).
  rewrite until_app by (by apply (bool_decide_unpack _)). cbn [mbind option_bind].
  rewrite until_app; [|unfold nonce; rewrite !not_elem_of_app; split_and!; [by apply (bool_decide_unpack _)|apply base64_no_comma|done]]. cbn [mbind option_bind].
  change (attribute "c" $"c=biws" ≫= base64_decode) with (Some $"n,,"). change (attribute "r" ($"r=" ++ nonce)) with (Some nonce).
  change (attribute "p" ($"p=" ++ base64_encode proof)) with (Some (base64_encode proof)). cbn [mbind option_bind]. rewrite base64_roundtrip. cbn [mbind option_bind].
  cbn [x_bare x_first x_gs2 x_nonce x_account exchange_of account_of a_stored a_server a_salt a_iterations].
  replace (client_first_bare user (generateNonce buf) ++ $"," ++ server_first (generateNonce buf ++ snonce) salt iterations ++ $"," ++ $"c=biws" ++ $"," ++ $"r=" ++ nonce)
    with am by (unfold am, auth_message_of, final_without_proof; by rewrite <- ?app_assoc).
  fold sp. rewrite Hl, Hk. by rewrite !bool_decide_true.
Qed.

(** The dialogue with a server that knows the password. *)
Lemma handleSCRAM_completes c mechanisms user password buf snonce salt iterations sent rest w :
  let nonce := generateNonce buf ++ snonce in
  let first := server_first nonce salt iterations in
  let sp := salted password salt iterations in
  let am := auth_message_of user (generateNonce buf) nonce first in
  let acc := account_of user password salt iterations in
  Contains mechanisms $"SCRAM-SHA-256" = true -> buf <> [] -> ","%byte ∉ snonce -> (0 < iterations < 2 ^ 63)%Z ->
  (4 + Z.of_nat (length first) <= MaxMessageSize)%Z ->
  exists proof, scram_final (exchange_of acc user (generateNonce buf) snonce) (final_without_proof nonce ++ $",p=" ++ base64_encode proof) = Some (server_final sp am) /\
    handleSCRAM c mechanisms user password buf (dialogue c sent (auth_message 11 first ++ auth_message 12 (server_final sp am) ++ rest) w) =
    (Ok tt, dialogue c (sent ++ [WriteMessage "p" (sasl_initial user (generateNonce buf));
                                 WriteMessage "p" (final_without_proof nonce ++ $",p=" ++ base64_encode proof)]) rest w).
Proof.
  intros nonce first sp am acc Hm Hb Hc Hi Hl. unfold handleSCRAM. rewrite Hm. cbn [negb].
  rewrite run_send, run_sasl by (done || lia). subst first.
  rewrite parseServerFirst_server_first; [|..|done].
  2:{ unfold nonce, generateNonce. destruct buf as [|a [|b [|d buf]]]; done. }
  2:{ unfold nonce. rewrite elem_of_app. intros [?%base64_no_comma|?]; done. }
  rewrite (HasPrefix_app (generateNonce buf) snonce : HasPrefix nonce (generateNonce buf) = true). cbn [negb].
  destruct (xorBytes_Ok (hmacSHA256 sp $"Client Key") (hmacSHA256 (stored_key sp) am)) as (proof & Hx & Hlen);
    [unfold hmacSHA256; by rewrite !length_hmac|].
  exists proof. split.
  { apply server_reads_final; [done|by rewrite Hlen; apply length_hmac|]. 
    pose proof (xorBytes_xor _ _ _ (xorBytes_cancel _ _ _ Hx)) as E. unfold hmacSHA256 in E.
    change (sha256_sum (xor_bytes proof (hmac_sha256 (stored_key sp) am)) = stored_key sp). by rewrite <- E. }
  unfold bind at 1, lift. fold (salted password salt iterations). fold sp. unfold stored_key, am, auth_message_of, hmacSHA256 in Hx.
  unfold hmacSHA256, sha256Sum. rewrite Hx. rewrite run_send, run_sasl; [|done|].
  2:{ unfold server_final. rewrite length_app, length_base64, length_hmac. by vm_compute. }
  unfold server_final. rewrite HasPrefix_app. cbn [negb]. rewrite (drop_app_length' _ _ 2), base64_roundtrip by done.
  rewrite bool_decide_true by done. by rewrite <- app_assoc.
Qed.
#[local] Strategy transparent [hmac_sha256 sha256_sum base64_encode].

(** ** A whole connection *)

(** Messages the loop skips. *)
Definition skipped (m : byte * bytes) : Prop :=
  ~ m.1 ∈ [Msg.Authentication; Msg.ErrorResponse; Msg.BackendKeyData; Msg.ReadyForQuery] /\ (Z.of_nat (length m.2) <= MaxMessageSize)%Z.

Lemma skipped_tests m : skipped m ->
  (m.1 =b Msg.Authentication) = false /\ (m.1 =b Msg.ErrorResponse) = false /\
  (m.1 =b Msg.BackendKeyData) = false /\ (m.1 =b Msg.ReadyForQuery) = false /\ (Z.of_nat (length m.2) <= MaxMessageSize)%Z.
Proof. intros [Hno Hlen]. split_and!; try done; apply byte_eqb_ne; set_solver. Qed.

(** The end of a successful startup. *)
Definition welcome (params : list (byte * bytes)) (pid secret : Z) (status : byte) : bytes :=
  auth_ok ++ frames params ++ key_message pid secret ++ WriteMessage Msg.ReadyForQuery [status].

Lemma connect_params c user password nonces p s params pid secret status sent rest n w :
  Forall skipped params -> (0 <= pid < 2 ^ 32)%Z -> (0 <= secret < 2 ^ 32)%Z -> length params + 2 <= n ->
  connect_loop c user password nonces p s n
    (dialogue c sent (frames params ++ key_message pid secret ++ WriteMessage Msg.ReadyForQuery [status] ++ rest) w) =
  (Ok (mkKeyConn c pid secret), dialogue c sent rest w).
Proof.
  intros Hps Hpid Hsec. revert n. induction Hps as [|m ms Hm _ IH]; intros n Hn; (destruct n as [|n]; [cbn in Hn; lia|]); cbn [connect_loop].
  - unfold frames. cbn [fmap list_fmap concat app]. unfold key_message. rewrite run_read by done. cbn [mType mPayload].
    rewrite length_app, !length_PutUint32, take4_PutUint32, drop4_PutUint32.
    change (Msg.BackendKeyData =b Msg.Authentication) with false. change (Msg.BackendKeyData =b Msg.ErrorResponse) with false.
    change (Msg.BackendKeyData =b Msg.BackendKeyData) with true. change (8 <=? 4 + 4) with true. cbv iota.
    rewrite <- (app_nil_r (PutUint32 secret)) at 1. rewrite take4_PutUint32, !be_value_PutUint32 by done.
    destruct n as [|n]; [cbn in Hn; lia|]. cbn [connect_loop]. by rewrite run_read.
  - destruct (skipped_tests m Hm) as (H1 & H2 & H3 & H4 & H5). unfold frames. cbn [fmap list_fmap concat]. unfold frame at 1. rewrite <- !app_assoc.
    rewrite run_read by done. cbn [mType]. rewrite H1, H2, H3, H4. apply IH. cbn in Hn. lia.
Qed.

(** One authentication request that is answered by [answer_auth]. *)
Lemma connect_request c user password nonces k data sent input rest sent' n w :
  (4 + Z.of_nat (length data) <= MaxMessageSize)%Z ->
  answer_auth c (PutUint32 k ++ data) user password (nonces n) (dialogue c sent input w) = (Ok tt, dialogue c sent' rest w) ->
  connect_loop c user password nonces 0 0 (Datatypes.S n) (dialogue c sent (auth_message k data ++ input) w) =
  connect_loop c user password nonces 0 0 n (dialogue c sent' rest w).
Proof.
  intros Hl Ha. cbn [connect_loop]. unfold auth_message. rewrite run_read by (rewrite length_app, length_PutUint32; lia).
  change (mType _ =b Msg.Authentication) with true. cbn [mPayload]. unfold bind. by rewrite Ha.
Qed.

Lemma connect_welcome c user password nonces params pid secret status sent rest n w :
  Forall skipped params -> (0 <= pid < 2 ^ 32)%Z -> (0 <= secret < 2 ^ 32)%Z -> length params + 3 <= n ->
  connect_loop c user password nonces 0 0 n (dialogue c sent (welcome params pid secret status ++ rest) w) =
  (Ok (mkKeyConn c pid secret), dialogue c sent rest w).
Proof.
  intros Hps Hpid Hsec Hn. destruct n as [|n]; [lia|]. unfold welcome. change auth_ok with (auth_message 0 []). rewrite <- !app_assoc.
  erewrite (connect_request _ _ _ _ 0 []); [|done|reflexivity]. apply connect_params; auto. lia.
Qed.

Lemma length_frames ms : length ms <= length (frames ms).
Proof.
  induction ms as [|m ms IH]; [done|]. unfold frames in *. cbn [fmap list_fmap concat]. rewrite length_app. unfold frame at 1, WriteMessage. cbn. lia.
Qed.

Lemma length_welcome params pid secret status : length params + 3 <= length (welcome params pid secret status).
Proof. unfold welcome. rewrite !length_app. pose proof (length_frames params). unfold auth_ok, key_message, WriteMessage. cbn. lia. Qed.

End Backend.

Section Connections.
Context `{Pbkdf2}.
Implicit Types (c : Pool.Conn) (w : World (list nat)).

(** A connection whose loop succeeds. *)
Lemma pgConnect_run c user password database user_first nonces input rest sent k w :
  (forall n, length input <= n ->
     connect_loop c user password nonces 0 0 n (dialogue c [startup_packet user database user_first] input w) = (Ok k, dialogue c sent rest w)) ->
  pgConnect (Some c) user password database user_first nonces (dialogue c [] input w) = (Ok k, dialogue c sent rest w).
Proof.
  intros Hn. unfold pgConnect. unfold bind at 1, attempt. rewrite run_send. cbn [app]. unfold rounds_backend.
  rewrite (stream_set c input w : stream c (dialogue c [startup_packet user database user_first] input w) = _).
  rewrite (Hn (Datatypes.S (length input))) by lia. done.
Qed.

(** C22: the proxy connects to a backend that asks for SCRAM-SHA-256 and knows the password. The
    server of RFC 5802 understands the two messages it sends: it finds the mechanism, the length, the GS2
    header, the name and the nonce in the first, the channel binding, the nonce and a proof that opens its
    stored key in the second, and answers both. Given these answers the proxy accepts the server's signature
    and returns with the backend's cancel key, having sent exactly the startup
    packet and the two messages and read exactly the server's part of the dialogue. The server keeps names and
    passwords prepared with SASLprep, which has to leave these two as they are, and the name may have
    no comma and no equals sign: the code neither prepares nor escapes them. *)
Theorem pgConnect_scram (saslprep : bytes -> bytes) c mechanisms user password database user_first buf snonce salt iterations params pid secret status rest w :
  let acc := account_of (saslprep user) (saslprep password) salt iterations in
  saslprep user = user -> saslprep password = password -> ","%byte ∉ user -> "="%byte ∉ user ->
  buf <> [] -> Contains mechanisms $"SCRAM-SHA-256" = true -> ","%byte ∉ snonce -> (0 < iterations < 2 ^ 63)%Z ->
  (4 + Z.of_nat (length mechanisms) <= MaxMessageSize)%Z ->
  (4 + Z.of_nat (length (server_first (generateNonce buf ++ snonce) salt iterations)) <= MaxMessageSize)%Z ->
  (Z.of_nat (length (client_first_bare user (generateNonce buf))) + 3 < 2 ^ 32)%Z ->
  Forall skipped params -> (0 <= pid < 2 ^ 32)%Z -> (0 <= secret < 2 ^ 32)%Z ->
  exists p1 x first p2 final,
    scram_first acc snonce p1 = Some (x, first) /\ scram_final x p2 = Some final /\
    pgConnect (Some c) user password database user_first (fun _ => buf)
      (dialogue c [] (auth_message 10 mechanisms ++ auth_message 11 first ++ auth_message 12 final ++ welcome params pid secret status ++ rest) w) =
    (Ok (mkKeyConn c pid secret), dialogue c [startup_packet user database user_first; WriteMessage "p" p1; WriteMessage "p" p2] rest w).
Proof.
  intros acc Hu Hp Hcu Heu Hne Hm Hc Hi Hl Hf Hfirst Hps Hpid Hsec. unfold acc. rewrite Hu, Hp.
  destruct (handleSCRAM_completes c mechanisms user password buf snonce salt iterations [startup_packet user database user_first]
              (welcome params pid secret status ++ rest) w Hm Hne Hc Hi Hf) as (proof & Ha & Hrun).
  eexists (sasl_initial user (generateNonce buf)), _, _, _, _. split; [by apply server_reads_first|]. split; [exact Ha|].
  apply pgConnect_run. intros n Hn. assert (length params + 4 <= n) as Hn'.
  { pose proof (length_welcome params pid secret status). rewrite !length_app in Hn.
    unfold auth_message at 1, WriteMessage in Hn. cbn [length] in Hn. lia. }
  destruct n as [|n]; [lia|]. erewrite (connect_request c user password (fun _ => buf) 10 mechanisms _ _ (welcome params pid secret status ++ rest) _ n w Hl).
  - apply connect_welcome; auto. lia.
  - unfold answer_auth. rewrite take4_PutUint32, drop4_PutUint32, be_value_PutUint32, length_app, length_PutUint32 by done. exact Hrun.
Qed.

(** a client of the proxy that connects as the proxy itself connects to a backend
    is let in: run against each other with the same password, [frontendAuth] and
    [pgConnect] both succeed, the client's side sends exactly what the proxy reads, and it
    learns the cancel key the proxy chose. *)
Theorem md5_handshake {S} users user password pid secret salt c database user_first nonces (ws : World S) w :
  find_user users user = Some password -> length salt = 4 -> (0 <= pid < 2 ^ 32)%Z -> (0 <= secret < 2 ^ 32)%Z -> faults ws = [] ->
  cin ws = WriteMessage "p" (pgMD5Password user password salt ++ [x00]) ->
  let '(r, ws') := frontendAuth users user pid secret (Some salt) ws in
  let '(r', w') := pgConnect (Some c) user password database user_first nonces
                     (dialogue c [] (to_client (drop (length (trace ws)) (trace ws'))) w) in
  r = Ok tt /\ r' = Ok (mkKeyConn c pid secret) /\
  to_backend (drop (length (trace w)) (trace w')) = startup_packet user database user_first ++ cin ws.
Proof.
  intros Hu Hs Hpid Hsec Hf Hin. pose proof (frontendAuth_outcome users user pid secret salt ws Hs) as Ho. unfold wp in Ho.
  destruct (frontendAuth _ _ _ _ _ ws) as [r ws']. destruct Ho as (_ & evs & Hev & _ & Hmsgs & Hgood).
  assert (authentic users user salt ws) as Ha.
  { exists password. do 2 eexists. split; [done|]. rewrite Hin, <- (app_nil_r (WriteMessage _ _)), ReadMessage_frame; [split_and!; try done|].
    - cbn [mPayload]. apply trim_zeros_app, pgMD5Password_plain.
    - rewrite length_app, length_pgMD5Password. by vm_compute. }
  specialize (Hgood Ha Hf) as ->. specialize (Hmsgs eq_refl) as ->. unfold client_events in Hev. rewrite Hev, drop_app_length.
  rewrite (pgConnect_run c user password database user_first nonces _ []
             [startup_packet user database user_first; WriteMessage "p" (pgMD5Password user password salt ++ [x00])] (mkKeyConn c pid secret)).
  - split_and!; [done..|]. cbn [trace dialogue]. rewrite drop_app_length, Hin. unfold to_backend. cbn [fmap list_fmap concat]. by rewrite app_nil_r.
  - intros n Hn.
    assert (to_client (EvClient <$> [challenge salt; auth_ok; key_message pid secret; idle]) = auth_message 5 salt ++ welcome [] pid secret "I" ++ []) as E
      by (unfold to_client; cbn [fmap list_fmap concat]; by rewrite !app_nil_r).
    rewrite E in Hn |- *. rewrite !length_app in Hn. pose proof (length_welcome [] pid secret "I"). cbn [length] in *.
    assert (4 <= n) by (unfold auth_message, WriteMessage in Hn; cbn [length] in Hn; lia).
    destruct n as [|n]; [lia|]. erewrite (connect_request c user password nonces 5 salt).
    + apply connect_welcome; auto. cbn. lia.
    + rewrite Hs. by vm_compute.
    + unfold answer_auth. rewrite take4_PutUint32, drop4_PutUint32, be_value_PutUint32, length_app, length_PutUint32, Hs, take_ge by (done || lia).
      apply run_tell.
Qed.

End Connections.
(** ** Failures *)

Section Failures.
Context `{Pbkdf2}.
Implicit Types (c : Pool.Conn).

(** Code that neither panics nor closes anything. *)
Definition steady {S A} (m : M S A) : Prop := forall w, (m w).1 <> Panic /\ sh (m w).2 = sh w.

Lemma steady_ret {S A} (a : A) : steady (S := S) (ret a).
Proof. done. Qed.
Lemma steady_fail {S A} : steady (S := S) (A := A) fail.
Proof. done. Qed.
Lemma steady_bind {S A C} (m : M S A) (k : A -> M S C) : steady m -> (forall a, steady (k a)) -> steady (bind m k).
Proof.
  intros Hm Hk w. unfold bind. destruct (Hm w) as [Hp Hs]. destruct (m w) as [[a|e|] w1]; try done. cbn in *. rewrite <- Hs. apply Hk.
Qed.
Lemma steady_lift_Ok {S A} (a : A) : steady (S := S) (lift (Ok a)).
Proof. done. Qed.
Lemma steady_read_backend {S} c : steady (S := S) (read_backend c).
Proof.
  intros w. unfold read_backend. pose proof (ReadMessage_no_panic (stream c w)). by destruct (ReadMessage (stream c w)) as [[]| |].
Qed.
Lemma steady_must_backend {S} c bs : steady (S := S) (must_backend c bs).
Proof. intros w. unfold must_backend, write_backend, next_write, bind, emit, ret, fail. by destruct (faults w) as [|[] ?]. Qed.
Lemma steady_rounds {S A} c (loop : nat -> M S A) : (forall n, steady (loop n)) -> steady (rounds_backend c loop).
Proof. intros Hl w. apply Hl. Qed.
Hint Resolve steady_ret steady_fail steady_bind steady_lift_Ok steady_read_backend steady_must_backend steady_rounds : pgmux.

Lemma steady_read_sasl {S} c k : steady (S := S) (read_sasl c k).
Proof. unfold read_sasl. apply steady_bind; [auto with pgmux|]. intros m. repeat case_match; auto with pgmux. Qed.
Hint Resolve steady_read_sasl : pgmux.

Lemma steady_handleSCRAM {S} c mechanisms user password buf : steady (S := S) (handleSCRAM c mechanisms user password buf).
Proof.
  unfold handleSCRAM. case_match; [auto with pgmux|]. apply steady_bind; [auto with pgmux|]. intros _.
  apply steady_bind; [auto with pgmux|]. intros first. destruct (parseServerFirst first) as [[[nonce salt] it]|]; [|auto with pgmux].
  case_match; [auto with pgmux|]. cbv zeta.
  set (key := hmacSHA256 _ $"Client Key"). set (sig := hmacSHA256 (sha256Sum key) _).
  destruct (xorBytes_Ok key sig) as (proof & -> & _); [unfold key, sig, hmacSHA256; by rewrite !length_hmac|].
  apply steady_bind; [auto with pgmux|]. intros p. apply steady_bind; [auto with pgmux|]. intros _.
  apply steady_bind; [auto with pgmux|]. intros final. repeat case_match; auto with pgmux.
Qed.
Hint Resolve steady_handleSCRAM : pgmux.

Lemma steady_connect_loop {S} c user password nonces p s n : steady (S := S) (connect_loop c user password nonces p s n).
Proof.
  revert p s. induction n as [|n IH]; intros p s; [auto with pgmux|]. cbn [connect_loop]. apply steady_bind; [auto with pgmux|]. intros m.
  repeat case_match; auto with pgmux. apply steady_bind; [|auto]. unfold answer_auth. repeat case_match; auto with pgmux.
Qed.

Lemma connect_loop_conn {S} c user password nonces p s n w k w' :
  connect_loop (S := S) c user password nonces p s n w = (Ok k, w') -> keyConn k = c.
Proof.
  revert p s w. induction n as [|n IH]; intros p s w; [done|]. cbn [connect_loop]. intros (m & w1 & _ & E)%bind_Ok. revert E.
  repeat case_match; try done; try apply IH.
  - intros ([] & w2 & _ & E)%bind_Ok. by eapply IH.
  - by intros [= <- _].
Qed.

(** no dialed connection is leaked and no answer of a backend makes the proxy panic:
    [pgConnect] returns the connection it dialed, open, or it returns an error
    and has closed it. *)
Theorem pgConnect_closes dialed user password database user_first nonces w :
  let '(r, w') := pgConnect dialed user password database user_first nonces w in
  match dialed, r with
  | Some c, Ok k => keyConn k = c /\ sh w' = sh w
  | Some c, Err _ => sh w' = Pool.conn_id c :: sh w
  | None, Err _ => w' = w
  | _, _ => False
  end.
Proof.
  unfold pgConnect. destruct dialed as [c|]; [|done].
  set (m := _ ;! rounds_backend c _).
  assert (steady m) as Hm.
  { apply steady_bind; [auto with pgmux|]. intros _. apply steady_rounds. intros n. apply steady_connect_loop. }
  specialize (Hm w) as [Hp Hs]. unfold bind, attempt. destruct (m w) as [[k|e|] w1] eqn:E; try done.
  - split; [|done]. unfold m in E. apply bind_Ok in E as ([] & w2 & _ & E). by eapply connect_loop_conn.
  - cbn in *. by rewrite Hs.
Qed.

Lemma read_sasl_Ok {S} c k (w : World S) data w' :
  (0 <= k < 2 ^ 32)%Z -> read_sasl c k w = (Ok data, w') ->
  exists m, ReadMessage (stream c w) = Ok (m, stream c w') /\ mType m = Msg.Authentication /\ mPayload m = PutUint32 k ++ data.
Proof.
  intros Hk. unfold read_sasl. intros (m & w1 & Hr & E)%bind_Ok. exists m.
  assert (ReadMessage (stream c w) = Ok (m, stream c w1)) as Hm.
  { unfold read_backend in Hr. destruct (ReadMessage (stream c w)) as [[m' r]| |] eqn:Er; try done. injection Hr as <- <-. by rewrite stream_set. }
  revert E. destruct (mType m =b Msg.ErrorResponse); [done|]. destruct (byte_eqb_spec (mType m) Msg.Authentication) as [Et|]; [|done].
  destruct (Nat.ltb_spec (length (mPayload m)) 4) as [|Hl]; [done|]. cbn [orb negb].
  destruct (Z.eqb_spec (be_value (take 4 (mPayload m))) k) as [Ev|]; [|done]. intros [= <- <-].
  split_and!; [done..|]. rewrite <- (take_drop 4 (mPayload m)) at 1. f_equal.
  apply be_value_inj; [rewrite length_PutUint32, length_take; lia|]. by rewrite be_value_PutUint32.
Qed.

(** the proxy trusts a backend only with its proof: SCRAM succeeds only if the server's
    nonce extends the client's and its last message carries the signature, under the
    server key of the password, of the whole exchange. *)
Theorem handleSCRAM_verifies {S} c mechanisms user password buf (w : World S) w' :
  handleSCRAM c mechanisms user password buf w = (Ok tt, w') ->
  exists m1 m2 r1 first nonce salt iterations sig,
    ReadMessage (stream c w) = Ok (m1, r1) /\ ReadMessage r1 = Ok (m2, stream c w') /\
    mType m1 = Msg.Authentication /\ mPayload m1 = PutUint32 11 ++ first /\
    parseServerFirst first = Some (nonce, salt, iterations) /\ HasPrefix nonce (generateNonce buf) = true /\
    mType m2 = Msg.Authentication /\ mPayload m2 = PutUint32 12 ++ $"v=" ++ sig /\
    base64_decode sig = Some (hmac_sha256 (server_key (salted password salt iterations)) (auth_message_of user (generateNonce buf) nonce first)).
Proof.
  unfold handleSCRAM. destruct (Contains _ _); [|done]. cbn [negb].
  intros ([] & w1 & Hw1 & E)%bind_Ok. apply bind_Ok in E as (first & w2 & Hr1 & E).
  destruct (parseServerFirst first) as [[[nonce salt] iterations]|] eqn:Ep; [|done].
  destruct (HasPrefix nonce (generateNonce buf)) eqn:En; [|done]. cbn [negb] in E.
  apply bind_Ok in E as (proof & w3 & Hw3 & E). apply bind_Ok in E as ([] & w4 & Hw4 & E). apply bind_Ok in E as (final & w5 & Hr2 & E).
  destruct (HasPrefix final $"v=") eqn:Ev; [|done]. cbn [negb] in E.
  destruct (base64_decode (drop 2 final)) as [sig|] eqn:Ed; [|done]. destruct (bool_decide _) eqn:Es; [|done].
  apply bool_decide_eq_true in Es. injection E as <-.
  apply must_backend_streams in Hw1 as [_ Hs1], Hw4 as [_ Hs4]. injection Hw3 as _ <-.
  apply read_sasl_Ok in Hr1 as (m1 & Hm1 & Ht1 & Hp1), Hr2 as (m2 & Hm2 & Ht2 & Hp2); [|done..].
  apply HasPrefix_spec in Ev as [s Hs]. exists m1, m2, (stream c w2), first, nonce, salt, iterations, s.
  rewrite Hs1 in Hm1. rewrite Hs4 in Hm2. rewrite Hs in Hp2, Ed. rewrite (drop_app_length' _ _ 2) in Ed by done.
  split_and!; try done. by rewrite Ed, Es.
Qed.

End Failures.
(** ** The loops end: the bounds on their rounds are never reached *)

Section Rounds.
Context `{Pbkdf2} {S : Type}.
Implicit Types (w : World S) (c : Pool.Conn).

(** Code that never makes the stream of [c] longer. *)
Definition shortens {A} c (m : M S A) : Prop := forall w a w', m w = (Ok a, w') -> length (stream c w') <= length (stream c w).

Lemma shortens_ret {A} c (a : A) : shortens c (ret a).
Proof. by intros w b w' [= _ <-]. Qed.
Lemma shortens_fail {A} c : shortens c (fail : M S A).
Proof. done. Qed.
Lemma shortens_lift {A} c (r : res unit A) : shortens c (lift r).
Proof. by intros w b w' [= _ <-]. Qed.
Lemma shortens_bind {A C} c (m : M S A) (k : A -> M S C) : shortens c m -> (forall a, shortens c (k a)) -> shortens c (bind m k).
Proof. intros Hm Hk w a w' (b & w1 & E1 & E2)%bind_Ok. apply Hm in E1. apply Hk in E2. lia. Qed.
Lemma shortens_read c : shortens c (read_backend c).
Proof. intros w m w' E%read_backend_Ok. lia. Qed.
Lemma shortens_send c bs : shortens c (must_backend c bs).
Proof. intros w a w' [_ E]%must_backend_streams. by rewrite E. Qed.
Hint Resolve shortens_ret shortens_fail shortens_lift shortens_bind shortens_read shortens_send : pgmux.

Lemma shortens_answer c payload user password buf : shortens c (answer_auth c payload user password buf).
Proof.
  assert (forall k, shortens c (read_sasl c k)).
  { intros k. unfold read_sasl. apply shortens_bind; [auto with pgmux|]. intros m. repeat case_match; auto with pgmux. }
  unfold answer_auth, handleSCRAM. repeat case_match; auto with pgmux.
  repeat (apply shortens_bind; [auto with pgmux|intros ?]). repeat case_match; auto with pgmux.
  repeat (apply shortens_bind; [auto with pgmux|intros ?]). repeat case_match; auto with pgmux.
Qed.

Lemma connect_rounds c user password nonces p s n1 n2 w :
  (forall i j, nonces i = nonces j) -> length (stream c w) < n1 -> length (stream c w) < n2 ->
  connect_loop c user password nonces p s n1 w = connect_loop c user password nonces p s n2 w.
Proof.
  intros Hn. revert p s n2 w. induction n1 as [|n1 IH]; intros p s n2 w H1 H2; [lia|]. destruct n2 as [|n2]; [lia|]. cbn [connect_loop].
  apply bind_ext. intros m w1 Hr%read_backend_Ok. rewrite (Hn n1 n2). repeat case_match; try done; try (apply IH; lia).
  apply bind_ext. intros [] w2 Ha%shortens_answer. apply IH; lia.
Qed.

Lemma relayAuth_rounds c pid secret n1 n2 w :
  length (stream c w) < n1 -> length (stream c w) < n2 -> relayAuth_loop c pid secret n1 w = relayAuth_loop c pid secret n2 w.
Proof.
  revert n2 w. induction n1 as [|n1 IH]; intros n2 w H1 H2; [lia|]. destruct n2 as [|n2]; [lia|]. cbn [relayAuth_loop].
  apply bind_ext. intros m w1 Hr%read_backend_Ok.
  assert (forall w3, length (stream c w3) <= length (stream c w1) -> relayAuth_loop c pid secret n1 w3 = relayAuth_loop c pid secret n2 w3) as Hrec
    by (intros w3 Hw3; apply IH; lia).
  case_match; (apply bind_ext; intros [] w2 [_ Hs]%must_client_streams; specialize (Hs c); repeat case_match; try done; try (apply Hrec; by rewrite Hs)).
  apply bind_ext. intros cm w3 Hc. apply bind_ext. intros [] w4 [_ Hs4]%must_backend_streams. apply Hrec. rewrite Hs4, <- Hs.
  unfold read_client in Hc. destruct (ReadMessage (cin w2)) as [[]| |]; try done. by injection Hc as <- <-.
Qed.

(** A bound on the rounds larger than the one the loops are given changes nothing. *)
Lemma auth_rounds_suffice c pid secret user password buf n w :
  relayAuth_loop c pid secret (Datatypes.S (length (stream c w)) + n) w = relayAuth c pid secret w /\
  connect_loop c user password (fun _ => buf) 0 0 (Datatypes.S (length (stream c w)) + n) w =
    rounds_backend c (connect_loop c user password (fun _ => buf) 0 0) w.
Proof. split; [apply relayAuth_rounds|apply connect_rounds]; (done || lia). Qed.
End Rounds.

Module Examples.

(** PBKDF2 of RFC 8018 for one block of output. *)
Fixpoint pbkdf2_iter (n : nat) (password u acc : bytes) : bytes :=
  match n with
  | O => acc
  | Datatypes.S n' =>
      let u' := hmac_sha256 password u in
      pbkdf2_iter n' password u' (match xorBytes acc u' with Ok x => x | _ => acc end)
  end.

#[local] Instance one_block : Pbkdf2 := {|
  pbkdf2_key password salt iterations keyLen :=
    let u := hmac_sha256 password (salt ++ PutUint32 1) in
    take keyLen (pbkdf2_iter (Z.to_nat (iterations - 1)) password u u)
|}.

Definition conn0 : Pool.Conn := Relay.Examples.conn0.
Definition world0 (backend client : bytes) : World (list nat) :=
  {| cin := client; bin := {[ 7 := backend ]}; faults := []; grants := fun _ _ => None; trace := []; sh := [] |}.
Definition alice : Config.AuthUser := {| Config.Username := $"alice"; Config.Password := $"secret"; Config.User_MaxConnections := 0 |}.
Definition salt0 : bytes := [x01; x02; x03; x04].
Definition alice_answer : bytes := WriteMessage "p" (pgMD5Password $"alice" $"secret" salt0 ++ [x00]).

Lemma frontendAuth_authenticates_witness :
  let '(r, w') := frontendAuth [alice] $"alice" 5 6 (Some salt0) (world0 [] alice_answer) in
  md5_outcome [alice] $"alice" 5 6 salt0 (world0 [] alice_answer) r w'.
Proof. exact (frontendAuth_authenticates [alice] $"alice" 5 6 salt0 (world0 [] alice_answer) eq_refl). Defined.

(** The hash of the wrong password is refused, with an error and without AuthenticationOk. *)
Example wrong_password :
  let '(r, w') := frontendAuth [alice] $"alice" 5 6 (Some salt0) (world0 [] (WriteMessage "p" (pgMD5Password $"alice" $"guess" salt0 ++ [x00]))) in
  r = Err tt /\ trace w' = [EvClient (challenge salt0); EvClient (WriteMessage Msg.ErrorResponse
    (error_payload ($"password authentication failed for user " ++ [x22] ++ $"alice" ++ [x22])))].
Proof. by vm_compute. Qed.

Lemma md5_handshake_witness :
  let '(r, ws') := frontendAuth [alice] $"alice" 5 6 (Some salt0) (world0 [] alice_answer) in
  let '(r', w') := pgConnect (Some conn0) $"alice" $"secret" $"db" true (fun _ => [])
                     (dialogue conn0 [] (to_client (drop (length (trace (world0 [] alice_answer))) (trace ws'))) (world0 [] [])) in
  r = Ok tt /\ r' = Ok (mkKeyConn conn0 5 6) /\
  to_backend (drop (length (trace (world0 [] []))) (trace w')) = startup_packet $"alice" $"db" true ++ cin (world0 [] alice_answer).
Proof.
  apply (md5_handshake [alice] $"alice" $"secret" 5 6 salt0 conn0 $"db" true (fun _ => []) (world0 [] alice_answer) (world0 [] []));
    (reflexivity || lia).
Defined.

(** A server of the user "user" with two iterations. *)
Definition buf0 : bytes := default [] (base64_decode $"rOprNGfwEbeRWgbNEkqO").
Definition nonce0 : bytes := generateNonce buf0 ++ $"%hvYDpWUa2RaTCAfuxFIlj)hNlF$k0".
Definition salt1 : bytes := default [] (base64_decode $"W22ZaJ0SNY7soEsUEjb6gQ==").
Definition first0 : bytes := server_first nonce0 salt1 2.
Definition sp0 : bytes := salted $"pencil" salt1 2.
Definition am0 : bytes := auth_message_of $"user" (generateNonce buf0) nonce0 first0.

(** The exchange of RFC 7677, but for the number of iterations. *)
Example rfc7677 :
  first0 = $"r=rOprNGfwEbeRWgbNEkqO%hvYDpWUa2RaTCAfuxFIlj)hNlF$k0,s=W22ZaJ0SNY7soEsUEjb6gQ==,i=2" /\
  server_final sp0 am0 = $"v=ndAdrh5TECKakHzPBk4un3277PJn0A8uU1LbVR2ya5w=".
Proof. by vm_compute. Qed.

Definition server_world : World (list nat) := world0 (auth_message 11 first0 ++ auth_message 12 (server_final sp0 am0)) [].

Lemma pgConnect_scram_witness : exists p1 x first p2 final,
  scram_first (account_of $"user" $"pencil" salt1 2) $"%hvYDpWUa2RaTCAfuxFIlj)hNlF$k0" p1 = Some (x, first) /\ scram_final x p2 = Some final /\
  pgConnect (Some conn0) $"user" $"pencil" $"db" true (fun _ => buf0)
    (dialogue conn0 [] (auth_message 10 ($"SCRAM-SHA-256" ++ [x00; x00]) ++ auth_message 11 first ++ auth_message 12 final ++
                        welcome [(Msg.ParameterStatus, $"x")] 5 6 "I" ++ []) (world0 [] [])) =
  (Ok (mkKeyConn conn0 5 6), dialogue conn0 [startup_packet $"user" $"db" true; WriteMessage "p" p1; WriteMessage "p" p2] [] (world0 [] [])).
Proof.
  assert (Forall skipped [(Msg.ParameterStatus, $"x")]) as Hp by (repeat constructor; [by apply (bool_decide_unpack _)|done]).
  assert (","%byte ∉ $"%hvYDpWUa2RaTCAfuxFIlj)hNlF$k0") as Hc by (by apply (bool_decide_unpack _)).
  assert (","%byte ∉ $"user") as Hu by (by apply (bool_decide_unpack _)). assert ("="%byte ∉ $"user") as He by (by apply (bool_decide_unpack _)).
  assert (4 + Z.of_nat (length first0) <= MaxMessageSize)%Z as Hl by (by vm_compute).
  assert (Z.of_nat (length (client_first_bare $"user" (generateNonce buf0))) + 3 < 2 ^ 32)%Z as Hf by (by vm_compute).
  assert (buf0 <> []) as Hb by (by vm_compute).
  exact (pgConnect_scram (fun s => s) conn0 ($"SCRAM-SHA-256" ++ [x00; x00]) $"user" $"pencil" $"db" true buf0 $"%hvYDpWUa2RaTCAfuxFIlj)hNlF$k0" salt1 2
    [(Msg.ParameterStatus, $"x")] 5 6 "I"%byte [] (world0 [] []) eq_refl eq_refl Hu He Hb eq_refl Hc ltac:(lia) ltac:(by vm_compute) Hl Hf Hp ltac:(lia) ltac:(lia)).
Defined.

(** A user name with a comma is sent as it is: the server does not find the nonce. *)
Example name_not_escaped :
  scram_first (account_of $"a,b" $"pencil" salt1 2) $"x" (sasl_initial $"a,b" (generateNonce buf0)) = None.
Proof. by vm_compute. Qed.

Lemma handleSCRAM_verifies_witness : exists m1 m2 r1 first nonce salt iterations sig,
  ReadMessage (stream conn0 server_world) = Ok (m1, r1) /\
  ReadMessage r1 = Ok (m2, stream conn0 (handleSCRAM conn0 $"SCRAM-SHA-256" $"user" $"pencil" buf0 server_world).2) /\
  mType m1 = Msg.Authentication /\ mPayload m1 = PutUint32 11 ++ first /\
  parseServerFirst first = Some (nonce, salt, iterations) /\ HasPrefix nonce (generateNonce buf0) = true /\
  mType m2 = Msg.Authentication /\ mPayload m2 = PutUint32 12 ++ $"v=" ++ sig /\
  base64_decode sig = Some (hmac_sha256 (server_key (salted $"pencil" salt iterations)) (auth_message_of $"user" (generateNonce buf0) nonce first)).
Proof.
  assert ((handleSCRAM conn0 $"SCRAM-SHA-256" $"user" $"pencil" buf0 server_world).1 = Ok tt) as Hok by (by vm_compute).
  pose proof (surjective_pairing (handleSCRAM conn0 $"SCRAM-SHA-256" $"user" $"pencil" buf0 server_world)) as E. rewrite Hok in E.
  exact (handleSCRAM_verifies conn0 $"SCRAM-SHA-256" $"user" $"pencil" buf0 server_world _ E).
Defined.

End Examples.
