(* ===== verification/Cancel.v ===== *)
(** * Cancel keys and the session registry (internal/proxy/cancel.go and session.go)

    A session has a cancel target, an object that says which backend connection its
    current query runs on, and an entry for the admin dashboard. The server finds the
    targets by the key it gave to the client and the entries by the process id in that key;
    ids are drawn from a 32-bit counter that wraps around. Targets and entries are objects
    on a heap, the two maps hold their locations. Every operation is one step: the source
    holds the lock of the object, or uses a [sync.Map].

    The abstract view is the set of the live sessions, each with a serial number of its
    own. *)

From stdpp Require Import sorting.
From S2P Require Import Prelude GoStrings Wire Pool.

Local Open Scope Z_scope.

(** ** Cancel targets *)

Record cancelTarget := {
  proxyPID : Z;
  proxySecret : Z;
  backendAddr : bytes;
  backendPID : Z;
  backendSecret : Z
}.

Definition setFromConn (ct : cancelTarget) (addr : bytes) (c : Pool.Conn) : cancelTarget :=
  {| proxyPID := proxyPID ct; proxySecret := proxySecret ct;
     backendAddr := addr; backendPID := Pool.BackendPID c; backendSecret := Pool.BackendSecret c |}.

Definition clear (ct : cancelTarget) : cancelTarget :=
  {| proxyPID := proxyPID ct; proxySecret := proxySecret ct; backendAddr := []; backendPID := 0; backendSecret := 0 |}.

Definition get (ct : cancelTarget) : bytes * Z * Z := (backendAddr ct, backendPID ct, backendSecret ct).

(** ** Session entries *)

(** [si_ct] is the location of the cancel target. *)
Record SessionInfo := {
  si_ID : Z;
  ClientAddr : bytes;
  User : bytes;
  Database : bytes;
  ConnectedAt : Time;
  currentQuery : bytes;
  queryStartedAt : Time;
  si_inTransaction : bool;
  pinned : bool;
  pinnedReason : bytes;
  si_ct : option nat
}.

Definition SetQueryState (si : SessionInfo) (query : bytes) (now : Time) : SessionInfo :=
  {| si_ID := si_ID si; ClientAddr := ClientAddr si; User := User si; Database := Database si; ConnectedAt := ConnectedAt si;
     currentQuery := query; queryStartedAt := now;
     si_inTransaction := si_inTransaction si; pinned := pinned si; pinnedReason := pinnedReason si; si_ct := si_ct si |}.

Definition ClearQueryState (si : SessionInfo) : SessionInfo := SetQueryState si [] 0.

Definition SetTransactionState (si : SessionInfo) (inTx pin : bool) (reason : bytes) : SessionInfo :=
  {| si_ID := si_ID si; ClientAddr := ClientAddr si; User := User si; Database := Database si; ConnectedAt := ConnectedAt si;
     currentQuery := currentQuery si; queryStartedAt := queryStartedAt si;
     si_inTransaction := inTx; pinned := pin; pinnedReason := reason; si_ct := si_ct si |}.

Record SessionSnapshot := {
  snap_ID : Z;
  snap_ClientAddr : bytes;
  snap_User : bytes;
  snap_Database : bytes;
  snap_ConnectedAt : Time;
  CurrentQuery : bytes;
  QueryStartedAt : option Time;
  BackendAddr : bytes;
  InTransaction : bool;
  Pinned : bool;
  PinnedReason : bytes
}.

(** [target] is the session's cancel target, [None] for the nil pointer. *)
Definition Snapshot (si : SessionInfo) (target : option cancelTarget) : SessionSnapshot :=
  {| snap_ID := si_ID si; snap_ClientAddr := ClientAddr si; snap_User := User si; snap_Database := Database si;
     snap_ConnectedAt := ConnectedAt si; CurrentQuery := currentQuery si;
     QueryStartedAt := if IsZeroTime (queryStartedAt si) then None else Some (queryStartedAt si);
     BackendAddr := match target with Some ct => (get ct).1.1 | None => [] end;
     InTransaction := si_inTransaction si; Pinned := pinned si; PinnedReason := pinnedReason si |}.

(** ** The registries of the server *)

Record Registry := {
  nextProxyPID : Z;
  cancelMap : gmap (Z * Z) nat;
  sessions : gmap Z nat;
  targets : gmap nat cancelTarget;
  infos : gmap nat SessionInfo;
  next : nat
}.

Definition with_targets (g : Registry) (m : gmap nat cancelTarget) : Registry :=
  {| nextProxyPID := nextProxyPID g; cancelMap := cancelMap g; sessions := sessions g; targets := m; infos := infos g; next := next g |}.
Definition with_infos (g : Registry) (m : gmap nat SessionInfo) : Registry :=
  {| nextProxyPID := nextProxyPID g; cancelMap := cancelMap g; sessions := sessions g; targets := targets g; infos := m; next := next g |}.

(** [secretBuf] is what [rand.Read] fills in. *)
Definition newCancelTarget (g : Registry) (secretBuf : bytes) : nat * Registry :=
  let pid := wrapU 32 (nextProxyPID g + 1) in
  let secret := be_value secretBuf in
  let ct := {| proxyPID := pid; proxySecret := secret; backendAddr := []; backendPID := 0; backendSecret := 0 |} in
  (next g, {| nextProxyPID := pid; cancelMap := <[(pid, secret) := next g]> (cancelMap g); sessions := sessions g;
              targets := <[next g := ct]> (targets g); infos := infos g; next := S (next g) |}).

Definition removeCancelTarget (g : Registry) (l : nat) : Registry :=
  match targets g !! l with
  | Some ct => {| nextProxyPID := nextProxyPID g; cancelMap := delete (proxyPID ct, proxySecret ct) (cancelMap g);
                  sessions := sessions g; targets := targets g; infos := infos g; next := next g |}
  | None => g
  end.

Definition registerSession (g : Registry) (l : nat) (si : SessionInfo) : Registry :=
  {| nextProxyPID := nextProxyPID g; cancelMap := cancelMap g; sessions := <[si_ID si := l]> (sessions g);
     targets := targets g; infos := <[l := si]> (infos g); next := next g |}.

Definition unregisterSession (g : Registry) (id : Z) : Registry :=
  {| nextProxyPID := nextProxyPID g; cancelMap := cancelMap g; sessions := delete id (sessions g);
     targets := targets g; infos := infos g; next := next g |}.

(** ** Cancelling *)

Definition CancelRequestCode : Z := 80877102.

(** The packet [forwardCancel] writes to the backend. *)
Definition forwardCancel (pid secret : Z) : bytes :=
  PutUint32 16 ++ PutUint32 CancelRequestCode ++ PutUint32 pid ++ PutUint32 secret.

(** Where a target's current query runs, if it runs. *)
Definition aimed_at (ct : cancelTarget) : option (bytes * bytes) :=
  let '(addr, bPID, bSecret) := get ct in
  if bool_decide (addr = []) || (bPID =? 0) then None else Some (addr, forwardCancel bPID bSecret).

(** The address that is dialed and the packet that is sent. *)
Definition handleCancelRequest (g : Registry) (payload : bytes) : option (bytes * bytes) :=
  if (length payload <? 12)%nat then None
  else
    let pid := be_value (take 4 (drop 4 payload)) in
    let secret := be_value (take 4 (drop 8 payload)) in
    match cancelMap g !! (pid, secret) with
    | None => None
    | Some l => match targets g !! l with Some ct => aimed_at ct | None => None end
    end.

(** [sent] says whether [forwardCancel] succeeds. The answer, and what was sent. *)
Definition CancelSession (g : Registry) (id : Z) (sent : bool) : (bool * bool) * option (bytes * bytes) :=
  match sessions g !! id with
  | None => ((false, false), None)
  | Some l =>
      match infos g !! l with
      | None => ((false, false), None)
      | Some si =>
          match si_ct si ≫= fun lt => targets g !! lt with
          | None => ((true, false), None)
          | Some ct => match aimed_at ct with
                       | None => ((true, false), None)
                       | Some m => ((true, sent), Some m)
                       end
          end
      end
  end.

(** ** Listing *)

Definition by_id (a b : SessionSnapshot) : Prop := snap_ID a <= snap_ID b.

#[export] Instance by_id_dec : RelDecision by_id.
Proof. intros a b. unfold by_id. apply _. Defined.

Definition snapshot_at (g : Registry) (l : nat) : option SessionSnapshot :=
  si ← infos g !! l; Some (Snapshot si (si_ct si ≫= fun lt => targets g !! lt)).

(** [Range] visits the entries in any order; the snapshots are then sorted by id. *)
Definition Sessions (g : Registry) : list SessionSnapshot :=
  merge_sort by_id (omap (fun '(_, l) => snapshot_at g l) (map_to_list (sessions g))).

(** ** The live sessions *)

Record client := { c_secret : Z; c_aim : bytes * Z * Z; c_info : option SessionInfo }.

Definition pid_of (l : nat) : Z := wrapU 32 (Z.of_nat l + 1).

Definition target_of (l : nat) (c : client) : cancelTarget :=
  {| proxyPID := pid_of l; proxySecret := c_secret c;
     backendAddr := (c_aim c).1.1; backendPID := (c_aim c).1.2; backendSecret := (c_aim c).2 |}.

Definition with_aim (c : client) (aim : bytes * Z * Z) : client := {| c_secret := c_secret c; c_aim := aim; c_info := c_info c |}.
Definition with_info (c : client) (si : option SessionInfo) : client := {| c_secret := c_secret c; c_aim := c_aim c; c_info := si |}.

(** The updates a session makes to its entry. *)
Inductive info_update : SessionInfo -> SessionInfo -> Prop :=
| upd_query si query now : info_update si (SetQueryState si query now)
| upd_clear si : info_update si (ClearQueryState si)
| upd_tx si inTx pin reason : info_update si (SetTransactionState si inTx pin reason).

(** The steps of sessions, on the registries and on the live sessions. A session
    is given a new target, registers itself, aims its target at the connection of a query
    and clears it, and in the end unregisters and removes its target. No session is
    given a key while one is alive that was given its key [2 ^ 32] sessions before. *)
Inductive step : Registry * gmap nat client -> Registry * gmap nat client -> Prop :=
| step_connect g cs secretBuf :
    (forall l c, cs !! l = Some c -> Z.of_nat (next g) - Z.of_nat l < 2 ^ 32) ->
    step (g, cs) ((newCancelTarget g secretBuf).2,
                  <[next g := {| c_secret := be_value secretBuf; c_aim := ([], 0, 0); c_info := None |}]> cs)
| step_aim g cs l c addr conn :
    cs !! l = Some c ->
    step (g, cs) (with_targets g (alter (fun ct => setFromConn ct addr conn) l (targets g)),
                  <[l := with_aim c (addr, Pool.BackendPID conn, Pool.BackendSecret conn)]> cs)
| step_clear g cs l c :
    cs !! l = Some c ->
    step (g, cs) (with_targets g (alter clear l (targets g)), <[l := with_aim c ([], 0, 0)]> cs)
| step_register g cs l c si :
    cs !! l = Some c -> c_info c = None -> si_ID si = pid_of l -> si_ct si = Some l ->
    step (g, cs) (registerSession g l si, <[l := with_info c (Some si)]> cs)
| step_update g cs l c si si' :
    cs !! l = Some c -> c_info c = Some si -> info_update si si' ->
    step (g, cs) (with_infos g (<[l := si']> (infos g)), <[l := with_info c (Some si')]> cs)
| step_unregister g cs l c si :
    cs !! l = Some c -> c_info c = Some si ->
    step (g, cs) (unregisterSession g (si_ID si), <[l := with_info c None]> cs)
| step_disconnect g cs l c :
    cs !! l = Some c -> c_info c = None ->
    step (g, cs) (removeCancelTarget g l, delete l cs).

Definition registry0 : Registry :=
  {| nextProxyPID := 0; cancelMap := ∅; sessions := ∅; targets := ∅; infos := ∅; next := 0 |}.

Definition reachable (g : Registry) (cs : gmap nat client) : Prop := rtc step (registry0, ∅) (g, cs).

(** ** The invariant *)

Record represents (g : Registry) (cs : gmap nat client) : Prop := {
  rep_pid : nextProxyPID g = wrapU 32 (Z.of_nat (next g));
  rep_window l c : cs !! l = Some c -> (l < next g)%nat /\ Z.of_nat (next g) - Z.of_nat l <= 2 ^ 32;
  rep_target l c : cs !! l = Some c -> targets g !! l = Some (target_of l c);
  rep_key k l : cancelMap g !! k = Some l <-> exists c, cs !! l = Some c /\ k = (pid_of l, c_secret c);
  rep_info l c si : cs !! l = Some c -> c_info c = Some si -> infos g !! l = Some si /\ si_ID si = pid_of l /\ si_ct si = Some l;
  rep_session id l : sessions g !! id = Some l <-> id = pid_of l /\ exists c, cs !! l = Some c /\ is_Some (c_info c)
}.

(** Ids repeat only after [2 ^ 32] sessions. *)
Lemma pid_of_inj l l' : Z.abs (Z.of_nat l - Z.of_nat l') < 2 ^ 32 -> pid_of l = pid_of l' -> l = l'.
Proof. unfold pid_of, wrapU. intros Hd E. Z.div_mod_to_equations. lia. Qed.

Lemma represents_inj g cs l c l' c' : represents g cs -> cs !! l = Some c -> cs !! l' = Some c' -> pid_of l = pid_of l' -> l = l'.
Proof.
  intros R Hl Hl' E. destruct (rep_window _ _ R _ _ Hl), (rep_window _ _ R _ _ Hl'). apply pid_of_inj; [lia|done].
Qed.

Lemma represents_start : represents registry0 ∅.
Proof.
  split; cbn; try done; intros; rewrite ?lookup_empty; try (split; [done|]); try (by intros (? & ? & _)); try (intros [_ (? & ? & _)]); by rewrite ?lookup_empty in *.
Qed.

(** A session changes its own objects only. *)
Lemma represents_modify g g' cs l c c' :
  represents g cs -> cs !! l = Some c -> c_secret c' = c_secret c -> (is_Some (c_info c') <-> is_Some (c_info c)) ->
  nextProxyPID g' = nextProxyPID g -> cancelMap g' = cancelMap g -> sessions g' = sessions g -> next g' = next g ->
  targets g' !! l = Some (target_of l c') -> (forall l', l' <> l -> targets g' !! l' = targets g !! l') ->
  (forall si, c_info c' = Some si -> infos g' !! l = Some si /\ si_ID si = pid_of l /\ si_ct si = Some l) ->
  (forall l', l' <> l -> infos g' !! l' = infos g !! l') ->
  represents g' (<[l := c']> cs).
Proof.
  intros R Hl Hs Hi E1 E2 E3 E4 Ht Ht' Hn Hn'. split; rewrite ?E1, ?E2, ?E3, ?E4; [apply R|..].
  - intros l0 c0. destruct (decide (l0 = l)) as [->|]; rewrite ?lookup_insert_eq, ?lookup_insert_ne by done; [|apply R].
    intros _. by apply (rep_window _ _ R l c).
  - intros l0 c0. destruct (decide (l0 = l)) as [->|]; rewrite ?lookup_insert_eq, ?lookup_insert_ne by done; [by intros [= <-]|].
    intros H0. rewrite Ht' by done. by apply R.
  - intros k l0. rewrite (rep_key _ _ R). destruct (decide (l0 = l)) as [->|]; rewrite ?lookup_insert_eq, ?lookup_insert_ne by done; [|done].
    rewrite Hl. split; intros (? & [= <-] & ->); eexists; (split; [done|]); by rewrite Hs.
  - intros l0 c0 si. destruct (decide (l0 = l)) as [->|]; rewrite ?lookup_insert_eq, ?lookup_insert_ne by done; [intros [= <-]; apply Hn|].
    rewrite Hn' by done. apply R.
  - intros id l0. rewrite (rep_session _ _ R). destruct (decide (l0 = l)) as [->|]; rewrite ?lookup_insert_eq, ?lookup_insert_ne by done; [|done].
    rewrite Hl. split; intros (-> & ? & [= <-] & Hx); (split; [done|]); eexists; (split; [done|]); by apply Hi.
Qed.

Lemma represents_connect g cs secretBuf :
  represents g cs -> (forall l c, cs !! l = Some c -> Z.of_nat (next g) - Z.of_nat l < 2 ^ 32) ->
  represents (newCancelTarget g secretBuf).2
    (<[next g := {| c_secret := be_value secretBuf; c_aim := ([], 0, 0); c_info := None |}]> cs).
Proof.
  intros R Hw. assert (wrapU 32 (nextProxyPID g + 1) = pid_of (next g)) as Hp.
  { rewrite (rep_pid _ _ R). unfold pid_of, wrapU. rewrite Zplus_mod_idemp_l. done. }
  assert (cs !! next g = None) as Hnew. { destruct (cs !! next g) as [c|] eqn:E; [|done]. apply (rep_window _ _ R) in E. lia. }
  unfold newCancelTarget. cbv zeta. rewrite Hp. cbn [snd]. split; cbn [nextProxyPID cancelMap sessions targets infos next].
  - unfold pid_of. f_equal. lia.
  - intros l c. destruct (decide (l = next g)) as [->|]; rewrite ?lookup_insert_eq, ?lookup_insert_ne by done; [intros _; lia|].
    intros Hl. pose proof (Hw _ _ Hl). apply (rep_window _ _ R) in Hl. lia.
  - intros l c. destruct (decide (l = next g)) as [->|]; rewrite ?lookup_insert_eq, ?lookup_insert_ne by done; [by intros [= <-]|apply R].
  - intros k l. destruct (decide (k = (pid_of (next g), be_value secretBuf))) as [->|Hk]; rewrite ?lookup_insert_eq, ?lookup_insert_ne by done.
    + split; [intros [= <-]; rewrite lookup_insert_eq; by eexists|]. intros (c & Hl & [= E _]).
      destruct (decide (l = next g)) as [->|Hne]; [done|]. rewrite lookup_insert_ne in Hl by done.
      destruct (rep_window _ _ R _ _ Hl). destruct Hne. apply pid_of_inj; [|done]. pose proof (Hw _ _ Hl). lia.
    + rewrite (rep_key _ _ R). destruct (decide (l = next g)) as [->|]; rewrite ?lookup_insert_eq, ?lookup_insert_ne by done; [|done].
      rewrite Hnew. split; intros (? & [=] & ?). subst. done.
  - intros l c si. destruct (decide (l = next g)) as [->|]; rewrite ?lookup_insert_eq, ?lookup_insert_ne by done; [by intros [= <-]|apply R].
  - intros id l. rewrite (rep_session _ _ R). destruct (decide (l = next g)) as [->|]; rewrite ?lookup_insert_eq, ?lookup_insert_ne by done; [|done].
    rewrite Hnew. split; intros (_ & ? & [=] & Hx). subst. by destruct Hx.
Qed.

Lemma represents_register g cs l c si :
  represents g cs -> cs !! l = Some c -> c_info c = None -> si_ID si = pid_of l -> si_ct si = Some l ->
  represents (registerSession g l si) (<[l := with_info c (Some si)]> cs).
Proof.
  intros R Hl Hn Hid Hct. split; cbn [registerSession nextProxyPID cancelMap sessions targets infos next]; [apply R|..].
  - intros l0 c0. destruct (decide (l0 = l)) as [->|]; rewrite ?lookup_insert_eq, ?lookup_insert_ne by done; [|apply R].
    intros _. by apply (rep_window _ _ R l c).
  - intros l0 c0. destruct (decide (l0 = l)) as [->|]; rewrite ?lookup_insert_eq, ?lookup_insert_ne by done; [|apply R].
    intros [= <-]. by apply (rep_target _ _ R l c).
  - intros k l0. rewrite (rep_key _ _ R). destruct (decide (l0 = l)) as [->|]; rewrite ?lookup_insert_eq, ?lookup_insert_ne by done; [|done].
    rewrite Hl. split; intros (? & [= <-] & ->); by eexists.
  - intros l0 c0 si0. destruct (decide (l0 = l)) as [->|]; rewrite ?lookup_insert_eq, ?lookup_insert_ne by done; [|apply R].
    by intros [= <-] [= <-].
  - intros id l0. rewrite Hid. destruct (decide (id = pid_of l)) as [->|Hne]; rewrite ?lookup_insert_eq, ?lookup_insert_ne by done.
    + split; [intros [= <-]; split; [done|]; rewrite lookup_insert_eq; by eexists|]. intros (E & c0 & H0 & Hi).
      destruct (decide (l0 = l)) as [->|Hd]; [done|]. rewrite lookup_insert_ne in H0 by done. destruct Hd. by eapply represents_inj.
    + rewrite (rep_session _ _ R). destruct (decide (l0 = l)) as [->|]; rewrite ?lookup_insert_eq, ?lookup_insert_ne by done; [|done].
      split; by intros (-> & _).
Qed.

Lemma represents_unregister g cs l c si :
  represents g cs -> cs !! l = Some c -> c_info c = Some si -> represents (unregisterSession g (si_ID si)) (<[l := with_info c None]> cs).
Proof.
  intros R Hl Hn. destruct (rep_info _ _ R _ _ _ Hl Hn) as (_ & Hid & _). rewrite Hid.
  split; cbn [unregisterSession nextProxyPID cancelMap sessions targets infos next]; [apply R|..].
  - intros l0 c0. destruct (decide (l0 = l)) as [->|]; rewrite ?lookup_insert_eq, ?lookup_insert_ne by done; [|apply R].
    intros _. by apply (rep_window _ _ R l c).
  - intros l0 c0. destruct (decide (l0 = l)) as [->|]; rewrite ?lookup_insert_eq, ?lookup_insert_ne by done; [|apply R].
    intros [= <-]. by apply (rep_target _ _ R l c).
  - intros k l0. rewrite (rep_key _ _ R). destruct (decide (l0 = l)) as [->|]; rewrite ?lookup_insert_eq, ?lookup_insert_ne by done; [|done].
    rewrite Hl. split; intros (? & [= <-] & ->); by eexists.
  - intros l0 c0 si0. destruct (decide (l0 = l)) as [->|]; rewrite ?lookup_insert_eq, ?lookup_insert_ne by done; [by intros [= <-]|apply R].
  - intros id l0. destruct (decide (id = pid_of l)) as [->|Hne]; rewrite ?lookup_delete_eq, ?lookup_delete_ne by done.
    + split; [done|]. intros (E & c0 & H0 & Hi). destruct (decide (l0 = l)) as [->|Hd].
      * rewrite lookup_insert_eq in H0. injection H0 as <-. by destruct Hi.
      * rewrite lookup_insert_ne in H0 by done. destruct Hd. by eapply represents_inj.
    + rewrite (rep_session _ _ R). destruct (decide (l0 = l)) as [->|]; rewrite ?lookup_insert_eq, ?lookup_insert_ne by done; [|done].
      split; by intros (-> & _).
Qed.

Lemma represents_disconnect g cs l c :
  represents g cs -> cs !! l = Some c -> c_info c = None -> represents (removeCancelTarget g l) (delete l cs).
Proof.
  intros R Hl Hn. unfold removeCancelTarget. rewrite (rep_target _ _ R _ _ Hl). cbn [proxyPID proxySecret target_of].
  split; cbn [nextProxyPID cancelMap sessions targets infos next]; [apply R|..].
  - intros l0 c0 [? H0]%lookup_delete_Some. by apply (rep_window _ _ R l0 c0).
  - intros l0 c0 [? H0]%lookup_delete_Some. by apply R.
  - intros k l0. rewrite lookup_delete_Some, (rep_key _ _ R). split.
    + intros (Hk & c0 & H0 & ->). exists c0. rewrite lookup_delete_Some. split; [|done]. split; [|done]. intros <-. destruct Hk. congruence.
    + intros (c0 & [Hd H0]%lookup_delete_Some & ->). split; [|by eexists]. intros [= E _]. destruct Hd. by eapply represents_inj.
  - intros l0 c0 si [? H0]%lookup_delete_Some. by apply R.
  - intros id l0. rewrite (rep_session _ _ R). split.
    + intros (-> & c0 & H0 & Hi). split; [done|]. exists c0. rewrite lookup_delete_Some. split; [|done]. split; [|done]. intros <-.
      rewrite Hl in H0. injection H0 as <-. rewrite Hn in Hi. by destruct Hi.
    + intros (-> & c0 & [? H0]%lookup_delete_Some & Hi). split; [done|]. by exists c0.
Qed.

Lemma represents_target g cs l c f aim :
  represents g cs -> cs !! l = Some c -> f (target_of l c) = target_of l (with_aim c aim) ->
  represents (with_targets g (alter f l (targets g))) (<[l := with_aim c aim]> cs).
Proof.
  intros R Hl Hf. apply (represents_modify g _ cs l c); try done; cbn [with_targets targets infos].
  - by rewrite lookup_alter_eq, (rep_target _ _ R _ _ Hl), <- Hf.
  - intros l' Hne. by rewrite lookup_alter_ne.
  - intros si Hsi. by apply (rep_info _ _ R l c).
Qed.

Lemma represents_update g cs l c si si' :
  represents g cs -> cs !! l = Some c -> c_info c = Some si -> info_update si si' ->
  represents (with_infos g (<[l := si']> (infos g))) (<[l := with_info c (Some si')]> cs).
Proof.
  intros R Hl Hn Hu. destruct (rep_info _ _ R _ _ _ Hl Hn) as (_ & Hid & Hct).
  apply (represents_modify g _ cs l c); try done; cbn [with_infos targets infos c_info with_info].
  - by apply (rep_target _ _ R l c).
  - intros si0 [= <-]. rewrite lookup_insert_eq. by destruct Hu.
  - intros l' Hne. by rewrite lookup_insert_ne.
Qed.

Lemma represents_step g cs g' cs' : represents g cs -> step (g, cs) (g', cs') -> represents g' cs'.
Proof.
  intros R Hs. inversion Hs; subst;
    eauto using represents_connect, represents_register, represents_unregister, represents_disconnect, represents_update.
  - by apply represents_connect.
  - by apply represents_target.
  - by apply represents_target.
Qed.

Lemma reachable_represents g cs : reachable g cs -> represents g cs.
Proof.
  intros Hr. assert (forall x y, rtc step x y -> represents x.1 x.2 -> represents y.1 y.2) as Hi; [|by apply (Hi _ _ Hr), represents_start].
  induction 1 as [|[] [] [] Hst _ IH]; [done|]. intros R. apply IH. cbn in *. by eapply represents_step.
Qed.

(** ** What a cancel request reaches *)

Lemma aimed_at_Some ct addr packet :
  aimed_at ct = Some (addr, packet) <->
  addr = backendAddr ct /\ addr <> [] /\ backendPID ct <> 0 /\ packet = forwardCancel (backendPID ct) (backendSecret ct).
Proof.
  unfold aimed_at, get. destruct (bool_decide_reflect (backendAddr ct = [])); cbn [orb]; [split; [done|intuition congruence]|].
  destruct (Z.eqb_spec (backendPID ct) 0); split; intuition congruence.
Qed.

(** C23: a cancel request is forwarded exactly when its key is the key of a live session whose
    target is aimed at a backend connection, and then to that connection: no client can
    cancel a query of another session without knowing that session's key, and every client
    can cancel its own. The same holds of the admin's cancellation by session id,
    for the sessions that are registered. The process ids have not wrapped around, and looking the key up and
    sending the request are one step. *)
Theorem cancel_exact g cs payload id sent addr packet :
  reachable g cs ->
  (handleCancelRequest g payload = Some (addr, packet) <->
   exists l c, cs !! l = Some c /\ (12 <= length payload)%nat /\
     pid_of l = be_value (take 4 (drop 4 payload)) /\ c_secret c = be_value (take 4 (drop 8 payload)) /\
     aimed_at (target_of l c) = Some (addr, packet)) /\
  ((CancelSession g id sent).2 = Some (addr, packet) <->
   exists l c, cs !! l = Some c /\ is_Some (c_info c) /\ pid_of l = id /\ aimed_at (target_of l c) = Some (addr, packet)) /\
  ((CancelSession g id sent).1.1 = true <-> exists l c, cs !! l = Some c /\ is_Some (c_info c) /\ pid_of l = id).
Proof.
  intros R%reachable_represents.
  assert (forall l c si, cs !! l = Some c -> c_info c = Some si -> infos g !! l = Some si /\ (si_ct si ≫= fun lt => targets g !! lt) = Some (target_of l c)) as Hinfo.
  { intros l c si Hl Hn. destruct (rep_info _ _ R _ _ _ Hl Hn) as (Hi & _ & Hct). rewrite Hct. split; [done|]. by apply (rep_target _ _ R). }
  split; [|].
  - unfold handleCancelRequest. destruct (Nat.ltb_spec (length payload) 12) as [Hlt|Hge].
    { split; [done|]. intros (? & ? & _ & ? & _). lia. }
    cbv zeta. split.
    + destruct (cancelMap g !! _) as [l|] eqn:Ek; [|done]. apply (rep_key _ _ R) in Ek as (c & Hl & [= E1 E2]).
      rewrite (rep_target _ _ R _ _ Hl). intros Ha. exists l, c. by split_and!.
    + intros (l & c & Hl & _ & <- & <- & Ha). rewrite (proj2 (rep_key _ _ R (pid_of l, c_secret c) l)) by (by exists c).
      by rewrite (rep_target _ _ R _ _ Hl).
  - unfold CancelSession. destruct (sessions g !! id) as [l|] eqn:Es.
    + apply (rep_session _ _ R) in Es as (-> & c & Hl & [si Hn]). destruct (Hinfo _ _ _ Hl Hn) as [-> ->].
      split; [|split; [intros _; exists l, c; rewrite Hn; by eauto|by destruct (aimed_at _)]].
      split.
      * destruct (aimed_at (target_of l c)) as [m|] eqn:Ea; [|done]. intros [= ->]. exists l, c. rewrite Hn. by eauto.
      * intros (l' & c' & Hl' & _ & E & Ha). assert (l' = l) as -> by (by eapply represents_inj). rewrite Hl in Hl'. injection Hl' as <-. by rewrite Ha.
    + assert (forall l c, cs !! l = Some c -> is_Some (c_info c) -> pid_of l <> id) as Hno.
      { intros l c Hl Hi <-. rewrite (proj2 (rep_session _ _ R (pid_of l) l)) in Es; [done|]. by eauto. }
      split; (split; [done|]); intros (l & c & Hl & Hi & E & _) || intros (l & c & Hl & Hi & E); by destruct (Hno _ _ Hl Hi).
Qed.

(** the packet a proxy forwards is a cancel request that another proxy (or a server)
    reads as one: 16 bytes, with the code and exactly the backend's key, so that proxies
    can be chained. *)
Theorem forwardCancel_roundtrip pid secret rest g :
  0 <= pid < 2 ^ 32 -> 0 <= secret < 2 ^ 32 ->
  exists payload, ReadStartupMessage (forwardCancel pid secret ++ rest) = Ok (mkMessage x00 payload None, rest) /\
    be_value (take 4 payload) = CancelRequestCode /\
    handleCancelRequest g payload = (cancelMap g !! (pid, secret) ≫= fun l => targets g !! l ≫= aimed_at).
Proof.
  intros Hp Hs. exists (PutUint32 CancelRequestCode ++ PutUint32 pid ++ PutUint32 secret).
  assert (forall z s, take 4 (PutUint32 z ++ s) = PutUint32 z /\ drop 4 (PutUint32 z ++ s) = s) as Ht.
  { intros z s. rewrite <- (length_PutUint32 z). by rewrite take_app_length, drop_app_length. }
  split_and!.
  - unfold forwardCancel, ReadStartupMessage. rewrite <- !app_assoc. change 4%nat with (length (PutUint32 16)) at 1. rewrite ReadFull_app.
    rewrite be_value_PutUint32 by done. change (16 <? 4) with false. change (10000 <? 16) with false. cbn [orb].
    change (Z.to_nat (16 - 4)) with 12%nat.
    replace (PutUint32 CancelRequestCode ++ PutUint32 pid ++ PutUint32 secret ++ rest)
      with ((PutUint32 CancelRequestCode ++ PutUint32 pid ++ PutUint32 secret) ++ rest) by (by rewrite <- !app_assoc).
    replace 12%nat with (length (PutUint32 CancelRequestCode ++ PutUint32 pid ++ PutUint32 secret)) by (by rewrite !length_app, !length_PutUint32).
    by rewrite ReadFull_app.
  - destruct (Ht CancelRequestCode (PutUint32 pid ++ PutUint32 secret)) as [-> _]. by rewrite be_value_PutUint32.
  - unfold handleCancelRequest. rewrite !length_app, !length_PutUint32. cbn [Nat.add Nat.ltb Nat.leb].
    replace (drop 8 (PutUint32 CancelRequestCode ++ PutUint32 pid ++ PutUint32 secret)) with (PutUint32 secret).
    2:{ change 8%nat with (4 + 4)%nat. rewrite <- drop_drop. rewrite (proj2 (Ht _ _)). by rewrite (proj2 (Ht _ _)). }
    rewrite (proj2 (Ht _ _)), (proj1 (Ht _ _)). rewrite take_ge by (by rewrite length_PutUint32).
    rewrite !be_value_PutUint32 by done.
    destruct (cancelMap g !! (pid, secret)) as [l|]; [|done]. cbn. by destruct (targets g !! l).
Qed.

(** ** The list of sessions *)

Lemma by_id_total : Total by_id.
Proof. intros a b. unfold by_id. lia. Qed.
Lemma by_id_trans : Transitive by_id.
Proof. intros a b d. unfold by_id. lia. Qed.

#[local] Existing Instances by_id_total by_id_trans.

Lemma omap_ids {A} (f : A -> option SessionSnapshot) (id : A -> Z) (xs : list A) :
  (forall x, x ∈ xs -> exists s, f x = Some s /\ snap_ID s = id x) -> snap_ID <$> omap f xs = id <$> xs.
Proof.
  induction xs as [|x xs IH]; intros Hx; [done|]. cbn [omap list_omap fmap list_fmap].
  destruct (Hx x (list_elem_of_here _ _)) as (s & -> & <-). cbn. f_equal. apply IH. intros y Hy. apply Hx. by constructor.
Qed.

Lemma strictly_sorted l : StronglySorted by_id l -> NoDup (snap_ID <$> l) -> StronglySorted (fun a b => snap_ID a < snap_ID b) l.
Proof.
  induction 1 as [|a l Hs IH Hall]; [constructor|]. cbn. intros [Hni Hnd]%list.NoDup_cons. constructor; [by apply IH|].
  rewrite list.Forall_forall in Hall |- *. intros b Hb. specialize (Hall b Hb). unfold by_id in Hall.
  assert (snap_ID a <> snap_ID b); [|lia]. intros E. apply Hni, list_elem_of_fmap. by exists b.
Qed.

(** the dashboard lists the registered sessions, each once and by ascending id, each with
    the state it last recorded and the backend its query runs on. *)
Theorem Sessions_listed g cs :
  reachable g cs ->
  StronglySorted (fun a b => snap_ID a < snap_ID b) (Sessions g) /\
  forall s, s ∈ Sessions g <-> exists l c si, cs !! l = Some c /\ c_info c = Some si /\ s = Snapshot si (Some (target_of l c)).
Proof.
  intros R%reachable_represents. set (snaps := omap (fun '(_, l) => snapshot_at g l) (map_to_list (sessions g))).
  assert (forall l c si, cs !! l = Some c -> c_info c = Some si -> snapshot_at g l = Some (Snapshot si (Some (target_of l c)))) as Hsnap.
  { intros l c si Hl Hn. unfold snapshot_at. destruct (rep_info _ _ R _ _ _ Hl Hn) as (-> & _ & Hct). cbn. rewrite Hct. cbn. by rewrite (rep_target _ _ R _ _ Hl). }
  assert (merge_sort by_id snaps ≡ₚ snaps) as Hperm by apply merge_sort_Permutation.
  assert (forall s, s ∈ snaps <-> exists l c si, cs !! l = Some c /\ c_info c = Some si /\ s = Snapshot si (Some (target_of l c))) as Hin.
  { intros s. unfold snaps. rewrite list_elem_of_omap. split.
    - intros ([id l] & Hm%elem_of_map_to_list & Hs). apply (rep_session _ _ R) in Hm as (-> & c & Hl & [si Hn]).
      rewrite (Hsnap _ _ _ Hl Hn) in Hs. injection Hs as <-. by exists l, c, si.
    - intros (l & c & si & Hl & Hn & ->). exists (pid_of l, l). rewrite elem_of_map_to_list, (rep_session _ _ R), (Hsnap _ _ _ Hl Hn).
      split; [|done]. split; [done|]. by eauto. }
  split; [|intros s; unfold Sessions; fold snaps; by rewrite Hperm].
  assert (NoDup (snap_ID <$> snaps)) as Hnd.
  { unfold snaps. rewrite (omap_ids _ fst); [apply NoDup_fst_map_to_list|]. intros [id l] (-> & c & Hl & si & Hn)%elem_of_map_to_list%(rep_session _ _ R).
    rewrite (Hsnap _ _ _ Hl Hn). eexists. split; [done|]. by destruct (rep_info _ _ R _ _ _ Hl Hn) as (_ & ? & _). }
  unfold Sessions. fold snaps. apply strictly_sorted; [apply (StronglySorted_merge_sort by_id)|by rewrite Hperm].
Qed.

Module Examples.
Definition secret_of (n : Z) : bytes := PutUint32 n.
Definition backend_conn : Pool.Conn :=
  {| Pool.conn_id := 1; Pool.CreatedAt := 0; Pool.LastUsedAt := 0; Pool.BackendPID := 77; Pool.BackendSecret := 88 |}.
Definition info (l : nat) : SessionInfo :=
  {| si_ID := pid_of l; ClientAddr := $"10.0.0.1:5000"; User := $"u"; Database := $"db"; ConnectedAt := 1; currentQuery := []; queryStartedAt := 0;
     si_inTransaction := false; pinned := false; pinnedReason := []; si_ct := Some l |}.
Definition client0 (secret : Z) : client := {| c_secret := secret; c_aim := ([], 0, 0); c_info := None |}.

(** Two sessions; the second is registered and runs a query. *)
Definition registry2 : Registry :=
  let g := registerSession (newCancelTarget (newCancelTarget registry0 (secret_of 5)).2 (secret_of 6)).2 1 (info 1) in
  with_targets g (alter (fun ct => setFromConn ct $"db:5432" backend_conn) 1%nat (targets g)).
Definition clients2 : gmap nat client :=
  <[1%nat := with_aim (with_info (client0 6) (Some (info 1))) ($"db:5432", 77, 88)]> (<[0%nat := client0 5]> ∅).

Lemma registry2_reachable : reachable registry2 clients2.
Proof.
  set (c2 := <[1%nat := client0 6]> (<[0%nat := client0 5]> (∅ : gmap nat client))).
  set (c3 := <[1%nat := with_info (client0 6) (Some (info 1))]> c2).
  assert (clients2 = <[1%nat := with_aim (with_info (client0 6) (Some (info 1))) ($"db:5432", 77, 88)]> c3) as E.
  { unfold clients2, c3, c2. by rewrite !insert_insert_eq. }
  unfold reachable. rewrite E.
  apply (rtc_l _ _ ((newCancelTarget registry0 (secret_of 5)).2, <[0%nat := client0 5]> ∅)).
  { apply (step_connect registry0 ∅ (secret_of 5)). intros l c. by rewrite lookup_empty. }
  apply (rtc_l _ _ ((newCancelTarget (newCancelTarget registry0 (secret_of 5)).2 (secret_of 6)).2, c2)).
  { apply (step_connect (newCancelTarget registry0 (secret_of 5)).2 (<[0%nat := client0 5]> ∅) (secret_of 6)). intros l c [[<- _]|[_ ?]]%lookup_insert_Some; [by vm_compute|by rewrite lookup_empty in *]. }
  apply (rtc_l _ _ (registerSession (newCancelTarget (newCancelTarget registry0 (secret_of 5)).2 (secret_of 6)).2 1 (info 1), c3)).
  { by apply (step_register _ _ 1 (client0 6)). }
  apply rtc_once. exact (step_aim _ c3 1 (with_info (client0 6) (Some (info 1))) $"db:5432" backend_conn eq_refl).
Qed.

(** The key of the second session, which is the process id 2 and the secret 6. *)
Definition key2 : bytes := PutUint32 CancelRequestCode ++ PutUint32 2 ++ PutUint32 6.

Lemma cancel_exact_witness :
  handleCancelRequest registry2 key2 = Some ($"db:5432", forwardCancel 77 88) /\
  (CancelSession registry2 2 true).2 = Some ($"db:5432", forwardCancel 77 88) /\
  (CancelSession registry2 2 true).1.1 = true.
Proof.
  destruct (cancel_exact registry2 clients2 key2 2 true $"db:5432" (forwardCancel 77 88) registry2_reachable) as (H1 & H2 & H3).
  rewrite H1, H2, H3. split_and!; exists 1%nat, (with_aim (with_info (client0 6) (Some (info 1))) ($"db:5432", 77, 88)); by vm_compute; eauto 10.
Defined.

Lemma forwardCancel_roundtrip_witness :
  exists payload, ReadStartupMessage (forwardCancel 2 6 ++ $"x") = Ok (mkMessage x00 payload None, $"x") /\
    be_value (take 4 payload) = CancelRequestCode /\
    handleCancelRequest registry2 payload = (cancelMap registry2 !! (2, 6) ≫= fun l => targets registry2 !! l ≫= aimed_at).
Proof. apply (forwardCancel_roundtrip 2 6 $"x" registry2); lia. Defined.

Lemma Sessions_listed_witness :
  StronglySorted (fun a b => snap_ID a < snap_ID b) (Sessions registry2) /\
  forall s, s ∈ Sessions registry2 <-> exists l c si, clients2 !! l = Some c /\ c_info c = Some si /\ s = Snapshot si (Some (target_of l c)).
Proof. exact (Sessions_listed registry2 clients2 registry2_reachable). Defined.

(** [handleCancelRequest] reads the target first and sends the packet later. When the
    session's query ends in between and the connection goes to another session, the
    packet cancels that session's query: here session 1 is done before the packet is sent,
    and the connection is in use by session 0. *)
Example stale_cancel :
  let packet := handleCancelRequest registry2 key2 in
  let g := with_targets registry2 (alter clear 1%nat (targets registry2)) in
  let g := with_targets g (alter (fun ct => setFromConn ct $"db:5432" backend_conn) 0%nat (targets g)) in
  packet = Some ($"db:5432", forwardCancel 77 88) /\
  (targets g !! 0%nat ≫= aimed_at) = packet /\ (targets g !! 1%nat ≫= aimed_at) = None.
Proof. by vm_compute. Qed.

(** When the counter of process ids has wrapped around while a session was alive, a new session
    with the same secret takes over its key, and the end of the older session removes the
    key of the newer one. *)
Example wrapped_key :
  let g1 := (newCancelTarget registry0 (secret_of 5)).2 in
  let g2 := {| nextProxyPID := wrapU 32 (2 ^ 32); cancelMap := cancelMap g1; sessions := sessions g1; targets := targets g1; infos := infos g1; next := next g1 |} in
  let g3 := (newCancelTarget g2 (secret_of 5)).2 in
  cancelMap g3 !! (1, 5) = Some 1%nat /\ cancelMap (removeCancelTarget g3 0) !! (1, 5) = None.
Proof. by vm_compute. Qed.
End Examples.
