(* ===== verification/Json.v ===== *)
(** * JSON (package encoding/json)

    What the HTTP interfaces use of encoding/json: the text of a value as [Marshal] and
    [Encoder] write it, and the parser of [Unmarshal] and [Decoder]. Values are trees in which a
    number is its literal and a string its bytes. The parser has fuel for every call of one of its
    functions; twice the length of the input is enough ([parse_value_fuel]). *)

From S2P Require Import Prelude GoStrings.

Local Open Scope nat_scope.

Unset Elimination Schemes.
Inductive json :=
| JNull
| JBool (b : bool)
| JNum (lit : bytes)
| JStr (s : bytes)
| JArr (l : list json)
| JObj (l : list (bytes * json)).
Set Elimination Schemes.

Lemma json_ind (P : json -> Prop) :
  P JNull -> (forall b, P (JBool b)) -> (forall lit, P (JNum lit)) -> (forall s, P (JStr s)) ->
  (forall l, Forall P l -> P (JArr l)) -> (forall l, Forall (fun kv => P kv.2) l -> P (JObj l)) -> forall j, P j.
Proof.
  intros Hn Hb Hm Hs Ha Ho. fix IH 1. intros [| | | |l|l]; [apply Hn|apply Hb|apply Hm|apply Hs|apply Ha|apply Ho].
  - induction l as [|x l IHl]; constructor; [apply IH|exact IHl].
  - induction l as [|x l IHl]; constructor; [apply IH|exact IHl].
Qed.

(** ** UTF-8 *)

Definition cont (b : byte) : bool := byte_in x80 xbf b.

(** The number of bytes of the rune [s] starts with, 0 if that is not valid. *)
Definition rune_len (s : bytes) : nat :=
  match s with
  | [] => 0
  | c :: t =>
      if is_ascii c then 1
      else match t with
           | [] => 0
           | c1 :: t1 =>
               if byte_in xc2 xdf c then (if cont c1 then 2 else 0)
               else match t1 with
                    | [] => 0
                    | c2 :: t2 =>
                        if byte_in xe0 xef c then
                          (if byte_in (if (c =b xe0) then xa0 else x80) (if (c =b xed) then x9f else xbf) c1 && cont c2 then 3 else 0)
                        else match t2 with
                             | [] => 0
                             | c3 :: _ =>
                                 if byte_in xf0 xf4 c && byte_in (if (c =b xf0) then x90 else x80) (if (c =b xf4) then x8f else xbf) c1 && cont c2 && cont c3
                                 then 4 else 0
                             end
                    end
           end
  end.

(** [s] continues a rune with [k] bytes, and is valid from there. *)
Fixpoint valid_from (k : nat) (s : bytes) : bool :=
  match s with
  | [] => k =? 0
  | c :: s' => match k with
               | S k' => valid_from k' s'
               | O => match rune_len s with O => false | S m => valid_from m s' end
               end
  end.
Definition valid_utf8 (s : bytes) : bool := valid_from 0 s.

Definition replacement : bytes := [xef; xbf; xbd].

(** The UTF-8 encoding of a rune below [0x110000]. *)
Definition encode_rune (r : Z) : bytes :=
  let low n := zb (128 + Z.shiftr r n mod 64) in
  if (r <? 128)%Z then [zb r]
  else if (r <? 2048)%Z then [zb (192 + Z.shiftr r 6); low 0]%Z
  else if (r <? 65536)%Z then [zb (224 + Z.shiftr r 12); low 6; low 0]%Z
  else [zb (240 + Z.shiftr r 18); low 12; low 6; low 0]%Z.

(** ** Writing *)

(** A character below 128, with the escapes of HTML. *)
Definition esc1 (c : byte) : bytes :=
  if (c =b x22) || (c =b x5c) then [x5c; c]
  else if (c =b x08) then $"\b"
  else if (c =b x0c) then $"\f"
  else if (c =b x0a) then $"\n"
  else if (c =b x0d) then $"\r"
  else if (c =b x09) then $"\t"
  else if (bz c <? 32)%Z || (c =b "<") || (c =b ">") || (c =b "&") then $"\u00" ++ hex1 c
  else [c].

(** [k] bytes of a rune are left, which are copied or not. *)
Fixpoint escape (k : nat) (copy : bool) (s : bytes) : bytes :=
  match s with
  | [] => []
  | c :: s' =>
      match k with
      | S k' => (if copy then [c] else []) ++ escape k' copy s'
      | O =>
          if is_ascii c then esc1 c ++ escape 0 true s'
          else match rune_len s with
               | O => (x5c :: $"ufffd") ++ escape 0 true s'
               | S m =>
                   if HasPrefix s [xe2; x80; xa8] then (x5c :: $"u2028") ++ escape 2 false s'
                   else if HasPrefix s [xe2; x80; xa9] then (x5c :: $"u2029") ++ escape 2 false s'
                   else c :: escape m true s'
               end
      end
  end.

Definition print_string (s : bytes) : bytes := x22 :: escape 0 true s ++ [x22].

Fixpoint print (j : json) : bytes :=
  match j with
  | JNull => $"null"
  | JBool b => if b then $"true" else $"false"
  | JNum lit => lit
  | JStr s => print_string s
  | JArr l => "["%byte :: Join (print <$> l) $"," ++ $"]"
  | JObj l => "{"%byte :: Join ((fun kv : bytes * json => print_string kv.1 ++ $":" ++ print kv.2) <$> l) $"," ++ $"}"
  end.

(** ** Reading strings *)

Definition hex_val (b : byte) : option Z := match digit_val b with Some d => if (d <? 16)%Z then Some d else None | None => None end.

Definition getu4 (a b c d : byte) : option Z :=
  match hex_val a, hex_val b, hex_val c, hex_val d with
  | Some a, Some b, Some c, Some d => Some (((a * 16 + b) * 16 + c) * 16 + d)%Z
  | _, _, _, _ => None
  end.

Definition simple_escape (e : byte) : option byte :=
  if (e =b x22) || (e =b x5c) || (e =b "/") then Some e
  else if (e =b "b") then Some x08
  else if (e =b "f") then Some x0c
  else if (e =b "n") then Some x0a
  else if (e =b "r") then Some x0d
  else if (e =b "t") then Some x09
  else None.

Definition put (p : bytes) (r : option (bytes * bytes)) : option (bytes * bytes) :=
  match r with Some (v, rest) => Some (p ++ v, rest) | None => None end.

(** A string from after its opening quote: its value, and what follows the closing quote. *)
Fixpoint unquote (k : nat) (s : bytes) : option (bytes * bytes) :=
  match s with
  | [] => None
  | c :: s' =>
      match k with
      | S k' => put [c] (unquote k' s')
      | O =>
          if (c =b x22) then Some ([], s')
          else if (c =b x5c) then
            match s' with
            | [] => None
            | e :: s2 =>
                if (e =b "u") then
                  match s2 with
                  | h1 :: h2 :: h3 :: h4 :: s3 =>
                      match getu4 h1 h2 h3 h4 with
                      | None => None
                      | Some r =>
                          if (55296 <=? r)%Z && (r <? 57344)%Z then
                            match s3 with
                            | b :: u :: l1 :: l2 :: l3 :: l4 :: s4 =>
                                match (if (b =b x5c) && (u =b "u") then getu4 l1 l2 l3 l4 else None) with
                                | Some r2 =>
                                    if (r <? 56320)%Z && (56320 <=? r2)%Z && (r2 <? 57344)%Z
                                    then put (encode_rune ((r - 55296) * 1024 + (r2 - 56320) + 65536)) (unquote 0 s4)
                                    else put replacement (unquote 0 s3)
                                | None => put replacement (unquote 0 s3)
                                end
                            | _ => put replacement (unquote 0 s3)
                            end
                          else put (encode_rune r) (unquote 0 s3)
                      end
                  | _ => None
                  end
                else match simple_escape e with Some b => put [b] (unquote 0 s2) | None => None end
            end
          else if (bz c <? 32)%Z then None
          else if is_ascii c then put [c] (unquote 0 s')
          else match rune_len s with O => put replacement (unquote 0 s') | S m => put [c] (unquote m s') end
      end
  end.

(** ** Reading numbers *)

(** The states of the scanner in a number. *)
Inductive nstate := N_start | N_neg | N_zero | N_int | N_dot | N_frac | N_e | N_sign | N_exp.

Definition num_step (st : nstate) (c : byte) : option nstate :=
  let digit := byte_in "0" "9" c in
  let exponent := (c =b "e") || (c =b "E") in
  match st with
  | N_start | N_neg =>
      if (c =b "-") then match st with N_start => Some N_neg | _ => None end
      else if (c =b "0") then Some N_zero else if digit then Some N_int else None
  | N_zero => if (c =b ".") then Some N_dot else if exponent then Some N_e else None
  | N_int => if digit then Some N_int else if (c =b ".") then Some N_dot else if exponent then Some N_e else None
  | N_dot => if digit then Some N_frac else None
  | N_frac => if digit then Some N_frac else if exponent then Some N_e else None
  | N_e => if (c =b "+") || (c =b "-") then Some N_sign else if digit then Some N_exp else None
  | N_sign | N_exp => if digit then Some N_exp else None
  end.

Definition num_final (st : nstate) : bool := match st with N_zero | N_int | N_frac | N_exp => true | _ => false end.

(** The literal read, what follows it, and whether it is complete. *)
Fixpoint num_run (st : nstate) (s : bytes) : bytes * bytes * bool :=
  match s with
  | [] => ([], [], num_final st)
  | c :: s' => match num_step st c with
               | Some st' => let '(l, r, ok) := num_run st' s' in (c :: l, r, ok)
               | None => ([], s, num_final st)
               end
  end.

Definition scan_number (s : bytes) : option (bytes * bytes) :=
  let '(l, r, ok) := num_run N_start s in if ok then Some (l, r) else None.

(** ** Reading values *)

Definition is_ws (c : byte) : bool := (c =b " ") || (c =b x09) || (c =b x0a) || (c =b x0d).

Fixpoint skip_ws (s : bytes) : bytes :=
  match s with c :: s' => if is_ws c then skip_ws s' else s | [] => [] end.

Definition literal (word : bytes) (v : json) (s : bytes) : option (json * bytes) :=
  if HasPrefix s word then Some (v, drop (length word) s) else None.

(** [d] is the depth that may still be nested. *)
Fixpoint parse_value (n : nat) (d : Z) (s : bytes) {struct n} : option (json * bytes) :=
  match n with
  | O => None
  | S n =>
      match skip_ws s with
      | [] => None
      | c :: t =>
          if (c =b "{") then
            if (d <=? 0)%Z then None
            else match skip_ws t with
                 | [] => None
                 | c' :: t' => if (c' =b "}") then Some (JObj [], t')
                               else match parse_members n (d - 1) t with Some (l, r) => Some (JObj l, r) | None => None end
                 end
          else if (c =b "[") then
            if (d <=? 0)%Z then None
            else match skip_ws t with
                 | [] => None
                 | c' :: t' => if (c' =b "]") then Some (JArr [], t')
                               else match parse_elements n (d - 1) t with Some (l, r) => Some (JArr l, r) | None => None end
                 end
          else if (c =b x22) then match unquote 0 t with Some (v, r) => Some (JStr v, r) | None => None end
          else if (c =b "t") then literal $"true" (JBool true) (c :: t)
          else if (c =b "f") then literal $"false" (JBool false) (c :: t)
          else if (c =b "n") then literal $"null" JNull (c :: t)
          else match scan_number (c :: t) with Some (l, r) => Some (JNum l, r) | None => None end
      end
  end
with parse_elements (n : nat) (d : Z) (s : bytes) {struct n} : option (list json * bytes) :=
  match n with
  | O => None
  | S n =>
      match parse_value n d s with
      | None => None
      | Some (v, r) =>
          match skip_ws r with
          | [] => None
          | c :: t =>
              if (c =b ",") then match parse_elements n d t with Some (l, r') => Some (v :: l, r') | None => None end
              else if (c =b "]") then Some ([v], t)
              else None
          end
      end
  end
with parse_members (n : nat) (d : Z) (s : bytes) {struct n} : option (list (bytes * json) * bytes) :=
  match n with
  | O => None
  | S n =>
      match skip_ws s with
      | [] => None
      | c :: t =>
          if (c =b x22) then
            match unquote 0 t with
            | None => None
            | Some (k, r) =>
                match skip_ws r with
                | [] => None
                | c1 :: t1 =>
                    if (c1 =b ":") then
                      match parse_value n d t1 with
                      | None => None
                      | Some (v, r2) =>
                          match skip_ws r2 with
                          | [] => None
                          | c2 :: t2 =>
                              if (c2 =b ",") then match parse_members n d t2 with Some (l, r') => Some ((k, v) :: l, r') | None => None end
                              else if (c2 =b "}") then Some ([(k, v)], t2)
                              else None
                          end
                      end
                    else None
                end
            end
          else None
      end
  end.

Definition max_depth : Z := 10000.

Definition fuel_for (s : bytes) : nat := S (2 * length s).

(** The first value of the input, as [Decoder.Decode] reads it. *)
Definition decode_first (s : bytes) : option json := match parse_value (fuel_for s) max_depth s with Some (j, _) => Some j | None => None end.

(** The only value of the input, as [Unmarshal] wants it. *)
Definition decode_whole (s : bytes) : option json :=
  match parse_value (fuel_for s) max_depth s with
  | Some (j, r) => match skip_ws r with [] => Some j | _ => None end
  | None => None
  end.

(** ** Strings read back *)

Lemma esc1_unquote c t : is_ascii c = true -> unquote 0 (esc1 c ++ t) = put [c] (unquote 0 t).
Proof. destruct c; intros Hc; try discriminate Hc; reflexivity. Qed.

Lemma rune_len_le s : rune_len s <= length s.
Proof. unfold rune_len. repeat (case_match; cbn [length]; try lia). Qed.

(** The rune depends on its own bytes only. *)
Lemma rune_len_take s t : rune_len s <> 0 -> rune_len (take (rune_len s) s ++ t) = rune_len s.
Proof.
  unfold rune_len. destruct s as [|c s]; [done|]. destruct (is_ascii c) eqn:Ha; [cbn; by rewrite Ha|].
  destruct s as [|c1 s]; [done|]. destruct (byte_in xc2 xdf c) eqn:H2.
  { destruct (cont c1) eqn:H1; [|done]. cbn. by rewrite Ha, H2, H1. }
  destruct s as [|c2 s]; [done|]. destruct (byte_in xe0 xef c) eqn:H3.
  { match goal with |- context [if ?b then 3 else 0] => destruct b eqn:H1 end; [|done]. cbn -[byte_in cont]. by rewrite Ha, H2, H3, H1. }
  destruct s as [|c3 s]; [done|]. match goal with |- context [if ?b then 4 else 0] => destruct b eqn:H1 end; [|done]. cbn -[byte_in cont]. by rewrite Ha, H2, H3, H1.
Qed.

Lemma escape_resume copy s : escape 0 copy s = escape 0 true s.
Proof. by destruct s. Qed.

Lemma escape_copy k s : k <= length s -> escape k true s = take k s ++ escape 0 true (drop k s).
Proof. revert s. induction k as [|k IH]; intros [|c s] Hk; cbn in Hk |- *; try lia; [done..|]. by rewrite IH by lia. Qed.

Lemma valid_from_drop k s : valid_from k s = true -> k <= length s /\ valid_from 0 (drop k s) = true.
Proof.
  revert s. induction k as [|k IH]; intros [|c s] Hv; try done; [split; [cbn; lia|done]..|]. cbn in Hv. destruct (IH _ Hv) as [Hl Hd]. split; [cbn; lia|done].
Qed.

Lemma unquote_copy k p s : length p = k -> unquote k (p ++ s) = put p (unquote 0 s).
Proof.
  revert p. induction k as [|k IH]; intros [|c p] Hp; try done.
  - cbn [app]. by destruct (unquote 0 s) as [[]|].
  - cbn [app unquote]. rewrite IH by (cbn in Hp; lia). by destruct (unquote 0 s) as [[]|].
Qed.

Lemma unquote_rune c t m : is_ascii c = false -> rune_len (c :: t) = S m -> unquote 0 (c :: t) = put [c] (unquote m t).
Proof.
  intros Ha Hr. cbn [unquote]. rewrite Hr, Ha.
  pose proof (forall_bytes (fun c => is_ascii c || negb ((c =b x22) || (c =b x5c) || (bz c <? 32)%Z)) ltac:(by vm_compute) c) as Hx. cbv beta in Hx. rewrite Ha in Hx. cbn in Hx.
  by destruct (c =b x22), (c =b x5c), (bz c <? 32)%Z.
Qed.

(** Strings are read back as they were written. *)
Lemma unquote_escape s rest : valid_utf8 s = true -> unquote 0 (escape 0 true s ++ x22 :: rest) = Some (s, rest).
Proof.
  unfold valid_utf8. remember (length s) as n eqn:En. revert s En. induction (lt_wf n) as [n _ IH]. intros s -> Hv.
  destruct s as [|c s]; [done|]. cbn [escape]. destruct (is_ascii c) eqn:Ha.
  - rewrite <- app_assoc, esc1_unquote by done. cbn [valid_from] in Hv. assert (rune_len (c :: s) = 1) as E by (unfold rune_len; by rewrite Ha).
    rewrite E in Hv. by rewrite (IH (length s)) by (cbn; lia || done).
  - cbn [valid_from] in Hv. destruct (rune_len (c :: s)) as [|m] eqn:Er; [done|]. destruct (valid_from_drop _ _ Hv) as [Hm Hd].
    destruct (HasPrefix (c :: s) [xe2; x80; xa8]) eqn:P1; [|destruct (HasPrefix (c :: s) [xe2; x80; xa9]) eqn:P2].
    + apply HasPrefix_spec in P1 as [r E]. injection E as -> ->. injection Er as <-. cbn [escape app]. rewrite escape_resume.
      change (put [xe2; x80; xa8] (unquote 0 (escape 0 true r ++ x22 :: rest)) = Some ([xe2; x80; xa8] ++ r, rest)). by rewrite (IH (length r)) by (cbn; lia || done).
    + apply HasPrefix_spec in P2 as [r E]. injection E as -> ->. injection Er as <-. cbn [escape app]. rewrite escape_resume.
      change (put [xe2; x80; xa9] (unquote 0 (escape 0 true r ++ x22 :: rest)) = Some ([xe2; x80; xa9] ++ r, rest)). by rewrite (IH (length r)) by (cbn; lia || done).
    + rewrite escape_copy by done. cbn [app]. rewrite <- app_assoc. rewrite (unquote_rune _ _ m).
      * rewrite unquote_copy by (rewrite length_take; lia). rewrite (IH (length (drop m s))) by (rewrite ?length_drop; cbn; lia || done). cbn. by rewrite take_drop.
      * done.
      * pose proof (rune_len_take (c :: s) (escape 0 true (drop m s) ++ x22 :: rest)) as Ht. rewrite Er in Ht. cbn [take app] in Ht. by apply Ht.
Qed.

(** ** Values read back *)

(** What may follow a number. *)
Definition stops (rest : bytes) : bool :=
  match rest with c :: _ => negb (byte_in "0" "9" c || (c =b ".") || (c =b "e") || (c =b "E")) | [] => true end.

Lemma num_final_stop st c rest : num_final st = true -> stops (c :: rest) = true -> num_step st c = None.
Proof.
  intros Hf Hc. cbn [stops] in Hc. apply negb_true_iff in Hc. repeat (apply orb_false_iff in Hc as [Hc ?]). by destruct st; try done; cbn [num_step]; rewrite ?Hc, ?H, ?H0, ?H1.
Qed.

Lemma num_run_app st lit rest : num_run st lit = (lit, [], true) -> stops rest = true -> num_run st (lit ++ rest) = (lit, rest, true).
Proof.
  revert st. induction lit as [|c lit IH]; intros st Hr Hs; cbn [num_run app] in *.
  - injection Hr as Hf. destruct rest as [|c rest]; [by cbn; rewrite Hf|]. cbn [num_run]. by rewrite (num_final_stop _ _ _ Hf Hs), Hf.
  - destruct (num_step st c) as [st'|]; [|done]. destruct (num_run st' lit) as [[l r] ok] eqn:E. injection Hr as -> -> ->. by rewrite IH.
Qed.

Definition number_ok (lit : bytes) : bool := bool_decide (num_run N_start lit = (lit, [], true)).

(** Trees whose text denotes them. *)
Fixpoint json_ok (j : json) : bool :=
  match j with
  | JNull | JBool _ => true
  | JNum lit => number_ok lit
  | JStr s => valid_utf8 s
  | JArr l => forallb json_ok l
  | JObj l => forallb (fun kv : bytes * json => valid_utf8 kv.1 && json_ok kv.2) l
  end.

Definition max_of (l : list Z) : Z := foldr Z.max 0%Z l.

Fixpoint depth (j : json) : Z :=
  match j with
  | JArr l => 1 + max_of (depth <$> l)
  | JObj l => 1 + max_of ((fun kv : bytes * json => depth kv.2) <$> l)
  | _ => 0
  end.

(** The first character tells the kind of the value. *)
Definition starts_value (c : byte) : bool :=
  negb (is_ws c) && negb (c =b "]") && negb (c =b "}") && negb (c =b ",") && negb (c =b ":").

Lemma number_head lit : number_ok lit = true -> exists c t, lit = c :: t /\ (byte_in "0" "9" c || (c =b "-")) = true.
Proof.
  unfold number_ok. intros H%bool_decide_eq_true. destruct lit as [|c t]; [done|]. exists c, t. split; [done|]. cbn [num_run] in H. revert H. cbn [num_step].
  byte_cases; try done. destruct (byte_in "0" "9" c); [done|]. done.
Qed.

Lemma print_head j : json_ok j = true -> exists c t, print j = c :: t /\ starts_value c = true.
Proof.
  destruct j as [|[]|lit|s|l|l]; cbn [print json_ok]; intros Hok; try (by eexists _, _; split; [reflexivity|reflexivity]).
  destruct (number_head _ Hok) as (c & t & -> & Hc). exists c, t. split; [done|]. revert Hc. clear. destruct c; intros Hc; (done || discriminate Hc).
Qed.

Lemma skip_ws_value c t : starts_value c = true -> skip_ws (c :: t) = c :: t.
Proof. unfold starts_value. cbn. by destruct (is_ws c). Qed.

Lemma parse_number n d lit rest : number_ok lit = true -> stops rest = true -> parse_value (S n) d (lit ++ rest) = Some (JNum lit, rest).
Proof.
  intros Hok Hs. destruct (number_head _ Hok) as (c & t & E & Hc). cbn [parse_value].
  assert (skip_ws (lit ++ rest) = lit ++ rest /\ (c =b "{") = false /\ (c =b "[") = false /\ (c =b x22) = false /\ (c =b "t") = false /\ (c =b "f") = false /\ (c =b "n") = false)
    as (-> & E1 & E2 & E3 & E4 & E5 & E6).
  { split; [|by destruct c]. rewrite E. cbn [app]. apply skip_ws_value. by destruct c. }
  assert (scan_number (lit ++ rest) = Some (lit, rest)) as Hn.
  { unfold scan_number. by rewrite (num_run_app _ _ _ (bool_decide_eq_true_1 _ Hok) Hs). }
  subst lit. cbn [app] in *. by rewrite E1, E2, E3, E4, E5, E6, Hn.
Qed.

Lemma print_string_app s rest : print_string s ++ rest = x22 :: escape 0 true s ++ x22 :: rest.
Proof. unfold print_string. cbn [app]. by rewrite <- app_assoc. Qed.

(** [P j]: the text of [j] is read back, with the fuel of its length. *)
Definition reads_back (j : json) : Prop := forall n d rest,
  json_ok j = true -> (depth j <= d)%Z -> 2 * length (print j) < n -> stops rest = true -> parse_value n d (print j ++ rest) = Some (j, rest).

Lemma parse_elements_print l n d rest :
  l <> [] -> Forall reads_back l -> forallb json_ok l = true -> (max_of (depth <$> l) <= d)%Z -> S (2 * length (Join (print <$> l) $",")) < n ->
  parse_elements n d (Join (print <$> l) $"," ++ "]"%byte :: rest) = Some (l, rest).
Proof.
  revert n. induction l as [|j l IH]; intros n Hne Hl Hok Hd Hn; [done|]. inversion_clear Hl as [|? ? Hj Hl']. cbn in Hok. apply andb_true_iff in Hok as [Hok Hok']. cbn in Hd.
  destruct n as [|n]; [lia|]. cbn [parse_elements].
  destruct l as [|j' l].
  - cbn [fmap list_fmap Join] in *. by rewrite (Hj n d ("]"%byte :: rest)) by (done || lia).
  - assert (Join (print <$> j :: j' :: l) $"," = print j ++ "," %byte :: Join (print <$> j' :: l) $",") as E by done. rewrite E in *. rewrite length_app in Hn. cbn [length] in Hn.
    rewrite <- app_assoc. cbn [app]. rewrite (Hj n d) by (done || lia).
    change (skip_ws (","%byte :: Join (print <$> j' :: l) $"," ++ "]"%byte :: rest)) with (","%byte :: Join (print <$> j' :: l) $"," ++ "]"%byte :: rest).
    cbv iota. rewrite byte_eqb_refl, (IH n) by (done || (cbn in Hd |- *; lia) || lia). done.
Qed.

Definition print_member (kv : bytes * json) : bytes := print_string kv.1 ++ $":" ++ print kv.2.

Lemma parse_members_print l n d rest :
  l <> [] -> Forall (fun kv => reads_back kv.2) l -> forallb (fun kv : bytes * json => valid_utf8 kv.1 && json_ok kv.2) l = true ->
  (max_of ((fun kv : bytes * json => depth kv.2) <$> l) <= d)%Z -> S (2 * length (Join (print_member <$> l) $",")) < n ->
  parse_members n d (Join (print_member <$> l) $"," ++ "}"%byte :: rest) = Some (l, rest).
Proof.
  revert n. induction l as [|[k j] l IH]; intros n Hne Hl Hok Hd Hn; [done|]. inversion_clear Hl as [|? ? Hj Hl']. cbn in Hok. apply andb_true_iff in Hok as [Hok Hok'].
  apply andb_true_iff in Hok as [Hk Hok]. cbn in Hd, Hj. destruct n as [|n]; [lia|].
  assert (forall more, length (print j) * 2 < n -> (depth j <= d)%Z -> stops more = true -> parse_members (S n) d (print_member (k, j) ++ more) =
    match skip_ws more with
    | [] => None
    | c2 :: t2 => if (c2 =b ",") then match parse_members n d t2 with Some (l, r') => Some ((k, j) :: l, r') | None => None end
                  else if (c2 =b "}") then Some ([(k, j)], t2) else None
    end) as Hmember.
  { intros more Hlen Hdj Hm. unfold print_member. cbn [fst snd]. rewrite <- !app_assoc, print_string_app. cbn [parse_members].
    change (skip_ws (x22 :: ?t)) with (x22 :: t). cbv iota. rewrite byte_eqb_refl, unquote_escape by done.
    change (skip_ws ($":" ++ print j ++ more)) with (":"%byte :: print j ++ more). cbv iota. rewrite byte_eqb_refl, (Hj n d more) by (done || lia). done. }
  destruct l as [|[k' j'] l].
  - cbn [fmap list_fmap Join] in *. unfold print_member in Hn. cbn [fst snd] in Hn. rewrite !length_app in Hn. rewrite Hmember by (done || lia). done.
  - assert (Join (print_member <$> (k, j) :: (k', j') :: l) $"," = print_member (k, j) ++ ","%byte :: Join (print_member <$> (k', j') :: l) $",") as E by done.
    rewrite E in *. rewrite length_app in Hn. cbn [length] in Hn. rewrite <- app_assoc. cbn [app].
    assert (length (print j) <= length (print_member (k, j))) as Hpj by (unfold print_member; cbn [fst snd]; rewrite !length_app; lia).
    rewrite Hmember; [|lia|lia|done].
    change (skip_ws (","%byte :: ?t)) with (","%byte :: t). cbv iota. rewrite byte_eqb_refl, (IH n) by (done || (cbn in Hd |- *; lia) || lia). done.
Qed.

Lemma max_of_nonneg l : (0 <= max_of l)%Z.
Proof. induction l as [|x l IH]; [done|]. change (0 <= Z.max x (max_of l))%Z. lia. Qed.

Lemma parse_print j : reads_back j.
Proof.
  induction j as [|b|lit|s|l IH|l IH] using json_ind; intros n d rest Hok Hd Hn Hs; (destruct n as [|n]; [lia|]).
  - done.
  - by destruct b.
  - by apply parse_number.
  - cbn [print json_ok] in *. rewrite print_string_app. cbn [parse_value]. change (skip_ws (x22 :: ?t)) with (x22 :: t).
    cbv iota. change (x22 =b "{") with false. change (x22 =b "[") with false. cbv iota. by rewrite byte_eqb_refl, unquote_escape.
  - cbn [print json_ok depth] in *. pose proof (max_of_nonneg (depth <$> l)). cbn [app parse_value]. change (skip_ws ("["%byte :: ?t)) with ("["%byte :: t).
    cbv iota. change ("["%byte =b "{") with false. cbv iota. rewrite byte_eqb_refl, (proj2 (Z.leb_gt d 0)) by lia. rewrite <- app_assoc. change ($"]" ++ rest) with ("]"%byte :: rest).
    cbn [length] in Hn. rewrite length_app in Hn. destruct l as [|j l]; [done|].
    assert (exists c t, Join (print <$> j :: l) $"," ++ "]"%byte :: rest = c :: t /\ starts_value c = true) as (c & t & E & Hc).
    { cbn in Hok. apply andb_true_iff in Hok as [Hj _]. destruct (print_head _ Hj) as (c & t & E & Hc). destruct l as [|j' l]; eexists c, _; (split; [|done]); cbn; by rewrite E. }
    pose proof (parse_elements_print (j :: l) n (d - 1) rest ltac:(done) IH Hok ltac:(lia) ltac:(lia)) as He. rewrite E in He |- *.
    rewrite skip_ws_value by done. unfold starts_value in Hc. destruct (c =b "]"); [by rewrite !andb_false_r in Hc|]. cbv iota. by rewrite He.
  - cbn [json_ok depth] in *. change (print (JObj l)) with ("{"%byte :: Join (print_member <$> l) $"," ++ $"}") in *.
    pose proof (max_of_nonneg ((fun kv : bytes * json => depth kv.2) <$> l)). cbn [app parse_value]. change (skip_ws ("{"%byte :: ?t)) with ("{"%byte :: t).
    cbv iota. rewrite byte_eqb_refl, (proj2 (Z.leb_gt d 0)) by lia. rewrite <- app_assoc. change ($"}" ++ rest) with ("}"%byte :: rest).
    cbn [length] in Hn. rewrite length_app in Hn. destruct l as [|[k j] l]; [done|].
    assert (exists t, Join (print_member <$> (k, j) :: l) $"," ++ "}"%byte :: rest = x22 :: t) as (t & E) by (destruct l; by eexists).
    pose proof (parse_members_print ((k, j) :: l) n (d - 1) rest ltac:(done) IH Hok ltac:(lia) ltac:(lia)) as He. rewrite E in He |- *.
    change (skip_ws (x22 :: t)) with (x22 :: t). cbv iota. change (x22 =b "}") with false. cbv iota. by rewrite He.
Qed.

(** ** The fuel is enough *)

Lemma skip_ws_le s : length (skip_ws s) <= length s.
Proof. induction s as [|c s IH]; [done|]. cbn [skip_ws]. destruct (is_ws c); cbn [length]; lia. Qed.

Lemma unquote_shorter k s v r : unquote k s = Some (v, r) -> length r < length s.
Proof.
  remember (length s) as n eqn:En. revert k s v r En. induction (lt_wf n) as [n _ IH]. intros k s v r -> E.
  assert (forall p k' s', length s' < length s -> put p (unquote k' s') = Some (v, r) -> length r < length s) as Hput.
  { intros p k' s' Hl Hp. destruct (unquote k' s') as [[v' r']|] eqn:Eu; [|done]. injection Hp as _ ->. specialize (IH _ Hl k' s' v' r eq_refl Eu). lia. }
  destruct s as [|c s']; [done|]. cbn [unquote] in E.
  repeat (case_match; simplify_eq); try (by cbn; lia); (eapply Hput; [|exact E]; cbn; lia).
Qed.

Lemma scan_number_shorter s l r : scan_number s = Some (l, r) -> length r < length s.
Proof.
  unfold scan_number. destruct (num_run N_start s) as [[l' r'] ok] eqn:E. destruct ok; [|done]. intros [= -> ->].
  assert (forall st s l r ok, num_run st s = (l, r, ok) -> length r <= length s) as Hle.
  { intros st s0. revert st. induction s0 as [|c s0 IH]; intros st l0 r0 ok E0; cbn [num_run] in E0; [by simplify_eq|].
    destruct (num_step st c) as [st'|]; [|by simplify_eq]. destruct (num_run st' s0) as [[l1 r1] ok1] eqn:E1. simplify_eq. specialize (IH _ _ _ _ E1). cbn. lia. }
  destruct s as [|c s]; [done|]. cbn [num_run] in E. destruct (num_step N_start c) as [st'|]; [|done].
  destruct (num_run st' s) as [[l1 r1] ok1] eqn:E1. simplify_eq. specialize (Hle _ _ _ _ _ E1). cbn. lia.
Qed.

Lemma literal_shorter word v s j r : word <> [] -> literal word v s = Some (j, r) -> length r < length s.
Proof.
  unfold literal. intros Hw. destruct (HasPrefix s word) eqn:Hp; [|done]. intros [= _ <-]. apply HasPrefix_length in Hp. rewrite length_drop.
  destruct word; [done|]. cbn [length] in *. lia.
Qed.

Lemma parse_shorter n :
  (forall d s v r, parse_value n d s = Some (v, r) -> length r < length s) /\
  (forall d s l r, parse_elements n d s = Some (l, r) -> length r < length s) /\
  (forall d s l r, parse_members n d s = Some (l, r) -> length r < length s).
Proof.
  induction n as [|n (IHv & IHe & IHm)]; [done|]. split_and!.
  - intros d s v r E. cbn [parse_value] in E. pose proof (skip_ws_le s) as Hs. destruct (skip_ws s) as [|c t]; [done|]. cbn [length] in Hs. pose proof (skip_ws_le t) as Ht.
    repeat (case_match; simplify_eq);
      repeat match goal with
      | H : parse_members _ _ _ = Some _ |- _ => apply IHm in H
      | H : parse_elements _ _ _ = Some _ |- _ => apply IHe in H
      | H : unquote _ _ = Some _ |- _ => apply unquote_shorter in H
      | H : scan_number _ = Some _ |- _ => apply scan_number_shorter in H
      | H : literal _ _ _ = Some _ |- _ => apply literal_shorter in H; [|done]
      | H : skip_ws _ = _ :: _ |- _ => rewrite H in *
      end; cbn [length] in *; lia.
  - intros d s l r E. cbn [parse_elements] in E. destruct (parse_value n d s) as [[v r1]|] eqn:Ev; [|done]. apply IHv in Ev. pose proof (skip_ws_le r1) as Hs.
    destruct (skip_ws r1) as [|c t]; [done|]. cbn [length] in Hs. repeat (case_match; simplify_eq); try lia.
    match goal with H : parse_elements _ _ _ = Some _ |- _ => apply IHe in H end. lia.
  - intros d s l r E. cbn [parse_members] in E. pose proof (skip_ws_le s) as Hs. destruct (skip_ws s) as [|c t]; [done|]. cbn [length] in Hs. destruct (c =b x22); [|done].
    destruct (unquote 0 t) as [[k r1]|] eqn:Eu; [|done]. apply unquote_shorter in Eu. pose proof (skip_ws_le r1) as Hs1. destruct (skip_ws r1) as [|c1 t1]; [done|]. cbn [length] in Hs1.
    destruct (c1 =b ":"); [|done]. destruct (parse_value n d t1) as [[v r2]|] eqn:Ev; [|done]. apply IHv in Ev. pose proof (skip_ws_le r2) as Hs2.
    destruct (skip_ws r2) as [|c2 t2]; [done|]. cbn [length] in Hs2. repeat (case_match; simplify_eq); try lia.
    match goal with H : parse_members _ _ _ = Some _ |- _ => apply IHm in H end. lia.
Qed.

Lemma parse_fuel n : forall m,
  (forall d s, 2 * length s < n -> 2 * length s < m -> parse_value n d s = parse_value m d s) /\
  (forall d s, S (2 * length s) < n -> S (2 * length s) < m -> parse_elements n d s = parse_elements m d s) /\
  (forall d s, S (2 * length s) < n -> S (2 * length s) < m -> parse_members n d s = parse_members m d s).
Proof.
  induction n as [|n IH]; [intros m; split_and!; intros; lia|]. intros [|m]; [split_and!; intros; lia|]. destruct (IH m) as (IHv & IHe & IHm). split_and!.
  - intros d s Hn Hm. cbn [parse_value]. pose proof (skip_ws_le s) as Hs. destruct (skip_ws s) as [|c t]; [done|]. cbn [length] in Hs.
    by rewrite IHe, IHm by lia.
  - intros d s Hn Hm. cbn [parse_elements]. rewrite IHv by lia. destruct (parse_value m d s) as [[v r]|] eqn:Ev; [|done]. apply parse_shorter in Ev. pose proof (skip_ws_le r) as Hr.
    destruct (skip_ws r) as [|c t]; [done|]. cbn [length] in Hr. by rewrite IHe by lia.
  - intros d s Hn Hm. cbn [parse_members]. pose proof (skip_ws_le s) as Hs. destruct (skip_ws s) as [|c t]; [done|]. cbn [length] in Hs. destruct (c =b x22); [|done].
    destruct (unquote 0 t) as [[k r]|] eqn:Eu; [|done]. apply unquote_shorter in Eu. pose proof (skip_ws_le r) as Hr. destruct (skip_ws r) as [|c1 t1]; [done|]. cbn [length] in Hr.
    destruct (c1 =b ":"); [|done]. rewrite IHv by lia. destruct (parse_value m d t1) as [[v r2]|] eqn:Ev; [|done]. apply parse_shorter in Ev. pose proof (skip_ws_le r2) as Hr2.
    destruct (skip_ws r2) as [|c2 t2]; [done|]. cbn [length] in Hr2. by rewrite IHm by lia.
Qed.

(** More fuel than [fuel_for] does not change the result. *)
Lemma parse_value_fuel n d s : fuel_for s <= n -> parse_value n d s = parse_value (fuel_for s) d s.
Proof. intros Hn. unfold fuel_for in *. apply parse_fuel; lia. Qed.

(** JSON texts denote their values. The text [Marshal] writes for a value whose strings are
    valid UTF-8 is read by [Unmarshal] as the same value: every escape, whether of a control character,
    of a quote, of HTML or of a line separator, is undone, nesting and order are kept, and a [Decoder]
    reads the same value whatever follows it on the stream. *)
Lemma json_roundtrip (j : json) (rest : bytes) :
  json_ok j = true -> (depth j <= max_depth)%Z -> stops rest = true ->
  decode_whole (print j) = Some j /\ decode_first (print j ++ rest) = Some j.
Proof.
  intros Hok Hd Hs. unfold decode_whole, decode_first, fuel_for. split.
  - rewrite <- (app_nil_r (print j)) at 2. by rewrite (parse_print j) by (done || lia).
  - rewrite (parse_print j); [done..| |done]. rewrite length_app. lia.
Qed.

Module Examples.
(** [{"sql": "SELECT '<é>\n'", "n": [-1.5e3, null]}] *)
Definition tree0 : json :=
  JObj [($"sql", JStr ($"SELECT '<" ++ [xc3; xa9; x3e; x0a] ++ $"'")); ($"n", JArr [JNum $"-1.5e3"; JNull])].

Lemma tree_read_back : decode_whole (print tree0) = Some tree0 /\ decode_first (print tree0 ++ $" trailing") = Some tree0.
Proof. apply (json_roundtrip tree0 $" trailing"); [by vm_compute|by vm_compute|by vm_compute]. Qed.

(** A byte that is not UTF-8 is replaced. *)
Example invalid_replaced : decode_whole (print (JStr [xff])) = Some (JStr replacement).
Proof. by vm_compute. Qed.
End Examples.
