(* ===== verification/Samples.v ===== *)
(** * Latency samples

    What the digest and the mirror share: buffers that keep the last samples, percentiles
    of sorted samples, and milliseconds as float64. *)

From stdpp Require Import sorting.
From S2P Require Import Prelude Float64.
From Stdlib Require Import Floats.SpecFloat.

Open Scope Z_scope.

(** [int(x)] for a float that is in the range of int. *)
Definition int_of (x : float64) : Z :=
  match x with
  | S754_finite s m e =>
      let v := if 0 <=? e then Zpos m * 2 ^ e else Zpos m / 2 ^ (- e) in
      if s then - v else v
  | _ => 0
  end.

(** [float64(d.Microseconds()) / 1000.0]. *)
Definition durationMs (d : Duration) : float64 := f_div (f_of_Z (Z.quot d 1000)) (f_of_Z 1000).

(** The constants 0.50 and 0.99. *)
Definition f_p50 : float64 := f_half.
Definition f_p99 : float64 := f_div (f_of_Z 99) (f_of_Z 100).

Definition percentile_index (n : nat) (p : float64) : Z := int_of (f_mul (f_of_Z (Z.of_nat n - 1)) p).

(** Indexing out of range panics. *)
Definition percentile (sorted : list Duration) (p : float64) : res unit Duration :=
  match sorted with
  | [] => Ok 0
  | _ => let idx := percentile_index (length sorted) p in
         if idx <? 0 then Panic else match sorted !! Z.to_nat idx with Some d => Ok d | None => Panic end
  end.

Definition sort_durs (l : list Duration) : list Duration := merge_sort Z.le l.

(** ** A buffer of the last [max] samples *)

Record ring := { samples : list Duration; idx : nat }.

Definition empty_ring : ring := {| samples := []; idx := 0 |}.

(** Appending while there is room, then overwriting the oldest. An index out of range panics;
    [max] is positive. *)
Definition push (max : nat) (r : ring) (d : Duration) : res unit ring :=
  if (length (samples r) <? max)%nat then Ok {| samples := samples r ++ [d]; idx := idx r |}
  else if (idx r <? length (samples r))%nat then Ok {| samples := <[idx r := d]> (samples r); idx := S (idx r) mod max |}
  else Panic.

Fixpoint pushes (max : nat) (r : ring) (ds : list Duration) : res unit ring :=
  match ds with [] => Ok r | d :: ds' => r' <-? push max r d ; pushes max r' ds' end.

(** The last [n] elements. *)
Definition lastn {A} (n : nat) (l : list A) : list A := drop (length l - n) l.

(** What the buffer holds after the samples [h]: all of them while there is room, then the
    last [max], the oldest at the index. *)
Definition ring_holds (max : nat) (r : ring) (h : list Duration) : Prop :=
  if decide (length h < max)%nat then samples r = h /\ idx r = 0%nat
  else length (samples r) = max /\ (idx r < max)%nat /\ drop (idx r) (samples r) ++ take (idx r) (samples r) = lastn max h.

Lemma push_holds max r h d : (0 < max)%nat -> ring_holds max r h -> exists r', push max r d = Ok r' /\ ring_holds max r' (h ++ [d]).
Proof.
  intros Hmax. unfold ring_holds at 1, push. destruct (decide _) as [Hlt|Hge].
  - intros [-> E]. rewrite (proj2 (Nat.ltb_lt _ _)) by done. eexists. split; [done|]. unfold ring_holds. rewrite length_app. cbn [length samples idx].
    destruct (decide _); [done|]. rewrite E. assert (length h + 1 = max)%nat as Hm by lia. rewrite length_app. cbn [length].
    split_and!; [lia|lia|]. rewrite drop_0, take_0, app_nil_r. unfold lastn. rewrite length_app. cbn [length]. by replace (length h + 1 - max)%nat with 0%nat by lia.
  - intros (Hl & Hi & Hd). rewrite (proj2 (Nat.ltb_ge _ _)) by lia. rewrite (proj2 (Nat.ltb_lt _ _)) by lia. eexists. split; [done|].
    unfold ring_holds. rewrite length_app. cbn [length samples idx]. rewrite decide_False by lia. rewrite length_insert.
    set (s := samples r) in *. set (i := idx r) in *.
    assert (lastn max (h ++ [d]) = drop 1 (lastn max h) ++ [d]) as Hlast.
    { unfold lastn. rewrite length_app. cbn [length]. replace (length h + 1 - max)%nat with (length h - max + 1)%nat by lia.
      rewrite drop_app_le by lia. by rewrite drop_drop. }
    rewrite Hlast, <- Hd. assert (is_Some (s !! i)) as [x Hx] by (apply lookup_lt_is_Some; lia).
    rewrite (drop_S _ _ _ Hx). cbn [app drop]. split; [done|]. rewrite (insert_take_drop s i d) by lia.
    assert (length (take i s) = i) as Hti by (rewrite length_take; lia). destruct (decide (S i = max)) as [E|Hne].
    + rewrite <- E, Nat.Div0.mod_same. split; [lia|]. rewrite drop_0, take_0, app_nil_r. by rewrite (drop_ge s (S i)) by lia.
    + rewrite Nat.mod_small by lia. split; [lia|]. rewrite cons_middle, app_assoc, drop_app_length', take_app_length' by (rewrite length_app, Hti; cbn; lia).
      by rewrite app_assoc.
Qed.

Lemma pushes_holds max ds r h : (0 < max)%nat -> ring_holds max r h -> exists r', pushes max r ds = Ok r' /\ ring_holds max r' (h ++ ds).
Proof.
  intros Hmax. revert r h. induction ds as [|d ds IH]; intros r h Hr; [exists r; by rewrite app_nil_r|]. cbn [pushes].
  destruct (push_holds max r h d Hmax Hr) as (r1 & -> & H1). cbn [res_bind]. destruct (IH r1 _ H1) as (r2 & E & H2). exists r2. by rewrite <- app_assoc in H2.
Qed.

Lemma empty_ring_holds max : (0 < max)%nat -> ring_holds max empty_ring [].
Proof. intros. unfold ring_holds. by rewrite decide_True by (cbn; lia). Qed.

(** The samples of a buffer are the last ones, in some order. *)
Lemma ring_samples max r h : ring_holds max r h -> samples r ≡ₚ lastn max h.
Proof.
  unfold ring_holds. destruct (decide _) as [Hlt|Hge].
  - intros [-> _]. unfold lastn. by replace (length h - max)%nat with 0%nat by lia.
  - intros (_ & _ & <-). rewrite <- (take_drop (idx r) (samples r)) at 1. apply Permutation_app_comm.
Qed.

(** ** Percentile indexes are in range *)

Lemma int_of_units x : nonneg x -> valid x -> int_of x = units x / one_unit.
Proof.
  destruct x as [s|s| |[] m e]; try done. intros _ Hv. destruct (valid_bounds m e Hv) as [He _]. unfold int_of, units, one_unit.
  destruct (Z.leb_spec 0 e).
  - rewrite Z.pow_add_r, Z.mul_assoc by lia. by rewrite Z.div_mul by (by apply Z.pow_nonzero).
  - replace 1074 with (- e + (e + 1074)) at 2 by lia. rewrite (Z.pow_add_r 2 (- e)) by lia.
    rewrite Z.div_mul_cancel_r; [done|apply Z.pow_nonzero; lia..].
Qed.

(** A rounded mantissa is at most one unit above the exact value. *)
Lemma round_upper m e :
  0 < m -> e <= fexp prec emax (Zdigits2 m + e) -> -1074 < fexp prec emax (Zdigits2 m + e) <= 900 ->
  let x := binary_round_aux prec emax false m e loc_Exact in
  let e1 := fexp prec emax (Zdigits2 m + e) in
  nonneg x /\ valid x /\ units x <= (m / 2 ^ (e1 - e) + 1) * 2 ^ (e1 + 1074) /\ 2 ^ 52 <= m / 2 ^ (e1 - e).
Proof.
  intros Hm Hle He1. destruct (binary_round_aux_good m e loc_Exact ltac:(lia) Hle) as [[Hv _] Hs]. specialize (Hs ltac:(lia)).
  cbv zeta. assert (nonneg (binary_round_aux prec emax false m e loc_Exact)) as Hn by (by destruct (binary_round_aux _ _ _ _ _ _) as [| | |[]]).
  pose proof (kept_digits m e ltac:(lia) Hle) as [Hk Hk']. cbv zeta in Hk, Hk'. split_and!; [done..| |by apply Hk'; lia].
  revert Hv Hn. unfold binary_round_aux. destruct (shr_fexp_m m e loc_Exact ltac:(lia) Hle) as (r & -> & Hr). cbv zeta in Hr.
  set (e1 := fexp prec emax (Zdigits2 m + e)) in *. rewrite <- Hr in Hk, Hk' |- *. specialize (Hk' ltac:(lia)).
  set (m1 := round_nearest_even (shr_m r) (loc_of_shr_record r)).
  assert (shr_m r <= m1 <= shr_m r + 1) as Hm1 by (subst m1; unfold round_nearest_even; repeat case_match; lia). clearbody m1.
  assert (e1 <= fexp prec emax (Zdigits2 m1 + e1)) as Hle2.
  { rewrite fexp_eq. destruct (digits_bounds m1 ltac:(lia)) as [Hd Hb]. assert (53 <= Zdigits2 m1); [|lia].
    destruct (Z.le_gt_cases 53 (Zdigits2 m1)); [done|]. assert (2 ^ Zdigits2 m1 <= 2 ^ 52) by (apply Z.pow_le_mono_r; lia). lia. }
  destruct (shr_fexp_m m1 e1 loc_Exact ltac:(lia) Hle2) as (r2 & -> & Hr2). cbv zeta in Hr2. set (e2 := fexp prec emax (Zdigits2 m1 + e1)) in *.
  intros _ _. assert (shr_m r2 * 2 ^ (e2 + 1074) <= m1 * 2 ^ (e1 + 1074)) as Hu.
  { rewrite Hr2. replace (e2 + 1074) with ((e2 - e1) + (e1 + 1074)) by lia. rewrite Z.pow_add_r, Z.mul_assoc by lia.
    apply Z.mul_le_mono_nonneg_r; [apply Z.pow_nonneg; lia|]. rewrite Z.mul_comm. apply Z.mul_div_le, Z.pow_pos_nonneg; lia. }
  assert (0 < 2 ^ (e1 + 1074)) as Hp by (apply Z.pow_pos_nonneg; lia).
  destruct (shr_m r2) as [|p|p]; [cbn; nia| |cbn; nia]. case_match; [|cbn; nia]. cbn [units]. nia.
Qed.

(** Multiplying by a number [y] that is below one by more than rounding can add. *)
Lemma mul_below n my ey :
  0 < n < 2 ^ 53 -> let y := S754_finite false my ey in valid y -> -100 <= ey < 0 -> 2 ^ (-1 - ey) <= Zpos my -> Zpos my * (2 ^ 52 + 1) <= 2 ^ (52 - ey) ->
  nonneg (f_mul (f_of_Z n) y) /\ valid (f_mul (f_of_Z n) y) /\ units (f_mul (f_of_Z n) y) <= n * one_unit.
Proof.
  intros Hn y Hy Hey Hhalf Hmy. destruct (f_of_Z_exact n ltac:(lia)) as (Hv & Hnn & Hu). destruct (f_of_Z n) as [s|s| |[] mx ex] eqn:Ef; try done.
  { cbn in Hu. unfold one_unit in Hu. assert (0 < 2 ^ 1074) by by apply Z.pow_pos_nonneg. nia. }
  destruct (valid_bounds mx ex Hv) as (Hex & Hmx & Hmx'). cbn [units] in Hu. unfold one_unit in *.
  assert (ex <= 0) as Hex0.
  { destruct (Z.le_gt_cases ex 0); [done|]. specialize (Hmx' ltac:(lia)).
    assert (2 ^ 52 * 2 ^ (ex + 1074) <= n * 2 ^ 1074) by (rewrite <- Hu; apply Z.mul_le_mono_nonneg_r; [apply Z.pow_nonneg|]; lia).
    replace (ex + 1074) with (ex + 1074) in * by lia. rewrite (Z.pow_add_r 2 ex 1074) in * by lia.
    assert (0 < 2 ^ 1074) by by apply Z.pow_pos_nonneg. assert (2 ^ 1 <= 2 ^ ex) by (apply Z.pow_le_mono_r; lia). nia. }
  assert (Zpos mx = n * 2 ^ (- ex)) as Hmxn.
  { assert (0 < 2 ^ (ex + 1074)) as Hpos by (apply Z.pow_pos_nonneg; lia). apply (Z.mul_reg_r _ _ (2 ^ (ex + 1074))); [lia|]. rewrite Hu, <- Z.mul_assoc, <- Z.pow_add_r by lia.
    f_equal. f_equal. lia. }
  assert (-53 < ex) as Hex53.
  { destruct (Z.lt_ge_cases (-53) ex); [done|]. assert (2 ^ 53 <= 2 ^ (- ex)) by (apply Z.pow_le_mono_r; lia). nia. }
  cbn [f_mul SFmul]. change (xorb false false) with false.
  set (M := Zpos (mx * my)). assert (M = Zpos mx * Zpos my) as HM by reflexivity.
  destruct (finite_spec mx ex) as [Hsx _]. destruct (Hsx Hv) as [Hcx _]. destruct (finite_spec my ey) as [Hsy _]. destruct (Hsy Hy) as [Hcy _].
  pose proof (digits_mul (Zpos mx) (Zpos my) eq_refl eq_refl) as Hdm. cbn [Zdigits2] in Hdm. rewrite <- HM in Hdm.
  assert (ex + ey <= fexp prec emax (Zdigits2 M + (ex + ey))) as Hle by (rewrite fexp_eq; lia).
  destruct (digits_bounds M ltac:(lia)) as [Hd Hb].
  (* the product is at least one half and below 2^53 *)
  assert (2 ^ (- 1 - ex - ey) <= M) as Hlow.
  { rewrite HM, Hmxn. replace (-1 - ex - ey) with ((- ex) + (-1 - ey)) by lia. rewrite Z.pow_add_r by lia.
    assert (0 < 2 ^ (- ex)) by (apply Z.pow_pos_nonneg; lia). assert (0 < 2 ^ (-1 - ey)) by (apply Z.pow_pos_nonneg; lia). nia. }
  assert (0 <= Zdigits2 M + (ex + ey) <= 106) as Hdig.
  { assert (2 ^ (-1 - ex - ey) < 2 ^ Zdigits2 M) as Hlt by lia. apply Z.pow_lt_mono_r_iff in Hlt; [|lia..].
    assert (Zdigits2 M <= 106); [|lia]. apply digits_le; [|lia]. destruct (valid_bounds my ey Hy) as (_ & Hmy53 & _).
    change (2 ^ 106) with (2 ^ 53 * 2 ^ 53). nia. }
  destruct (round_upper M (ex + ey) ltac:(lia) Hle ltac:(rewrite fexp_eq; lia)) as (H1 & H2 & H3 & H4).
  split_and!; [exact H1|exact H2|]. eapply Z.le_trans; [exact H3|].
  set (e1 := fexp prec emax (Zdigits2 M + (ex + ey))) in *. set (Q := M / 2 ^ (e1 - (ex + ey))) in *.
  assert (0 <= e1 - (ex + ey)) as Hk0 by lia. assert (Q * 2 ^ (e1 - (ex + ey)) <= M) as HQ by (rewrite Z.mul_comm; apply Z.mul_div_le, Z.pow_pos_nonneg; lia).
  assert (-53 <= e1) as He1 by (unfold e1; rewrite fexp_eq; lia).
  set (P := 2 ^ (ex + ey + 1074)). assert (0 < P) as HP by (apply Z.pow_pos_nonneg; lia).
  assert (2 ^ (e1 + 1074) = 2 ^ (e1 - (ex + ey)) * P) as E1 by (unfold P; rewrite <- Z.pow_add_r by lia; f_equal; lia).
  assert (n * 2 ^ 1074 * 2 ^ 52 = Zpos mx * 2 ^ (52 - ey) * P) as E2.
  { rewrite <- Hu. unfold P. rewrite <- !Z.mul_assoc, <- !Z.pow_add_r by lia. f_equal. f_equal. lia. }
  rewrite E1. apply (Z.mul_le_mono_pos_r _ _ (2 ^ 52)); [done|]. rewrite E2.
  set (K := 2 ^ (e1 - (ex + ey))) in *. assert (0 < K) as HK by (apply Z.pow_pos_nonneg; lia).
  assert ((Q + 1) * 2 ^ 52 <= Q * (2 ^ 52 + 1)) as S1 by lia.
  assert ((Q + 1) * 2 ^ 52 * K <= Zpos mx * 2 ^ (52 - ey)) as S2; [|nia].
  transitivity (Q * (2 ^ 52 + 1) * K); [nia|]. transitivity (M * (2 ^ 52 + 1)); [nia|]. rewrite HM. nia.
Qed.

Lemma percentile_in_range n my ey :
  (0 < n)%nat -> Z.of_nat n < 2 ^ 53 -> let p := S754_finite false my ey in
  valid p -> -100 <= ey < 0 -> 2 ^ (-1 - ey) <= Zpos my -> Zpos my * (2 ^ 52 + 1) <= 2 ^ (52 - ey) ->
  0 <= percentile_index n p < Z.of_nat n.
Proof.
  intros Hn Hmax p Hv He Hh Hm. unfold percentile_index. destruct (decide (n = 1%nat)) as [->|Hne]; [by cbn|].
  destruct (mul_below (Z.of_nat n - 1) my ey ltac:(lia) Hv He Hh Hm) as (H1 & H2 & H3). fold p in H1, H2, H3.
  assert (0 < one_unit) by by apply Z.pow_pos_nonneg.
  rewrite int_of_units by done. split; [apply Z.div_pos; [apply units_nonneg|done]|].
  eapply Z.le_lt_trans; [apply Z.div_le_upper_bound; [done|rewrite Z.mul_comm; exact H3]|]. lia.
Qed.

Lemma percentile_Ok l p : p = f_p50 \/ p = f_p99 -> l <> [] -> Z.of_nat (length l) < 2 ^ 53 ->
  exists d, percentile (sort_durs l) p = Ok d /\ d ∈ l.
Proof.
  intros Hp Hne Hl. assert (sort_durs l ≡ₚ l) as Hperm by apply merge_sort_Permutation.
  assert (length (sort_durs l) = length l) as Hlen by (by rewrite Hperm). unfold percentile.
  destruct (sort_durs l) as [|x s] eqn:E; [by destruct l|]. rewrite <- E in *.
  assert (0 <= percentile_index (length (sort_durs l)) p < Z.of_nat (length (sort_durs l))) as Hr.
  { assert (0 < length (sort_durs l))%nat as H0 by (rewrite E; cbn; lia). rewrite <- Hlen in Hl.
    destruct Hp as [->| ->]; (apply percentile_in_range; [done|done|by vm_compute|by vm_compute|by vm_compute|by vm_compute]). }
  rewrite (proj2 (Z.ltb_ge _ _)) by lia.
  destruct (sort_durs l !! Z.to_nat _) as [d|] eqn:Ed; [|apply lookup_ge_None in Ed; lia]. exists d. split; [done|].
  rewrite <- Hperm. by eapply list_elem_of_lookup_2.
Qed.

(** ** Statistics per pattern, for a bounded number of patterns *)

Section Patterns.
Context {P E : Type} (fresh : P) (rec : P -> E -> res unit P) (max : nat).

(** A pattern that is not tracked is dropped when there are enough of them. The lookup and the
    creation are repeated under the write lock, which makes this one step. *)
Definition track (m : gmap bytes P) (key : bytes) (e : E) : res unit (gmap bytes P) :=
  match m !! key with
  | Some ps => ps' <-? rec ps e ; Ok (<[key := ps']> m)
  | None => if (max <=? size m)%nat then Ok m else ps' <-? rec fresh e ; Ok (<[key := ps']> m)
  end.

Fixpoint tracks (m : gmap bytes P) (h : list (bytes * E)) : res unit (gmap bytes P) :=
  match h with [] => Ok m | (k, e) :: h' => m' <-? track m k e ; tracks m' h' end.

(** The events of a pattern in a history. *)
Definition events_of (key : bytes) (h : list (bytes * E)) : list E := omap (fun e => if decide (e.1 = key) then Some e.2 else None) h.

(** The patterns of a history in the order they first occurred. *)
Definition see (seen : list bytes) (e : bytes * E) : list bytes := if decide (e.1 ∈ seen) then seen else seen ++ [e.1].
Definition first_patterns (h : list (bytes * E)) : list bytes := fold_left see h [].

(** [m] is what the history [h] leaves: the first [max] patterns, each with the statistics
    [describes] of all its events. *)
Record tracked (describes : P -> list E -> Prop) (m : gmap bytes P) (h : list (bytes * E)) : Prop := {
  tracked_keys k : is_Some (m !! k) <-> k ∈ take max (first_patterns h);
  tracked_stats k ps : m !! k = Some ps -> describes ps (events_of k h)
}.

Lemma first_patterns_snoc h e : first_patterns (h ++ [e]) = see (first_patterns h) e.
Proof. unfold first_patterns. by rewrite fold_left_app. Qed.

Lemma first_patterns_NoDup h : NoDup (first_patterns h).
Proof.
  induction h as [|e h IH] using rev_ind; [constructor|]. rewrite first_patterns_snoc. unfold see.
  case_decide as Hin; [done|]. apply list.NoDup_app. split_and!; [done| |by apply NoDup_singleton]. intros x Hx ->%list_elem_of_singleton. done.
Qed.

Lemma elem_of_first_patterns h k : k ∈ first_patterns h <-> exists e, e ∈ h /\ e.1 = k.
Proof.
  induction h as [|e h IH] using rev_ind; [set_solver|]. rewrite first_patterns_snoc. unfold see. case_decide as Hin.
  - rewrite IH. set_solver.
  - rewrite elem_of_app, list_elem_of_singleton, IH. set_solver.
Qed.

Lemma events_of_snoc k h e : events_of k (h ++ [e]) = events_of k h ++ (if decide (e.1 = k) then [e.2] else []).
Proof. unfold events_of. rewrite omap_app. cbn. by case_decide. Qed.

Lemma events_of_none k h : ~ (exists e, e ∈ h /\ e.1 = k) -> events_of k h = [].
Proof.
  induction h as [|e h IH]; [done|]. intros Hno. unfold events_of in *. cbn. rewrite decide_False by (intros E'; apply Hno; exists e; set_solver).
  apply IH. intros (e' & Hin & E'). apply Hno. exists e'. set_solver.
Qed.

Lemma length_events_of k h : (length (events_of k h) <= length h)%nat.
Proof. induction h as [|e h IH]; [done|]. unfold events_of in *. cbn. case_decide; cbn; lia. Qed.

Lemma elem_of_take_sub {A} n (l : list A) x : x ∈ take n l -> x ∈ l.
Proof. intros Hx. rewrite <- (take_drop n l). apply elem_of_app. by left. Qed.

Section Tracked.
Context (describes : P -> list E -> Prop).

Lemma tracked_size m h : tracked describes m h -> size m = length (take max (first_patterns h)).
Proof.
  intros D. rewrite <- size_dom. rewrite <- (size_list_to_set (C := gset bytes)).
  - f_equal. apply set_eq. intros k. rewrite elem_of_dom, elem_of_list_to_set. apply D.
  - eapply sublist_NoDup; [apply first_patterns_NoDup|apply sublist_take].
Qed.

Lemma tracked_empty : tracked describes ∅ [].
Proof. split; intros k; rewrite lookup_empty; [|done]. cbn. rewrite take_nil. split; [by intros []|set_solver]. Qed.

Context (bound : Z).
Hypothesis describes_fresh : describes fresh [].
Hypothesis rec_describes : forall ps es e, Z.of_nat (length es) < bound - 1 -> describes ps es -> exists ps', rec ps e = Ok ps' /\ describes ps' (es ++ [e]).

Lemma track_tracked m h key e :
  Z.of_nat (length h) < bound - 1 -> tracked describes m h -> exists m', track m key e = Ok m' /\ tracked describes m' (h ++ [(key, e)]).
Proof.
  intros Hlen D. unfold track.
  assert (forall k ps, m !! k = Some ps -> k <> key -> describes ps (events_of k (h ++ [(key, e)]))) as Hother.
  { intros k ps Hk Hne. rewrite events_of_snoc. cbn [fst]. rewrite decide_False by done. rewrite app_nil_r. by apply D. }
  assert (forall ps', describes ps' (events_of key h ++ [e]) ->
            (forall k, k ∈ take max (first_patterns (h ++ [(key, e)])) <-> k = key \/ k ∈ take max (first_patterns h)) ->
            tracked describes (<[key := ps']> m) (h ++ [(key, e)])) as Hins.
  { intros ps' Hd' Htake. split.
    - intros k. rewrite lookup_insert_is_Some', Htake, (tracked_keys _ _ _ D). naive_solver.
    - intros k ps. rewrite lookup_insert_Some. intros [[<- <-]|[Hne Hk]]; [|by apply Hother].
      rewrite events_of_snoc. cbn [fst snd]. by rewrite decide_True by done. }
  pose proof (tracked_size _ _ D) as Hsize. rewrite length_take in Hsize. rewrite first_patterns_snoc in Hins. unfold see in Hins. cbn [fst] in Hins.
  pose proof (length_events_of key h) as Hdl. destruct (m !! key) as [ps|] eqn:Ek.
  - assert (key ∈ take max (first_patterns h)) as Hin by (apply (tracked_keys _ _ _ D); by rewrite Ek).
    rewrite decide_True in Hins by (by eapply elem_of_take_sub).
    destruct (rec_describes ps (events_of key h) e) as (ps' & -> & Hd'); [lia|by apply D|]. cbn [res_bind]. eexists. split; [done|].
    apply Hins; [done|]. naive_solver.
  - assert (key ∉ take max (first_patterns h)) as Hno by (rewrite <- (tracked_keys _ _ _ D), Ek; by intros [? ?]).
    destruct (Nat.leb_spec max (size m)) as [Hfull|Hroom].
    + exists m. split; [done|]. split.
      * intros k. rewrite (tracked_keys _ _ _ D), first_patterns_snoc. unfold see. destruct (decide _) as [?|?]; [done|]. by rewrite take_app_le by lia.
      * intros k ps Hk. apply Hother; [done|]. intros ->. congruence.
    + rewrite !take_ge in Hins by (try case_decide; rewrite ?length_app; cbn; lia). rewrite take_ge in Hno by lia. rewrite decide_False in Hins by done.
      destruct (rec_describes fresh (events_of key h) e) as (ps' & -> & Hd'); [lia| |].
      { rewrite events_of_none; [done|]. by rewrite <- elem_of_first_patterns. }
      cbn [res_bind]. eexists. split; [done|]. apply Hins; [done|]. set_solver.
Qed.

Lemma tracks_tracked h2 m h1 :
  Z.of_nat (length (h1 ++ h2)) < bound -> tracked describes m h1 -> exists m', tracks m h2 = Ok m' /\ tracked describes m' (h1 ++ h2).
Proof.
  revert m h1. induction h2 as [|[k e] h2 IH]; intros m h1 Hl D; [exists m; by rewrite app_nil_r|]. cbn [tracks].
  destruct (track_tracked m h1 k e) as (m1 & -> & D1); [rewrite length_app in Hl; cbn in Hl; lia|done|]. cbn [res_bind].
  destruct (IH m1 (h1 ++ [(k, e)])) as (m2 & E2 & D2); [by rewrite <- app_assoc|done|]. exists m2. by rewrite <- app_assoc in D2.
Qed.
End Tracked.
End Patterns.
