(* ===== verification/Digest.v ===== *)
(** * Query digests (internal/digest/digest.go)

    Statistics per normalized query: how often a pattern ran, its total, least and greatest
    time, and percentiles over its last samples. The number of patterns and of samples is
    bounded. [pg_query.Normalize] is a parameter. *)

From stdpp Require Import sorting.
From S2P Require Import Prelude Float64 Samples.

Open Scope Z_scope.

(** [pg_query.Normalize]: [None] is an error. *)
Class Normalizer := { pg_normalize : bytes -> option bytes }.

Record QueryDigestStats := {
  Pattern : bytes;
  Count : Z;
  TotalMs : float64;
  AvgMs : float64;
  MinMs : float64;
  MaxMs : float64;
  P50Ms : float64;
  P99Ms : float64
}.

Record patternStats := {
  count : Z;
  totalMs : float64;
  minMs : float64;
  maxMs : float64;
  durs : ring
}.

Record Digest := { patterns : gmap bytes patternStats; maxPatterns : nat; maxSamples : nat }.

Definition f_minus_one : float64 := f_of_Z (-1).

Definition newPatternStats : patternStats :=
  {| count := 0; totalMs := f_zero; minMs := f_minus_one; maxMs := f_zero; durs := empty_ring |}.

Definition record (maxSamps : nat) (ps : patternStats) (dur : Duration) : res unit patternStats :=
  let ms := durationMs dur in
  durs' <-? push maxSamps (durs ps) dur ;
  Ok {| count := wrapS 64 (count ps + 1);
        totalMs := f_add (totalMs ps) ms;
        minMs := if f_ltb (minMs ps) f_zero || f_ltb ms (minMs ps) then ms else minMs ps;
        maxMs := if f_ltb (maxMs ps) ms then ms else maxMs ps;
        durs := durs' |}.

Definition snapshot (pattern : bytes) (ps : patternStats) : res unit QueryDigestStats :=
  if count ps =? 0 then
    Ok {| Pattern := pattern; Count := 0; TotalMs := f_zero; AvgMs := f_zero; MinMs := f_zero; MaxMs := f_zero; P50Ms := f_zero; P99Ms := f_zero |}
  else
    '(p50, p99) <-?
      match samples (durs ps) with
      | [] => Ok (f_zero, f_zero)
      | l => let sorted := sort_durs l in
             d50 <-? percentile sorted f_p50 ; d99 <-? percentile sorted f_p99 ; Ok (durationMs d50, durationMs d99)
      end ;
    Ok {| Pattern := pattern; Count := count ps; TotalMs := totalMs ps; AvgMs := f_div (totalMs ps) (f_of_Z (count ps));
          MinMs := if f_ltb (minMs ps) f_zero then f_zero else minMs ps; MaxMs := maxMs ps; P50Ms := p50; P99Ms := p99 |}.

Definition New (MaxPatterns SamplesPerPattern : Z) : Digest :=
  {| patterns := ∅;
     maxPatterns := Z.to_nat (if MaxPatterns <=? 0 then 1000 else MaxPatterns);
     maxSamples := Z.to_nat (if SamplesPerPattern <=? 0 then 1000 else SamplesPerPattern) |}.

Definition with_patterns (d : Digest) (m : gmap bytes patternStats) : Digest :=
  {| patterns := m; maxPatterns := maxPatterns d; maxSamples := maxSamples d |}.

Section Digest.
Context `{Normalizer}.

Definition normalized (query : bytes) : bytes := default query (pg_normalize query).

Definition Record_ (d : Digest) (query : bytes) (dur : Duration) : res unit Digest :=
  m <-? track newPatternStats (record (maxSamples d)) (maxPatterns d) (patterns d) (normalized query) dur ; Ok (with_patterns d m).

Definition by_count (a b : QueryDigestStats) : Prop := Count b <= Count a.

#[export] Instance by_count_dec : RelDecision by_count.
Proof. intros a b. unfold by_count. apply _. Defined.

Fixpoint snapshots (ps : list (bytes * patternStats)) : res unit (list QueryDigestStats) :=
  match ps with
  | [] => Ok []
  | (k, p) :: ps' => s <-? snapshot k p ; ss <-? snapshots ps' ; Ok (s :: ss)
  end.

(** The source ranges over a map and its sort is not stable: patterns with the same count come
    in any order, of which this takes one. *)
Definition TopN (d : Digest) (n : Z) : res unit (list QueryDigestStats) :=
  ss <-? snapshots (map_to_list (patterns d)) ;
  let result := merge_sort by_count ss in
  Ok (if (0 <? n) && (n <? Z.of_nat (length result)) then take (Z.to_nat n) result else result).

Definition PatternCount (d : Digest) : Z := Z.of_nat (size (patterns d)).

Definition Reset_ (d : Digest) : Digest := with_patterns d ∅.

(** ** What the digest records *)

(** A history of executions, by pattern. *)
Definition by_pattern (h : list (bytes * Duration)) : list (bytes * Duration) := (fun e => (normalized e.1, e.2)) <$> h.

Fixpoint run (d : Digest) (h : list (bytes * Duration)) : res unit Digest :=
  match h with [] => Ok d | (q, dur) :: h' => d' <-? Record_ d q dur ; run d' h' end.

(** The statistics of a pattern that ran [ds]. *)
Definition describes (max : nat) (ps : patternStats) (ds : list Duration) : Prop :=
  count ps = Z.of_nat (length ds) /\ ring_holds max (durs ps) ds /\
  totalMs ps = fold_left (fun t d => f_add t (durationMs d)) ds f_zero.

Definition digests (d : Digest) (h : list (bytes * Duration)) : Prop :=
  tracked (maxPatterns d) (describes (maxSamples d)) (patterns d) (by_pattern h).

Lemma record_describes max ps ds dur :
  (0 < max)%nat -> Z.of_nat (length ds) < 2 ^ 63 - 1 -> describes max ps ds ->
  exists ps', record max ps dur = Ok ps' /\ describes max ps' (ds ++ [dur]).
Proof.
  intros Hmax Hlen (Hc & Hr & Ht). unfold record. destruct (push_holds max (durs ps) ds dur Hmax Hr) as (r' & -> & Hr'). cbn [res_bind].
  eexists. split; [done|]. unfold describes. cbn [count durs totalMs]. rewrite Hc, length_app, fold_left_app, Ht. cbn. split_and!; try done.
  rewrite wrapS_small by lia. lia.
Qed.

Lemma describes_new max : (0 < max)%nat -> describes max newPatternStats [].
Proof. intros Hmax. split_and!; [done|by apply empty_ring_holds|done]. Qed.

Lemma run_tracks d h :
  run d h = (m <-? tracks newPatternStats (record (maxSamples d)) (maxPatterns d) (patterns d) (by_pattern h) ; Ok (with_patterns d m)).
Proof.
  revert d. induction h as [|[q dur] h IH]; intros d; cbn [run by_pattern fmap list_fmap tracks fst snd]; [by destruct d|]. unfold Record_.
  destruct (track _ _ _ _ _ _) as [m| |]; cbn [res_bind]; [|done..]. by rewrite IH.
Qed.

Lemma digest_run MaxPatterns SamplesPerPattern h :
  Z.of_nat (length h) < 2 ^ 63 ->
  exists d, run (New MaxPatterns SamplesPerPattern) h = Ok d /\ digests d h /\ (size (patterns d) <= maxPatterns (New MaxPatterns SamplesPerPattern))%nat.
Proof.
  intros Hlen. set (d0 := New MaxPatterns SamplesPerPattern).
  assert (0 < maxSamples d0)%nat as Hmax by (cbn; destruct (Z.leb_spec SamplesPerPattern 0); lia).
  destruct (tracks_tracked newPatternStats (record (maxSamples d0)) (maxPatterns d0) (describes (maxSamples d0)) (2 ^ 63)
              (describes_new _ Hmax) (fun ps es e Hl Hd => record_describes _ ps es e Hmax Hl Hd) (by_pattern h) ∅ []) as (m & E & D).
  { cbn [app]. unfold by_pattern. by rewrite length_fmap. }
  { apply tracked_empty. }
  exists (with_patterns d0 m). rewrite run_tracks. cbn [patterns New d0] in *. rewrite E. split_and!; [done..|].
  cbn [patterns with_patterns]. rewrite (tracked_size _ _ _ _ D), length_take. lia.
Qed.

(** the digest counts faithfully and stays bounded: after any history of executions the
    tracked patterns are the first [maxPatterns] distinct ones of the history; of each, the
    count and the total are those of all its executions and the samples are its last
    [maxSamples] ones; and it never panics. *)
Theorem digest_exact MaxPatterns SamplesPerPattern h :
  Z.of_nat (length h) < 2 ^ 63 ->
  exists d, run (New MaxPatterns SamplesPerPattern) h = Ok d /\ digests d h /\ (size (patterns d) <= maxPatterns (New MaxPatterns SamplesPerPattern))%nat.
Proof. apply digest_run. Qed.

(** ** Ranking *)

Lemma ring_length max r ds : (0 < max)%nat -> ring_holds max r ds -> (length (samples r) <= max)%nat.
Proof. intros Hmax. unfold ring_holds. destruct (decide _); [intros [-> _]; lia|intros (-> & _); lia]. Qed.

Lemma snapshot_Ok max k ps ds : (0 < max)%nat -> Z.of_nat max < 2 ^ 53 -> describes max ps ds -> exists s, snapshot k ps = Ok s /\ Pattern s = k /\ Count s = count ps.
Proof.
  intros Hmax Hb (Hc & Hr & _). unfold snapshot. destruct (Z.eqb_spec (count ps) 0) as [->|]; [by eexists|].
  pose proof (ring_length _ _ _ Hmax Hr) as Hl. destruct (samples (durs ps)) as [|x l] eqn:E; [by eexists|]. rewrite <- E in *.
  destruct (percentile_Ok (samples (durs ps)) f_p50) as (d50 & -> & _); [by left|by rewrite E|lia|].
  destruct (percentile_Ok (samples (durs ps)) f_p99) as (d99 & -> & _); [by right|by rewrite E|lia|]. cbn [res_bind]. by eexists.
Qed.

Lemma snapshots_Ok l : Forall (fun kp => exists s, snapshot kp.1 kp.2 = Ok s /\ Pattern s = kp.1 /\ Count s = count kp.2) l ->
  exists ss, snapshots l = Ok ss /\ Forall2 (fun kp s => snapshot kp.1 kp.2 = Ok s /\ Pattern s = kp.1 /\ Count s = count kp.2) l ss.
Proof.
  induction 1 as [|[k p] l (s & E & Hs) _ (ss & IH & Hall)]; [exists []; by constructor|]. exists (s :: ss). cbn in *. rewrite E, IH. split; [done|]. by constructor.
Qed.

#[local] Instance by_count_trans : Transitive by_count.
Proof. intros a b c. unfold by_count. lia. Qed.
#[local] Instance by_count_total : Total by_count.
Proof. intros a b. unfold by_count. lia. Qed.

(** [TopN] ranks the tracked patterns: it lists each at most once, with its own statistics,
    by descending count, all of them or as many as asked for, and none that is left out ran
    more often than one that is listed. No percentile index is out of range. *)
Theorem TopN_ranks d h n :
  digests d h -> (0 < maxSamples d)%nat -> Z.of_nat (maxSamples d) < 2 ^ 53 ->
  exists l rest, TopN d n = Ok l /\ StronglySorted by_count l /\ (Pattern <$> l ++ rest) ≡ₚ (map_to_list (patterns d)).*1 /\
    Forall (fun s => exists ps, patterns d !! Pattern s = Some ps /\ snapshot (Pattern s) ps = Ok s /\ Count s = Z.of_nat (length (events_of (Pattern s) (by_pattern h)))) (l ++ rest) /\
    (rest <> [] -> Z.of_nat (length l) = n) /\ forall s s', s ∈ l -> s' ∈ rest -> Count s' <= Count s.
Proof.
  intros D Hmax Hb. unfold TopN.
  destruct (snapshots_Ok (map_to_list (patterns d))) as (ss & -> & Hss).
  { apply list.Forall_forall. intros [k ps] Hin%elem_of_map_to_list. eapply snapshot_Ok; [done|done|by apply (tracked_stats _ _ _ _ D)]. }
  cbn [res_bind]. set (sorted := merge_sort by_count ss).
  assert (sorted ≡ₚ ss) as Hperm by apply merge_sort_Permutation.
  assert (StronglySorted by_count sorted) as Hsort by (apply StronglySorted_merge_sort; apply _).
  assert (Pattern <$> ss = (map_to_list (patterns d)).*1) as Hpat.
  { clear -Hss. induction Hss as [|[k p] s l ss (_ & E & _) _ IH]; [done|]. cbn in *. by rewrite E, IH. }
  assert (Forall (fun s => exists ps, patterns d !! Pattern s = Some ps /\ snapshot (Pattern s) ps = Ok s /\
            Count s = Z.of_nat (length (events_of (Pattern s) (by_pattern h)))) ss) as Hall.
  { apply list.Forall_forall. intros s Hin. destruct (proj1 (list_elem_of_lookup ss s) Hin) as [i Hi].
    destruct (Forall2_lookup_r _ _ _ _ _ Hss Hi) as ([k ps] & Hk & Hs & Hp & Hc). cbn in *.
    apply list_elem_of_lookup_2, elem_of_map_to_list in Hk. rewrite Hp. exists ps. split_and!; [done..|]. rewrite Hc. by destruct (tracked_stats _ _ _ _ D _ _ Hk). }
  set (i := if (0 <? n) && (n <? Z.of_nat (length sorted)) then Z.to_nat n else length sorted).
  exists (take i sorted), (drop i sorted). rewrite take_drop. split_and!.
  - f_equal. unfold i. destruct (_ && _); [done|]. by rewrite take_ge.
  - rewrite <- (take_drop i sorted) in Hsort. by apply StronglySorted_app_1_l in Hsort.
  - by rewrite Hperm, Hpat.
  - by rewrite Hperm.
  - intros Hne. unfold i in *. destruct ((0 <? n) && (n <? Z.of_nat (length sorted))) eqn:E; [|by rewrite drop_ge in Hne].
    apply andb_true_iff in E as [E1%Z.ltb_lt E2%Z.ltb_lt]. rewrite length_take. lia.
  - intros s s' Hs Hs'. rewrite <- (take_drop i sorted) in Hsort. apply (StronglySorted_app_1_elem_of _ _ _ _ _ Hsort Hs Hs').
Qed.

End Digest.

Module Examples.
#[local] Instance no_normalizer : Normalizer := {| pg_normalize := fun _ => None |}.

Definition history : list (bytes * Duration) := [($"a", 5000000); ($"b", 1000000); ($"a", 7000000); ($"c", 2000000)].

Lemma digest_exact_witness :
  exists d, run (New 2 1) history = Ok d /\ digests d history /\ (size (patterns d) <= maxPatterns (New 2 1))%nat.
Proof. apply (digest_exact 2 1 history). by vm_compute. Defined.

(** Two patterns of one sample each: the third pattern is dropped, the sample of "a" is its last. *)
Example digest_bounded :
  match run (New 2 1) history with
  | Ok d =>
      option_map (fun p => (count p, samples (durs p))) (patterns d !! $"a") = Some (2, [7000000]) /\ patterns d !! $"c" = None /\
      match TopN d 1 with Ok l => List.map (fun s => (Pattern s, Count s)) l = [($"a", 2)] | _ => False end
  | _ => False
  end.
Proof. by vm_compute. Qed.

Lemma TopN_ranks_witness : exists d l rest,
  run (New 2 1) history = Ok d /\ TopN d 1 = Ok l /\ StronglySorted by_count l /\ (Pattern <$> l ++ rest) ≡ₚ (map_to_list (patterns d)).*1 /\
  (rest <> [] -> Z.of_nat (length l) = 1).
Proof.
  destruct (digest_run 2 1 history) as (d & E & D & _); [by vm_compute|].
  assert (maxSamples d = 1%nat) as Hm.
  { assert ((match run (New 2 1) history with Ok d => maxSamples d | _ => 0%nat end) = 1%nat) as H by (by vm_compute). by rewrite E in H. }
  destruct (TopN_ranks d history 1 D) as (l & rest & Hl & Hs & Hp & _ & Hn & _); [lia|by rewrite Hm|]. by exists d, l, rest.
Defined.
End Examples.
