(* ===== verification/Mirror.v ===== *)
(** * Query mirroring (internal/mirror/mirror.go, stats.go and [mirrorQuery] of internal/proxy/helpers.go)

    Queries are offered to a bounded queue, which drops what does not fit. Workers take them
    from the queue, run them on a connection of the mirror's own pool and compare the time they
    took there with the time they took on the primary. [execute] is a session in the monad of
    [Relay], with the mirror as its state; the queue, the workers and [Close] are the steps
    of a system. *)

From stdpp Require Import sorting.
From S2P Require Import Prelude GoStrings Wire Classify Tables Ast Float64 Pool Relay Samples Digest.

Local Open Scope Z_scope.

Record Config := { Addr : bytes; Mode : bytes; Tables : list bytes; Compare : bool; Workers : Z; BufferSize : Z }.

Record job := { job_msgType : byte; job_payload : bytes; job_query : bytes; job_primaryDur : Duration }.

(** ** Statistics (stats.go) *)

Definition maxSamples : nat := Z.to_nat 1000.
Definition maxPatterns : nat := Z.to_nat 10000.

Record QueryStats := {
  qs_Pattern : bytes;
  qs_Count : Z;
  PrimaryP50 : float64;
  PrimaryP99 : float64;
  MirrorP50 : float64;
  MirrorP99 : float64;
  Regression : bool
}.

Record patternStats := { ps_count : Z; primaryDurs : list Duration; mirrorDurs : list Duration; ps_idx : nat }.

Definition no_stats : patternStats := {| ps_count := 0; primaryDurs := []; mirrorDurs := []; ps_idx := 0 |}.

(** Indexing out of range panics. *)
Definition record (ps : patternStats) (d : Duration * Duration) : res unit patternStats :=
  let '(primaryDur, mirrorDur) := d in
  let count := wrapS 64 (ps_count ps + 1) in
  if (length (primaryDurs ps) <? maxSamples)%nat then
    Ok {| ps_count := count; primaryDurs := primaryDurs ps ++ [primaryDur]; mirrorDurs := mirrorDurs ps ++ [mirrorDur]; ps_idx := ps_idx ps |}
  else if (ps_idx ps <? length (primaryDurs ps))%nat && (ps_idx ps <? length (mirrorDurs ps))%nat then
    Ok {| ps_count := count; primaryDurs := <[ps_idx ps := primaryDur]> (primaryDurs ps);
          mirrorDurs := <[ps_idx ps := mirrorDur]> (mirrorDurs ps); ps_idx := S (ps_idx ps) mod maxSamples |}
  else Panic.

Definition snapshot (pattern : bytes) (ps : patternStats) : res unit QueryStats :=
  match primaryDurs ps with
  | [] => Ok {| qs_Pattern := pattern; qs_Count := ps_count ps; PrimaryP50 := f_zero; PrimaryP99 := f_zero;
                MirrorP50 := f_zero; MirrorP99 := f_zero; Regression := false |}
  | _ =>
      (* the copy of mirrorDurs has the length of primaryDurs *)
      let n := length (primaryDurs ps) in
      let primary := sort_durs (primaryDurs ps) in
      let mirror := sort_durs (take n (mirrorDurs ps ++ replicate (n - length (mirrorDurs ps)) 0)) in
      pp50 <-? percentile primary f_p50 ;
      pp99 <-? percentile primary f_p99 ;
      mp50 <-? percentile mirror f_p50 ;
      mp99 <-? percentile mirror f_p99 ;
      Ok {| qs_Pattern := pattern; qs_Count := ps_count ps; PrimaryP50 := durationMs pp50; PrimaryP99 := durationMs pp99;
            MirrorP50 := durationMs mp50; MirrorP99 := durationMs mp99; Regression := wrapS 64 (pp50 * 2) <? mp50 |}
  end.

Definition statsCollector : Type := gmap bytes patternStats.

Definition record_stats (sc : statsCollector) (key : bytes) (d : Duration * Duration) : res unit statsCollector :=
  track no_stats record maxPatterns sc key d.

Fixpoint snapshot_all (ps : list (bytes * patternStats)) : res unit (list QueryStats) :=
  match ps with
  | [] => Ok []
  | (k, p) :: ps' => s <-? snapshot k p ; ss <-? snapshot_all ps' ; Ok (s :: ss)
  end.

Definition most_frequent (a b : QueryStats) : Prop := qs_Count b <= qs_Count a.

#[export] Instance most_frequent_dec : RelDecision most_frequent.
Proof. intros a b. unfold most_frequent. apply _. Defined.

(** Patterns with the same count come in any order, of which this takes one. *)
Definition snapshot_stats (sc : statsCollector) : res unit (list QueryStats) :=
  ss <-? snapshot_all (map_to_list sc) ; Ok (merge_sort most_frequent ss).

(** ** The mirror (mirror.go) *)

Record Mirror := {
  m_cfg : Config;
  m_pool : pool_loc;
  workCh : list job;
  m_stats : statsCollector;
  m_done : bool;
  m_dropped : Z;
  m_sent : Z;
  m_errors : Z;
  m_tables : option (gset bytes)
}.

Definition with_defaults (cfg : Config) : Config :=
  {| Addr := Addr cfg; Mode := match Mode cfg with [] => $"read_only" | mode => mode end; Tables := Tables cfg; Compare := Compare cfg;
     Workers := if Workers cfg <=? 0 then 4 else Workers cfg; BufferSize := if BufferSize cfg <=? 0 then 10000 else BufferSize cfg |}.

(** The configuration of the mirror's pool. *)
Definition pool_config (cfg : Config) : Pool.Config :=
  {| Pool.MinConnections := 0; Pool.MaxConnections := wrapS 64 (Workers cfg * 2); Pool.IdleTimeout := 10 * Minute; Pool.MaxLifetime := 60 * Minute;
     Pool.ConnectionTimeout := 5 * Second |}.

Definition New (p : pool_loc) (cfg : Config) : Mirror :=
  let cfg := with_defaults cfg in
  {| m_cfg := cfg; m_pool := p; workCh := []; m_stats := ∅; m_done := false; m_dropped := 0; m_sent := 0; m_errors := 0;
     m_tables := match Tables cfg with [] => None | ts => Some (list_to_set ts) end |}.

Definition MatchesTables (m : Mirror) (tables : list bytes) : bool :=
  match m_tables m with None => true | Some ts => existsb (fun t => bool_decide (t ∈ ts)) tables end.

Definition IsReadOnly (m : Mirror) : bool := bool_decide (Mode (m_cfg m) = $"read_only").

Definition with_queue (m : Mirror) (q : list job) : Mirror :=
  {| m_cfg := m_cfg m; m_pool := m_pool m; workCh := q; m_stats := m_stats m; m_done := m_done m; m_dropped := m_dropped m;
     m_sent := m_sent m; m_errors := m_errors m; m_tables := m_tables m |}.
Definition count (m : Mirror) (dropped sent errors : Z) : Mirror :=
  {| m_cfg := m_cfg m; m_pool := m_pool m; workCh := workCh m; m_stats := m_stats m; m_done := m_done m;
     m_dropped := wrapS 64 (m_dropped m + dropped); m_sent := wrapS 64 (m_sent m + sent); m_errors := wrapS 64 (m_errors m + errors);
     m_tables := m_tables m |}.
Definition with_stats (m : Mirror) (sc : statsCollector) : Mirror :=
  {| m_cfg := m_cfg m; m_pool := m_pool m; workCh := workCh m; m_stats := sc; m_done := m_done m; m_dropped := m_dropped m;
     m_sent := m_sent m; m_errors := m_errors m; m_tables := m_tables m |}.

(** The queue takes the job if there is room for it. *)
Definition Send (m : Mirror) (msgType : byte) (payload query : bytes) (primaryDur : Duration) : Mirror :=
  let j := {| job_msgType := msgType; job_payload := payload; job_query := query; job_primaryDur := primaryDur |} in
  if Z.of_nat (length (workCh m)) <? BufferSize (m_cfg m) then with_queue m (workCh m ++ [j]) else count m 1 0 0.

Definition Close (m : Mirror) : Mirror :=
  {| m_cfg := m_cfg m; m_pool := m_pool m; workCh := workCh m; m_stats := m_stats m; m_done := true; m_dropped := m_dropped m;
     m_sent := m_sent m; m_errors := m_errors m; m_tables := m_tables m |}.

Section Execute.
Context `{Normalizer}.
Local Abbreviation M := (M Mirror).

(** Responses are read and discarded until ReadyForQuery. *)
Fixpoint await_ready (c : Pool.Conn) (rounds : nat) : M unit :=
  match rounds with
  | O => fail
  | S n => msg <-! read_backend c; if (mType msg =b Msg.ReadyForQuery) then ret tt else await_ready c n
  end.

(** The clock reads [start] before the query is sent and [now] after the response. *)
Definition execute (start now : Time) (j : job) : M unit :=
  m <-! get;
  conn <-! acquire (m_pool m);
  match conn with
  | None => modify (fun m => count m 0 0 1)
  | Some c =>
      ok <-! write_backend c (WriteMessage (job_msgType j) (job_payload j));
      if negb ok then discardToPool c (Some (m_pool m)) ;! modify (fun m => count m 0 0 1)
      else
        r <-! attempt (rounds_backend c (await_ready c));
        match r with
        | None => discardToPool c (Some (m_pool m)) ;! modify (fun m => count m 0 0 1)
        | Some _ =>
            let mirrorDur := Since now start in
            releaseToPool c (Some (m_pool m)) ;!
            modify (fun m => count m 0 1 0) ;!
            if Compare (m_cfg m) then
              m <-! get;
              sc <-! lift (record_stats (m_stats m) (normalized (job_query j)) (job_primaryDur j, mirrorDur));
              modify (fun m => with_stats m sc)
            else ret tt
        end
  end.
End Execute.

(** ** Offering queries (helpers.go) *)

Section Offer.
Context `{UnicodeCase} `{PgQuery}.

(** [extractQueryTablesParsed]. *)
Definition query_tables (ast : bool) (query : bytes) (pq : option ParsedQuery) : res unit (list bytes) :=
  match ast, pq with
  | true, Some pq => Ok (extractTablesFromTree (pq_Tree pq))
  | true, None => ExtractTablesAST query
  | false, _ => ExtractTables query
  end.

Definition mirrorQuery (ast : bool) (m : Mirror) (msg : Message) (query : bytes) (qtype : QueryType) (elapsed : Duration)
    (pq : option ParsedQuery) : res unit Mirror :=
  if IsReadOnly m && bool_decide (qtype = QueryWrite) then Ok m
  else
    tables <-? query_tables ast query pq ;
    Ok (if MatchesTables m tables then Send m (mType msg) (mPayload msg) query elapsed else m).
End Offer.

(** ** Statistics compare the same executions *)

(** The last [maxSamples] executions of [ds] are kept, as pairs. *)
Definition compares (ps : patternStats) (ds : list (Duration * Duration)) : Prop :=
  ps_count ps = Z.of_nat (length ds) /\
  ring_holds maxSamples {| samples := primaryDurs ps; idx := ps_idx ps |} ds.*1 /\
  ring_holds maxSamples {| samples := mirrorDurs ps; idx := ps_idx ps |} ds.*2.

Lemma maxSamples_pos : (0 < maxSamples)%nat.
Proof. by apply Nat.ltb_lt. Qed.

Lemma compares_none : compares no_stats [].
Proof. split_and!; [done|apply empty_ring_holds, maxSamples_pos..]. Qed.

Lemma ring_length_eq max r r' h h' :
  ring_holds max r h -> ring_holds max r' h' -> length h = length h' -> length (samples r) = length (samples r').
Proof. unfold ring_holds. intros H1 H2 E. rewrite E in H1. case_decide; [by destruct H1 as [-> _], H2 as [-> _]|by destruct H1 as [-> _], H2 as [-> _]]. Qed.

Lemma compares_length ps ds : compares ps ds -> length (mirrorDurs ps) = length (primaryDurs ps).
Proof. intros (_ & H1 & H2). symmetry. apply (ring_length_eq _ _ _ _ _ H1 H2). by rewrite !length_fmap. Qed.

(** Recording is pushing to both buffers. *)
Lemma record_compares ps ds d :
  Z.of_nat (length ds) < 2 ^ 63 - 1 -> compares ps ds -> exists ps', record ps d = Ok ps' /\ compares ps' (ds ++ [d]).
Proof.
  intros Hlen Hc. pose proof (compares_length _ _ Hc) as Hl. destruct Hc as (Hc & H1 & H2), d as [d1 d2]. unfold record.
  destruct (push_holds maxSamples _ _ d1 maxSamples_pos H1) as (r1 & E1 & R1).
  destruct (push_holds maxSamples _ _ d2 maxSamples_pos H2) as (r2 & E2 & R2).
  unfold push in E1, E2. cbn [samples idx] in E1, E2. rewrite Hl in E2 |- *.
  assert (wrapS 64 (ps_count ps + 1) = Z.of_nat (length (ds ++ [(d1, d2)]))) as Hw
    by (rewrite Hc, length_app; cbn [length]; rewrite wrapS_small by lia; lia).
  destruct (_ <? maxSamples)%nat; [|destruct (_ <? _)%nat; [|done]]; injection E1 as <-; injection E2 as <-; (eexists; split; [done|]);
    unfold compares; rewrite !fmap_app; by split_and!.
Qed.

Lemma ring_zip max r1 r2 (h : list (Duration * Duration)) :
  ring_holds max r1 h.*1 -> ring_holds max r2 h.*2 -> idx r1 = idx r2 -> zip (samples r1) (samples r2) ≡ₚ lastn max h.
Proof.
  unfold ring_holds, lastn. rewrite !length_fmap. destruct r1 as [s1 i], r2 as [s2 i']. cbn [samples idx]. case_decide as Hd.
  - intros [-> _] [-> _] _. replace (length h - max)%nat with 0%nat by lia. by rewrite drop_0, zip_fst_snd.
  - intros (L1 & _ & E1) (L2 & _ & E2) <-. rewrite <- (zip_fst_snd (drop _ h)), !fmap_drop, <- E1, <- E2.
    rewrite zip_with_app by (rewrite !length_drop; lia). rewrite <- (take_drop i s1) at 1. rewrite <- (take_drop i s2) at 1.
    rewrite zip_with_app by (rewrite !length_take; lia). apply Permutation_app_comm.
Qed.

(** What the statistics of a history of compared executions are. *)
Definition compared (sc : statsCollector) (h : list (bytes * (Duration * Duration))) : Prop := tracked maxPatterns compares sc h.

Lemma record_stats_compared sc h key d :
  Z.of_nat (length h) < 2 ^ 63 - 1 -> compared sc h -> exists sc', record_stats sc key d = Ok sc' /\ compared sc' (h ++ [(key, d)]).
Proof. intros Hl Hc. exact (track_tracked no_stats record maxPatterns compares (2 ^ 63) compares_none record_compares sc h key d Hl Hc). Qed.

(** The index of the 50th percentile is that of the lower median. *)
Lemma p50_index n : (0 < n <= maxSamples)%nat -> percentile_index n f_p50 = Z.of_nat ((n - 1) / 2).
Proof.
  intros Hn. assert (forallb (fun n => percentile_index n f_p50 =? Z.of_nat ((n - 1) / 2)) (seq 1 maxSamples) = true) as Hall by (by vm_compute).
  rewrite List.forallb_forall in Hall. apply Z.eqb_eq, Hall, List.in_seq. lia.
Qed.

Definition median (l : list Duration) : Duration := default 0 (sort_durs l !! ((length l - 1) / 2)%nat).

Lemma percentile_median l : l <> [] -> (length l <= maxSamples)%nat -> percentile (sort_durs l) f_p50 = Ok (median l).
Proof.
  intros Hne Hl. assert (sort_durs l ≡ₚ l) as Hp by apply merge_sort_Permutation. assert (length (sort_durs l) = length l) as Hlen by (by rewrite Hp).
  unfold percentile, median. destruct (sort_durs l) as [|x s] eqn:E; [by destruct l|]. rewrite <- E in *.
  assert (0 < length l)%nat by (destruct l; [done|cbn; lia]). rewrite Hlen, p50_index by lia. rewrite (proj2 (Z.ltb_ge _ _)) by lia.
  rewrite Nat2Z.id. destruct (sort_durs l !! _) eqn:Ed; [done|]. apply lookup_ge_None in Ed. assert ((length l - 1) / 2 <= length l - 1)%nat by (apply Nat.Div0.div_le_upper_bound; lia). lia.
Qed.

Lemma median_in l : l <> [] -> median l ∈ l.
Proof.
  intros Hne. assert (sort_durs l ≡ₚ l) as Hp by apply merge_sort_Permutation. unfold median. assert (0 < length l)%nat by (destruct l; [done|cbn; lia]).
  destruct (sort_durs l !! _) as [d|] eqn:Ed; cbn [default]; [rewrite <- Hp; by eapply list_elem_of_lookup_2|].
  apply lookup_ge_None in Ed. rewrite Hp in Ed. assert ((length l - 1) / 2 <= length l - 1)%nat by (apply Nat.Div0.div_le_upper_bound; lia). lia.
Qed.

(** What a snapshot says of the executions [ds] of a pattern. *)
Definition reports (s : QueryStats) (ds : list (Duration * Duration)) : Prop :=
  qs_Count s = Z.of_nat (length ds) /\
  let kept := lastn maxSamples ds in
  (kept = [] /\ Regression s = false) \/
  (PrimaryP50 s = durationMs (median kept.*1) /\ MirrorP50 s = durationMs (median kept.*2) /\
   Regression s = (wrapS 64 (median kept.*1 * 2) <? median kept.*2)).

Lemma sort_durs_perm l l' : l ≡ₚ l' -> sort_durs l = sort_durs l'.
Proof.
  intros Hp. apply (StronglySorted_unique Z.le); [apply StronglySorted_merge_sort; apply _..|].
  unfold sort_durs. by rewrite !merge_sort_Permutation.
Qed.

Lemma median_perm l l' : l ≡ₚ l' -> median l = median l'.
Proof. intros Hp. unfold median. by rewrite (sort_durs_perm _ _ Hp), (Permutation_length Hp). Qed.

Lemma snapshot_reports k ps ds : compares ps ds -> exists s, snapshot k ps = Ok s /\ qs_Pattern s = k /\ reports s ds.
Proof.
  intros Hc. pose proof (compares_length _ _ Hc) as Hl. destruct Hc as (Hc & H1 & H2). unfold snapshot, reports.
  pose proof (ring_samples _ _ _ H1) as P1. pose proof (ring_samples _ _ _ H2) as P2. cbn [samples] in P1, P2.
  pose proof (Digest.ring_length _ _ _ maxSamples_pos H1) as Hmax. cbn [samples] in Hmax.
  assert (forall {A} (f : Duration * Duration -> A), lastn maxSamples (f <$> ds) = f <$> lastn maxSamples ds) as Hlast.
  { intros A f. unfold lastn. by rewrite length_fmap, fmap_drop. }
  rewrite Hlast in P1, P2. destruct (primaryDurs ps) as [|x l] eqn:E.
  - eexists. split; [done|]. split; [done|]. cbn [qs_Count Regression]. split; [done|]. left. split; [|done].
    symmetry in P1. apply Permutation_nil_r in P1. by destruct (lastn maxSamples ds).
  - rewrite <- E in *. rewrite Hl, Nat.sub_diag. cbn [replicate]. rewrite app_nil_r, <- Hl, firstn_all.
    assert (primaryDurs ps <> []) as N1 by (by rewrite E). assert (mirrorDurs ps <> []) as N2 by (intros E'; rewrite E', E in Hl; done).
    assert (Z.of_nat maxSamples < 2 ^ 53) as Hm by done.
    rewrite !percentile_median by (done || lia).
    destruct (percentile_Ok (primaryDurs ps) f_p99) as (p99 & -> & _); [by right|done|lia|].
    destruct (percentile_Ok (mirrorDurs ps) f_p99) as (m99 & -> & _); [by right|done|lia|]. cbn [res_bind].
    eexists. split; [done|]. split; [done|]. cbn. split; [done|]. right. by rewrite (median_perm _ _ P1), (median_perm _ _ P2).
Qed.

Lemma snapshot_all_reports l (h : bytes -> list (Duration * Duration)) :
  Forall (fun kp => compares kp.2 (h kp.1)) l ->
  exists ss, snapshot_all l = Ok ss /\ (qs_Pattern <$> ss) = l.*1 /\ Forall (fun s => reports s (h (qs_Pattern s))) ss.
Proof.
  induction 1 as [|[k p] l Hc _ (ss & IH & E & Hr)]; [by exists []|]. destruct (snapshot_reports k p _ Hc) as (s & Es & Ek & Hs).
  exists (s :: ss). cbn in *. rewrite Es, IH. cbn. rewrite Ek, E. split_and!; [done..|]. constructor; [by rewrite Ek|done].
Qed.

#[local] Instance most_frequent_trans : Transitive most_frequent.
Proof. intros a b c. unfold most_frequent. lia. Qed.
#[local] Instance most_frequent_total : Total most_frequent.
Proof. intros a b. unfold most_frequent. lia. Qed.

(** ** Running one query *)

(** A stream that starts with a complete response. *)
Inductive answered : bytes -> Prop :=
| answered_now bs m rest : ReadMessage bs = Ok (m, rest) -> mType m = Msg.ReadyForQuery -> answered bs
| answered_later bs m rest : ReadMessage bs = Ok (m, rest) -> mType m <> Msg.ReadyForQuery -> answered rest -> answered bs.

Lemma await_ready_spec c n (w : World Mirror) :
  (length (stream c w) < n)%nat ->
  wp (await_ready c n) (fun r w' => trace w' = trace w /\ sh w' = sh w /\ cin w' = cin w /\ r <> Panic /\ (r = Ok tt <-> answered (stream c w))) w.
Proof.
  revert w. induction n as [|n IH]; intros w Hn; [lia|]. cbn [await_ready]. apply wp_read_backend_cases.
  - intros Hno. split_and!; [done..|]. split; [done|]. intros Ha. exfalso. by inversion Ha; subst; eapply Hno.
  - intros m w' Hr _ [Ht _ _ Hc _ _ Hs]. rewrite app_nil_r in Ht. cbn in Hc. destruct (byte_eqb_spec (mType m) Msg.ReadyForQuery) as [E|Hne].
    + split_and!; [done..|]. split; [|done]. intros _. by eapply answered_now.
    + pose proof (ReadMessage_shorter _ _ _ Hr). eapply wp_mono; [apply IH; lia|]. cbn. intros r w2 (E1 & E2 & E3 & Hp & Ha). rewrite E1, E2, E3. split_and!; [done..|].
      rewrite Ha. split; [by eapply answered_later|]. intros Hin. inversion Hin as [? ? ? Hr' E'|? ? ? Hr' E' Hrest]; subst; rewrite Hr in Hr'; [by injection Hr' as -> _|by injection Hr' as _ <-].
Qed.

(** What running a job does: the connection it takes, if any, goes back to the pool once,
    released if the response was complete and discarded if not; no byte goes to a client; and
    the job is counted once, as sent or as an error. *)
Inductive executed (j : job) (w : World Mirror) : list event -> bool -> Prop :=
| ex_no_conn : executed j w [EvNoConn (m_pool (sh w))] false
| ex_unsent c :
    executed j w [EvAcquire (m_pool (sh w)) c; EvSend c (WriteMessage (job_msgType j) (job_payload j)) false; EvDiscard (m_pool (sh w)) c] false
| ex_unanswered c :
    ~ answered (stream c w) ->
    executed j w [EvAcquire (m_pool (sh w)) c; EvSend c (WriteMessage (job_msgType j) (job_payload j)) true; EvDiscard (m_pool (sh w)) c] false
| ex_sent c :
    answered (stream c w) ->
    executed j w [EvAcquire (m_pool (sh w)) c; EvSend c (WriteMessage (job_msgType j) (job_payload j)) true; EvRelease (m_pool (sh w)) c] true.

Section Executed.
Context `{Normalizer}.

(** What the statistics record of a job that ran. *)
Definition comparison (start now : Time) (m : Mirror) (j : job) : list (bytes * (Duration * Duration)) :=
  if Compare (m_cfg m) then [(normalized (job_query j), (job_primaryDur j, Since now start))] else [].

Definition after (start now : Time) (j : job) (h : list (bytes * (Duration * Duration))) (m m' : Mirror) (ok : bool) : Prop :=
  exists sc, m' = with_stats (count m 0 (if ok then 1 else 0) (if ok then 0 else 1)) sc /\
    compared sc (h ++ (if ok then comparison start now m j else [])).

Lemma execute_runs start now j h w :
  compared (m_stats (sh w)) h -> Z.of_nat (length h) < 2 ^ 63 - 1 ->
  wp (execute start now j) (fun r w' => r = Ok tt /\ cin w' = cin w /\
    exists evs ok, executed j w evs ok /\ trace w' = trace w ++ evs /\ after start now j h (sh w) (sh w') ok) w.
Proof.
  intros Hc Hlen. set (m := sh w) in *.
  assert (forall ok, ok = false -> after start now j h m (count m 0 0 1) ok) as Hfail.
  { intros ok ->. exists (m_stats m). rewrite app_nil_r. by split. }
  unfold execute. apply wp_get. fold m. apply wp_acquire.
  { intros w1 (Ht & Hi & _ & Hs). unfold wp, modify. cbn. rewrite Hs. split_and!; [done..|]. exists [EvNoConn (m_pool m)], false. split_and!; [constructor|done|by apply Hfail]. }
  intros c w1 (Ht1 & Hi1 & Hb1 & Hs1). apply wp_write. intros ok w2 (Ht2 & Hi2 & Hb2 & Hs2).
  rewrite Ht1, <- app_assoc in Ht2. rewrite Hs1 in Hs2. fold m in Hs2. cbn [app] in Ht2.
  assert (stream c w2 = stream c w) as Hst by (unfold stream; by rewrite Hb2, Hb1).
  assert (forall (w3 : World Mirror) sent, trace w3 = trace w2 -> cin w3 = cin w -> sh w3 = m -> (sent = true -> ~ answered (stream c w)) -> sent = ok ->
    wp (discardToPool c (Some (m_pool m)) ;! modify (fun m => count m 0 0 1))
      (fun r w' => r = Ok tt /\ cin w' = cin w /\ exists evs ok, executed j w evs ok /\ trace w' = trace w ++ evs /\ after start now j h m (sh w') ok) w3) as Hdiscard.
  { intros w3 sent Et Ei Es Hno <-. unfold discardToPool. apply wp_emit. intros w4 (Ht4 & Hi4 & _ & Hs4). unfold wp, modify. cbn. rewrite Hs4, Es, Hi4. split_and!; [done..|].
    eexists _, false. split_and!; [|rewrite Ht4, Et, Ht2, <- app_assoc; reflexivity|by apply Hfail]. destruct sent; [apply ex_unanswered; by apply Hno|apply ex_unsent]. }
  destruct ok; cbn [negb]; [|apply (Hdiscard _ false); [done|congruence|done..]].
  apply wp_bind, wp_attempt. eapply wp_mono; [apply (await_ready_spec c (S (length (stream c w2)))); lia|].
  intros r w3 (Ht3 & Hs3 & Hi3 & Hp & Ha). rewrite Hst in Ha. destruct r as [[]|[]|]; [|apply (Hdiscard _ true); try congruence; by rewrite <- Ha|done].
  unfold releaseToPool. apply wp_emit. intros w4 (Ht4 & Hi4 & _ & Hs4).
  assert (sh w4 = m) as Hm by congruence. assert (trace w4 = trace w ++ [EvAcquire (m_pool m) c; EvSend c (WriteMessage (job_msgType j) (job_payload j)) true; EvRelease (m_pool m) c]) as Ht
    by (rewrite Ht4, Ht3, Ht2, <- app_assoc; reflexivity).
  assert (executed j w [EvAcquire (m_pool m) c; EvSend c (WriteMessage (job_msgType j) (job_payload j)) true; EvRelease (m_pool m) c] true) as Hex by (apply ex_sent; by apply Ha).
  assert (cin w4 = cin w) as Hi by congruence. unfold wp, modify, bind, get, lift, ret. cbn [sh]. rewrite Hm.
  destruct (Compare (m_cfg m)) eqn:Ec.
  - destruct (record_stats_compared (m_stats m) h (normalized (job_query j)) (job_primaryDur j, Since now start) Hlen Hc) as (sc & Esc & Hsc).
    cbn -[record_stats]. rewrite Esc. cbn. split_and!; [done..|]. eexists _, true. split_and!; [exact Hex|done|]. exists sc. unfold comparison. by rewrite Ec.
  - cbn. split_and!; [done..|]. eexists _, true. split_and!; [exact Hex|done|]. exists (m_stats m). unfold comparison. rewrite Ec, app_nil_r. by split.
Qed.
End Executed.

(** ** The queue and its workers *)

Section System.
Context `{Normalizer} `{UnicodeCase} `{PgQuery}.

(** One call of [mirrorQuery]. *)
Record call := { call_job : job; call_type : QueryType; call_tables : list bytes }.

Definition call_of (ast : bool) (msg : Message) (query : bytes) (qtype : QueryType) (elapsed : Duration) (pq : option ParsedQuery) : call :=
  {| call_job := {| job_msgType := mType msg; job_payload := mPayload msg; job_query := query; job_primaryDur := elapsed |};
     call_type := qtype; call_tables := match query_tables ast query pq with Ok ts => ts | _ => [] end |}.

(** The mirror, its workers that wait and the jobs of those that run; and the history: the
    calls, the jobs taken and the comparisons made. *)
Record System := {
  mir : Mirror;
  waiting : nat;
  running : list job;
  calls : list call;
  taken : list job;
  comparisons : list (bytes * (Duration * Duration))
}.

Definition boot (p : pool_loc) (cfg : Config) : System :=
  {| mir := New p cfg; waiting := Z.to_nat (Workers (with_defaults cfg)); running := []; calls := []; taken := []; comparisons := [] |}.

(** A worker that waits takes the next job, or returns once [done] is closed: when both are
    possible, the select takes any. *)
Inductive step : System -> System -> Prop :=
| St_query ast msg query qtype elapsed pq m s :
    mirrorQuery ast (mir s) msg query qtype elapsed pq = Ok m ->
    step s {| mir := m; waiting := waiting s; running := running s; calls := calls s ++ [call_of ast msg query qtype elapsed pq];
              taken := taken s; comparisons := comparisons s |}
| St_take j q n s :
    workCh (mir s) = j :: q -> waiting s = S n ->
    step s {| mir := with_queue (mir s) q; waiting := n; running := j :: running s; calls := calls s; taken := taken s ++ [j];
              comparisons := comparisons s |}
| St_finish j l start now w r w' s :
    running s ≡ₚ j :: l -> sh w = mir s -> execute start now j w = (r, w') ->
    step s {| mir := sh w'; waiting := S (waiting s); running := l; calls := calls s; taken := taken s;
              comparisons := comparisons s ++ (if decide (m_sent (sh w') = m_sent (mir s)) then [] else comparison start now (mir s) j) |}
| St_exit n s :
    m_done (mir s) = true -> waiting s = S n ->
    step s {| mir := mir s; waiting := n; running := running s; calls := calls s; taken := taken s; comparisons := comparisons s |}
| St_close s :
    step s {| mir := Close (mir s); waiting := waiting s; running := running s; calls := calls s; taken := taken s; comparisons := comparisons s |}.

(** The calls the configuration lets through. *)
Definition admits (m : Mirror) (c : call) : Prop :=
  (IsReadOnly m = true -> call_type c <> QueryWrite) /\ MatchesTables m (call_tables c) = true.

#[local] Instance admits_dec m c : Decision (admits m c).
Proof. unfold admits. apply _. Defined.

Record inv (m0 : Mirror) (s : System) : Prop := {
  inv_cfg : m_cfg (mir s) = m_cfg m0;
  inv_tables : m_tables (mir s) = m_tables m0;
  inv_queue : Z.of_nat (length (workCh (mir s))) <= BufferSize (m_cfg m0);
  inv_workers : Z.of_nat (waiting s + length (running s)) <= Workers (m_cfg m0);
  inv_jobs : exists adm, adm `sublist_of` filter (admits m0) (calls s) /\ call_job <$> adm = taken s ++ workCh (mir s) /\
    Z.of_nat (length (filter (admits m0) (calls s))) = Z.of_nat (length adm) + m_dropped (mir s);
  inv_taken : Z.of_nat (length (taken s)) = Z.of_nat (length (running s)) + m_sent (mir s) + m_errors (mir s);
  inv_counts : 0 <= m_dropped (mir s) /\ 0 <= m_sent (mir s) /\ 0 <= m_errors (mir s);
  inv_compared : compared (m_stats (mir s)) (comparisons s);
  inv_comparisons : Z.of_nat (length (comparisons s)) <= m_sent (mir s)
}.

Lemma boot_inv p cfg : inv (New p cfg) (boot p cfg).
Proof.
  split; cbn; try done.
  - destruct (Z.leb_spec (BufferSize cfg) 0); lia.
  - destruct (Z.leb_spec (Workers cfg) 0); lia.
  - by exists [].
  - apply tracked_empty.
Qed.

Lemma inv_bound m0 s : inv m0 s ->
  Z.of_nat (length (running s)) + m_sent (mir s) + m_errors (mir s) + Z.of_nat (length (workCh (mir s))) + m_dropped (mir s) <= Z.of_nat (length (calls s)).
Proof.
  intros []. destruct inv_jobs0 as (adm & Hsub & Hj & Hd). apply (f_equal length) in Hj. rewrite length_fmap, length_app in Hj.
  pose proof (length_filter (admits m0) (calls s)). lia.
Qed.

Lemma step_calls s s' : step s s' -> (length (calls s) <= length (calls s'))%nat.
Proof. destruct 1; cbn; rewrite ?length_app; lia. Qed.

Lemma mirrorQuery_spec ast m msg query qtype elapsed pq m' :
  mirrorQuery ast m msg query qtype elapsed pq = Ok m' ->
  let c := call_of ast msg query qtype elapsed pq in
  (admits m c /\ m' = Send m (mType msg) (mPayload msg) query elapsed) \/ (~ admits m c /\ m' = m).
Proof.
  unfold mirrorQuery, admits, call_of. cbn. destruct (IsReadOnly m); cbn [andb].
  - case_bool_decide as E; [intros [= <-]; right; split; [tauto|done]|].
    destruct (query_tables ast query pq) as [ts| |]; cbn [res_bind]; [|done..]. destruct (MatchesTables m ts); intros [= <-]; [by left|right; split; [|done]; by intros [_ ?]].
  - destruct (query_tables ast query pq) as [ts| |]; cbn [res_bind]; [|done..]. destruct (MatchesTables m ts); intros [= <-]; [by left|right; split; [|done]; by intros [_ ?]].
Qed.

Lemma admits_same m m' c : m_cfg m = m_cfg m' -> m_tables m = m_tables m' -> admits m c <-> admits m' c.
Proof. unfold admits, IsReadOnly, MatchesTables. by intros -> ->. Qed.

Lemma query_inv m0 s c m :
  Z.of_nat (length (calls s ++ [c])) < 2 ^ 63 -> inv m0 s ->
  (admits (mir s) c /\ m = Send (mir s) (job_msgType (call_job c)) (job_payload (call_job c)) (job_query (call_job c)) (job_primaryDur (call_job c))) \/
  (~ admits (mir s) c /\ m = mir s) ->
  inv m0 {| mir := m; waiting := waiting s; running := running s; calls := calls s ++ [c]; taken := taken s; comparisons := comparisons s |}.
Proof.
  intros Hlen Hi Hm. pose proof (inv_bound _ _ Hi) as Hb. destruct Hi as [Hcfg Htab Hq Hw (adm & Hsub & Hj & Hd) Ht Hc Hcmp Hcl].
  rewrite length_app in Hlen. cbn [length] in Hlen. assert (admits (mir s) c <-> admits m0 c) as Hadm by (by apply admits_same).
  destruct Hm as [[Ha ->]|[Ha ->]]; rewrite Hadm in Ha.
  - unfold Send. rewrite Hcfg. destruct (Z.ltb_spec (Z.of_nat (length (workCh (mir s)))) (BufferSize (m_cfg m0))).
    + split; cbn; try done; [rewrite length_app; cbn; lia|]. exists (adm ++ [c]). rewrite list.filter_app, filter_cons_True, filter_nil by done.
      split_and!; [by apply sublist_app|by rewrite fmap_app, Hj, <- app_assoc; destruct c as [[]]|rewrite !length_app; cbn; lia].
    + split; cbn; rewrite ?Z.add_0_r, ?(wrapS_small 64) by lia; try done; [|lia]. exists adm. rewrite list.filter_app, filter_cons_True, filter_nil by done.
      split_and!; [by apply sublist_inserts_r|done|rewrite !length_app; cbn; lia].
  - split; cbn; try done. exists adm. rewrite list.filter_app, filter_cons_False, filter_nil, app_nil_r by done. by split_and!.
Qed.

Lemma finish_inv m0 s j l start now w r w' :
  Z.of_nat (length (calls s)) < 2 ^ 63 -> inv m0 s -> running s ≡ₚ j :: l -> sh w = mir s -> execute start now j w = (r, w') ->
  inv m0 {| mir := sh w'; waiting := S (waiting s); running := l; calls := calls s; taken := taken s;
            comparisons := comparisons s ++ (if decide (m_sent (sh w') = m_sent (mir s)) then [] else comparison start now (mir s) j) |}.
Proof.
  intros Hlen Hi Hp Hs He. pose proof (inv_bound _ _ Hi) as Hb. destruct Hi as [Hcfg Htab Hq Hw (adm & Hsub & Hj & Hd) Ht Hc Hcmp Hcl].
  apply Permutation_length in Hp as Hr. cbn in Hr. rewrite <- Hs in Hcmp.
  pose proof (execute_runs start now j (comparisons s) w Hcmp ltac:(lia)) as Hw'. unfold wp in Hw'. rewrite He in Hw'.
  destruct Hw' as (_ & _ & evs & ok & _ & _ & sc & -> & Hsc). rewrite Hs in Hsc |- *.
  assert (m_sent (with_stats (count (mir s) 0 (if ok then 1 else 0) (if ok then 0 else 1)) sc) = m_sent (mir s) + if ok then 1 else 0) as Esent
    by (cbn; destruct ok; rewrite wrapS_small; lia).
  assert (m_errors (with_stats (count (mir s) 0 (if ok then 1 else 0) (if ok then 0 else 1)) sc) = m_errors (mir s) + if ok then 0 else 1) as Eerr
    by (cbn; destruct ok; rewrite wrapS_small; lia).
  assert (m_dropped (with_stats (count (mir s) 0 (if ok then 1 else 0) (if ok then 0 else 1)) sc) = m_dropped (mir s)) as Edrop
    by (cbn; rewrite wrapS_small; lia).
  assert ((if decide (m_sent (with_stats (count (mir s) 0 (if ok then 1 else 0) (if ok then 0 else 1)) sc) = m_sent (mir s)) then [] else comparison start now (mir s) j) =
          if ok then comparison start now (mir s) j else []) as Ecmp by (rewrite Esent; destruct ok; [rewrite decide_False by lia|rewrite decide_True by lia]; done).
  rewrite Ecmp. split; cbn [mir waiting running calls taken comparisons]; rewrite ?Esent, ?Eerr, ?Edrop; try done; try lia.
  - exists adm. by split_and!.
  - destruct ok; lia.
  - destruct ok; lia.
  - rewrite length_app. unfold comparison. destruct ok, (Compare (m_cfg (mir s))); cbn; lia.
Qed.

Lemma mirror_step_inv m0 s s' : Z.of_nat (length (calls s')) < 2 ^ 63 -> inv m0 s -> step s s' -> inv m0 s'.
Proof.
  intros Hlen Hi Hst. destruct Hst as [ast msg query qtype elapsed pq m s Hm|j q n s Hq' Hn|j l start now w r w' s Hp Hs He|n s Hd' Hn|s]; cbn [calls] in *.
  - apply query_inv; [done..|]. by apply mirrorQuery_spec in Hm.
  - destruct Hi as [Hcfg Htab Hq Hw (adm & Hsub & Hj & Hd) Ht Hc Hcmp Hcl]. rewrite Hq' in *. cbn in Hq.
    split; cbn; rewrite ?length_app; cbn; try done; try lia. exists adm. rewrite Hj, <- app_assoc. by split_and!.
  - by eapply finish_inv.
  - destruct Hi as [Hcfg Htab Hq Hw (adm & Hsub & Hj & Hd) Ht Hc Hcmp Hcl]. split; cbn; try done; [lia|by exists adm].
  - destruct Hi as [Hcfg Htab Hq Hw (adm & Hsub & Hj & Hd) Ht Hc Hcmp Hcl]. split; cbn; try done. by exists adm.
Qed.

Lemma mirror_reachable p cfg s : rtc step (boot p cfg) s -> Z.of_nat (length (calls s)) < 2 ^ 63 -> inv (New p cfg) s.
Proof.
  revert s. apply (rtc_ind_r (fun s => Z.of_nat (length (calls s)) < 2 ^ 63 -> inv (New p cfg) s)); [intros _; apply boot_inv|]. intros s s' Hr Hst IH Hlen.
  eapply mirror_step_inv; [done| |done]. apply IH. pose proof (step_calls _ _ Hst). lia.
Qed.

(** C30: mirroring loses no query silently and cannot hurt the primary: whatever the clients and
    the mirror database do, the queue never exceeds its buffer and no more jobs run than there
    are workers; the jobs run and waiting are, in order, calls the mode and the table filter
    let through (in read-only mode no write), and each call that was let through is waiting, running,
    sent, an error or dropped, as counted. A job a worker takes ends without a panic, gives its
    connection back exactly once (to be used again only after a complete response), sends
    nothing to a client and is counted once. *)
Theorem mirror_accounts p cfg s :
  rtc step (boot p cfg) s -> Z.of_nat (length (calls s)) < 2 ^ 63 ->
  let m := mir s in
  (Z.of_nat (length (workCh m)) <= BufferSize (with_defaults cfg) /\ Z.of_nat (length (running s)) <= Workers (with_defaults cfg)) /\
  (exists adm, adm `sublist_of` filter (admits (New p cfg)) (calls s) /\ call_job <$> adm = taken s ++ workCh m) /\
  Z.of_nat (length (filter (admits (New p cfg)) (calls s))) =
    Z.of_nat (length (workCh m)) + Z.of_nat (length (running s)) + m_sent m + m_errors m + m_dropped m /\
  forall j start now w, j ∈ running s -> sh w = m -> exists w' evs ok, execute start now j w = (Ok tt, w') /\ executed j w evs ok /\ trace w' = trace w ++ evs /\ cin w' = cin w.
Proof.
  intros Hr Hlen. pose proof (mirror_reachable _ _ _ Hr Hlen) as Hi. pose proof (inv_bound _ _ Hi) as Hb.
  destruct Hi as [Hcfg Htab Hq Hw (adm & Hsub & Hj & Hd) Ht Hc Hcmp Hcl]. split_and!; [done|change (m_cfg (New p cfg)) with (with_defaults cfg) in Hw; lia|by exists adm| |].
  - apply (f_equal length) in Hj. rewrite length_fmap, length_app in Hj. lia.
  - intros j start now w Hin Hs. rewrite <- Hs in Hcmp. assert (0 < length (running s))%nat by (destruct (running s); [by apply elem_of_nil in Hin|cbn; lia]). pose proof (execute_runs start now j (comparisons s) w Hcmp ltac:(lia)) as Hw'. unfold wp in Hw'.
    destruct (execute start now j w) as [r w']. destruct Hw' as (-> & Hi & evs & ok & Hex & Htr & _). by exists w', evs, ok.
Qed.

(** the comparison statistics are of the same executions on both sides: after any run each
    pattern is listed once, by descending count; its count is that of its compared executions;
    its medians are the lower medians, on the primary and on the mirror, of the last
    [maxSamples] of them; and a regression is reported exactly when the mirror's exceeds twice
    the primary's. *)
Theorem Stats_compare p cfg s :
  rtc step (boot p cfg) s -> Z.of_nat (length (calls s)) < 2 ^ 63 ->
  exists l, snapshot_stats (m_stats (mir s)) = Ok l /\ StronglySorted most_frequent l /\
    (qs_Pattern <$> l) ≡ₚ (map_to_list (m_stats (mir s))).*1 /\
    Forall (fun qs => reports qs (events_of (qs_Pattern qs) (comparisons s))) l.
Proof.
  intros Hr Hlen. destruct (mirror_reachable _ _ _ Hr Hlen) as [_ _ _ _ _ _ _ Hcmp _]. unfold snapshot_stats.
  destruct (snapshot_all_reports (map_to_list (m_stats (mir s))) (fun k => events_of k (comparisons s))) as (ss & -> & Hk & Hs).
  { apply list.Forall_forall. intros [k ps] Hin%elem_of_map_to_list. by apply (tracked_stats _ _ _ _ Hcmp). }
  cbn [res_bind]. eexists. split; [done|]. assert (merge_sort most_frequent ss ≡ₚ ss) as Hp by apply merge_sort_Permutation. split_and!.
  - apply StronglySorted_merge_sort; apply _.
  - by rewrite Hp, Hk.
  - by rewrite Hp.
Qed.
End System.

Module Examples.
#[local] Existing Instance ascii_case.
#[local] Instance no_trees : PgQuery := {| pg_parse := fun _ => None; pg_scan_comments := fun _ => None |}.
#[local] Instance no_normalizer : Normalizer := {| pg_normalize := fun _ => None |}.

Definition cfg0 : Config := {| Addr := $"shadow:5432"; Mode := []; Tables := []; Compare := true; Workers := 1; BufferSize := 1 |}.
Definition select_one : Message := {| mType := Msg.Query; mPayload := $"SELECT 1" ++ [x00]; mRaw := None |}.
Definition conn0 : Pool.Conn := Relay.Examples.conn0.

(** The mirror database answers with one ReadyForQuery. *)
Definition world0 (m : Mirror) : World Mirror :=
  {| cin := []; bin := {[Pool.conn_id conn0 := WriteMessage Msg.ReadyForQuery ["I"%byte]]}; faults := [];
     grants := fun _ _ => Some conn0; trace := []; sh := m |}.

(** Two reads and a write are offered to a queue of one with one worker, which runs the first. *)
Definition offers : list (bytes * QueryType) := [($"SELECT 1", QueryRead); ($"DELETE FROM t", QueryWrite)].

Definition offer (s : System) (o : bytes * QueryType) : System :=
  {| mir := match mirrorQuery false (mir s) select_one o.1 o.2 1000000 None with Ok m => m | _ => mir s end; waiting := waiting s; running := running s;
     calls := calls s ++ [call_of false select_one o.1 o.2 1000000 None]; taken := taken s; comparisons := comparisons s |}.
Definition take_job (s : System) : System :=
  {| mir := with_queue (mir s) (tl (workCh (mir s))); waiting := waiting s - 1; running := take 1 (workCh (mir s)) ++ running s; calls := calls s;
     taken := taken s ++ take 1 (workCh (mir s)); comparisons := comparisons s |}.
Definition finish_job (s : System) : System :=
  match running s with
  | [] => s
  | j :: l =>
      let m := sh (execute 0 5000000 j (world0 (mir s))).2 in
      {| mir := m; waiting := S (waiting s); running := l; calls := calls s; taken := taken s;
         comparisons := comparisons s ++ (if decide (m_sent m = m_sent (mir s)) then [] else comparison 0 5000000 (mir s) j) |}
  end.

Definition busy : System := fold_left offer [($"SELECT 2", QueryRead); ($"SELECT 3", QueryRead)] (take_job (fold_left offer offers (boot 0%nat cfg0))).

Lemma offer_step s o : (exists m, mirrorQuery false (mir s) select_one o.1 o.2 1000000 None = Ok m) -> step s (offer s o).
Proof. intros [m E]. unfold offer. rewrite E. by eapply St_query. Qed.

Lemma take_step s : workCh (mir s) <> [] -> waiting s <> 0%nat -> step s (take_job s).
Proof.
  intros Hq Hw. unfold take_job. destruct (workCh (mir s)) as [|j q] eqn:E; [done|]. destruct (waiting s) as [|n] eqn:En; [done|].
  cbn. rewrite Nat.sub_0_r. by eapply St_take.
Qed.

Lemma busy_reachable : rtc step (boot 0%nat cfg0) busy.
Proof.
  unfold busy, offers. cbn [fold_left].
  do 2 (eapply rtc_r; [|apply offer_step; eexists; by vm_compute]). eapply rtc_r; [|apply take_step; by vm_compute].
  do 2 (eapply rtc_r; [|apply offer_step; eexists; by vm_compute]). apply rtc_refl.
Qed.

Lemma mirror_accounts_witness :
  (length (workCh (mir busy)), length (running busy), m_dropped (mir busy)) = (1%nat, 1%nat, 1) /\
  Z.of_nat (length (filter (admits (New 0%nat cfg0)) (calls busy))) =
    Z.of_nat (length (workCh (mir busy))) + Z.of_nat (length (running busy)) + m_sent (mir busy) + m_errors (mir busy) + m_dropped (mir busy).
Proof. split; [by vm_compute|]. by destruct (mirror_accounts 0%nat cfg0 busy busy_reachable eq_refl) as (_ & _ & H & _). Defined.

Definition compared_once : System := finish_job busy.

Lemma compared_once_reachable : rtc step (boot 0%nat cfg0) compared_once.
Proof.
  eapply rtc_r; [apply busy_reachable|].
  exact (St_finish (hd {| job_msgType := x00; job_payload := []; job_query := []; job_primaryDur := 0 |} (running busy)) [] 0 5000000
           (world0 (mir busy)) _ _ busy (Permutation_refl _) eq_refl (surjective_pairing _)).
Qed.

(** The query took one millisecond on the primary and five on the mirror. *)
Lemma Stats_compare_witness : exists l,
  snapshot_stats (m_stats (mir compared_once)) = Ok l /\ List.map (fun s => (qs_Pattern s, qs_Count s, Regression s)) l = [($"SELECT 1", 1, true)] /\
  Forall (fun qs => reports qs (events_of (qs_Pattern qs) (comparisons compared_once))) l.
Proof.
  destruct (Stats_compare 0%nat cfg0 compared_once compared_once_reachable eq_refl) as (l & E & _ & _ & H). exists l. split_and!; [done| |done].
  assert (match snapshot_stats (m_stats (mir compared_once)) with
          | Ok l => List.map (fun s => (qs_Pattern s, qs_Count s, Regression s)) l = [($"SELECT 1", 1, true)] | _ => False end) as Hl by (by vm_compute).
  by rewrite E in Hl.
Defined.
End Examples.
