(* ===== verification/Redact.v ===== *)
(** * Redaction of SQL (internal/redact/redact.go)

    What of a query reaches logs, traces and audit events. [pg_query.Normalize] and
    [pg_query.Fingerprint] are parameters; the regular expression used when a query does not
    parse is modelled by a scanner that finds its leftmost matches. *)

From S2P Require Import Prelude GoStrings Digest.

Local Open Scope nat_scope.

(** ** The regular expression: a single-quoted text, a double-quoted text, or a decimal number
    between word boundaries

    All bytes the expression names are ASCII, and so are the word characters of [\b]: matching
    runes and matching bytes is the same. *)

Definition digit (b : byte) : bool := let z := bz b in ((48 <=? z) && (z <=? 57))%Z.
Definition word (b : byte) : bool :=
  let z := bz b in (digit b || ((65 <=? z) && (z <=? 90)) || ((97 <=? z) && (z <=? 122)) || (z =? 95))%Z.
Definition is_quote (b : byte) : bool := (b =b "'") || (b =b x22).

Definition starts_word (s : bytes) : bool := match s with [] => false | b :: _ => word b end.

(** How many digits [s] starts with. *)
Fixpoint digits (s : bytes) : nat := match s with b :: t => if digit b then S (digits t) else 0 | [] => 0 end.

(** The length of the shortest prefix of [s] that ends in [q]. *)
Fixpoint upto_quote (q : byte) (s : bytes) : option nat :=
  match s with [] => None | b :: t => if Byte.eqb b q then Some 1 else S <$> upto_quote q t end.

(** The length of digits with an optional fraction before a word boundary. Both repetitions take all digits there are:
    with fewer, a digit would follow and no boundary. *)
Definition number (s : bytes) : option nat :=
  let n := digits s in
  if n =? 0 then None
  else
    match drop n s with
    | b :: t =>
        if (b =b ".") then
          let k := digits t in
          if negb (k =? 0) && negb (starts_word (drop k t)) then Some (n + 1 + k) else Some n
        else if word b then None else Some n
    | [] => Some n
    end.

(** The length of the match at the start of [s]; [prev] tells whether a word character
    precedes it. *)
Definition match_here (prev : bool) (s : bytes) : option nat :=
  match s with
  | [] => None
  | b :: t =>
      if is_quote b then S <$> upto_quote b t
      else if digit b && negb prev then number s else None
  end.

(** [ReplaceAllString(s, "?")]; [skip] bytes belong to the last match. *)
Fixpoint replace (skip : nat) (prev : bool) (s : bytes) : bytes :=
  match s with
  | [] => []
  | b :: t =>
      match skip with
      | S k => replace k prev t
      | O =>
          match match_here prev s with
          | Some n => "?"%byte :: replace (n - 1) (word b) t
          | None => b :: replace 0 (word b) t
          end
      end
  end.

Definition regexFallback (query : bytes) : bytes := replace 0 false query.

(** ** Policies *)

(** [pg_query.Fingerprint]: [None] is an error. *)
Class Fingerprinter := { pg_fingerprint : bytes -> option bytes }.

Definition truncate (q : bytes) (maxLen : nat) : bytes := if length q <=? maxLen then q else take maxLen q ++ $"...".

Section Policies.
Context `{Normalizer} `{Fingerprinter}.

Definition SQL (query policy : bytes) : bytes :=
  if decide (policy = $"none") then query
  else if decide (policy = $"full") then
    match pg_fingerprint query with
    | None => $"[unparseable query]"
    | Some fp => $"[fingerprint:" ++ fp ++ $"]"
    end
  else
    match pg_normalize query with
    | None => regexFallback query
    | Some normalized => normalized
    end.

Definition SQLTruncated (query policy : bytes) (maxLen : nat) : bytes := truncate (SQL query policy) maxLen.

Definition ForLog (query policy : bytes) : bytes := SQLTruncated query policy 200.
End Policies.

(** ** The scanner in parts *)

Lemma replace_skip k p s : replace k p s = replace 0 p (drop k s).
Proof. revert k. induction s as [|b t IH]; intros [|k]; cbn [replace drop]; try done. Qed.

(** The scanner's state after [s]. *)
Definition ends_word (p : bool) (s : bytes) : bool := fold_left (fun _ b => word b) s p.

(** Quotes are paired. *)
Inductive complete : bytes -> Prop :=
| complete_nil : complete []
| complete_other b t : is_quote b = false -> complete t -> complete (b :: t)
| complete_quoted q body t : is_quote q = true -> q ∉ body -> complete t -> complete (q :: body ++ q :: t).

Definition plain (b : byte) : bool := negb (word b) && negb (b =b ".").

(** No number reaches from [s] into [t]. *)
Definition gap (s t : bytes) : Prop :=
  t = [] \/ (exists b t', t = b :: t' /\ plain b = true) \/ (exists s' b, s = s' ++ [b] /\ plain b = true).

Lemma upto_quote_app q body t : q ∉ body -> upto_quote q (body ++ q :: t) = Some (S (length body)).
Proof.
  induction body as [|b body IH]; intros Hq; cbn; [by rewrite (Byte.byte_dec_lb eq_refl)|].
  rewrite not_elem_of_cons in Hq. destruct Hq as [Hne Hq]. destruct (byte_eqb_spec b q); [by subst|]. by rewrite IH.
Qed.

Lemma digit_word b : digit b = true -> word b = true.
Proof. unfold word. by intros ->. Qed.

Lemma is_quote_cases q : is_quote q = true -> q = "'"%byte \/ q = x22.
Proof. unfold is_quote. destruct (byte_eqb_spec q "'"); [by left|]. destruct (byte_eqb_spec q x22); [by right|done]. Qed.

Lemma digit_not_quote b : digit b = true -> is_quote b = false.
Proof. intros Hd. destruct (is_quote b) eqn:E; [|done]. by destruct (is_quote_cases _ E) as [->| ->]. Qed.

Lemma plain_not_digit b : plain b = true -> digit b = false /\ word b = false /\ (b =b ".") = false.
Proof. unfold plain. destruct (word b) eqn:E, (b =b "."); try done. intros _. split_and!; try done. destruct (digit b) eqn:Ed; [|done]. by rewrite (digit_word _ Ed) in E. Qed.

Lemma digit_run_le s : digits s <= length s.
Proof. induction s as [|b t IH]; cbn; [done|]. destruct (digit b); lia. Qed.

Lemma digits_take s : Forall (fun b => digit b = true) (take (digits s) s).
Proof. induction s as [|b t IH]; cbn; [constructor|]. destruct (digit b) eqn:E; cbn; by constructor. Qed.

Lemma digits_app s t : digits s < length s \/ (match t with [] => True | b :: _ => digit b = false end) -> digits (s ++ t) = digits s.
Proof.
  induction s as [|b s IH]; cbn; intros Hst.
  - destruct Hst as [?|Hst]; [lia|]. destruct t as [|c t]; cbn; [done|]. by rewrite Hst.
  - destruct (digit b); [|done]. f_equal. apply IH. destruct Hst; [left; lia|by right].
Qed.

Lemma digits_all s : digits s = length s -> Forall (fun b => digit b = true) s.
Proof. intros E. pose proof (digits_take s) as H. by rewrite E, firstn_all in H. Qed.

(** What a number consists of. *)
Lemma number_spec s n : number s = Some n ->
  exists tok rest, s = tok ++ rest /\ length tok = n /\ Forall (fun b => is_quote b = false) tok /\ exists tok' d, tok = tok' ++ [d] /\ digit d = true.
Proof.
  assert (forall s, digits s <> 0 -> exists tok' d, take (digits s) s = tok' ++ [d] /\ digit d = true) as Hlast.
  { intros l Hl. pose proof (digits_take l) as Hd. destruct (take (digits l) l) as [|x tok] eqn:E using rev_ind.
    - apply (f_equal length) in E. rewrite length_take in E. pose proof (digit_run_le l). cbn in E. lia.
    - exists tok, x. split; [done|]. apply Forall_app in Hd as [_ Hd]. by inversion Hd. }
  assert (forall l, Forall (fun b => is_quote b = false) (take (digits l) l)) as Hq by (intros l; eapply Forall_impl; [exact digit_not_quote|apply digits_take]).
  unfold number. destruct (Nat.eqb_spec (digits s) 0) as [|Hn]; [done|]. pose proof (digit_run_le s) as Hle.
  assert (forall m, Some (digits s) = Some m -> exists tok rest, s = tok ++ rest /\ length tok = m /\ Forall (fun b => is_quote b = false) tok /\ exists tok' d, tok = tok' ++ [d] /\ digit d = true) as Hint.
  { intros m [= <-]. exists (take (digits s) s), (drop (digits s) s). split_and!; [by rewrite take_drop|rewrite length_take; lia|apply Hq|by apply Hlast]. }
  destruct (drop (digits s) s) as [|b t] eqn:Ed; [apply Hint|]. destruct (byte_eqb_spec b ".") as [->|]; [|destruct (word b); [done|apply Hint]].
  destruct (Nat.eqb_spec (digits t) 0) as [|Hk]; cbn [negb andb]; [apply Hint|]. destruct (starts_word _); cbn [negb]; [apply Hint|]. intros [= <-].
  destruct (Hlast t Hk) as (tok' & d & Et & Hd). exists (take (digits s) s ++ "."%byte :: take (digits t) t), (drop (digits t) t). split_and!.
  - rewrite <- app_assoc. cbn. by rewrite take_drop, <- Ed, take_drop.
  - rewrite length_app. cbn. rewrite !length_take. pose proof (digit_run_le t). lia.
  - apply Forall_app. split; [apply Hq|]. constructor; [done|apply Hq].
  - exists (take (digits s) s ++ "."%byte :: tok'), d. split; [|done]. rewrite Et, <- app_assoc. done.
Qed.

(** A plain byte follows. *)
Lemma number_app_plain s b t : plain b = true -> number (s ++ b :: t) = number s.
Proof.
  intros Hp. destruct (plain_not_digit _ Hp) as (Hd & Hw & Hdot). assert (forall u, digits (u ++ b :: t) = digits u) as Hdig by (intros u; apply digits_app; by right).
  unfold number. rewrite Hdig. pose proof (digit_run_le s). destruct (digits s =? 0); [done|]. rewrite drop_app_le by done.
  destruct (drop (digits s) s) as [|c u]; cbn [app]; [by rewrite Hdot, Hw|]. destruct (c =b "."); [|done]. rewrite Hdig.
  pose proof (digit_run_le u). rewrite drop_app_le by done. destruct (drop (digits u) u); cbn; [by rewrite Hw|done].
Qed.

Lemma digits_before_plain u b : plain b = true -> digits (u ++ [b]) < length (u ++ [b]).
Proof. intros Hp. destruct (plain_not_digit _ Hp) as (Hd & _). rewrite digits_app by by right. pose proof (digit_run_le u). rewrite length_app. cbn. lia. Qed.

(** A plain byte is the last one. *)
Lemma number_ends_plain s b t : plain b = true -> number ((s ++ [b]) ++ t) = number (s ++ [b]).
Proof.
  intros Hp. destruct (plain_not_digit _ Hp) as (Hd & Hw & Hdot). unfold number. pose proof (digits_before_plain s b Hp) as Hlt.
  rewrite (digits_app (s ++ [b])) by by left. destruct (digits (s ++ [b]) =? 0); [done|]. rewrite drop_app_le by lia.
  destruct (drop (digits (s ++ [b])) (s ++ [b])) as [|c u] eqn:Ed; [apply (f_equal length) in Ed; rewrite length_drop in Ed; cbn in Ed; lia|]. cbn [app].
  destruct (c =b ".") eqn:Ec; [|done].
  assert (exists u', u = u' ++ [b]) as [u' ->].
  { destruct u as [|x u] using rev_ind; [|exists u].
    - exfalso. pose proof (take_drop (digits (s ++ [b])) (s ++ [b])) as E. rewrite Ed in E. apply app_inj_tail in E as [_ ->]. congruence.
    - pose proof (take_drop (digits (s ++ [b])) (s ++ [b])) as E. rewrite Ed, app_comm_cons, app_assoc in E. by apply app_inj_tail in E as [_ ->]. }
  pose proof (digits_before_plain u' b Hp). rewrite digits_app by by left. rewrite drop_app_le by lia.
  destruct (drop (digits (u' ++ [b])) (u' ++ [b])) eqn:Eu; [apply (f_equal length) in Eu; rewrite length_drop in Eu; cbn in Eu; lia|done].
Qed.

Lemma number_app s t : gap s t -> number (s ++ t) = number s.
Proof.
  intros [->|[(b & t' & -> & Hp)|(s' & b & -> & Hp)]]; [by rewrite app_nil_r|by apply number_app_plain|by apply number_ends_plain].
Qed.

Lemma complete_drop tok s : Forall (fun b => is_quote b = false) tok -> complete (tok ++ s) -> complete s.
Proof. induction 1 as [|b tok Hb _ IH]; cbn; [done|]. inversion 1; [by apply IH|congruence]. Qed.

Lemma ends_word_snoc p s b : ends_word p (s ++ [b]) = word b.
Proof. unfold ends_word. by rewrite fold_left_app. Qed.

Lemma ends_word_app p s t : ends_word p (s ++ t) = ends_word (ends_word p s) t.
Proof. apply fold_left_app. Qed.

Lemma gap_suffix s1 s2 t : s1 ++ s2 = [] \/ gap (s1 ++ s2) t -> s2 = [] \/ gap s2 t.
Proof.
  intros [[_ ->]%app_eq_nil|[->|[?|(s' & b & E & Hp)]]]; [by left|by right; left|by right; right; left|].
  destruct s2 as [|c s2] using rev_ind; [by left|]. rewrite app_assoc in E. apply app_inj_tail in E as [_ ->]. right. right. right. by exists s2, b.
Qed.

(** The scanner treats two texts separately when no literal reaches across. *)
Lemma replace_app p s t : complete s -> s = [] \/ gap s t -> replace 0 p (s ++ t) = replace 0 p s ++ replace 0 (ends_word p s) t.
Proof.
  remember (length s) as n eqn:Hn. revert p s Hn. induction n as [n IH] using lt_wf_ind. intros p s -> Hc Hg.
  destruct Hc as [|b s0 Hb Hc|q body s0 Hq Hbody Hc]; [done| |].
  - destruct Hg as [?|Hg]; [done|]. cbn [replace app match_here]. rewrite Hb.
    assert (s0 = [] \/ gap s0 t) as Hg0 by (apply (gap_suffix [b] s0); by right).
    assert (replace 0 (word b) (s0 ++ t) = replace 0 (word b) s0 ++ replace 0 (ends_word (word b) s0) t) as Hrest by (eapply IH; [|reflexivity|done..]; cbn; lia).
    destruct (digit b && negb p) eqn:Ed; [|by rewrite Hrest].
    rewrite (app_comm_cons s0 t b), number_app by done. destruct (number (b :: s0)) as [k|] eqn:Ek; [|by rewrite Hrest].
    destruct (number_spec _ _ Ek) as (tok & rest & E & Hl & Htok & tok' & d & -> & Hd). cbn [app]. f_equal.
    destruct tok' as [|b' tok']; injection E as E0 E1; subst; cbn [length] in *.
    + cbn [length app Nat.sub]. by rewrite Hrest.
    + set (tok := tok' ++ [d]) in *. cbn [length app Nat.sub]. rewrite Nat.sub_0_r, !(replace_skip (length tok)), <- app_assoc, !drop_app_length.
      assert (Forall (fun b => is_quote b = false) tok) as Hq by (by inversion Htok).
      rewrite (IH (length rest)); [|rewrite length_app; lia|done|by eapply complete_drop|by eapply gap_suffix].
      f_equal. f_equal. change (ends_word p (b' :: tok ++ rest)) with (ends_word (word b') (tok ++ rest)). rewrite ends_word_app. unfold tok at 1.
      rewrite ends_word_snoc, (digit_word _ Hd). apply andb_true_iff in Ed as [Ed _]. by rewrite (digit_word _ Ed).
  - assert (word q = false) as Hw by (by destruct (is_quote_cases _ Hq) as [->| ->]).
    cbn [replace app match_here]. rewrite Hq, <- app_assoc. cbn [app]. rewrite !upto_quote_app by done. cbn [fmap option_fmap option_map Nat.sub app]. f_equal.
    assert (forall u, body ++ q :: u = (body ++ [q]) ++ u) as Hu by (intros u; by rewrite <- app_assoc).
    rewrite !(replace_skip (S (length body))), (Hu (s0 ++ t)), (Hu s0), !drop_app_length' by (rewrite length_app; cbn; lia).
    erewrite IH; [| |reflexivity|done|]; [|cbn; rewrite !length_app; cbn; lia|].
    + f_equal. f_equal. rewrite (app_comm_cons (body ++ [q]) s0 q), ends_word_app, (app_comm_cons body [q] q), ends_word_snoc. by rewrite Hw.
    + eapply (gap_suffix (q :: body ++ [q])). cbn. rewrite <- app_assoc. exact Hg.
Qed.

(** ** What the output depends on *)

Inductive literal := Quoted (q : byte) (body : bytes) | Decimal (whole : bytes) (fraction : option bytes).

Definition render (l : literal) : bytes :=
  match l with
  | Quoted q body => q :: body ++ [q]
  | Decimal whole fraction => whole ++ match fraction with Some f => "."%byte :: f | None => [] end
  end.

Definition all_digits (s : bytes) : Prop := s <> [] /\ Forall (fun b => digit b = true) s.

Definition literal_ok (l : literal) : Prop :=
  match l with
  | Quoted q body => is_quote q = true /\ q ∉ body
  | Decimal whole fraction => all_digits whole /\ match fraction with Some f => all_digits f | None => True end
  end.

(** A query: texts that are followed by literals, and a last text. *)
Definition query_text (segs : list (bytes * literal)) (post : bytes) : bytes := concat ((fun s => s.1 ++ render s.2) <$> segs) ++ post.

Definition starts_plain (s : bytes) : Prop := match s with [] => True | b :: _ => plain b = true end.
Definition ends_plain (s : bytes) : Prop := exists s' b, s = s' ++ [b] /\ plain b = true.

(** Quotes are paired outside the literals, and numbers stand apart. *)
Fixpoint fits (segs : list (bytes * literal)) (post : bytes) : Prop :=
  match segs with
  | [] => True
  | (pre, l) :: segs' =>
      complete pre /\ literal_ok l /\
      (match l with Decimal _ _ => ends_plain pre /\ starts_plain (query_text segs' post) | Quoted _ _ => True end) /\
      fits segs' post
  end.

(** The same texts, and literals of the same kinds. *)
Definition same_kind (l l' : literal) : Prop :=
  match l, l' with Quoted _ _, Quoted _ _ => True | Decimal _ _, Decimal _ _ => True | _, _ => False end.
Definition same_shape : list (bytes * literal) -> list (bytes * literal) -> Prop := Forall2 (fun s s' => s.1 = s'.1 /\ same_kind s.2 s'.2).

Lemma digits_of s : Forall (fun b => digit b = true) s -> digits s = length s.
Proof. induction 1 as [|b s Hb _ IH]; cbn; [done|]. by rewrite Hb, IH. Qed.

Lemma number_decimal whole fraction rest : literal_ok (Decimal whole fraction) -> starts_plain rest ->
  number (render (Decimal whole fraction) ++ rest) = Some (length (render (Decimal whole fraction))).
Proof.
  intros [[Hne Hw] Hf] Hrest.
  assert (number (render (Decimal whole fraction)) = Some (length (render (Decimal whole fraction)))) as Hn.
  { unfold render, number. destruct fraction as [f|].
    - destruct Hf as [Hfne Hf]. rewrite digits_app by (by right). rewrite (digits_of _ Hw), drop_app_length, (digits_of _ Hf), drop_all. cbn.
      destruct whole; [done|]. destruct f; [done|]. cbn. f_equal. rewrite length_app. cbn. lia.
    - rewrite app_nil_r, (digits_of _ Hw), drop_all. by destruct whole. }
  destruct rest as [|b rest]; [by rewrite app_nil_r|]. by rewrite number_app_plain.
Qed.

Lemma replace_literal p l rest :
  literal_ok l -> (match l with Decimal _ _ => p = false /\ starts_plain rest | Quoted _ _ => True end) ->
  replace 0 p (render l ++ rest) = "?"%byte :: replace 0 (match l with Decimal _ _ => true | Quoted _ _ => false end) rest.
Proof.
  destruct l as [q body|whole fraction]; intros Hl Hc.
  - destruct Hl as [Hq Hbody]. cbn [render]. change ((q :: body ++ [q]) ++ rest) with (q :: (body ++ [q]) ++ rest). rewrite <- app_assoc. cbn [app replace match_here]. rewrite Hq, upto_quote_app by done.
    cbn [fmap option_fmap option_map Nat.sub]. rewrite (replace_skip (S (length body))). replace (body ++ q :: rest) with ((body ++ [q]) ++ rest) by (by rewrite <- app_assoc).
    rewrite drop_app_length' by (rewrite length_app; cbn; lia). f_equal. f_equal.
    by destruct (is_quote_cases _ Hq) as [->| ->].
  - destruct Hc as [-> Hrest]. pose proof (number_decimal _ _ _ Hl Hrest) as Hn. destruct Hl as [[Hne Hw] _].
    destruct (render (Decimal whole fraction)) as [|b t] eqn:E; [destruct whole; [done|by cbn in E]|].
    assert (digit b = true) as Hb by (destruct whole; [done|]; injection E as <- _; by inversion Hw).
    assert (is_quote b = false) as Hq by (by apply digit_not_quote).
    cbn [app replace match_here] in *. rewrite Hq, Hb. cbn [andb negb]. rewrite Hn. cbn [length Nat.sub]. rewrite Nat.sub_0_r, (replace_skip (length t)), drop_app_length.
    f_equal. by rewrite (digit_word _ Hb).
Qed.

(** The output: every literal is a question mark. *)
Fixpoint skeleton (p : bool) (segs : list (bytes * literal)) (post : bytes) : bytes :=
  match segs with
  | [] => replace 0 p post
  | (pre, l) :: segs' =>
      replace 0 p pre ++ "?"%byte :: skeleton (match l with Decimal _ _ => true | Quoted _ _ => false end) segs' post
  end.

Lemma ends_plain_word p s : ends_plain s -> ends_word p s = false.
Proof. intros (s' & b & -> & Hp). rewrite ends_word_snoc. by destruct (plain_not_digit _ Hp) as (_ & ? & _). Qed.

Lemma replace_rendered p segs post : fits segs post -> replace 0 p (query_text segs post) = skeleton p segs post.
Proof.
  revert p. induction segs as [|[pre l] segs IH]; intros p; [done|]. intros (Hc & Hl & Hn & Hf). unfold query_text. cbn. rewrite <- !app_assoc.
  change (concat ((fun s : bytes * literal => s.1 ++ render s.2) <$> segs) ++ post) with (query_text segs post).
  rewrite replace_app; [|done|].
  - f_equal. rewrite replace_literal; [by rewrite IH|done|]. destruct l; [done|]. destruct Hn as [He Hs]. split; [by apply ends_plain_word|done].
  - right. destruct l as [q body|whole fraction]; [|right; right; by destruct Hn as [? _]]. right. left. destruct Hl as [Hq _].
    exists q, ((body ++ [q]) ++ query_text segs post). split; [done|]. by destruct (is_quote_cases _ Hq) as [->| ->].
Qed.

Lemma skeleton_same p segs segs' post : same_shape segs segs' -> skeleton p segs post = skeleton p segs' post.
Proof.
  intros Hs. revert p. induction Hs as [|[pre l] [pre' l'] segs segs' [E K] _ IH]; intros p; [done|]. cbn in *. subst pre'. f_equal. f_equal. rewrite IH. by destruct l, l'.
Qed.

Section Hides.
Context `{Normalizer} `{Fingerprinter}.

(** C33: redaction hides literals also when the query does not parse: two queries that differ only
    in the contents of quoted texts and in the values of numbers are redacted to the same text,
    in which every such literal is a question mark; so are their forms for logs. The policy is one that redacts literals
    (neither none nor full), the quotes of the texts are paired ([fits]), and the numbers stand apart from letters, digits and
    dots. *)
Theorem redact_hides_literals segs segs' post policy :
  policy <> $"none" -> policy <> $"full" ->
  pg_normalize (query_text segs post) = None -> pg_normalize (query_text segs' post) = None ->
  fits segs post -> fits segs' post -> same_shape segs segs' ->
  SQL (query_text segs post) policy = skeleton false segs post /\
  SQL (query_text segs' post) policy = SQL (query_text segs post) policy /\
  ForLog (query_text segs' post) policy = ForLog (query_text segs post) policy.
Proof.
  intros P1 P2 N N' F F' Hs.
  assert (forall sg, pg_normalize (query_text sg post) = None -> fits sg post -> SQL (query_text sg post) policy = skeleton false sg post) as Hsql.
  { intros sg Hn Hf. unfold SQL. rewrite !decide_False by done. rewrite Hn. by apply replace_rendered. }
  unfold ForLog, SQLTruncated. rewrite !Hsql by done. by rewrite (skeleton_same _ _ _ _ Hs).
Qed.

(** What is written to a log is bounded. *)
Lemma length_truncate q n : length (truncate q n) <= n + 3.
Proof. unfold truncate. destruct (Nat.leb_spec (length q) n); [lia|]. rewrite length_app, length_take. cbn. lia. Qed.
End Hides.

Module Examples.
#[local] Instance no_normalizer : Normalizer := {| pg_normalize := fun _ => None |}.
#[local] Instance no_fingerprints : Fingerprinter := {| pg_fingerprint := fun _ => None |}.

Definition segs (name : bytes) (id : bytes) : list (bytes * literal) :=
  [($"SELEC * FROM users WHERE name = ", Quoted "'" name); ($" AND id = ", Decimal id None)].

Lemma segs_fit name id : "'"%byte ∉ name -> all_digits id -> fits (segs name id) [].
Proof.
  intros Hn Hi. repeat split; try done; try apply Hi.
  - by repeat (apply complete_other; [done|]); constructor.
  - by repeat (apply complete_other; [done|]); constructor.
  - by exists $" AND id =", " "%byte.
Qed.

Lemma redact_hides_literals_witness :
  query_text (segs $"bob" $"7") [] = $"SELEC * FROM users WHERE name = 'bob' AND id = 7" /\
  SQL $"SELEC * FROM users WHERE name = 'bob' AND id = 7" $"literals" = $"SELEC * FROM users WHERE name = ? AND id = ?" /\
  SQL $"SELEC * FROM users WHERE name = 'alice' AND id = 123" $"literals" = SQL $"SELEC * FROM users WHERE name = 'bob' AND id = 7" $"literals".
Proof.
  assert (forall name id, all_digits id -> "'"%byte ∉ name -> fits (segs name id) []) as Hf by (intros; by apply segs_fit).
  destruct (redact_hides_literals (segs $"bob" $"7") (segs $"alice" $"123") [] $"literals") as (H1 & H2 & _);
    [done|done|done|done|apply Hf; [by split; [|repeat constructor]|by apply (bool_decide_unpack _)]|apply Hf; [by split; [|repeat constructor]|by apply (bool_decide_unpack _)]|by repeat constructor|].
  split_and!; [done|exact H1|exact H2].
Defined.

(** Literals the fallback does not know stay: a quoted text that is not closed (such a query
    never parses), a dollar-quoted text, and a number next to a letter. *)
Example literals_kept :
  SQL $"SELECT 'secret" $"literals" = $"SELECT 'secret" /\
  SQL $"SELEC $$secret$$" $"literals" = $"SELEC $$secret$$" /\
  SQL $"SELEC 0x1f, 4e5, 1.5e3" $"literals" = $"SELEC 0x1f, 4e5, ?.5e3".
Proof. by vm_compute. Qed.
End Examples.
