(* ===== verification/AuditLog.v ===== *)
(** * The audit log (internal/audit/audit.go and [emitAuditEvent] of internal/proxy/helpers.go)

    Events go through a bounded channel to one goroutine, which logs them; each slow query
    starts a goroutine that notifies a webhook unless it was notified of that query recently. A
    third goroutine forgets notifications that are old enough. These goroutines are the steps
    of a system with a clock. The JSON encoding and the HTTP exchange are not modelled, only their outcome. *)

From S2P Require Import Prelude GoStrings Float64 Samples Digest Redact.

Local Open Scope Z_scope.

Record Event := {
  Timestamp : Time;
  User : bytes;
  SourceIP : bytes;
  Query : bytes;
  DurationMS : float64;
  Target : bytes;
  Cached : bool
}.

Record Config := {
  SlowQueryThreshold : Duration;
  LogAllQueries : bool;
  Webhook_Enabled : bool;
  Webhook_URL : bytes;
  DedupInterval : Duration
}.

Record Logger := {
  cfg : Config;
  eventCh : list Event;
  httpClient : bool;
  slowCount : Z;
  webhookSent : Z;
  webhookErr : Z;
  lastWebhook : gmap bytes Time;
  webhookInterval : Duration;
  stopped : bool
}.

Definition capacity : Z := 1024.

(** [cleanupWebhookDedup] panics when it is started with an interval that is not positive. *)
Definition New (c : Config) : res unit Logger :=
  let interval := if DedupInterval c =? 0 then Minute else DedupInterval c in
  if interval <=? 0 then Panic
  else Ok {| cfg := c; eventCh := []; httpClient := Webhook_Enabled c && negb (bool_decide (Webhook_URL c = []));
             slowCount := 0; webhookSent := 0; webhookErr := 0; lastWebhook := ∅; webhookInterval := interval; stopped := false |}.

Definition with_events (l : Logger) (q : list Event) : Logger :=
  {| cfg := cfg l; eventCh := q; httpClient := httpClient l; slowCount := slowCount l; webhookSent := webhookSent l; webhookErr := webhookErr l;
     lastWebhook := lastWebhook l; webhookInterval := webhookInterval l; stopped := stopped l |}.
Definition with_counts (l : Logger) (slow sent err : Z) : Logger :=
  {| cfg := cfg l; eventCh := eventCh l; httpClient := httpClient l; slowCount := slow; webhookSent := sent; webhookErr := err;
     lastWebhook := lastWebhook l; webhookInterval := webhookInterval l; stopped := stopped l |}.
Definition with_last (l : Logger) (m : gmap bytes Time) : Logger :=
  {| cfg := cfg l; eventCh := eventCh l; httpClient := httpClient l; slowCount := slowCount l; webhookSent := webhookSent l; webhookErr := webhookErr l;
     lastWebhook := m; webhookInterval := webhookInterval l; stopped := stopped l |}.

(** An event that does not fit is dropped. *)
Definition Log (l : Logger) (e : Event) : Logger :=
  if Z.of_nat (length (eventCh l)) <? capacity then with_events l (eventCh l ++ [e]) else l.

Definition Close (l : Logger) : Logger :=
  {| cfg := cfg l; eventCh := eventCh l; httpClient := httpClient l; slowCount := slowCount l; webhookSent := webhookSent l; webhookErr := webhookErr l;
     lastWebhook := lastWebhook l; webhookInterval := webhookInterval l; stopped := true |}.

Definition Stats (l : Logger) : Z * Z * Z := (slowCount l, webhookSent l, webhookErr l).

Definition truncateQuery (q : bytes) (maxLen : nat) : bytes := if (length q <=? maxLen)%nat then q else take maxLen q ++ $"...".

(** What is logged of an event. *)
Inductive line :=
| SlowLine (user sourceIP query : bytes) (durationMS : float64) (target : bytes) (cached : bool)
| QueryLine (user sourceIP query : bytes) (durationMS : float64) (target : bytes) (cached : bool).

Definition isSlowQuery (c : Config) (e : Event) : bool := f_leb (f_of_Z (Z.quot (SlowQueryThreshold c) 1000000)) (DurationMS e).

(** The logger, the lines written, and whether a goroutine for the webhook is started. *)
Definition handleEvent (l : Logger) (e : Event) : Logger * list line * bool :=
  if isSlowQuery (cfg l) e then
    (with_counts l (wrapS 64 (slowCount l + 1)) (webhookSent l) (webhookErr l),
     [SlowLine (User e) (SourceIP e) (truncateQuery (Query e) 500) (DurationMS e) (Target e) (Cached e)],
     httpClient l)
  else if LogAllQueries (cfg l) then
    (l, [QueryLine (User e) (SourceIP e) (truncateQuery (Query e) 500) (DurationMS e) (Target e) (Cached e)], false)
  else (l, [], false).

Definition queryKey (e : Event) : bytes := truncateQuery (Query e) 100.

(** The part of [sendWebhook] under the lock: whether the webhook is notified. *)
Definition sendWebhook_locked (now : Time) (l : Logger) (e : Event) : Logger * bool :=
  match lastWebhook l !! queryKey e with
  | Some last => if Since now last <? webhookInterval l then (l, false) else (with_last l (<[queryKey e := now]> (lastWebhook l)), true)
  | None => (with_last l (<[queryKey e := now]> (lastWebhook l)), true)
  end.

(** The rest of it: the status of the response, [None] when there was none. *)
Definition sendWebhook_result (l : Logger) (status : option Z) : Logger :=
  match status with
  | None => with_counts l (slowCount l) (webhookSent l) (wrapS 64 (webhookErr l + 1))
  | Some code =>
      if 400 <=? code then with_counts l (slowCount l) (webhookSent l) (wrapS 64 (webhookErr l + 1))
      else with_counts l (slowCount l) (wrapS 64 (webhookSent l + 1)) (webhookErr l)
  end.

(** One tick of [cleanupWebhookDedup]. *)
Definition cleanupWebhookDedup (now : Time) (l : Logger) : Logger :=
  with_last l (filter (fun kt => Since now kt.2 < webhookInterval l) (lastWebhook l)).

(** ** Events of the proxy (helpers.go) *)

Section Emit.
Context `{Normalizer} `{Fingerprinter}.

(** Nothing happens without a logger. *)
Definition emitAuditEvent (now : Time) (policy user remoteAddr : bytes) (l : option Logger) (query target : bytes) (elapsed : Duration) (cached : bool) : option Logger :=
  match l with
  | None => None
  | Some l =>
      Some (Log l {| Timestamp := now; User := user; SourceIP := remoteAddr; Query := Redact.SQL query policy;
                     DurationMS := durationMs elapsed; Target := target; Cached := cached |})
  end.
End Emit.

(** ** The goroutines *)

(** [pending] are the webhook goroutines that were started, [posting] those that talk to the
    webhook; [returned] tells that the event goroutine ended. The history: the events
    accepted and handled, the lines written, the notifications with their times (the last one
    first) and the number of those suppressed. *)
Record System := {
  lg : Logger;
  clock : Time;
  pending : list Event;
  posting : nat;
  returned : bool;
  accepted : list Event;
  handled : list Event;
  lines : list line;
  posts : list (bytes * Time);
  suppressed : nat
}.

Definition start (l : Logger) (now : Time) : System :=
  {| lg := l; clock := now; pending := []; posting := 0; returned := false; accepted := []; handled := []; lines := []; posts := []; suppressed := 0 |}.

Definition accepts (l : Logger) : bool := Z.of_nat (length (eventCh l)) <? capacity.

Inductive step : System -> System -> Prop :=
| A_log e s :
    step s {| lg := Log (lg s) e; clock := clock s; pending := pending s; posting := posting s; returned := returned s;
              accepted := if accepts (lg s) then accepted s ++ [e] else accepted s; handled := handled s; lines := lines s; posts := posts s; suppressed := suppressed s |}
| A_handle e q l ls hook s :
    returned s = false -> eventCh (lg s) = e :: q -> handleEvent (with_events (lg s) q) e = (l, ls, hook) ->
    step s {| lg := l; clock := clock s; pending := if hook then e :: pending s else pending s; posting := posting s; returned := returned s;
              accepted := accepted s; handled := handled s ++ [e]; lines := lines s ++ ls; posts := posts s; suppressed := suppressed s |}
| A_webhook now e ps l post s :
    clock s <= now -> pending s ≡ₚ e :: ps -> sendWebhook_locked now (lg s) e = (l, post) ->
    step s {| lg := l; clock := now; pending := ps; posting := if post then S (posting s) else posting s; returned := returned s;
              accepted := accepted s; handled := handled s; lines := lines s;
              posts := if post then (queryKey e, now) :: posts s else posts s; suppressed := if post then suppressed s else S (suppressed s) |}
| A_result status n s :
    posting s = S n ->
    step s {| lg := sendWebhook_result (lg s) status; clock := clock s; pending := pending s; posting := n; returned := returned s;
              accepted := accepted s; handled := handled s; lines := lines s; posts := posts s; suppressed := suppressed s |}
| A_cleanup now s :
    clock s <= now ->
    step s {| lg := cleanupWebhookDedup now (lg s); clock := now; pending := pending s; posting := posting s; returned := returned s;
              accepted := accepted s; handled := handled s; lines := lines s; posts := posts s; suppressed := suppressed s |}
| A_close s :
    step s {| lg := Close (lg s); clock := clock s; pending := pending s; posting := posting s; returned := returned s;
              accepted := accepted s; handled := handled s; lines := lines s; posts := posts s; suppressed := suppressed s |}
| A_return s :            (* nothing left to drain *)
    stopped (lg s) = true -> eventCh (lg s) = [] ->
    step s {| lg := lg s; clock := clock s; pending := pending s; posting := posting s; returned := true;
              accepted := accepted s; handled := handled s; lines := lines s; posts := posts s; suppressed := suppressed s |}.

(** ** Accounting *)

Lemma Since_lt now t d : MinInt64 < d <= MaxInt64 -> Since now t < d <-> now - t < d.
Proof. unfold Since, MinInt64, MaxInt64. lia. Qed.

Definition lines_of (c : Config) (e : Event) : list line :=
  if isSlowQuery c e then [SlowLine (User e) (SourceIP e) (truncateQuery (Query e) 500) (DurationMS e) (Target e) (Cached e)]
  else if LogAllQueries c then [QueryLine (User e) (SourceIP e) (truncateQuery (Query e) 500) (DurationMS e) (Target e) (Cached e)]
  else [].

Definition slow (c : Config) (es : list Event) : list Event := List.filter (isSlowQuery c) es.
#[local] Arguments slow : simpl never.

(** Notifications of one query are at least [d] apart. *)
Fixpoint spaced (d : Duration) (ps : list (bytes * Time)) : Prop :=
  match ps with
  | [] => True
  | (k, t) :: ps' => (forall t', (k, t') ∈ ps' -> d <= t - t') /\ spaced d ps'
  end.

Record inv (l0 : Logger) (s : System) : Prop := {
  inv_cfg : cfg (lg s) = cfg l0 /\ httpClient (lg s) = httpClient l0 /\ webhookInterval (lg s) = webhookInterval l0;
  inv_fifo : accepted s = handled s ++ eventCh (lg s);
  inv_room : Z.of_nat (length (eventCh (lg s))) <= capacity;
  inv_lines : lines s = concat (lines_of (cfg l0) <$> handled s);
  inv_slow : slowCount (lg s) = Z.of_nat (length (slow (cfg l0) (handled s)));
  inv_hooks : (length (pending s) + suppressed s + length (posts s))%nat = if httpClient l0 then length (slow (cfg l0) (handled s)) else 0%nat;
  inv_posted : webhookSent (lg s) + webhookErr (lg s) + Z.of_nat (posting s) = Z.of_nat (length (posts s)) /\ 0 <= webhookSent (lg s) /\ 0 <= webhookErr (lg s);
  inv_past k t : (k, t) ∈ posts s -> match lastWebhook (lg s) !! k with Some last => t <= last | None => webhookInterval l0 <= clock s - t end;
  inv_clock k t : lastWebhook (lg s) !! k = Some t -> t <= clock s;
  inv_spaced : spaced (webhookInterval l0) (posts s)
}.

Lemma length_slow c es : (length (slow c es) <= length es)%nat.
Proof. unfold slow. induction es as [|e es IH]; cbn; [done|]. destruct (isSlowQuery c e); cbn; lia. Qed.

Lemma slow_snoc c es e : slow c (es ++ [e]) = slow c es ++ (if isSlowQuery c e then [e] else []).
Proof. unfold slow. rewrite List.filter_app. cbn. by destruct (isSlowQuery c e). Qed.

Lemma step_accepted s s' : step s s' -> (length (accepted s) <= length (accepted s'))%nat.
Proof. destruct 1; cbn; try lia. destruct (accepts (lg s)); rewrite ?length_app; lia. Qed.

Lemma handle_inv l0 s e q l ls hook :
  Z.of_nat (length (accepted s)) < 2 ^ 63 -> inv l0 s -> eventCh (lg s) = e :: q -> handleEvent (with_events (lg s) q) e = (l, ls, hook) ->
  inv l0 {| lg := l; clock := clock s; pending := if hook then e :: pending s else pending s; posting := posting s; returned := returned s;
            accepted := accepted s; handled := handled s ++ [e]; lines := lines s ++ ls; posts := posts s; suppressed := suppressed s |}.
Proof.
  intros Hlen [(Hc & Hh & Hi) Hf Hr Hl Hs Hk Hp Hpast Hclk Hsp] Hq He. rewrite Hq in Hf, Hr. cbn [length] in Hr.
  pose proof (length_slow (cfg l0) (handled s)) as Hle. apply (f_equal length) in Hf as Hfl. rewrite length_app in Hfl. cbn [length] in Hfl.
  assert (lines_of (cfg l0) e = ls /\ cfg l = cfg l0 /\ httpClient l = httpClient l0 /\ webhookInterval l = webhookInterval l0 /\ eventCh l = q /\
          slowCount l = slowCount (lg s) + (if isSlowQuery (cfg l0) e then 1 else 0) /\ webhookSent l = webhookSent (lg s) /\ webhookErr l = webhookErr (lg s) /\
          lastWebhook l = lastWebhook (lg s) /\ hook = isSlowQuery (cfg l0) e && httpClient l0) as (E1 & E2 & E3 & E4 & E5 & E6 & E7 & E8 & E9 & E10).
  { unfold handleEvent, lines_of in *. cbn in He. rewrite Hc in *. destruct (isSlowQuery (cfg l0) e).
    - injection He as <- <- <-. cbn. rewrite wrapS_small by lia. by split_and!.
    - destruct (LogAllQueries (cfg l0)); injection He as <- <- <-; cbn; rewrite Z.add_0_r; by split_and!. }
  split; cbn; rewrite ?E2, ?E3, ?E4, ?E5, ?E6, ?E7, ?E8, ?E9; try done.
  - by rewrite Hf, <- app_assoc.
  - lia.
  - by rewrite Hl, fmap_app, concat_app; cbn; rewrite app_nil_r, E1.
  - rewrite slow_snoc, length_app. destruct (isSlowQuery (cfg l0) e); cbn; lia.
  - rewrite slow_snoc, length_app, E10. destruct (isSlowQuery (cfg l0) e), (httpClient l0); cbn; lia.
Qed.

Lemma webhook_inv l0 s now e ps l post :
  0 < webhookInterval l0 <= MaxInt64 -> inv l0 s -> clock s <= now -> pending s ≡ₚ e :: ps -> sendWebhook_locked now (lg s) e = (l, post) ->
  inv l0 {| lg := l; clock := now; pending := ps; posting := if post then S (posting s) else posting s; returned := returned s;
            accepted := accepted s; handled := handled s; lines := lines s;
            posts := if post then (queryKey e, now) :: posts s else posts s; suppressed := if post then suppressed s else S (suppressed s) |}.
Proof.
  intros Hd [(Hc & Hh & Hi) Hf Hr Hl Hs Hk Hp Hpast Hclk Hsp] Hnow Hps He. apply Permutation_length in Hps. cbn [length] in Hps.
  assert (match post with
          | false => l = lg s
          | true => l = with_last (lg s) (<[queryKey e := now]> (lastWebhook (lg s))) /\
              forall t, (queryKey e, t) ∈ posts s -> webhookInterval l0 <= now - t
          end) as Hcase.
  { unfold sendWebhook_locked in He. rewrite Hi in He. destruct (lastWebhook (lg s) !! queryKey e) as [last|] eqn:El.
    - destruct (Z.ltb_spec (Since now last) (webhookInterval l0)) as [Hlt|Hge]; injection He as <- <-; [done|]. split; [done|]. intros t Ht%Hpast. rewrite El in Ht.
      assert (~ now - last < webhookInterval l0); [|lia]. rewrite <- Since_lt; [lia|unfold MinInt64; lia].
    - injection He as <- <-. split; [done|]. intros t Ht%Hpast. rewrite El in Ht. lia. }
  destruct post; [destruct Hcase as [-> Hold]|subst l]; split; cbn; try done.
  - lia.
  - lia.
  - intros k t. rewrite elem_of_cons. intros [[= -> ->]|Hin]; [by rewrite lookup_insert_eq|]. destruct (decide (k = queryKey e)) as [->|Hne].
    + rewrite lookup_insert_eq. specialize (Hold t Hin). lia.
    + rewrite lookup_insert_ne by done. specialize (Hpast k t Hin). destruct (lastWebhook (lg s) !! k); lia.
  - intros k t. rewrite lookup_insert_Some. intros [[<- <-]|[_ Ht%Hclk]]; lia.
  - lia.
  - intros k t Hin%Hpast. destruct (lastWebhook (lg s) !! k); lia.
  - intros k t Ht%Hclk. lia.
Qed.

Lemma cleanup_inv l0 s now :
  0 < webhookInterval l0 <= MaxInt64 -> inv l0 s -> clock s <= now ->
  inv l0 {| lg := cleanupWebhookDedup now (lg s); clock := now; pending := pending s; posting := posting s; returned := returned s;
            accepted := accepted s; handled := handled s; lines := lines s; posts := posts s; suppressed := suppressed s |}.
Proof.
  intros Hd [(Hc & Hh & Hi) Hf Hr Hl Hs Hk Hp Hpast Hclk Hsp] Hnow. split; cbn [lg clock pending posting accepted handled lines posts suppressed]; try done.
  - intros k t Hin%Hpast. cbn. rewrite map_lookup_filter. destruct (lastWebhook (lg s) !! k) as [last|] eqn:El; cbn; [|lia].
    case_guard as Hg; cbn; [done|]. rewrite Hi, Since_lt in Hg by (unfold MinInt64; lia). lia.
  - cbn. intros k t. rewrite map_lookup_filter_Some. intros [Ht%Hclk _]. lia.
Qed.

Lemma audit_step_inv l0 s s' :
  0 < webhookInterval l0 <= MaxInt64 -> Z.of_nat (length (accepted s')) < 2 ^ 63 -> inv l0 s -> step s s' -> inv l0 s'.
Proof.
  intros Hd Hlen Hi Hst. pose proof (step_accepted _ _ Hst) as Hmono. destruct Hst as [e s|e q l ls hook s Hret Hq He|now e ps l post s Hnow Hps He|status n s Hn|now s Hnow|s|s Hst Hq].
  - destruct Hi as [(Hc & Hh & Hi) Hf Hr Hl Hs Hk Hp Hpast Hclk Hsp]. unfold Log, accepts in *.
    destruct (Z.ltb_spec (Z.of_nat (length (eventCh (lg s)))) capacity); split; cbn; try done.
    + by rewrite Hf, app_assoc.
    + rewrite length_app. cbn. lia.
  - eapply handle_inv; [|done..]. done.
  - by eapply webhook_inv.
  - destruct Hi as [(Hc & Hh & Hi) Hf Hr Hl Hs Hk Hp Hpast Hclk Hsp]. cbn in Hlen. rewrite Hn in Hp.
    pose proof (length_slow (cfg l0) (handled s)) as Hle. apply (f_equal length) in Hf as Hfl. rewrite length_app in Hfl.
    assert (Z.of_nat (length (posts s)) < 2 ^ 63) by (destruct (httpClient l0); lia).
    assert (exists sent err, sendWebhook_result (lg s) status = with_counts (lg s) (slowCount (lg s)) sent err /\
              webhookSent (lg s) <= sent /\ webhookErr (lg s) <= err /\ sent + err = webhookSent (lg s) + webhookErr (lg s) + 1) as (sent & err & -> & H1 & H2 & H3).
    { unfold sendWebhook_result. destruct status as [code|]; [destruct (400 <=? code)|]; eexists _, _; (split; [reflexivity|]); rewrite wrapS_small by lia; lia. }
    split; cbn; try done. lia.
  - by apply cleanup_inv.
  - destruct Hi. by split.
  - destruct Hi. by split.
Qed.

Lemma New_interval c l : New c = Ok l -> DedupInterval c <= MaxInt64 -> 0 < webhookInterval l <= MaxInt64.
Proof.
  unfold New. intros E Hmax. destruct (Z.leb_spec (if DedupInterval c =? 0 then Minute else DedupInterval c) 0) as [|Hp]; [done|]. injection E as <-. cbn.
  split; [done|]. destruct (DedupInterval c =? 0); [by unfold MaxInt64|done].
Qed.

Lemma audit_reachable c l0 t0 s :
  New c = Ok l0 -> DedupInterval c <= MaxInt64 -> rtc step (start l0 t0) s -> Z.of_nat (length (accepted s)) < 2 ^ 63 -> inv l0 s.
Proof.
  intros Hn Hmax. pose proof (New_interval _ _ Hn Hmax) as Hd. revert s.
  apply (rtc_ind_r (fun s => Z.of_nat (length (accepted s)) < 2 ^ 63 -> inv l0 s)).
  - intros _. unfold New in Hn. destruct (_ <=? 0); [done|]. injection Hn as <-. split; cbn; try done; [by destruct (_ && _)|intros k t Hin; by apply elem_of_nil in Hin].
  - intros s s' Hr Hst IH Hlen. eapply audit_step_inv; [done|done| |done]. apply IH. pose proof (step_accepted _ _ Hst). lia.
Qed.

(** C31: the audit log accounts for every event it accepts: at any time the accepted events are,
    in order, those handled and those waiting, of which there are at most 1024; each handled
    event left exactly the lines its duration and the configuration ask for; the slow queries
    are counted; and, where a webhook is configured, each slow query has led to one notification that was
    sent, failed or is under way, or was suppressed, or waits for its goroutine. *)
Theorem audit_exact c l0 t0 s :
  New c = Ok l0 -> DedupInterval c <= MaxInt64 -> rtc step (start l0 t0) s -> Z.of_nat (length (accepted s)) < 2 ^ 63 ->
  accepted s = handled s ++ eventCh (lg s) /\ Z.of_nat (length (eventCh (lg s))) <= capacity /\
  lines s = concat (lines_of c <$> handled s) /\
  slowCount (lg s) = Z.of_nat (length (slow c (handled s))) /\
  (if httpClient l0 then Z.of_nat (length (slow c (handled s))) else 0) =
    Z.of_nat (length (pending s)) + Z.of_nat (suppressed s) + Z.of_nat (posting s) + webhookSent (lg s) + webhookErr (lg s).
Proof.
  intros Hn Hmax Hr Hlen. destruct (audit_reachable _ _ _ _ Hn Hmax Hr Hlen) as [_ Hf Hroom Hl Hs Hk (Hp & _) _ _ _].
  assert (cfg l0 = c) as Hc by (unfold New in Hn; destruct (_ <=? 0); [done|]; by injection Hn as <-). rewrite Hc in *.
  split_and!; try done. destruct (httpClient l0); lia.
Qed.

(** the webhook is not flooded: notifications of the same query (its first 100 bytes) are at
    least the interval apart, whatever the order in which the goroutines of slow queries and the
    cleanup of the table run; and the cleanup keeps only what is younger than the interval. *)
Theorem webhooks_spaced c l0 t0 s now :
  New c = Ok l0 -> DedupInterval c <= MaxInt64 -> rtc step (start l0 t0) s -> Z.of_nat (length (accepted s)) < 2 ^ 63 ->
  spaced (webhookInterval l0) (posts s) /\
  forall k t, lastWebhook (cleanupWebhookDedup now (lg s)) !! k = Some t -> now - t < webhookInterval l0.
Proof.
  intros Hn Hmax Hr Hlen. pose proof (New_interval _ _ Hn Hmax) as Hd. destruct (audit_reachable _ _ _ _ Hn Hmax Hr Hlen) as [(_ & _ & Hi) _ _ _ _ _ _ _ _ Hsp].
  split; [done|]. intros k t. cbn. rewrite map_lookup_filter_Some. intros [_ Hlt]. cbn in Hlt. rewrite Hi, Since_lt in Hlt by (unfold MinInt64; lia). done.
Qed.

Module Examples.
Definition cfg0 : Config :=
  {| SlowQueryThreshold := 500 * 1000000; LogAllQueries := true; Webhook_Enabled := true; Webhook_URL := $"http://hook"; DedupInterval := 0 |}.
Definition logger0 : Logger :=
  {| cfg := cfg0; eventCh := []; httpClient := true; slowCount := 0; webhookSent := 0; webhookErr := 0; lastWebhook := ∅; webhookInterval := Minute; stopped := false |}.
Definition event0 (ms : Z) : Event :=
  {| Timestamp := 0; User := $"app"; SourceIP := $"10.0.0.1"; Query := $"SELECT 1"; DurationMS := f_of_Z ms; Target := $"reader"; Cached := false |}.

(** Three slow queries and a fast one; notifications at times 0, 30s (suppressed) and, after a
    cleanup, 60s. *)
Definition log_all (s : System) (es : list Event) : System :=
  fold_left (fun s e => {| lg := Log (lg s) e; clock := clock s; pending := pending s; posting := posting s; returned := returned s;
                           accepted := if accepts (lg s) then accepted s ++ [e] else accepted s; handled := handled s; lines := lines s;
                           posts := posts s; suppressed := suppressed s |}) es s.
Definition handle_next (s : System) : System :=
  match eventCh (lg s) with
  | [] => s
  | e :: q =>
      let '(l, ls, hook) := handleEvent (with_events (lg s) q) e in
      {| lg := l; clock := clock s; pending := if hook then e :: pending s else pending s; posting := posting s; returned := returned s;
         accepted := accepted s; handled := handled s ++ [e]; lines := lines s ++ ls; posts := posts s; suppressed := suppressed s |}
  end.
Definition notify (now : Time) (s : System) : System :=
  match pending s with
  | [] => s
  | e :: ps =>
      let '(l, post) := sendWebhook_locked now (lg s) e in
      {| lg := l; clock := now; pending := ps; posting := if post then S (posting s) else posting s; returned := returned s;
         accepted := accepted s; handled := handled s; lines := lines s;
         posts := if post then (queryKey e, now) :: posts s else posts s; suppressed := if post then suppressed s else S (suppressed s) |}
  end.
Definition clean (now : Time) (s : System) : System :=
  {| lg := cleanupWebhookDedup now (lg s); clock := now; pending := pending s; posting := posting s; returned := returned s;
     accepted := accepted s; handled := handled s; lines := lines s; posts := posts s; suppressed := suppressed s |}.

Lemma log_all_steps es s : rtc step s (log_all s es).
Proof. revert s. induction es as [|e es IH]; intros s; [apply rtc_refl|]. eapply rtc_l; [apply (A_log e)|]. apply IH. Qed.
Lemma handle_next_step s : returned s = false -> eventCh (lg s) <> [] -> step s (handle_next s).
Proof. intros Hr Hq. unfold handle_next. destruct (eventCh (lg s)) as [|e q] eqn:E; [done|]. destruct (handleEvent _ e) as [[l ls] hook] eqn:He. by eapply A_handle. Qed.
Lemma notify_step now s : clock s <= now -> pending s <> [] -> step s (notify now s).
Proof. intros Hn Hp. unfold notify. destruct (pending s) as [|e ps] eqn:E; [done|]. destruct (sendWebhook_locked now (lg s) e) as [l post] eqn:He. eapply A_webhook; [done|by rewrite E|done]. Qed.

Lemma clean_step now s : clock s <= now -> step s (clean now s).
Proof. apply A_cleanup. Qed.

Definition minute_later : System :=
  notify (60 * Second) (clean (60 * Second) (notify (30 * Second) (notify 0
    (handle_next (handle_next (handle_next (handle_next (log_all (start logger0 0) [event0 700; event0 3; event0 600; event0 500])))))))).

Lemma minute_later_reachable : rtc step (start logger0 0) minute_later.
Proof.
  unfold minute_later. eapply rtc_r; [|apply notify_step; by vm_compute]. eapply rtc_r; [|apply clean_step; by vm_compute].
  do 2 (eapply rtc_r; [|apply notify_step; by vm_compute]). do 4 (eapply rtc_r; [|apply handle_next_step; by vm_compute]). apply log_all_steps.
Qed.

Lemma audit_exact_witness :
  slowCount (lg minute_later) = 3 /\ length (lines minute_later) = 4%nat /\
  Z.of_nat (length (slow cfg0 (handled minute_later))) =
    Z.of_nat (length (pending minute_later)) + Z.of_nat (suppressed minute_later) + Z.of_nat (posting minute_later) + webhookSent (lg minute_later) + webhookErr (lg minute_later).
Proof.
  destruct (audit_exact cfg0 logger0 0 minute_later eq_refl ltac:(by vm_compute) minute_later_reachable eq_refl) as (_ & _ & _ & _ & H).
  assert (httpClient logger0 = true) as E by done. rewrite E in H. split_and!; [by vm_compute|by vm_compute|exact H].
Defined.

Lemma webhooks_spaced_witness : posts minute_later = [($"SELECT 1", 60 * Second); ($"SELECT 1", 0)] /\ spaced Minute (posts minute_later).
Proof.
  destruct (webhooks_spaced cfg0 logger0 0 minute_later 0 eq_refl ltac:(by vm_compute) minute_later_reachable eq_refl) as (H & _).
  split; [by vm_compute|exact H].
Defined.
End Examples.
