(* ===== verification/Watcher.v ===== *)
(** * Watching the configuration file (internal/config/watcher.go)

    File events are debounced: the callback runs one second after the last event that concerns
    the file. The events come from fsnotify, which the model takes as they come: an operation
    mask and a path. The loop of [Start], its timer and [Stop] are the steps of a system with a
    clock. *)

From S2P Require Import Prelude GoStrings.

Local Open Scope Z_scope.

Definition debounceInterval : Duration := 1 * Second.

(** The operations of fsnotify. *)
Definition Op_Create : Z := 1.
Definition Op_Write : Z := 2.
Definition Op_Remove : Z := 4.
Definition Op_Rename : Z := 8.
Definition Op_Chmod : Z := 16.

Record Event := { Name : bytes; Op : Z }.

(** [filepath.Base] on Unix. *)
Fixpoint strip_slashes (rev_path : bytes) : bytes :=
  match rev_path with b :: t => if (b =b "/") then strip_slashes t else rev_path | [] => [] end.
Fixpoint upto_slash (rev_path : bytes) : bytes :=
  match rev_path with b :: t => if (b =b "/") then [] else b :: upto_slash t | [] => [] end.
Definition Base (path : bytes) : bytes :=
  match path with
  | [] => $"."
  | _ => match rev (upto_slash (strip_slashes (rev path))) with [] => $"/" | b => b end
  end.

Record FileWatcher := { path : bytes; fileName : bytes; stopped : bool }.

Definition NewFileWatcher (absPath : bytes) : FileWatcher := {| path := absPath; fileName := Base absPath; stopped := false |}.

Definition isTargetEvent (fw : FileWatcher) (event : Event) : bool :=
  let eventBase := Base (Name event) in
  if negb (Z.land (Op event) (Z.lor (Z.lor Op_Write Op_Create) Op_Rename) =? 0) && bool_decide (eventBase = fileName fw) then true
  else negb (Op event =? 0) && HasPrefix eventBase $"..".

(** The loop: whether it runs, and when the timer fires. The history: the events that concern the
    file and the calls of the callback, as times, the latest first. *)
Record System := {
  fw : FileWatcher;
  clock : Time;
  looping : bool;
  timer : option Time;
  events : list Time;
  calls : list Time
}.

Definition start (absPath : bytes) (now : Time) : System :=
  {| fw := NewFileWatcher absPath; clock := now; looping := true; timer := None; events := []; calls := [] |}.

Inductive step : System -> System -> Prop :=
| W_event now ev s :
    clock s <= now -> looping s = true ->
    step s (if isTargetEvent (fw s) ev then
              {| fw := fw s; clock := now; looping := true; timer := Some (now + debounceInterval); events := now :: events s; calls := calls s |}
            else {| fw := fw s; clock := now; looping := true; timer := timer s; events := events s; calls := calls s |})
| W_fire now t s :
    clock s <= now -> timer s = Some t -> t <= now ->
    step s {| fw := fw s; clock := now; looping := looping s; timer := None; events := events s; calls := now :: calls s |}
| W_stop s :
    step s {| fw := {| path := path (fw s); fileName := fileName (fw s); stopped := true |}; clock := clock s; looping := looping s; timer := timer s;
              events := events s; calls := calls s |}
| W_cleanup s :            (* the context is done, or the loop sees that [Stop] was called *)
    looping s = true ->
    step s {| fw := fw s; clock := clock s; looping := false; timer := None; events := events s; calls := calls s |}
| W_closed s :             (* the loop sees that the watcher was closed by [Stop] *)
    looping s = true -> stopped (fw s) = true ->
    step s {| fw := fw s; clock := clock s; looping := false; timer := timer s; events := events s; calls := calls s |}.

(** No event came in the debounce interval before a call. *)
Definition quiet (es : list Time) (call : Time) : Prop := forall e, e ∈ es -> e < call -> e + debounceInterval <= call.

Record inv (s : System) : Prop := {
  inv_past e : e ∈ events s -> e <= clock s;
  inv_latest e : head (events s) = Some e -> forall e', e' ∈ events s -> e' <= e;
  inv_called c : c ∈ calls s -> c <= clock s /\ quiet (events s) c;
  inv_timer t : timer s = Some t -> exists e, head (events s) = Some e /\ t = e + debounceInterval;
  inv_pending : looping s = true -> timer s = None ->
    match head (events s), head (calls s) with Some e, Some c => e + debounceInterval <= c | Some _, None => False | None, _ => True end;
  inv_count : (length (calls s) + (match timer s with Some _ => 1 | None => 0 end) <= length (events s))%nat
}.

Lemma watcher_step_inv s s' : inv s -> step s s' -> inv s'.
Proof.
  intros [Hp Hl Hc Ht Hn Hk] Hst. destruct Hst as [now ev s Hnow Hlo|now t s Hnow Htm Hle|s|s Hlo|s Hlo Hs].
  - destruct (isTargetEvent (fw s) ev); split; cbn; try done.
    + intros e. rewrite elem_of_cons. intros [->|He%Hp]; lia.
    + intros e [= <-] e'. rewrite elem_of_cons. intros [->|He%Hp]; lia.
    + intros c Hin. destruct (Hc c Hin) as [Hcc Hq]. split; [lia|]. intros e. rewrite elem_of_cons. intros [->|He] Hlt; [lia|by apply Hq].
    + intros t [= <-]. by exists now.
    + destruct (timer s); lia.
    + intros e He%Hp. lia.
    + intros c Hin. destruct (Hc c Hin) as [Hcc Hq]. split; [lia|done].
    + intros _. by apply Hn.
  - destruct (Ht t Htm) as (e & He & ->). rewrite Htm in Hk. split; cbn; try done.
    + intros e' He'%Hp. lia.
    + intros c. rewrite elem_of_cons. intros [->|Hin]; [|destruct (Hc c Hin); split; [lia|done]]. split; [lia|]. intros e' He' _. specialize (Hl e He e' He'). lia.
    + intros _ _. by rewrite He.
    + lia.
  - split; cbn; done.
  - split; cbn; try done. destruct (timer s); lia.
  - split; cbn; done.
Qed.

Lemma watcher_reachable absPath now s : rtc step (start absPath now) s -> inv s.
Proof.
  revert s. apply rtc_ind_r; [|intros s s' _ Hst IH; by eapply watcher_step_inv]. split; cbn; try done; intros e He; by apply elem_of_nil in He.
Qed.

(** C40: the callback is debounced and no change is missed: a call comes only after a second
    without an event that concerns the file, there are no more calls than such events, and while the
    watcher runs every event is either followed by a call at least a second later or by a timer that will call. A call is the moment
    the timer fires, after which nothing stops it; which events concern the file is [isTargetEvent]. *)
Theorem watcher_debounces absPath now s :
  rtc step (start absPath now) s ->
  (forall c, c ∈ calls s -> quiet (events s) c) /\ (length (calls s) <= length (events s))%nat /\
  (looping s = true -> forall e, e ∈ events s ->
     (exists c, c ∈ calls s /\ e + debounceInterval <= c) \/ (exists t, timer s = Some t /\ e + debounceInterval <= t)).
Proof.
  intros [Hp Hl Hc Ht Hn Hk]%watcher_reachable. split_and!.
  - intros c Hin. by apply Hc.
  - destruct (timer s); lia.
  - intros Hlo e He. destruct (timer s) as [t|].
    + right. destruct (Ht t eq_refl) as (e' & He' & ->). exists (e' + debounceInterval). specialize (Hl e' He' e He). split; [done|lia].
    + left. specialize (Hn Hlo eq_refl). destruct (head (events s)) as [e'|] eqn:Eh; [|destruct (events s); [by apply elem_of_nil in He|done]].
      destruct (head (calls s)) as [c|] eqn:Ec; [|done]. exists c. specialize (Hl e' eq_refl e He). split; [|lia].
      destruct (calls s); [done|]. injection Ec as ->. by left.
Qed.

Module Examples.
Definition written : Event := {| Name := $"/etc/pgmux/config.yaml"; Op := Op_Write |}.
Definition swapped : Event := {| Name := $"/etc/pgmux/..data"; Op := Op_Rename |}.
Definition read_back : Event := {| Name := $"/etc/pgmux/config.yaml"; Op := Op_Chmod |}.
Definition other : Event := {| Name := $"/etc/pgmux/other.yaml"; Op := Op_Write |}.

Example targets :
  List.map (isTargetEvent (NewFileWatcher $"/etc/pgmux/config.yaml")) [written; swapped; read_back; other] = [true; true; false; false].
Proof. by vm_compute. Qed.

Definition after_event (s : System) (now : Time) : System :=
  {| fw := fw s; clock := now; looping := true; timer := Some (now + debounceInterval); events := now :: events s; calls := calls s |}.

Lemma event_step s now : clock s <= now -> looping s = true -> isTargetEvent (fw s) written = true -> step s (after_event s now).
Proof. intros H1 H2 H3. pose proof (W_event now written s H1 H2) as H. by rewrite H3 in H. Qed.

(** Two writes half a second apart, one call. *)
Definition once : System :=
  let s := after_event (after_event (start $"/etc/pgmux/config.yaml" 0) 0) (Second / 2) in
  {| fw := fw s; clock := 2 * Second; looping := true; timer := None; events := events s; calls := [2 * Second] |}.

Lemma once_reachable : rtc step (start $"/etc/pgmux/config.yaml" 0) once.
Proof.
  eapply rtc_l; [by apply (event_step _ 0)|]. eapply rtc_l; [by apply (event_step _ (Second / 2))|]. eapply rtc_l; [|apply rtc_refl].
  exact (W_fire (2 * Second) (Second / 2 + debounceInterval) (after_event (after_event (start $"/etc/pgmux/config.yaml" 0) 0) (Second / 2)) ltac:(by vm_compute) eq_refl ltac:(by vm_compute)).
Qed.

Lemma watcher_debounces_witness : (forall c, c ∈ calls once -> quiet (events once) c) /\ (length (calls once) <= length (events once))%nat.
Proof. destruct (watcher_debounces $"/etc/pgmux/config.yaml" 0 once once_reachable) as (H1 & H2 & _). by split. Defined.

(** The loop that sees the closed watcher first leaves the timer: the callback runs after
    [Stop]. *)
Definition abandoned : System :=
  {| fw := {| path := $"/etc/pgmux/config.yaml"; fileName := $"config.yaml"; stopped := true |}; clock := 0; looping := false;
     timer := Some Second; events := [0]; calls := [] |}.

Example fires_after_stop :
  rtc step (start $"/etc/pgmux/config.yaml" 0) abandoned /\
  step abandoned {| fw := fw abandoned; clock := Second; looping := false; timer := None; events := [0]; calls := [Second] |}.
Proof.
  split.
  - eapply rtc_l; [by apply (event_step _ 0)|]. eapply rtc_l; [apply W_stop|]. eapply rtc_l; [by apply W_closed|]. apply rtc_refl.
  - by apply (W_fire Second Second abandoned).
Qed.
End Examples.
