(* ===== verification/Proxy.v ===== *)
(** * The proxy as a session sees it (internal/proxy/server.go, helpers.go, backend.go)

    The state of the server that sessions share, the variables of a session, and the
    operations of a session that its handlers are made of. Other sessions, reloads,
    health checks and the clock act between any two accesses of the session to the shared
    state: [env] is the list of what they do, one change before each access, and the
    theorems hold for all of them. An access itself is atomic, as the locks and
    atomic pointers of the source make it.

    Logging, metrics and tracing only observe and are left out; so are the calls of the audit log, the
    digest and the mirror, which have files of their own. *)

From S2P Require Import Prelude GoStrings Float64 Config Wire SqlLex Classify Tables Ast Firewall Rewriter SessionCompat.
From S2P Require Import Lsn Session Balancer RateLimit Breaker Cache Pool Synth Timeout Relay DbGroup.

Local Open Scope nat_scope.

(** ** State *)

(** What sessions read and change of the server; [group] is the session's database group,
    [ctxDone] the end of its context. *)
Record Server := {
  now : Time;
  ctxDone : bool;
  s_cfg : Config.Config;
  inMaintenance : bool;
  inReadOnly : bool;
  rateLimiter : option RateLimiter;
  perUserRL : option RateLimiterRegistry;
  perIPRL : option RateLimiterRegistry;
  rewriter : option (list compiledRule);
  queryCache : option Cache.Cache;
  hasInvalidator : bool;
  group : DatabaseGroup
}.

Definition set_rateLimiter (v : option RateLimiter) (r : Server) : Server :=
  {| now := now r; ctxDone := ctxDone r; s_cfg := s_cfg r;
    inMaintenance := inMaintenance r; inReadOnly := inReadOnly r; rateLimiter := v; perUserRL := perUserRL r;
    perIPRL := perIPRL r; rewriter := rewriter r; queryCache := queryCache r;
    hasInvalidator := hasInvalidator r; group := group r |}.
Definition set_perUserRL (v : option RateLimiterRegistry) (r : Server) : Server :=
  {| now := now r; ctxDone := ctxDone r; s_cfg := s_cfg r;
    inMaintenance := inMaintenance r; inReadOnly := inReadOnly r; rateLimiter := rateLimiter r;
    perUserRL := v; perIPRL := perIPRL r; rewriter := rewriter r; queryCache := queryCache r;
    hasInvalidator := hasInvalidator r; group := group r |}.
Definition set_perIPRL (v : option RateLimiterRegistry) (r : Server) : Server :=
  {| now := now r; ctxDone := ctxDone r; s_cfg := s_cfg r;
    inMaintenance := inMaintenance r; inReadOnly := inReadOnly r; rateLimiter := rateLimiter r;
    perUserRL := perUserRL r; perIPRL := v; rewriter := rewriter r; queryCache := queryCache r;
    hasInvalidator := hasInvalidator r; group := group r |}.
Definition set_queryCache (v : option Cache.Cache) (r : Server) : Server :=
  {| now := now r; ctxDone := ctxDone r; s_cfg := s_cfg r;
    inMaintenance := inMaintenance r; inReadOnly := inReadOnly r; rateLimiter := rateLimiter r;
    perUserRL := perUserRL r; perIPRL := perIPRL r; rewriter := rewriter r; queryCache := v;
    hasInvalidator := hasInvalidator r; group := group r |}.
Definition set_group (v : DatabaseGroup) (r : Server) : Server :=
  {| now := now r; ctxDone := ctxDone r; s_cfg := s_cfg r;
    inMaintenance := inMaintenance r; inReadOnly := inReadOnly r; rateLimiter := rateLimiter r;
    perUserRL := perUserRL r; perIPRL := perIPRL r; rewriter := rewriter r; queryCache := queryCache r;
    hasInvalidator := hasInvalidator r; group := v |}.

Definition set_balancer (b : RoundRobin) (g : DatabaseGroup) : DatabaseGroup :=
  {| g_name := g_name g; writerAddr := writerAddr g; writerPool := writerPool g; readerPools := readerPools g; balancer := b;
     writerCB := writerCB g; readerCBs := readerCBs g; backendCfg := backendCfg g |}.
Definition set_writerCB (cb : option CircuitBreaker) (g : DatabaseGroup) : DatabaseGroup :=
  {| g_name := g_name g; writerAddr := writerAddr g; writerPool := writerPool g; readerPools := readerPools g; balancer := balancer g;
     writerCB := cb; readerCBs := readerCBs g; backendCfg := backendCfg g |}.
Definition set_readerCBs (cbs : gmap bytes CircuitBreaker) (g : DatabaseGroup) : DatabaseGroup :=
  {| g_name := g_name g; writerAddr := writerAddr g; writerPool := writerPool g; readerPools := readerPools g; balancer := balancer g;
     writerCB := writerCB g; readerCBs := cbs; backendCfg := backendCfg g |}.

(** The variables of [relayQueries], and the session's router state. *)
Record Vars := {
  boundWriter : option Pool.Conn;
  boundWriterPool : option pool_loc;
  connDirty : bool;
  boundReader : option Pool.Conn;
  boundReaderPool : option pool_loc;
  boundReaderAddr : bytes;
  extBuf : list Message;
  extRoute : Route_;
  extTxStart : bool;
  extTxEnd : bool;
  extIsWrite : bool;
  extHasExecute : bool;
  extSessionBlocked : bool;
  extSessionBlockedFeature : bytes;
  extQueryText : bytes;
  muxBindDetail : option BindMessageDetail;
  synth : Synthesizer;
  session : Session
}.

Definition set_boundWriter (v : option Pool.Conn) (r : Vars) : Vars :=
  {| boundWriter := v; boundWriterPool := boundWriterPool r; connDirty := connDirty r;
    boundReader := boundReader r; boundReaderPool := boundReaderPool r; boundReaderAddr := boundReaderAddr r;
    extBuf := extBuf r; extRoute := extRoute r; extTxStart := extTxStart r; extTxEnd := extTxEnd r;
    extIsWrite := extIsWrite r; extHasExecute := extHasExecute r; extSessionBlocked := extSessionBlocked r;
    extSessionBlockedFeature := extSessionBlockedFeature r; extQueryText := extQueryText r;
    muxBindDetail := muxBindDetail r; synth := synth r; session := session r |}.
Definition set_boundWriterPool (v : option pool_loc) (r : Vars) : Vars :=
  {| boundWriter := boundWriter r; boundWriterPool := v; connDirty := connDirty r;
    boundReader := boundReader r; boundReaderPool := boundReaderPool r; boundReaderAddr := boundReaderAddr r;
    extBuf := extBuf r; extRoute := extRoute r; extTxStart := extTxStart r; extTxEnd := extTxEnd r;
    extIsWrite := extIsWrite r; extHasExecute := extHasExecute r; extSessionBlocked := extSessionBlocked r;
    extSessionBlockedFeature := extSessionBlockedFeature r; extQueryText := extQueryText r;
    muxBindDetail := muxBindDetail r; synth := synth r; session := session r |}.
Definition set_connDirty (v : bool) (r : Vars) : Vars :=
  {| boundWriter := boundWriter r; boundWriterPool := boundWriterPool r; connDirty := v;
    boundReader := boundReader r; boundReaderPool := boundReaderPool r; boundReaderAddr := boundReaderAddr r;
    extBuf := extBuf r; extRoute := extRoute r; extTxStart := extTxStart r; extTxEnd := extTxEnd r;
    extIsWrite := extIsWrite r; extHasExecute := extHasExecute r; extSessionBlocked := extSessionBlocked r;
    extSessionBlockedFeature := extSessionBlockedFeature r; extQueryText := extQueryText r;
    muxBindDetail := muxBindDetail r; synth := synth r; session := session r |}.
Definition set_boundReader (v : option Pool.Conn) (r : Vars) : Vars :=
  {| boundWriter := boundWriter r; boundWriterPool := boundWriterPool r; connDirty := connDirty r;
    boundReader := v; boundReaderPool := boundReaderPool r; boundReaderAddr := boundReaderAddr r;
    extBuf := extBuf r; extRoute := extRoute r; extTxStart := extTxStart r; extTxEnd := extTxEnd r;
    extIsWrite := extIsWrite r; extHasExecute := extHasExecute r; extSessionBlocked := extSessionBlocked r;
    extSessionBlockedFeature := extSessionBlockedFeature r; extQueryText := extQueryText r;
    muxBindDetail := muxBindDetail r; synth := synth r; session := session r |}.
Definition set_boundReaderPool (v : option pool_loc) (r : Vars) : Vars :=
  {| boundWriter := boundWriter r; boundWriterPool := boundWriterPool r; connDirty := connDirty r;
    boundReader := boundReader r; boundReaderPool := v; boundReaderAddr := boundReaderAddr r;
    extBuf := extBuf r; extRoute := extRoute r; extTxStart := extTxStart r; extTxEnd := extTxEnd r;
    extIsWrite := extIsWrite r; extHasExecute := extHasExecute r; extSessionBlocked := extSessionBlocked r;
    extSessionBlockedFeature := extSessionBlockedFeature r; extQueryText := extQueryText r;
    muxBindDetail := muxBindDetail r; synth := synth r; session := session r |}.
Definition set_boundReaderAddr (v : bytes) (r : Vars) : Vars :=
  {| boundWriter := boundWriter r; boundWriterPool := boundWriterPool r; connDirty := connDirty r;
    boundReader := boundReader r; boundReaderPool := boundReaderPool r; boundReaderAddr := v;
    extBuf := extBuf r; extRoute := extRoute r; extTxStart := extTxStart r; extTxEnd := extTxEnd r;
    extIsWrite := extIsWrite r; extHasExecute := extHasExecute r; extSessionBlocked := extSessionBlocked r;
    extSessionBlockedFeature := extSessionBlockedFeature r; extQueryText := extQueryText r;
    muxBindDetail := muxBindDetail r; synth := synth r; session := session r |}.
Definition set_extBuf (v : list Message) (r : Vars) : Vars :=
  {| boundWriter := boundWriter r; boundWriterPool := boundWriterPool r; connDirty := connDirty r;
    boundReader := boundReader r; boundReaderPool := boundReaderPool r; boundReaderAddr := boundReaderAddr r;
    extBuf := v; extRoute := extRoute r; extTxStart := extTxStart r; extTxEnd := extTxEnd r;
    extIsWrite := extIsWrite r; extHasExecute := extHasExecute r; extSessionBlocked := extSessionBlocked r;
    extSessionBlockedFeature := extSessionBlockedFeature r; extQueryText := extQueryText r;
    muxBindDetail := muxBindDetail r; synth := synth r; session := session r |}.
Definition set_extRoute (v : Route_) (r : Vars) : Vars :=
  {| boundWriter := boundWriter r; boundWriterPool := boundWriterPool r; connDirty := connDirty r;
    boundReader := boundReader r; boundReaderPool := boundReaderPool r; boundReaderAddr := boundReaderAddr r;
    extBuf := extBuf r; extRoute := v; extTxStart := extTxStart r; extTxEnd := extTxEnd r;
    extIsWrite := extIsWrite r; extHasExecute := extHasExecute r; extSessionBlocked := extSessionBlocked r;
    extSessionBlockedFeature := extSessionBlockedFeature r; extQueryText := extQueryText r;
    muxBindDetail := muxBindDetail r; synth := synth r; session := session r |}.
Definition set_extTxStart (v : bool) (r : Vars) : Vars :=
  {| boundWriter := boundWriter r; boundWriterPool := boundWriterPool r; connDirty := connDirty r;
    boundReader := boundReader r; boundReaderPool := boundReaderPool r; boundReaderAddr := boundReaderAddr r;
    extBuf := extBuf r; extRoute := extRoute r; extTxStart := v; extTxEnd := extTxEnd r;
    extIsWrite := extIsWrite r; extHasExecute := extHasExecute r; extSessionBlocked := extSessionBlocked r;
    extSessionBlockedFeature := extSessionBlockedFeature r; extQueryText := extQueryText r;
    muxBindDetail := muxBindDetail r; synth := synth r; session := session r |}.
Definition set_extTxEnd (v : bool) (r : Vars) : Vars :=
  {| boundWriter := boundWriter r; boundWriterPool := boundWriterPool r; connDirty := connDirty r;
    boundReader := boundReader r; boundReaderPool := boundReaderPool r; boundReaderAddr := boundReaderAddr r;
    extBuf := extBuf r; extRoute := extRoute r; extTxStart := extTxStart r; extTxEnd := v;
    extIsWrite := extIsWrite r; extHasExecute := extHasExecute r; extSessionBlocked := extSessionBlocked r;
    extSessionBlockedFeature := extSessionBlockedFeature r; extQueryText := extQueryText r;
    muxBindDetail := muxBindDetail r; synth := synth r; session := session r |}.
Definition set_extIsWrite (v : bool) (r : Vars) : Vars :=
  {| boundWriter := boundWriter r; boundWriterPool := boundWriterPool r; connDirty := connDirty r;
    boundReader := boundReader r; boundReaderPool := boundReaderPool r; boundReaderAddr := boundReaderAddr r;
    extBuf := extBuf r; extRoute := extRoute r; extTxStart := extTxStart r; extTxEnd := extTxEnd r;
    extIsWrite := v; extHasExecute := extHasExecute r; extSessionBlocked := extSessionBlocked r;
    extSessionBlockedFeature := extSessionBlockedFeature r; extQueryText := extQueryText r;
    muxBindDetail := muxBindDetail r; synth := synth r; session := session r |}.
Definition set_extHasExecute (v : bool) (r : Vars) : Vars :=
  {| boundWriter := boundWriter r; boundWriterPool := boundWriterPool r; connDirty := connDirty r;
    boundReader := boundReader r; boundReaderPool := boundReaderPool r; boundReaderAddr := boundReaderAddr r;
    extBuf := extBuf r; extRoute := extRoute r; extTxStart := extTxStart r; extTxEnd := extTxEnd r;
    extIsWrite := extIsWrite r; extHasExecute := v; extSessionBlocked := extSessionBlocked r;
    extSessionBlockedFeature := extSessionBlockedFeature r; extQueryText := extQueryText r;
    muxBindDetail := muxBindDetail r; synth := synth r; session := session r |}.
Definition set_extSessionBlocked (v : bool) (r : Vars) : Vars :=
  {| boundWriter := boundWriter r; boundWriterPool := boundWriterPool r; connDirty := connDirty r;
    boundReader := boundReader r; boundReaderPool := boundReaderPool r; boundReaderAddr := boundReaderAddr r;
    extBuf := extBuf r; extRoute := extRoute r; extTxStart := extTxStart r; extTxEnd := extTxEnd r;
    extIsWrite := extIsWrite r; extHasExecute := extHasExecute r; extSessionBlocked := v;
    extSessionBlockedFeature := extSessionBlockedFeature r; extQueryText := extQueryText r;
    muxBindDetail := muxBindDetail r; synth := synth r; session := session r |}.
Definition set_extSessionBlockedFeature (v : bytes) (r : Vars) : Vars :=
  {| boundWriter := boundWriter r; boundWriterPool := boundWriterPool r; connDirty := connDirty r;
    boundReader := boundReader r; boundReaderPool := boundReaderPool r; boundReaderAddr := boundReaderAddr r;
    extBuf := extBuf r; extRoute := extRoute r; extTxStart := extTxStart r; extTxEnd := extTxEnd r;
    extIsWrite := extIsWrite r; extHasExecute := extHasExecute r; extSessionBlocked := extSessionBlocked r;
    extSessionBlockedFeature := v; extQueryText := extQueryText r; muxBindDetail := muxBindDetail r;
    synth := synth r; session := session r |}.
Definition set_extQueryText (v : bytes) (r : Vars) : Vars :=
  {| boundWriter := boundWriter r; boundWriterPool := boundWriterPool r; connDirty := connDirty r;
    boundReader := boundReader r; boundReaderPool := boundReaderPool r; boundReaderAddr := boundReaderAddr r;
    extBuf := extBuf r; extRoute := extRoute r; extTxStart := extTxStart r; extTxEnd := extTxEnd r;
    extIsWrite := extIsWrite r; extHasExecute := extHasExecute r; extSessionBlocked := extSessionBlocked r;
    extSessionBlockedFeature := extSessionBlockedFeature r; extQueryText := v;
    muxBindDetail := muxBindDetail r; synth := synth r; session := session r |}.
Definition set_muxBindDetail (v : option BindMessageDetail) (r : Vars) : Vars :=
  {| boundWriter := boundWriter r; boundWriterPool := boundWriterPool r; connDirty := connDirty r;
    boundReader := boundReader r; boundReaderPool := boundReaderPool r; boundReaderAddr := boundReaderAddr r;
    extBuf := extBuf r; extRoute := extRoute r; extTxStart := extTxStart r; extTxEnd := extTxEnd r;
    extIsWrite := extIsWrite r; extHasExecute := extHasExecute r; extSessionBlocked := extSessionBlocked r;
    extSessionBlockedFeature := extSessionBlockedFeature r; extQueryText := extQueryText r;
    muxBindDetail := v; synth := synth r; session := session r |}.
Definition set_synth (v : Synthesizer) (r : Vars) : Vars :=
  {| boundWriter := boundWriter r; boundWriterPool := boundWriterPool r; connDirty := connDirty r;
    boundReader := boundReader r; boundReaderPool := boundReaderPool r; boundReaderAddr := boundReaderAddr r;
    extBuf := extBuf r; extRoute := extRoute r; extTxStart := extTxStart r; extTxEnd := extTxEnd r;
    extIsWrite := extIsWrite r; extHasExecute := extHasExecute r; extSessionBlocked := extSessionBlocked r;
    extSessionBlockedFeature := extSessionBlockedFeature r; extQueryText := extQueryText r;
    muxBindDetail := muxBindDetail r; synth := v; session := session r |}.
Definition set_session (v : Session) (r : Vars) : Vars :=
  {| boundWriter := boundWriter r; boundWriterPool := boundWriterPool r; connDirty := connDirty r;
    boundReader := boundReader r; boundReaderPool := boundReaderPool r; boundReaderAddr := boundReaderAddr r;
    extBuf := extBuf r; extRoute := extRoute r; extTxStart := extTxStart r; extTxEnd := extTxEnd r;
    extIsWrite := extIsWrite r; extHasExecute := extHasExecute r; extSessionBlocked := extSessionBlocked r;
    extSessionBlockedFeature := extSessionBlockedFeature r; extQueryText := extQueryText r;
    muxBindDetail := muxBindDetail r; synth := synth r; session := v |}.

Record Sess := { server : Server; env : list (Server -> Server); vars : Vars }.

Abbreviation M := (Relay.M Sess).

(** One atomic access to the shared state. *)
Definition access {A} (f : Server -> A * Server) : M A := fun w =>
  let '(change, env') := match env (sh w) with e :: es => (e, es) | [] => (fun s => s, []) end in
  let '(a, s') := f (change (server (sh w))) in
  (Ok a, {| cin := cin w; bin := bin w; faults := faults w; grants := grants w; trace := trace w;
            sh := {| server := s'; env := env'; vars := vars (sh w) |} |}).

Definition ask {A} (f : Server -> A) : M A := access (fun s => (f s, s)).
Definition update (f : Server -> Server) : M unit := access (fun s => (tt, f s)).

Definition var {A} (f : Vars -> A) : M A := s <-! get; ret (f (vars s)).
Definition assign (f : Vars -> Vars) : M unit := modify (fun s => {| server := server s; env := env s; vars := f (vars s) |}).

Definition getConfig : M Config.Config := ask s_cfg.

(** ** Helpers (helpers.go) *)

(** [fmt]: the text of quoted names and of error values. *)
Class Texts := { Quote : bytes -> bytes; bind_error : BindErr -> bytes; synth_error : SynthErr -> bytes }.

Definition routeName (r : Route_) : bytes := match r with RouteWriter => $"writer" | RouteReader => $"reader" end.

Definition mixDBName (key : Z) (dbName : bytes) : Z :=
  match dbName with [] => key | _ => Z.lxor key (fnv_write fnv_offset dbName) end.

Section Helpers.
Context `{UnicodeCase} `{PgQuery} `{RewriteDeps}.

Definition parseSize (s : bytes) : Z :=
  let s := TrimSpace (ToUpper s) in
  if bool_decide (s = []) || bool_decide (s = $"0") then 0%Z
  else if HasSuffix s $"MB" then
    match Atoi (take (length s - 2) s) with Some n => wrapS 64 (wrapS 64 (n * 1024) * 1024) | None => 0%Z end
  else if HasSuffix s $"KB" then
    match Atoi (take (length s - 2) s) with Some n => wrapS 64 (n * 1024) | None => 0%Z end
  else match Atoi s with Some n => n | None => 0%Z end.

Definition astParser_on : M bool := cfg <-! getConfig; ret (ASTParser (Routing cfg)).

Definition cacheKey (query dbName : bytes) : M Z :=
  ast <-! astParser_on;
  ret (mixDBName (if ast then SemanticCacheKey query else CacheKey query []) dbName).

Definition cacheKeyParsed (query : bytes) (pq : option ParsedQuery) (dbName : bytes) : M Z :=
  ast <-! astParser_on;
  match ast, pq with
  | true, Some pq => ret (mixDBName (semanticCacheKeyFromTree (pq_Tree pq) query) dbName)
  | _, _ => cacheKey query dbName
  end.

Definition classifyQuery (query : bytes) : M QueryType :=
  ast <-! astParser_on; ret (if ast then ClassifyAST query else Classify query).

Definition classifyQueryParsed (query : bytes) (pq : option ParsedQuery) : M QueryType :=
  ast <-! astParser_on;
  match ast, pq with
  | true, Some pq => ret (ClassifyASTWithTree query pq)
  | _, _ => classifyQuery query
  end.

Definition extractQueryTables (query : bytes) : M (list bytes) :=
  ast <-! astParser_on; lift (if ast then ExtractTablesAST query else ExtractTables query).

Definition extractReadQueryTables (query : bytes) : M (list bytes) :=
  ast <-! astParser_on; lift (if ast then ExtractReadTablesAST query else ExtractReadTables query).

Definition extractReadQueryTablesParsed (query : bytes) (pq : option ParsedQuery) : M (list bytes) :=
  ast <-! astParser_on;
  match ast, pq with
  | true, Some pq => ret (extractReadTablesFromTree (pq_Tree pq))
  | _, _ => extractReadQueryTables query
  end.

Definition extractQueryTablesParsed (query : bytes) (pq : option ParsedQuery) : M (list bytes) :=
  ast <-! astParser_on;
  match ast, pq with
  | true, Some pq => ret (extractTablesFromTree (pq_Tree pq))
  | _, _ => extractQueryTables query
  end.
End Helpers.

(** A timer that sends a cancel request to the session's target when it fires. *)
Definition startQueryTimer (timeout : Duration) : M unit := if (0 <? timeout)%Z then emit (EvTimer timeout) else ret tt.
Definition stopQueryTimer (timeout : Duration) : M unit := if (0 <? timeout)%Z then emit EvTimerStop else ret tt.
