(* ===== verification/ProxyServer.v ===== *)
(** * The server (internal/proxy/server.go)

    Creation, reload and shutdown of what all sessions share: the database groups with their
    pools, the limiters, the tracker of connections, the cache and the optional components. The
    order in which Go visits the map of databases is an argument. Loading a certificate and
    reaching Redis are parameters. [Reload] holds the server's lock, so it is one step; warming
    and health checks of pools are steps of the pools, and the cleanup goroutine that the old registry of
    limiters stops when it is closed is part of that file. *)

From S2P Require Import Cancel AuditLog Digest Mirror.
From S2P Require Import Prelude GoStrings Float64 Net Config Wire SqlLex Classify Tables Ast Rewriter.
From S2P Require Import Balancer RateLimit Breaker ConnLimit Cache Pool DbGroup Proxy.

Local Open Scope nat_scope.

(** What the server uses of the file system and of the network when it is created. *)
Class Environment := { load_x509 : bytes -> bytes -> bool; reach_redis : bytes -> bytes -> bool }.

Record Srv := {
  v_cfg : Config.Config;
  v_heap : Heap;
  v_dbGroups : gmap bytes DatabaseGroup;
  v_defaultDB : bytes;
  v_rateLimiter : option RateLimiter;
  v_perUserRL : option RateLimiterRegistry;
  v_perIPRL : option RateLimiterRegistry;
  v_connTracker : option ConnTracker;
  v_rewriter : option (list compiledRule);
  v_queryCache : option Cache.Cache;
  v_invalidator : bool;
  v_tls : bool;
  v_auditLogger : option AuditLog.Logger;
  v_mirror : option Mirror.Mirror;
  v_queryDigest : option Digest.Digest;
  v_maintenanceMode : bool;
  v_maintenanceAt : Z;
  v_readOnlyMode : bool;
  v_readOnlyAt : Z
}.

(** ** Conversions of the configuration *)

Definition buildRegistryConfig (c : PerKeyRateLimitConfig) : RegistryConfig :=
  {| DefaultRate := PerKey_DefaultRate c; DefaultBurst := PerKey_DefaultBurst c;
     Overrides := fold_left (fun m o => <[Override_Key o := {| o_Rate := Override_Rate o; o_Burst := Override_Burst o |}]> m) (PerKey_Overrides c) ∅;
     CleanupTTL := 0 |}.

(** [RewriteActionType(a.Type)]: the types the rewriter acts on, and all others. *)
Definition action_type (t : bytes) : RewriteActionType :=
  if decide (t = $"table_rename") then ActionTableRename
  else if decide (t = $"column_rename") then ActionColumnRename
  else if decide (t = $"add_where") then ActionAddWhere
  else if decide (t = $"schema_qualify") then ActionSchemaQualify
  else ActionUnknown.

Definition buildRewriteRules (c : Config.Config) : list RewriteRule :=
  (fun r => {| r_Name := qrr_Name r;
               r_Enabled := match qrr_Enabled r with Some enabled => enabled | None => true end;
               r_Match := {| m_Tables := qrm_Tables (qrr_Match r); m_StatementType := qrm_StatementType (qrr_Match r); m_QueryPattern := qrm_QueryPattern (qrr_Match r) |};
               r_Actions := (fun a => {| a_Type := action_type (qra_Type a); a_From := qra_From a; a_To := qra_To a; a_Condition := qra_Condition a |}) <$> qrr_Actions r |})
    <$> QueryRewriting_Rules (QueryRewriting c).

(** ** Database groups *)

(** One database of the configuration: its group is created or, if there is one, reloaded. *)
Definition update_group (c : Config.Config) (hg : Heap * gmap bytes DatabaseGroup) (name : bytes) : res unit (Heap * gmap bytes DatabaseGroup) :=
  let '(h, gs) := hg in
  match Databases c !! name with
  | None => Ok hg
  | Some db =>
      '(g, h) <-? match gs !! name with
                  | Some existing => DbGroup.Reload h existing db (Config.CircuitBreaker c)
                  | None => newDatabaseGroup h name db (Config.CircuitBreaker c)
                  end ;
      Ok (h, <[name := g]> gs)
  end.

Fixpoint update_groups (c : Config.Config) (hg : Heap * gmap bytes DatabaseGroup) (names : list bytes) : res unit (Heap * gmap bytes DatabaseGroup) :=
  match names with
  | [] => Ok hg
  | name :: names' => hg <-? update_group c hg name ; update_groups c hg names'
  end.

(** Groups whose database is gone are closed and deleted. *)
Definition remove_group (c : Config.Config) (hg : Heap * gmap bytes DatabaseGroup) (name : bytes) : Heap * gmap bytes DatabaseGroup :=
  let '(h, gs) := hg in
  match Databases c !! name, gs !! name with
  | None, Some g => (DbGroup.Close h g, delete name gs)
  | _, _ => hg
  end.

Definition remove_groups (c : Config.Config) (hg : Heap * gmap bytes DatabaseGroup) (names : list bytes) : Heap * gmap bytes DatabaseGroup :=
  fold_left (remove_group c) names hg.

(** ** Creation *)

(** The credentials of the mirror: its own, or those of the default database. *)
Definition mirror_backend (names : list bytes) (c : Config.Config) : BackendConfig :=
  let dflt := match Databases c !! DefaultDatabaseName names c with
              | Some db => DB_Backend db
              | None => {| Backend_User := []; Backend_Password := []; Backend_Database := [] |}
              end in
  let m := Config.Mirror c in
  {| Backend_User := orS (Mirror_User m) (Backend_User dflt); Backend_Password := orS (Mirror_Password m) (Backend_Password dflt);
     Backend_Database := orS (Mirror_Database m) (Backend_Database dflt) |}.

Definition mirror_config (c : Config.Config) : Mirror.Config :=
  let m := Config.Mirror c in
  {| Mirror.Addr := Mirror_Host m ++ $":" ++ FormatInt (Mirror_Port m); Mirror.Mode := Mirror_Mode m; Mirror.Tables := Mirror_Tables m;
     Mirror.Compare := Mirror_Compare m; Mirror.Workers := Mirror_Workers m; Mirror.BufferSize := Mirror_BufferSize m |}.

(** [mirror.New] with its pool. *)
Definition new_mirror (h : Heap) (names : list bytes) (c : Config.Config) : res unit (Mirror.Mirror * Heap) :=
  let mc := mirror_config c in
  let pc := Mirror.pool_config (Mirror.with_defaults mc) in
  if (Pool.MaxConnections pc <? 0)%Z then Panic
  else Ok (Mirror.New (next_pool h) mc,
           {| objs := <[next_pool h := {| p_addr := Mirror.Addr mc; p_backend := mirror_backend names c; p_pool := Pool.New pc |}]> (objs h);
              next_pool := S (next_pool h) |}).

Definition audit_config (c : Config.Config) : AuditLog.Config :=
  {| AuditLog.SlowQueryThreshold := Config.SlowQueryThreshold (Config.Audit c); AuditLog.LogAllQueries := Config.LogAllQueries (Config.Audit c);
     AuditLog.Webhook_Enabled := Config.Webhook_Enabled (Audit_Webhook (Config.Audit c)); AuditLog.Webhook_URL := Config.Webhook_URL (Audit_Webhook (Config.Audit c));
     AuditLog.DedupInterval := 0 |}.

(** The override of a key. *)
Definition list_find_key (key : bytes) (os : list PerKeyRateLimitOverride) : option PerKeyRateLimitOverride := List.find (fun o => bool_decide (Override_Key o = key)) os.

Definition when {A} (enabled : bool) (a : A) : option A := if enabled then Some a else None.

Section Server.
Context `{UnicodeCase} `{PgQuery} `{RewriteDeps} `{Environment}.

(** The server of [NewServer], given its groups, audit log and mirror. *)
Definition new_srv (now : Time) (names : list bytes) (c : Config.Config) (h : Heap) (gs : gmap bytes DatabaseGroup)
    (auditLogger : option AuditLog.Logger) (mirror : option Mirror.Mirror) : Srv :=
  let queryCache := when (Cache_Enabled (Config.Cache c))
                         (Cache.New (MaxCacheEntries (Config.Cache c)) (CacheTTL (Config.Cache c)) (parseSize (MaxResultSize (Config.Cache c)))) in
  let inv := Invalidation (Config.Cache c) in
  let invalidator := Cache_Enabled (Config.Cache c) && bool_decide (Invalidation_Mode inv = $"pubsub") &&
                     negb (bool_decide (Invalidation_RedisAddr inv = [])) && reach_redis (Invalidation_RedisAddr inv) (Invalidation_Channel inv) in
  {| v_cfg := c; v_heap := h; v_dbGroups := gs; v_defaultDB := DefaultDatabaseName names c;
     v_rateLimiter := when (RateLimit_Enabled (Config.RateLimit c)) (NewRateLimiter now (RateLimit_Rate (Config.RateLimit c)) (RateLimit_Burst (Config.RateLimit c)));
     v_perUserRL := when (PerKey_Enabled (PerUser (Config.RateLimit c))) (NewRateLimiterRegistry (buildRegistryConfig (PerUser (Config.RateLimit c))));
     v_perIPRL := when (PerKey_Enabled (PerIP (Config.RateLimit c))) (NewRateLimiterRegistry (buildRegistryConfig (PerIP (Config.RateLimit c))));
     v_connTracker := when (ConnectionLimits_Enabled (ConnectionLimits c)) (NewConnTracker c);
     v_rewriter := when (QueryRewriting_Enabled (QueryRewriting c)) (NewRewriter (buildRewriteRules c));
     v_queryCache := queryCache; v_invalidator := invalidator; v_tls := TLS_Enabled (Config.TLS c);
     v_auditLogger := auditLogger; v_mirror := mirror;
     v_queryDigest := when (Digest_Enabled (Config.Digest c)) (Digest.New (MaxPatterns (Config.Digest c)) (SamplesPerPattern (Config.Digest c)));
     v_maintenanceMode := false; v_maintenanceAt := 0; v_readOnlyMode := false; v_readOnlyAt := 0 |}.

Definition NewServer (now : Time) (names : list bytes) (c : Config.Config) : res unit Srv :=
  '(h, gs) <-? update_groups c ({| objs := ∅; next_pool := 0 |}, ∅) names ;
  if TLS_Enabled (Config.TLS c) && negb (load_x509 (CertFile (Config.TLS c)) (KeyFile (Config.TLS c))) then Err tt
  else
    auditLogger <-? (if Audit_Enabled (Config.Audit c) then l <-? AuditLog.New (audit_config c) ; Ok (Some l) else Ok None) ;
    '(mirror, h) <-? (if Mirror_Enabled (Config.Mirror c) then '(m, h) <-? new_mirror h names c ; Ok (Some m, h) else Ok (None, h)) ;
    Ok (new_srv now names c h gs auditLogger mirror).

(** The server after a reload, given its groups. *)
Definition reload_srv (now : Time) (names : list bytes) (c : Config.Config) (h : Heap) (gs : gmap bytes DatabaseGroup) (s : Srv) : Srv :=
  {| v_cfg := c; v_heap := h; v_dbGroups := gs; v_defaultDB := DefaultDatabaseName names c;
     v_rateLimiter := when (RateLimit_Enabled (Config.RateLimit c)) (NewRateLimiter now (RateLimit_Rate (Config.RateLimit c)) (RateLimit_Burst (Config.RateLimit c)));
     v_perUserRL := when (PerKey_Enabled (PerUser (Config.RateLimit c))) (NewRateLimiterRegistry (buildRegistryConfig (PerUser (Config.RateLimit c))));
     v_perIPRL := when (PerKey_Enabled (PerIP (Config.RateLimit c))) (NewRateLimiterRegistry (buildRegistryConfig (PerIP (Config.RateLimit c))));
     v_connTracker := reload_tracker (v_connTracker s) c;
     v_rewriter := when (QueryRewriting_Enabled (QueryRewriting c)) (NewRewriter (buildRewriteRules c));
     v_queryCache := v_queryCache s; v_invalidator := v_invalidator s; v_tls := v_tls s; v_auditLogger := v_auditLogger s;
     v_mirror := v_mirror s; v_queryDigest := v_queryDigest s;
     v_maintenanceMode := v_maintenanceMode s; v_maintenanceAt := v_maintenanceAt s; v_readOnlyMode := v_readOnlyMode s; v_readOnlyAt := v_readOnlyAt s |}.

(** [oldNames] are the names of the groups there are after the update. *)
Definition Reload (now : Time) (names oldNames : list bytes) (c : Config.Config) (s : Srv) : res unit Srv :=
  hg <-? update_groups c (v_heap s, v_dbGroups s) names ;
  let '(h, gs) := remove_groups c hg oldNames in
  Ok (reload_srv now names c h gs s).
End Server.

(** ** Access *)

Definition resolveDBGroup (s : Srv) (name : bytes) : option DatabaseGroup := v_dbGroups s !! name.
Definition getDBGroups (s : Srv) : gmap bytes DatabaseGroup := v_dbGroups s.

Definition with_modes (s : Srv) (maintenance : bool) (maintenanceAt : Z) (readOnly : bool) (readOnlyAt : Z) : Srv :=
  {| v_cfg := v_cfg s; v_heap := v_heap s; v_dbGroups := v_dbGroups s; v_defaultDB := v_defaultDB s; v_rateLimiter := v_rateLimiter s;
     v_perUserRL := v_perUserRL s; v_perIPRL := v_perIPRL s; v_connTracker := v_connTracker s; v_rewriter := v_rewriter s;
     v_queryCache := v_queryCache s; v_invalidator := v_invalidator s; v_tls := v_tls s; v_auditLogger := v_auditLogger s; v_mirror := v_mirror s;
     v_queryDigest := v_queryDigest s;
     v_maintenanceMode := maintenance; v_maintenanceAt := maintenanceAt; v_readOnlyMode := readOnly; v_readOnlyAt := readOnlyAt |}.

(** The instants are kept in nanoseconds here and in seconds there. *)
Definition SetMaintenance (now : Time) (enabled : bool) (s : Srv) : Srv :=
  with_modes s enabled (if enabled then now else 0%Z) (v_readOnlyMode s) (v_readOnlyAt s).
Definition InMaintenance (s : Srv) : bool := v_maintenanceMode s.
Definition MaintenanceState (s : Srv) : bool * Time := if v_maintenanceMode s then (true, v_maintenanceAt s) else (false, 0%Z).

Definition SetReadOnly (now : Time) (enabled : bool) (s : Srv) : Srv :=
  with_modes s (v_maintenanceMode s) (v_maintenanceAt s) enabled (if enabled then (now / Second)%Z else 0%Z).
Definition InReadOnly (s : Srv) : bool := v_readOnlyMode s.
Definition ReadOnlyState (s : Srv) : bool * Time := if v_readOnlyMode s then (true, (v_readOnlyAt s * Second)%Z) else (false, 0%Z).

(** ** Shutdown *)

Definition closePools (names : list bytes) (s : Srv) : Heap :=
  fold_left (fun h name => match v_dbGroups s !! name with Some g => DbGroup.Close h g | None => h end) names (v_heap s).

(** What [Start] does when its context is done and the clients are gone or the timeout has
    passed. *)
Definition shutdown (names : list bytes) (s : Srv) : Srv :=
  let h := closePools names s in
  {| v_cfg := v_cfg s; v_heap := match v_mirror s with Some m => close_pool h (Mirror.m_pool m) | None => h end;
     v_dbGroups := v_dbGroups s; v_defaultDB := v_defaultDB s; v_rateLimiter := v_rateLimiter s;
     v_perUserRL := v_perUserRL s; v_perIPRL := v_perIPRL s; v_connTracker := v_connTracker s; v_rewriter := v_rewriter s;
     v_queryCache := v_queryCache s; v_invalidator := false; v_tls := v_tls s; v_auditLogger := AuditLog.Close <$> v_auditLogger s;
     v_mirror := Mirror.Close <$> v_mirror s; v_queryDigest := v_queryDigest s;
     v_maintenanceMode := v_maintenanceMode s; v_maintenanceAt := v_maintenanceAt s; v_readOnlyMode := v_readOnlyMode s; v_readOnlyAt := v_readOnlyAt s |}.

(** ** Groups side by side *)

(** Every group is well formed and no two share a pool. *)
Record groups_ok (h : Heap) (gs : gmap bytes DatabaseGroup) : Prop := {
  ok_allocated : allocated h;
  ok_groups n g : gs !! n = Some g -> well_formed h g;
  ok_disjoint n1 g1 n2 g2 l : gs !! n1 = Some g1 -> gs !! n2 = Some g2 -> pool_of g1 l -> pool_of g2 l -> n1 = n2
}.

(** The group connects to what the configuration says. *)
Definition matches (db : DatabaseConfig) (g : DatabaseGroup) : Prop :=
  writerAddr g = addr_of (Writer db) /\ backendCfg g = DB_Backend db /\ Backends (balancer g) = addr_of <$> Readers db.

Lemma well_formed_pool h g l : well_formed h g -> pool_of g l -> is_Some (objs h !! l) /\ l < next_pool h.
Proof.
  intros [(w & Hw & Ho & _) Hr _ Ha] Hp. assert (exists a b, open h l a b) as (a & b & o & E & _).
  { destruct Hp as [E|[a E]]; [rewrite Hw in E; injection E as <-; eauto|eauto]. }
  split; [by rewrite E|]. apply Ha. by apply elem_of_dom_2 in E.
Qed.

Lemma well_formed_frame h h' g : well_formed h g -> allocated h' -> (forall l, pool_of g l -> objs h' !! l = objs h !! l) -> well_formed h' g.
Proof.
  intros [(w & Hw & (o & Ho & Hrest) & Hsep) Hr Hb Ha] Ha' Hsame. split; [| |done|done].
  - exists w. split_and!; [done| |done]. exists o. rewrite Hsame by by left. done.
  - intros a l Hl. destruct (Hr a l Hl) as (o' & Ho' & Hrest'). exists o'. rewrite Hsame by (right; by exists a). done.
Qed.

(** A group is replaced by one that has new pools or pools of the old one, and nothing else
    changes. *)
Lemma replace_group h gs n g h' :
  groups_ok h gs -> well_formed h' g -> allocated h' ->
  (forall l, pool_of g l -> (exists g0, gs !! n = Some g0 /\ pool_of g0 l) \/ next_pool h <= l) ->
  (forall l, l < next_pool h -> (forall g0, gs !! n = Some g0 -> ~ pool_of g0 l) -> objs h' !! l = objs h !! l) ->
  groups_ok h' (<[n := g]> gs).
Proof.
  intros [Ha Hg Hd] Hwf Ha' Hnew Hun.
  assert (forall n1 g1 l, n1 <> n -> gs !! n1 = Some g1 -> pool_of g1 l -> ~ pool_of g l) as Hsep.
  { intros n1 g1 l Hne H1 Hl Hl'. destruct (Hnew l Hl') as [(g0 & H0 & Hl0)|Hge]; [by rewrite (Hd n1 g1 n g0 l) in Hne|].
    destruct (well_formed_pool _ _ _ (Hg n1 g1 H1) Hl). lia. }
  split; [done| |].
  - intros n1 g1. rewrite lookup_insert_Some. intros [[<- <-]|[Hne H1]]; [done|]. apply (well_formed_frame h); [by eapply Hg|done|].
    intros l Hl. apply Hun; [by eapply well_formed_pool; [eapply Hg|]|]. intros g0 H0 Hl0. by apply Hne; rewrite (Hd n1 g1 n g0 l).
  - intros n1 g1 n2 g2 l. rewrite !lookup_insert_Some. intros [[<- <-]|[N1 H1]] [[<- <-]|[N2 H2]] L1 L2; [done| | |by eapply Hd].
    + exfalso. by eapply (Hsep n2 g2 l).
    + exfalso. by eapply (Hsep n1 g1 l).
Qed.

(** ** Creation and reload do not fail on valid pool sizes *)

Definition sizes_ok (c : Config.Config) : Prop := forall n db, Databases c !! n = Some db -> (0 <= Pool_MaxConnections (DB_Pool db))%Z.

Lemma new_pool_Ok h addr b p : (0 <= Pool_MaxConnections p)%Z -> exists l h', new_pool h addr b p = Ok (l, h').
Proof. intros Hm. unfold new_pool. destruct (Z.ltb_spec (Pool_MaxConnections p) 0); [lia|]. eauto. Qed.

Lemma reload_readers_Ok h g db changed addrs acc : (0 <= Pool_MaxConnections (DB_Pool db))%Z -> exists m h', reload_readers h g db changed addrs acc = Ok (m, h').
Proof.
  intros Hm. revert h acc. induction addrs as [|a addrs IH]; intros h acc; cbn [reload_readers]; [eauto|].
  destruct (if changed then None else readerPools g !! a); [apply IH|].
  destruct (new_pool_Ok h a (DB_Backend db) (DB_Pool db) Hm) as (l & h1 & ->). cbn [res_bind]. apply IH.
Qed.

Lemma Reload_Ok h g db cb : (0 <= Pool_MaxConnections (DB_Pool db))%Z -> exists g' h', DbGroup.Reload h g db cb = Ok (g', h').
Proof.
  intros Hm. unfold DbGroup.Reload. set (replace := _ || _).
  assert (exists wp h1, reload_writer h g db replace = Ok (wp, h1)) as (wp & h1 & ->).
  { unfold reload_writer. destruct replace; [|eauto]. edestruct new_pool_Ok as (l & h1 & ->); [done|]. cbn. eauto. }
  cbn [res_bind]. edestruct reload_readers_Ok as (m & h2 & ->); [done|]. cbn [res_bind]. eauto.
Qed.

Lemma newDatabaseGroup_Ok h n db cb : (0 <= Pool_MaxConnections (DB_Pool db))%Z -> exists g h', newDatabaseGroup h n db cb = Ok (g, h').
Proof.
  intros Hm. unfold newDatabaseGroup. edestruct new_pool_Ok as (l & h1 & ->); [done|]. cbn [res_bind].
  set (g0 := {| g_name := []; writerAddr := []; writerPool := None; readerPools := ∅; balancer := NewRoundRobin []; writerCB := None;
                readerCBs := ∅; backendCfg := DB_Backend db |}).
  rewrite (new_readers_reload _ g0). edestruct reload_readers_Ok as (m & h2 & ->); [done|]. cbn [res_bind]. eauto.
Qed.

(** ** One database *)

Lemma reload_readers_same h g db addrs acc m h' :
  (forall a, a ∈ addrs -> is_Some (readerPools g !! a)) -> reload_readers h g db false addrs acc = Ok (m, h') ->
  h' = h /\ forall a, m !! a = if decide (a ∈ addrs) then readerPools g !! a else acc !! a.
Proof.
  revert acc. induction addrs as [|x addrs IH]; intros acc Hin; cbn [reload_readers].
  { intros [= <- <-]. split; [done|]. intros a. by rewrite decide_False by by apply not_elem_of_nil. }
  destruct (Hin x ltac:(by left)) as [p Hp]. rewrite Hp. intros Hr. apply IH in Hr as [-> Hm]; [|intros a Ha; apply Hin; by right]. split; [done|].
  intros a. rewrite Hm. destruct (decide (a = x)) as [->|Hne].
  - rewrite (decide_True (P := x ∈ x :: addrs)) by by left. destruct (decide _); [done|]. by rewrite lookup_insert_eq.
  - destruct (decide (a ∈ addrs)) as [Ha|Ha]; [by rewrite decide_True by by right|]. rewrite decide_False by (rewrite elem_of_cons; tauto).
    by rewrite lookup_insert_ne.
Qed.

(** A reload with the same addresses and credentials changes no pool. *)
Lemma Reload_same h g db cb g' h' :
  well_formed h g -> matches db g -> DbGroup.Reload h g db cb = Ok (g', h') -> h' = h /\ writerPool g' = writerPool g /\ readerPools g' = readerPools g.
Proof.
  intros [_ _ [_ Hb] _] (Hw & Hc & Hr). unfold DbGroup.Reload. rewrite <- Hc, <- Hw.
  assert (credsChanged (backendCfg g) (backendCfg g) = false) as -> by (unfold credsChanged; by rewrite !bool_decide_eq_false_2 by (intros Hn; by apply Hn)).
  rewrite bool_decide_eq_false_2 by (intros Hn; by apply Hn). cbn [orb]. unfold reload_writer. cbn [res_bind].
  destruct (reload_readers h g db false _ ∅) as [[m h1]| |] eqn:E; [|done..]. cbn [res_bind]. rewrite <- Hr in E.
  apply reload_readers_same in E as [-> Hm]; [|intros a Ha; by apply Hb].
  assert (m = readerPools g) as ->.
  { apply map_eq. intros a. rewrite Hm, lookup_empty. destruct (decide _) as [|Hn]; [done|]. rewrite Hb in Hn. symmetry. by apply eq_None_not_Some. }
  assert (removed_readers g (readerPools g) = []) as ->.
  { unfold removed_readers. replace (filter _ (readerPools g)) with (∅ : gmap bytes pool_loc); [by rewrite map_to_list_empty|].
    symmetry. apply map_empty. intros a. rewrite map_lookup_filter. destruct (readerPools g !! a) as [l|] eqn:E'; [|done]. cbn. by rewrite E'. }
  by intros [= <- <-].
Qed.

Lemma update_group_ok c h gs n db :
  groups_ok h gs -> Databases c !! n = Some db -> (0 <= Pool_MaxConnections (DB_Pool db))%Z ->
  exists g h', update_group c (h, gs) n = Ok (h', <[n := g]> gs) /\ groups_ok h' (<[n := g]> gs) /\ matches db g /\ next_pool h <= next_pool h' /\
    (forall l, l < next_pool h -> (forall g0, gs !! n = Some g0 -> ~ pool_of g0 l) -> objs h' !! l = objs h !! l) /\
    (forall g0, gs !! n = Some g0 -> matches db g0 -> h' = h /\ writerPool g = writerPool g0 /\ readerPools g = readerPools g0) /\
    (forall l, pool_of g l -> (exists g0, gs !! n = Some g0 /\ pool_of g0 l) \/ next_pool h <= l).
Proof.
  intros Hok Hdb Hm. pose proof Hok as [Ha Hg Hd]. unfold update_group. rewrite Hdb. destruct (gs !! n) as [g0|] eqn:E.
  - destruct (Reload_Ok h g0 db (Config.CircuitBreaker c) Hm) as (g & h' & Hr). rewrite Hr. cbn [res_bind]. exists g, h'. pose proof (Hg n g0 E) as Hwf.
    destruct (Reload_frame _ _ _ _ _ _ Hwf Hr) as (Hnew & Hun & Ha' & Hnext). pose proof (Reload_well_formed _ _ _ _ _ _ Hwf Hr) as Hwf'.
    destruct (Reload_pools _ _ _ _ _ _ Hwf Hr) as (_ & _ & _ & _ & _ & _ & _ & Hwa & Hb & Hbal).
    destruct (UpdateBackends_addrs (balancer g0) (addr_of <$> Readers db) (proj1 (wf_balancer _ _ Hwf))) as [_ Hbk].
    assert (forall l, pool_of g l -> (exists g1, Some g0 = Some g1 /\ pool_of g1 l) \/ next_pool h <= l) as Hpools
      by (intros l Hl; destruct (Hnew l Hl); [left; by exists g0|by right]).
    split_and!; [done| |by split_and!; rewrite ?Hbal|done| | |done].
    + eapply (replace_group h); [done..| |].
      * rewrite E. exact Hpools.
      * intros l Hl Hno. apply Hun; [done|]. by apply Hno.
    + intros l Hl Hno. apply Hun; [done|]. by apply Hno.
    + intros g1 [= <-] Hmatch. by eapply Reload_same.
  - destruct (newDatabaseGroup_Ok h n db (Config.CircuitBreaker c) Hm) as (g & h' & Hr). rewrite Hr. cbn [res_bind]. exists g, h'.
    destruct (new_group_frame _ _ _ _ _ _ Ha Hr) as (Hnew & Hun & Ha' & Hnext). destruct (new_group _ _ _ _ _ _ Ha Hr) as (Hwf & _ & Hwa & Hb & Hbk).
    split_and!; [done| |by split_and!|done| |done|intros l Hl; right; by apply Hnew].
    + eapply (replace_group h); [done..| |].
      * intros l Hl. right. by apply Hnew.
      * intros l Hl _. by apply Hun.
    + intros l Hl _. by apply Hun.
Qed.

(** ** All databases *)

(** What updating the databases [names] does. *)
Record updated (c : Config.Config) (names : list bytes) (h : Heap) (gs : gmap bytes DatabaseGroup) (h' : Heap) (gs' : gmap bytes DatabaseGroup) : Prop := {
  upd_ok : groups_ok h' gs';
  upd_next : next_pool h <= next_pool h';
  upd_in n db : n ∈ names -> Databases c !! n = Some db -> exists g, gs' !! n = Some g /\ matches db g;
  upd_out n : n ∉ names -> gs' !! n = gs !! n;
  upd_same n db g : n ∈ names -> Databases c !! n = Some db -> gs !! n = Some g -> matches db g ->
    exists g', gs' !! n = Some g' /\ writerPool g' = writerPool g /\ readerPools g' = readerPools g /\ forall l, pool_of g l -> objs h' !! l = objs h !! l;
  upd_pools n g l : gs' !! n = Some g -> pool_of g l -> (exists g0, gs !! n = Some g0 /\ pool_of g0 l) \/ next_pool h <= l;
  upd_frame l : l < next_pool h -> (forall n g, n ∈ names -> gs !! n = Some g -> ~ pool_of g l) -> objs h' !! l = objs h !! l
}.

Lemma update_groups_ok c names h gs :
  sizes_ok c -> NoDup names -> (forall n, n ∈ names -> is_Some (Databases c !! n)) -> groups_ok h gs ->
  exists h' gs', update_groups c (h, gs) names = Ok (h', gs') /\ updated c names h gs h' gs'.
Proof.
  intros Hs. revert h gs. induction names as [|n names IH]; intros h gs Hnd Hin Hok.
  { exists h, gs. split; [done|]. split; try done; try (intros; by apply not_elem_of_nil in H). intros n g l Hg Hl. left. by exists g. }
  apply list.NoDup_cons in Hnd as [Hn Hnd]. destruct (Hin n ltac:(by left)) as [db Hdb]. cbn [update_groups].
  destruct (update_group_ok c h gs n db Hok Hdb (Hs n db Hdb)) as (g & h1 & -> & Hok1 & Hm & Hnext & Hun & Hsame & Hpools). cbn [res_bind].
  destruct (IH h1 (<[n := g]> gs) Hnd) as (h2 & gs2 & -> & [U1 U2 U3 U4 U5 U7 U6]); [intros x Hx; apply Hin; by right|done|].
  exists h2, gs2. split; [done|]. pose proof Hok as [Ha Hg Hd].
  assert (gs2 !! n = Some g) as Hgn by (rewrite U4 by done; by rewrite lookup_insert_eq).
  split; [done|lia| | | | |].
  - intros x db'. rewrite elem_of_cons. intros [->|Hx] Hx'; [|by eapply U3]. exists g. split; [done|]. rewrite Hdb in Hx'. by injection Hx' as <-.
  - intros x Hx. rewrite not_elem_of_cons in Hx. destruct Hx as [Hne Hx]. rewrite U4 by done. by rewrite lookup_insert_ne.
  - intros x db' g0. rewrite elem_of_cons. intros [->|Hx] Hx' H0 Hmatch.
    + rewrite Hdb in Hx'. injection Hx' as <-. destruct (Hsame g0 H0 Hmatch) as (-> & Hw & Hr). exists g. split_and!; [done..|]. intros l Hl. apply U6.
      * by eapply well_formed_pool; [eapply Hg|].
      * intros y g1 Hy. rewrite lookup_insert_Some. intros [[<- <-]|[Hne H1]]; [done|]. intros Hl1. apply Hne. by eapply Hd.
    + assert (x <> n) as Hne by (by intros ->). destruct (U5 x db' g0 Hx Hx') as (g' & Hg' & Hw & Hr & Hl); [by rewrite lookup_insert_ne|done|].
      exists g'. split_and!; [done..|]. intros l Hp. rewrite Hl by done. apply Hun; [by eapply well_formed_pool; [eapply Hg|]|].
      intros g1 H1 Hp1. apply Hne. by eapply Hd.
  - intros x g0 l Hg0 Hl. destruct (U7 x g0 l Hg0 Hl) as [(g1 & H1 & Hl1)|?]; [|right; lia]. rewrite lookup_insert_Some in H1.
    destruct H1 as [[<- <-]|[_ H1]]; [by apply Hpools|left; by exists g1].
  - intros l Hl Hno. rewrite U6; [apply Hun; [done|]; intros g0 H0; apply (Hno n); [by left|done]|lia|].
    intros y g1 Hy. assert (y <> n) as Hne by (by intros ->). rewrite lookup_insert_ne by done. apply Hno. by right.
Qed.

(** ** Removal *)

Lemma close_group h gs n g :
  groups_ok h gs -> gs !! n = Some g ->
  groups_ok (DbGroup.Close h g) (delete n gs) /\ (forall l, pool_of g l -> is_closed (DbGroup.Close h g) l) /\
  (forall l, ~ pool_of g l -> objs (DbGroup.Close h g) !! l = objs h !! l) /\ next_pool (DbGroup.Close h g) = next_pool h.
Proof.
  intros [Ha Hg Hd] E. destruct (Close_spec h g) as (C1 & C2 & C3 & C4). split_and!; [|intros l Hl; apply C2; [done|by eapply well_formed_pool; [eapply Hg|]]|done..].
  assert (allocated (DbGroup.Close h g)) as Ha' by (intros l; rewrite C3, C4; apply Ha). split; [done| |].
  - intros n1 g1. rewrite lookup_delete_Some. intros [Hne H1]. apply (well_formed_frame h); [by eapply Hg|done|]. intros l Hl. apply C1. intros Hl'. apply Hne. by eapply Hd.
  - intros n1 g1 n2 g2 l. rewrite !lookup_delete_Some. intros [_ H1] [_ H2]. by eapply Hd.
Qed.

Lemma remove_groups_ok c names h gs :
  groups_ok h gs ->
  let '(h', gs') := remove_groups c (h, gs) names in
  groups_ok h' gs' /\ next_pool h' = next_pool h /\
  (forall n, gs' !! n = if decide (n ∈ names /\ Databases c !! n = None) then None else gs !! n) /\
  (forall n g l, n ∈ names -> Databases c !! n = None -> gs !! n = Some g -> pool_of g l -> is_closed h' l) /\
  (forall l, (forall n g, n ∈ names -> Databases c !! n = None -> gs !! n = Some g -> ~ pool_of g l) -> objs h' !! l = objs h !! l).
Proof.
  unfold remove_groups. revert h gs. induction names as [|n names IH]; intros h gs Hok; cbn [fold_left].
  { split_and!; [done|done| | |done]; [intros n; by rewrite decide_False by (intros [Hn _]; by apply not_elem_of_nil in Hn)|intros n g l Hn; by apply not_elem_of_nil in Hn]. }
  assert (remove_group c (h, gs) n = match Databases c !! n, gs !! n with None, Some g => (DbGroup.Close h g, delete n gs) | _, _ => (h, gs) end) as -> by done.
  assert ((Databases c !! n = None /\ is_Some (gs !! n)) \/ (is_Some (Databases c !! n) \/ gs !! n = None)) as [[Hc [g E]]|Hkeep]
    by (destruct (Databases c !! n), (gs !! n); eauto).
  - rewrite Hc, E. destruct (close_group h gs n g Hok E) as (Hok1 & Hcl & Hun & Hnext). specialize (IH (DbGroup.Close h g) (delete n gs) Hok1).
    destruct (fold_left _ names _) as [h' gs']. destruct IH as (R1 & R2 & R3 & R4 & R5). split_and!; [done|by rewrite R2| | |].
    + intros x. rewrite R3. destruct (decide (x = n)) as [->|Hne]; [rewrite lookup_delete_eq; rewrite (decide_True (P := n ∈ n :: names /\ _)) by (split; [by left|done]); by destruct (decide _)|].
      rewrite lookup_delete_ne by done. apply decide_ext. rewrite elem_of_cons. naive_solver.
    + intros x g0 l. rewrite elem_of_cons. intros [->|Hx] Hx' H0 Hl.
      * rewrite E in H0. injection H0 as <-. destruct (Hcl l Hl) as (o & Ho & Hclosed). exists o. rewrite R5; [done|].
        intros y g1 Hy _. rewrite lookup_delete_Some. intros [Hne H1] Hl1. apply Hne. by eapply (ok_disjoint _ _ Hok).
      * destruct (decide (x = n)) as [->|Hne]; [|by eapply (R4 x g0); [..|rewrite lookup_delete_ne by done|]].
        rewrite E in H0. injection H0 as <-. destruct (Hcl l Hl) as (o & Ho & Hclosed). exists o. rewrite R5; [done|].
        intros y g1 Hy _. rewrite lookup_delete_Some. intros [Hne H1] Hl1. apply Hne. by eapply (ok_disjoint _ _ Hok).
    + intros l Hno. rewrite R5; [apply Hun, (Hno n); [by left|done..]|]. intros y g1 Hy Hy'. rewrite lookup_delete_Some. intros [_ H1]. eapply Hno; [by right|done..].
  - assert (match Databases c !! n, gs !! n with None, Some g => (DbGroup.Close h g, delete n gs) | _, _ => (h, gs) end = (h, gs)) as ->
      by (destruct Hkeep as [[db ->]| ->]; [done|by destruct (Databases c !! n)]).
    specialize (IH h gs Hok). destruct (fold_left _ names _) as [h' gs']. destruct IH as (R1 & R2 & R3 & R4 & R5). split_and!; [done..| | |].
    + intros x. rewrite R3. destruct (decide (x = n)) as [->|Hne]; [|apply decide_ext; rewrite elem_of_cons; naive_solver].
      destruct Hkeep as [[db Hdb]|Hnone]; [rewrite !decide_False; [done|by intros [_ ?]; congruence..]|]. rewrite Hnone. by repeat destruct (decide _).
    + intros x g0 l. rewrite elem_of_cons. intros [->|Hx] Hx' H0 Hl; [|by eapply R4]. destruct Hkeep as [[db Hdb]|Hnone]; congruence.
    + intros l Hno. apply R5. intros y g1 Hy. apply Hno. by right.
Qed.

(** ** What a server promises *)

(** What is needed of a configuration; [names] are its databases in some order. *)
Record configured (names : list bytes) (c : Config.Config) : Prop := {
  conf_names : names ≡ₚ (map_to_list (Databases c)).*1;
  conf_some : Databases c <> ∅;
  conf_ok : map_Forall (fun _ db => database_ok db) (Databases c)
}.

(** [c] is a configuration that loading some file gives. *)
Definition loaded (c : Config.Config) : Prop :=
  exists readFile unmarshal stat order path,
    (forall c, order c ≡ₚ map_to_list (Databases c)) /\ Load readFile unmarshal stat order path = Ok c.

Lemma loaded_configured names c : loaded c -> names ≡ₚ (map_to_list (Databases c)).*1 -> configured names c.
Proof. intros (rf & um & st & ord & path & Ho & E) Hn. destruct (Load_checked _ _ _ _ _ _ Ho E) as (Hne & Hok & _). by split. Qed.

Lemma loaded_workers c : loaded c -> (0 < Mirror_Workers (Config.Mirror c))%Z.
Proof. intros (rf & um & st & ord & path & Ho & E). destruct (Load_checked _ _ _ _ _ _ Ho E) as (_ & _ & Hpos & _). tauto. Qed.

(** Each configured database, and no other, has a group that connects to its addresses with its
    credentials; the groups and the mirror share no pool; and the default database is
    one of them. *)
Record serving (s : Srv) : Prop := {
  srv_groups : groups_ok (v_heap s) (v_dbGroups s);
  srv_databases n : match Databases (v_cfg s) !! n, v_dbGroups s !! n with
                    | Some db, Some g => matches db g
                    | None, None => True
                    | _, _ => False
                    end;
  srv_default : is_Some (v_dbGroups s !! v_defaultDB s);
  srv_mirror m : v_mirror s = Some m ->
    is_Some (objs (v_heap s) !! Mirror.m_pool m) /\ Mirror.m_pool m < next_pool (v_heap s) /\ forall n g, v_dbGroups s !! n = Some g -> ~ pool_of g (Mirror.m_pool m)
}.

(** A component that is there exactly when it is enabled, and is as it should be. *)
Definition present {A} (enabled : bool) (P : A -> Prop) (o : option A) : Prop :=
  match o with Some a => enabled = true /\ P a | None => enabled = false end.

(** Limits per key: the defaults and the overrides of the configuration, and no key seen yet. *)
Definition registry_for (k : PerKeyRateLimitConfig) (r : RateLimiterRegistry) : Prop :=
  limiters r = ∅ /\ defaultRate r = PerKey_DefaultRate k /\ defaultBurst r = PerKey_DefaultBurst k /\
  (NoDup (Override_Key <$> PerKey_Overrides k) -> forall key,
     overrides r !! key = (fun o => {| o_Rate := Override_Rate o; o_Burst := Override_Burst o |}) <$> list_find_key key (PerKey_Overrides k)).

(** The parts that a reload replaces. *)
Record limited `{RewriteDeps} (c : Config.Config) (s : Srv) : Prop := {
  lim_rate : present (RateLimit_Enabled (Config.RateLimit c))
    (fun l => rate l = RateLimit_Rate (Config.RateLimit c) /\ burst l = RateLimit_Burst (Config.RateLimit c) /\ tokens l = f_of_Z (burst l)) (v_rateLimiter s);
  lim_user : present (PerKey_Enabled (PerUser (Config.RateLimit c))) (registry_for (PerUser (Config.RateLimit c))) (v_perUserRL s);
  lim_ip : present (PerKey_Enabled (PerIP (Config.RateLimit c))) (registry_for (PerIP (Config.RateLimit c))) (v_perIPRL s);
  lim_tracker : present (ConnectionLimits_Enabled (ConnectionLimits c))
    (fun ct => (forall u, user_limit ct u = default (DefaultMaxConnectionsPerUser (ConnectionLimits c)) (user_limits c !! u)) /\
               (forall d, db_limit ct d = default (DefaultMaxConnectionsPerDB (ConnectionLimits c)) (db_limits c !! d))) (v_connTracker s);
  lim_rewriter : present (QueryRewriting_Enabled (QueryRewriting c)) (fun rw => rw = NewRewriter (buildRewriteRules c)) (v_rewriter s)
}.

(** The parts that are made once, as they are at the start. *)
Record equipped `{UnicodeCase} `{Environment} (names : list bytes) (c : Config.Config) (s : Srv) : Prop := {
  eq_cache : present (Cache_Enabled (Config.Cache c))
    (fun q => items q = ∅ /\ maxEntries q = MaxCacheEntries (Config.Cache c) /\ ttl q = CacheTTL (Config.Cache c) /\
              maxSize q = parseSize (MaxResultSize (Config.Cache c))) (v_queryCache s);
  eq_invalidator : v_invalidator s = true <->
    Cache_Enabled (Config.Cache c) = true /\ Invalidation_Mode (Invalidation (Config.Cache c)) = $"pubsub" /\
    Invalidation_RedisAddr (Invalidation (Config.Cache c)) <> [] /\
    reach_redis (Invalidation_RedisAddr (Invalidation (Config.Cache c))) (Invalidation_Channel (Invalidation (Config.Cache c))) = true;
  eq_tls : v_tls s = TLS_Enabled (Config.TLS c);
  eq_audit : present (Audit_Enabled (Config.Audit c))
    (fun l => AuditLog.cfg l = audit_config c /\ AuditLog.eventCh l = [] /\ AuditLog.stopped l = false) (v_auditLogger s);
  eq_mirror : present (Mirror_Enabled (Config.Mirror c))
    (fun m => Mirror.m_cfg m = Mirror.with_defaults (mirror_config c) /\
              exists o, objs (v_heap s) !! Mirror.m_pool m = Some o /\ p_addr o = Mirror.Addr (mirror_config c) /\ p_backend o = mirror_backend names c) (v_mirror s);
  eq_digest : present (Digest_Enabled (Config.Digest c)) (fun d => d = Digest.New (MaxPatterns (Config.Digest c)) (SamplesPerPattern (Config.Digest c))) (v_queryDigest s);
  eq_tracker ct : v_connTracker s = Some ct -> ConnLimit.refines ct (ConnLimit.start c);
  eq_modes : v_maintenanceMode s = false /\ v_readOnlyMode s = false
}.

Lemma present_when {A} enabled (P : A -> Prop) a : P a -> present enabled P (when enabled a).
Proof. by destruct enabled. Qed.

Lemma configured_names names (c : Config.Config) n : configured names c -> n ∈ names <-> is_Some (Databases c !! n).
Proof.
  intros [Hp _ _]. rewrite Hp, list_elem_of_fmap. setoid_rewrite elem_of_map_to_list'. split; [intros ([] & -> & ?); eauto|].
  intros [db Hdb]. by exists (n, db).
Qed.

Lemma configured_NoDup names (c : Config.Config) : configured names c -> NoDup names.
Proof. intros [-> _ _]. apply NoDup_fst_map_to_list. Qed.

Lemma configured_sizes names (c : Config.Config) : configured names c -> sizes_ok c.
Proof. intros [_ _ Hok] n db Hdb. destruct (Hok n db Hdb) as (_ & _ & _ & Hm & _). lia. Qed.

Lemma configured_default (names : list bytes) (c : Config.Config) (gs : gmap bytes DatabaseGroup) :
  configured names c -> (forall n, is_Some (Databases c !! n) -> is_Some (gs !! n)) -> is_Some (gs !! DefaultDatabaseName names c).
Proof.
  intros Hc Hg. apply Hg. unfold DefaultDatabaseName. destruct (negb _ && bool_decide _) eqn:Eb; [by apply andb_true_iff in Eb as [_ ?%bool_decide_eq_true]|].
  apply (configured_names _ _ _ Hc). destruct names as [|x names].
  { exfalso. apply (conf_some _ _ Hc), map_empty. intros n. apply eq_None_not_Some. rewrite <- (configured_names _ _ _ Hc). apply not_elem_of_nil. }
  cbn [fold_left empty orb]. generalize x. clear. induction names as [|y names IH]; intros x; cbn [fold_left]; [by left|].
  destruct (empty x || ltS y x); [specialize (IH y)|specialize (IH x)]; set_solver.
Qed.

Lemma updated_databases (c : Config.Config) (names : list bytes) h gs h' gs' n :
  configured names c -> updated c names h gs h' gs' -> is_Some (Databases c !! n) -> exists db g, Databases c !! n = Some db /\ gs' !! n = Some g /\ matches db g.
Proof.
  intros Hc U [db Hdb]. destruct (upd_in _ _ _ _ _ _ U n db) as (g & Hg & Hm); [apply (configured_names _ _ _ Hc); by rewrite Hdb|done|]. by exists db, g.
Qed.

Lemma overrides_find (os : list PerKeyRateLimitOverride) (m : gmap bytes Override) (key : bytes) :
  NoDup (Override_Key <$> os) ->
  fold_left (fun m o => <[Override_Key o := {| o_Rate := Override_Rate o; o_Burst := Override_Burst o |}]> m) os m !! key =
    match list_find_key key os with Some o => Some {| o_Rate := Override_Rate o; o_Burst := Override_Burst o |} | None => m !! key end.
Proof.
  revert m. induction os as [|o os IH]; intros m Hnd; [done|]. cbn [fmap list_fmap] in Hnd. apply list.NoDup_cons in Hnd as [Hn Hnd].
  cbn [fold_left list_find_key List.find]. rewrite IH by done. unfold list_find_key. destruct (decide (Override_Key o = key)) as [<-|Hne].
  - rewrite bool_decide_true, lookup_insert_eq by done. destruct (List.find _ os) as [o'|] eqn:E; [|done].
    apply List.find_some in E as [Hin Ho%bool_decide_eq_true]. destruct Hn. rewrite <- Ho. apply list_elem_of_fmap_2, list_elem_of_In, Hin.
  - rewrite bool_decide_false, lookup_insert_ne by done. done.
Qed.

Lemma registry_for_new k : registry_for k (NewRateLimiterRegistry (buildRegistryConfig k)).
Proof.
  split_and!; [done..|]. intros Hnd key. cbn. rewrite overrides_find, lookup_empty by done. by destruct (list_find_key key _).
Qed.

Section Promise.
Context `{UnicodeCase} `{PgQuery} `{RewriteDeps} `{Environment}.

Lemma new_server now names c :
  configured names c -> (0 <= Mirror_Workers (Config.Mirror c) < 2 ^ 62)%Z ->
  (TLS_Enabled (Config.TLS c) = true -> load_x509 (CertFile (Config.TLS c)) (KeyFile (Config.TLS c)) = true) ->
  exists s, NewServer now names c = Ok s /\ serving s /\ v_cfg s = c /\ limited c s /\ equipped names c s.
Proof.
  intros Hc Hw Htls. unfold NewServer.
  destruct (update_groups_ok c names {| objs := ∅; next_pool := 0 |} ∅) as (h & gs & -> & U);
    [by eapply configured_sizes|by eapply configured_NoDup|intros n; by apply configured_names| |].
  { split; [intros l; cbn; rewrite dom_empty_L; set_solver|intros n g; by rewrite lookup_empty|intros n1 g1 n2 g2 l; by rewrite lookup_empty]. }
  cbn [res_bind]. assert (TLS_Enabled (Config.TLS c) && negb (load_x509 (CertFile (Config.TLS c)) (KeyFile (Config.TLS c))) = false) as ->
    by (destruct (TLS_Enabled _); [by rewrite Htls|done]).
  assert (exists al, (if Audit_Enabled (Config.Audit c) then l <-? AuditLog.New (audit_config c) ; Ok (Some l) else Ok None) = @Ok unit _ al /\
            present (Audit_Enabled (Config.Audit c)) (fun l => AuditLog.cfg l = audit_config c /\ AuditLog.eventCh l = [] /\ AuditLog.stopped l = false) al) as (al & -> & Hal)
    by (destruct (Audit_Enabled _); (eexists; split; [reflexivity|done])).
  assert (forall h' m, present (Mirror_Enabled (Config.Mirror c)) (fun m => Mirror.m_cfg m = Mirror.with_defaults (mirror_config c) /\
            exists o, objs h' !! Mirror.m_pool m = Some o /\ p_addr o = Mirror.Addr (mirror_config c) /\ p_backend o = mirror_backend names c) m ->
            limited c (new_srv now names c h' gs al m) /\ equipped names c (new_srv now names c h' gs al m)) as Hparts.
  { intros h' m Hm. split; split; cbn [new_srv v_rateLimiter v_perUserRL v_perIPRL v_connTracker v_rewriter v_queryCache v_tls v_auditLogger v_mirror v_heap v_queryDigest
      v_invalidator v_maintenanceMode v_readOnlyMode]; try (apply present_when); auto using registry_for_new.
    - rewrite !andb_true_iff, negb_true_iff, bool_decide_eq_true, bool_decide_eq_false. tauto.
    - unfold when. case_match; [|done]. intros ct [= <-]. apply ConnLimit.new_refines. }
  assert (forall m h' s, groups_ok h' gs -> (forall mm, m = Some mm -> is_Some (objs h' !! Mirror.m_pool mm) /\ Mirror.m_pool mm < next_pool h' /\ next_pool h <= Mirror.m_pool mm) ->
            v_heap s = h' -> v_dbGroups s = gs -> v_cfg s = c -> v_defaultDB s = DefaultDatabaseName names c -> v_mirror s = m -> serving s) as Hserving.
  { intros m h' s Hok Hm <- <- Ec Ed <-. split; [done| | |].
    - intros n. rewrite Ec. destruct (decide (is_Some (Databases c !! n))) as [Hn|Hn].
      + destruct (updated_databases _ _ _ _ _ _ n Hc U Hn) as (db & g & -> & -> & ?). done.
      + assert (n ∉ names) as Hno by (by rewrite (configured_names _ _ _ Hc)). apply eq_None_not_Some in Hn. rewrite Hn, (upd_out _ _ _ _ _ _ U) by done. by rewrite lookup_empty.
    - rewrite Ed. eapply configured_default; [done|]. intros n Hn. destruct (updated_databases _ _ _ _ _ _ n Hc U Hn) as (db & g & _ & -> & _). done.
    - intros mm E. destruct (Hm mm E) as (M1 & M2 & M3). split_and!; [done..|]. intros n g Hg Hp. pose proof (well_formed_pool _ _ _ (ok_groups _ _ (upd_ok _ _ _ _ _ _ U) n g Hg) Hp). lia. }
  destruct (Mirror_Enabled (Config.Mirror c)); cbn [res_bind].
  - unfold new_mirror. set (pc := Mirror.pool_config _).
    assert ((Pool.MaxConnections pc <? 0)%Z = false) as ->.
    { apply Z.ltb_ge. cbn. destruct (Z.leb_spec (Mirror_Workers (Config.Mirror c)) 0); rewrite wrapS_small; lia. }
    cbn [res_bind]. eexists. split; [done|]. split; [|split; [done|apply Hparts; cbn; split_and!; [done|done|rewrite lookup_insert_eq; by eexists]]].
    eapply Hserving; try reflexivity; [|intros mm [= <-]; cbn; rewrite lookup_insert_eq; split_and!; [done|lia|lia]].
    destruct (upd_ok _ _ _ _ _ _ U) as [Ha Hg Hd].
    assert (forall l o, l < next_pool h -> objs {| objs := <[next_pool h := o]> (objs h); next_pool := S (next_pool h) |} !! l = objs h !! l) as Hun by (intros l o Hl; cbn; by rewrite lookup_insert_ne by lia).
    assert (forall o, allocated {| objs := <[next_pool h := o]> (objs h); next_pool := S (next_pool h) |}) as Ha'.
    { intros o l. cbn. rewrite dom_insert, elem_of_union, elem_of_singleton. intros [->|Hl]; [lia|]. pose proof (Ha l Hl). lia. }
    split; [apply Ha'| |done]. intros n g Hn. apply (well_formed_frame h); [by eapply Hg|apply Ha'|]. intros l Hl. apply Hun. by eapply well_formed_pool; [eapply Hg|].
  - eexists. split; [done|]. split; [|split; [done|by apply Hparts]]. eapply Hserving; try reflexivity; [apply U|done].
Qed.

Lemma reload_limited now names h gs c s : limited c (reload_srv now names c h gs s).
Proof.
  split; cbn [reload_srv v_rateLimiter v_perUserRL v_perIPRL v_connTracker v_rewriter]; try (apply present_when); auto using registry_for_new.
  unfold reload_tracker. case_match; cbn [present]; [|done]. split; [done|]. by destruct (v_connTracker s).
Qed.


End Promise.

(** ** Shutdown closes what the server holds *)

Lemma Close_keeps_closed h g l : is_closed h l -> is_closed (DbGroup.Close h g) l.
Proof.
  intros Hc. unfold DbGroup.Close, close_all. set (h1 := match writerPool g with Some _ => _ | None => _ end).
  assert (is_closed h1 l) as Hc1 by (unfold h1; destruct (writerPool g); [by apply close_pool_keeps_closed|done]). clearbody h1.
  revert h1 Hc1. induction ((map_to_list (readerPools g)).*2) as [|x ls IH]; intros h1 Hc1; cbn [fold_left]; [done|]. by apply IH, close_pool_keeps_closed.
Qed.

Lemma closePools_spec names s :
  groups_ok (v_heap s) (v_dbGroups s) ->
  (forall n g l, n ∈ names -> v_dbGroups s !! n = Some g -> pool_of g l -> is_closed (closePools names s) l) /\
  (forall l, is_Some (objs (v_heap s) !! l) -> is_Some (objs (closePools names s) !! l)).
Proof.
  intros [_ Hg _]. unfold closePools. set (step := fun h name => _).
  assert (forall h n, dom (objs (step h n)) = dom (objs h) /\ forall l, is_closed h l -> is_closed (step h n) l) as Hstep.
  { intros h n. unfold step. destruct (v_dbGroups s !! n) as [g|]; [|done]. destruct (Close_spec h g) as (C1 & C2 & C3 & _). split; [done|].
    intros l. apply Close_keeps_closed. }
  assert (forall h, (forall n g l, v_dbGroups s !! n = Some g -> pool_of g l -> l ∈ dom (objs h)) ->
    (forall n g l, n ∈ names -> v_dbGroups s !! n = Some g -> pool_of g l -> is_closed (fold_left step names h) l) /\
    dom (objs (fold_left step names h)) = dom (objs h) /\ forall l, is_closed h l -> is_closed (fold_left step names h) l) as Hall.
  { induction names as [|x names IH]; intros h Hin; cbn [fold_left]; [split_and!; [intros n g l Hn; by apply not_elem_of_nil in Hn|done|done]|].
    destruct (Hstep h x) as [Hd Hk]. destruct (IH (step h x)) as (I1 & I2 & I3); [by rewrite Hd|]. split_and!; [|by rewrite I2|intros l Hl; by apply I3, Hk].
    intros n g l. rewrite elem_of_cons. intros [->|Hn] Hg0 Hp; [|by eapply I1]. apply I3. unfold step. rewrite Hg0. apply Close_spec; [done|].
    apply elem_of_dom. by eapply Hin. }
  destruct (Hall (v_heap s)) as (A1 & A2 & A3).
  { intros n g l Hg0 Hp. apply elem_of_dom. by eapply well_formed_pool; [eapply Hg|]. }
  split; [done|]. intros l Hl. apply elem_of_dom. rewrite A2. by apply elem_of_dom.
Qed.

(** a shutdown leaves no pool of the server open: those of every database and of the mirror are
    closed, the audit log is told to drain and the mirror's workers to stop. *)
Theorem shutdown_closes names s :
  serving s -> (forall n, is_Some (v_dbGroups s !! n) -> n ∈ names) ->
  let s' := shutdown names s in
  (forall n g l, v_dbGroups s' !! n = Some g -> pool_of g l -> is_closed (v_heap s') l) /\
  (forall m, v_mirror s' = Some m -> is_closed (v_heap s') (Mirror.m_pool m) /\ Mirror.m_done m = true) /\
  (forall l, v_auditLogger s' = Some l -> AuditLog.stopped l = true).
Proof.
  intros [Hok _ _ Hmir] Hn. destruct (closePools_spec names s Hok) as [C1 C2]. cbn. split_and!.
  - intros n g l Hg Hp. specialize (C1 n g l (Hn n ltac:(by rewrite Hg)) Hg Hp). destruct (v_mirror s); [by apply close_pool_keeps_closed|done].
  - intros m Hm. destruct (v_mirror s) as [m0|] eqn:E; [|done]. injection Hm as <-. split; [|done]. apply close_pool_closed, C2. by destruct (Hmir m0 eq_refl).
  - intros l Hl. destruct (v_auditLogger s); [|done]. by injection Hl as <-.
Qed.

Module Examples.
#[local] Existing Instance ascii_case.
#[local] Existing Instance Session.Examples.no_trees.
#[local] Instance no_rewriting : RewriteDeps := {| regexp_compile := fun _ => None; pg_deparse := fun _ => None |}.
#[local] Instance offline : Environment := {| load_x509 := fun _ _ => false; reach_redis := fun _ _ => false |}.

Definition app_db : DatabaseConfig := DbGroup.Examples.db $"u" [$"r1"].
Definition both : Config.Config := only_databases (<[$"app" := app_db]> {[ $"log" := DbGroup.Examples.db $"v" [$"r2"] ]}).
Definition one : Config.Config := only_databases {[ $"app" := app_db ]}.

(** The configurations come from files; the decoder and the file system are as in [example_load]. *)
Definition both_loaded_cfg : Config.Config := applyDefaults both.
Definition one_loaded_cfg : Config.Config := applyDefaults one.

Lemma loaded_file c : validate (fun _ => true) (map_to_list (Databases (applyDefaults c))) (applyDefaults c) = None -> loaded (applyDefaults c).
Proof.
  intros E. exists (fun _ => Some []), (fun _ => Some c), (fun _ => true), (fun c => map_to_list (Databases c)), []. split; [done|].
  unfold Load. by rewrite E.
Qed.

Lemma both_loaded : loaded both_loaded_cfg.
Proof. apply loaded_file. by vm_compute. Qed.
Lemma one_loaded : loaded one_loaded_cfg.
Proof. apply loaded_file. by vm_compute. Qed.
Lemma both_names : [$"log"; $"app"] ≡ₚ (map_to_list (Databases both_loaded_cfg)).*1.
Proof. apply (bool_decide_unpack _). by vm_compute. Qed.
Lemma one_names : [$"app"] ≡ₚ (map_to_list (Databases one_loaded_cfg)).*1.
Proof. apply (bool_decide_unpack _). by vm_compute. Qed.


(** The log database goes: its pools are closed, those of app stay. *)
Definition server0 : res unit Srv := NewServer 0 [$"log"; $"app"] both_loaded_cfg.

Lemma server0_Ok : exists s, server0 = Ok s /\ serving s /\ forall n, is_Some (v_dbGroups s !! n) -> n ∈ [$"log"; $"app"].
Proof.
  pose proof (loaded_configured _ _ both_loaded both_names) as Hconf.
  destruct (new_server 0 [$"log"; $"app"] both_loaded_cfg Hconf) as (s & E & Hs & Hc & _); [by vm_compute|by vm_compute|]. exists s. split_and!; [exact E|exact Hs|].
  intros n Hn. apply (configured_names _ _ _ Hconf). pose proof (srv_databases _ Hs n) as Hd. rewrite Hc in Hd. destruct Hn as [g Hg]. rewrite Hg in Hd.
  destruct (Databases both_loaded_cfg !! n) as [db|]; [exact (mk_is_Some _ _ eq_refl)|destruct Hd].
Qed.


Lemma shutdown_closes_witness : exists s, server0 = Ok s /\
  forall n g l, v_dbGroups (shutdown [$"log"; $"app"] s) !! n = Some g -> pool_of g l -> is_closed (v_heap (shutdown [$"log"; $"app"] s)) l.
Proof.
  destruct server0_Ok as (s & E & Hs & Hn). exists s. split; [exact E|]. by destruct (shutdown_closes [$"log"; $"app"] s Hs Hn) as [H _].
Defined.
End Examples.
