(* ===== verification/Handlers.v ===== *)
(** * Query handlers (internal/proxy/backend.go, query_read.go, query_extended.go)

    How a session sends a query to a backend: the choice and the borrowing of a
    connection, sending, relaying, and giving the connection back on every path. The balancer is shared: a session draws the
    index and looks at a backend in separate accesses, between which others draw too. *)

From S2P Require Import Prelude GoStrings Float64 Config Wire SqlLex Classify Tables Ast Firewall Rewriter SessionCompat.
From S2P Require Import Lsn Session Balancer RateLimit Breaker Cache Pool Synth Timeout Relay DbGroup Proxy.

Local Open Scope nat_scope.

(** ** Circuit breakers and balancer *)

(** A call on the writer's breaker, if there is one. *)
Definition writer_breaker (f : Time -> CircuitBreaker -> CircuitBreaker) : M unit :=
  update (fun s => match writerCB (group s) with
                   | Some cb => set_group (set_writerCB (Some (f (now s) cb)) (group s)) s
                   | None => s
                   end).

(** [Allow] of the writer's breaker; without one everything is allowed. *)
Definition writer_allowed : M bool :=
  access (fun s => match writerCB (group s) with
                   | Some cb => let '(ok, cb') := Breaker.Allow (now s) cb in (ok, set_group (set_writerCB (Some cb') (group s)) s)
                   | None => (true, s)
                   end).

Definition reader_breaker (addr : bytes) (f : Time -> CircuitBreaker -> CircuitBreaker) : M unit :=
  update (fun s => match ReaderCB (group s) addr with
                   | Some cb => set_group (set_readerCBs (<[addr := f (now s) cb]> (readerCBs (group s))) (group s)) s
                   | None => s
                   end).

Definition reader_allowed (addr : bytes) : M bool :=
  access (fun s => match ReaderCB (group s) addr with
                   | Some cb =>
                       let '(ok, cb') := Breaker.Allow (now s) cb in
                       (ok, set_group (set_readerCBs (<[addr := cb']> (readerCBs (group s))) (group s)) s)
                   | None => (true, s)
                   end).

Definition mark_unhealthy (addr : bytes) : M unit :=
  update (fun s => set_group (set_balancer (MarkUnhealthy (balancer (group s)) addr) (group s)) s).

(** [Next] and [NextWithLSN] as a session runs them, each atomic operation an access of its own: other
    callers, updates and health checks come between. The slice is loaded once under the lock.
    [int(r.index.Add(1)-1) % n]: *)
Definition draw (n : nat) : M Z :=
  access (fun s => let rr := balancer (group s) in
                   let '(i, idx) := next_idx (index rr) n in (i, set_group (set_balancer (set_index rr idx) (group s)) s)).

(** A field of a backend. *)
Definition load {A} (f : Backend -> A) (l : loc) : M A :=
  b <-! ask (fun s => store (balancer (group s)) !! l);
  match b with Some b => ret (f b) | None => panic end.

Fixpoint search (ok : loc -> M bool) (slice : list loc) (tries : nat) : M bytes :=
  match tries with
  | O => ret []
  | S tries =>
      i <-! draw (length slice);
      match slice_at slice i with
      | None => panic
      | Some l =>
          good <-! ok l;
          if good then load Addr l else search ok slice tries
      end
  end.

Definition search_slice (ok : loc -> M bool) : M bytes :=
  slice <-! ask (fun s => backends (balancer (group s)));
  search ok slice (length slice).

Definition next_reader : M bytes := search_slice (load healthy).

Definition next_reader_with_lsn (minLSN : LSN) : M bytes :=
  if IsZero minLSN then next_reader
  else search_slice (fun l => up <-! load healthy l; if up then lsn <-! load replayLSN l; ret (minLSN <=? lsn)%Z else ret false).

(** A reader that failed. *)
Definition reader_failed (addr : bytes) : M unit := reader_breaker addr RecordFailure ;! mark_unhealthy addr.

(** ** Cache *)

(** [s.queryCache != nil]; it is set once at start. *)
Definition caching : M bool := ask (fun s => bool_decide (is_Some (queryCache s))).

Definition cache_get (key : Z) : M (option bytes) :=
  access (fun s => match queryCache s with
                   | Some c => let '(r, c') := Cache.Get (now s) c key in (r, set_queryCache (Some c') s)
                   | None => (None, s)
                   end).

Definition cache_set (key : Z) (result : bytes) (tables : list bytes) : M unit :=
  update (fun s => match queryCache s with
                   | Some c => set_queryCache (Some (Cache.Set_ (now s) c key result tables)) s
                   | None => s
                   end).

Definition cache_invalidate (order : gset Z -> list Z) (table : bytes) : M unit :=
  update (fun s => match queryCache s with
                   | Some c => set_queryCache (Some (InvalidateTable order c table)) s
                   | None => s
                   end).

(** ** Borrowing and returning (backend.go) *)

(** The connection and whether it is newly acquired; [None] is an error. *)
Definition acquireWriterConn (bound : option Pool.Conn) : M (option (Pool.Conn * bool)) :=
  match bound with
  | Some c => ret (Some (c, false))
  | None =>
      ok <-! writer_allowed;
      if negb ok then ret None
      else
        p <-! ask (fun s => writerPool (group s));
        r <-! acquireFrom p;
        match r with
        | None => writer_breaker RecordFailure ;! ret None
        | Some c => ret (Some (c, true))
        end
  end.

(** The session's reset reads the query from the configuration. *)
Definition resetAndRelease (c : Pool.Conn) (p : option pool_loc) : M unit :=
  cfg <-! getConfig; resetAndReleaseToPool (Pool_ResetQuery (Config.Pool cfg)) c p.

Definition fallbackToWriter (msg : Message) : M unit :=
  wPool <-! ask (fun s => writerPool (group s));
  match wPool with
  | None => sendError $"no available backend connections" ;! fail
  | Some p =>
      r <-! acquire p;
      match r with
      | None => sendError $"no available backend connections" ;! fail
      | Some wConn =>
          addr <-! ask (fun s => writerAddr (group s));
          setFromConn addr wConn ;!
          ok <-! attempt (forwardAndRelay wConn msg);
          clear ;!
          match ok with
          | None => discardToPool wConn (Some p) ;! fail
          | Some _ => releaseToPool wConn (Some p)
          end
      end
  end.

(** [isSessionModifying]. *)
Definition isSessionModifying (query : bytes) : bool :=
  match after_noise query with
  | [] => false
  | (c :: _) as rest =>
      let ch := or20 c in
      if (ch =b "s") then
        if eqFoldN rest $"SET" && match rest !! 3 with Some c => is_blank c | None => false end then
          let r := skip_blank (drop 4 rest) in
          if eqFoldN r $"LOCAL" && match r !! 5 with Some c => is_blank c | None => false end then false
          else if (11 <? length r) && eqFoldN r $"TRANSACTION" then false
          else if (11 <? length r) && eqFoldN r $"CONSTRAINTS" then false
          else true
        else false
      else if (ch =b "p") then kw_then is_blank rest $"PREPARE"
      else if (ch =b "d") then kw_then is_blank rest $"DECLARE" || kw_then is_blank rest $"DEALLOCATE"
      else if (ch =b "l") then kw_then is_blank rest $"LISTEN" || kw_then is_blank rest $"LOAD"
      else if (ch =b "u") then kw_then is_blank rest $"UNLISTEN"
      else if (ch =b "c") then eqFoldN rest $"CREATE" && eqFoldN (skip_blank (drop 6 rest)) $"TEMP"
      else false
  end.

Section Handlers.
Context `{UnicodeCase} `{PgQuery} `{RewriteDeps} `{Texts} (order : gset Z -> list Z).

Fixpoint invalidate_all (tables : list bytes) : M unit :=
  match tables with
  | [] => ret tt
  | t :: ts => cache_invalidate order t ;! invalidate_all ts
  end.

Definition handleWriteQuery (writerConn : Pool.Conn) (msg : Message) (query : bytes) (pq : option ParsedQuery)
  (qtype : QueryType) (cfg : Config.Config) : M unit :=
  ok <-! attempt (forwardAndRelay writerConn msg);
  match ok with
  | None => writer_breaker RecordFailure ;! fail
  | Some _ =>
      writer_breaker RecordSuccess ;!
      (if CausalConsistency (Routing cfg) && bool_decide (qtype = QueryWrite) then
         lsn <-! attempt (queryCurrentLSN writerConn);
         match lsn with
         | None => ret tt
         | Some lsn => assign (fun v => set_session (SetLastWriteLSN (session v) lsn) v)
         end
       else ret tt) ;!
      cached <-! caching;
      if cached && bool_decide (qtype = QueryWrite) then
        tables <-! extractQueryTablesParsed query pq;
        invalidate_all tables ;!
        inv <-! ask hasInvalidator;
        if inv && (0 <? length tables) then emit (EvPublish tables) else ret tt
      else ret tt
  end.

(** ** Reads (query_read.go) *)

(** [relayAndCollect] with the configured size limit. *)
Definition relay_and_collect (c : Pool.Conn) : M (option bytes) :=
  cfg <-! getConfig; relayAndCollect c (parseSize (MaxResultSize (Config.Cache cfg))).

Definition handleReadQueryTraced (msg : Message) (query : bytes) (pq : option ParsedQuery) (cfg : Config.Config)
  (queryTimeout : Duration) : M unit :=
  cached <-! (c <-! caching;
              if c then
                name <-! ask (fun s => g_name (group s));
                key <-! cacheKeyParsed query pq name;
                cache_get key
              else ret None);
  match cached with
  | Some bs => must_client bs
  | None =>
      readerAddr <-! (if CausalConsistency (Routing cfg) then
                        lsn <-! var (fun v => lastWriteLSN (session v)); next_reader_with_lsn lsn
                      else next_reader);
      match readerAddr with
      | [] => fallbackToWriter msg
      | _ =>
          ok <-! reader_allowed readerAddr;
          if negb ok then fallbackToWriter msg
          else
            rPool <-! ask (fun s => ReaderPool (group s) readerAddr);
            match rPool with
            | None => fallbackToWriter msg
            | Some p =>
                r <-! acquire p;
                match r with
                | None => reader_failed readerAddr ;! fallbackToWriter msg
                | Some rConn =>
                    setFromConn readerAddr rConn ;!
                    startQueryTimer queryTimeout ;!
                    sent <-! attempt (must_backend rConn (ForwardRaw msg));
                    match sent with
                    | None =>
                        stopQueryTimer queryTimeout ;!
                        clear ;!
                        discardToPool rConn (Some p) ;!
                        mark_unhealthy readerAddr ;!
                        fallbackToWriter msg
                    | Some _ =>
                        cached <-! caching;
                        (if cached then
                           collected <-! attempt (relay_and_collect rConn);
                           stopQueryTimer queryTimeout ;!
                           clear ;!
                           match collected with
                           | None => discardToPool rConn (Some p) ;! reader_failed readerAddr ;! fail
                           | Some collected =>
                               releaseToPool rConn (Some p) ;!
                               match collected with
                               | Some result =>
                                   name <-! ask (fun s => g_name (group s));
                                   key <-! cacheKeyParsed query pq name;
                                   tables <-! extractReadQueryTablesParsed query pq;
                                   cache_set key result tables
                               | None => ret tt
                               end
                           end
                         else
                           relayed <-! attempt (relayUntilReady rConn);
                           stopQueryTimer queryTimeout ;!
                           clear ;!
                           match relayed with
                           | None => discardToPool rConn (Some p) ;! reader_failed readerAddr ;! fail
                           | Some _ => releaseToPool rConn (Some p)
                           end) ;!
                        reader_breaker readerAddr RecordSuccess
                    end
                end
            end
      end
  end.

(** ** Extended queries (query_extended.go) *)

Fixpoint forward_all (c : Pool.Conn) (buf : list Message) : M unit :=
  match buf with
  | [] => ret tt
  | m :: ms => must_backend c (ForwardRaw m) ;! forward_all c ms
  end.

Definition forwardExtBatch (c : Pool.Conn) (buf : list Message) (syncMsg : Message) : M unit :=
  forward_all c buf ;! must_backend c (ForwardRaw syncMsg).

(** [$N] somewhere in the query. *)
Fixpoint has_placeholder (query : bytes) : bool :=
  match query with
  | c :: rest => ((c =b "$") && match rest with d :: _ => byte_in "1" "9" d | [] => false end) || has_placeholder rest
  | [] => false
  end.

Definition hasParameterPlaceholders (buf : list Message) : bool :=
  existsb (fun m => (mType m =b Msg.Parse) && has_placeholder (ParseParseMessage (mPayload m)).2) buf.

(** The row limit of an Execute message is not zero. *)
Definition partial_fetch (payload : bytes) : bool :=
  match IndexByte payload x00 with
  | Some idx => (idx + 5 <=? length payload) && negb (be_value (take 4 (drop (idx + 1) payload)) =? 0)%Z
  | None => false
  end.

Definition hasBinaryFormatOrPartialFetch (buf : list Message) : bool :=
  existsb (fun m =>
    if (mType m =b Msg.Bind) then
      match ParseBindMessageFull (mPayload m) with
      | Ok detail => existsb (fun fc => negb (fc =? 0)%Z) (ResultFormatCodes detail)
      | _ => true
      end
    else if (mType m =b Msg.Execute) then partial_fetch (mPayload m)
    else false) buf.

(** Sending to the writer instead of a reader: [send] puts the query on the
    connection, under a timer when [timed]. *)
Definition writer_instead (send : Pool.Conn -> M unit) (timeout : Duration) : M unit :=
  wPool <-! ask (fun s => writerPool (group s));
  r <-! acquireFrom wPool;
  match r with
  | None => sendError $"no available backend connections" ;! fail
  | Some wConn =>
      addr <-! ask (fun s => writerAddr (group s));
      setFromConn addr wConn ;!
      startQueryTimer timeout ;!
      sent <-! attempt (send wConn);
      match sent with
      | None => stopQueryTimer timeout ;! clear ;! discardToPool wConn wPool ;! fail
      | Some _ =>
          relayed <-! attempt (relayUntilReady wConn);
          stopQueryTimer timeout ;!
          clear ;!
          match relayed with
          | None => discardToPool wConn wPool ;! fail
          | Some _ => resetAndRelease wConn wPool
          end
      end
  end.

(** The query of the batch's first message, when that is a Parse. *)
Definition batch_query (buf : list Message) : option bytes :=
  match buf with
  | m :: _ => if (mType m =b Msg.Parse) then Some (ParseParseMessage (mPayload m)).2 else None
  | [] => None
  end.

Definition extended_key (query : bytes) : M Z :=
  name <-! ask (fun s => g_name (group s));
  key <-! cacheKey query name;
  ret (WithNamespace key NSExtended).

Definition handleExtendedRead (buf : list Message) (syncMsg : Message) (readerAddr : bytes) (extTimeout : Duration) : M unit :=
  let cacheable := negb (hasParameterPlaceholders buf) && negb (hasBinaryFormatOrPartialFetch buf) in
  let fallback := writer_instead (fun c => forwardExtBatch c buf syncMsg) 0 in
  cached <-! (c <-! caching;
              match batch_query buf with
              | Some query => if cacheable && c then key <-! extended_key query; cache_get key else ret None
              | None => ret None
              end);
  match cached with
  | Some bs => must_client bs
  | None =>
      match readerAddr with
      | [] => fallback
      | _ =>
          ok <-! reader_allowed readerAddr;
          if negb ok then fallback
          else
            rPool <-! ask (fun s => ReaderPool (group s) readerAddr);
            match rPool with
            | None => fallback
            | Some p =>
                r <-! acquire p;
                match r with
                | None => reader_failed readerAddr ;! fallback
                | Some rConn =>
                    setFromConn readerAddr rConn ;!
                    startQueryTimer extTimeout ;!
                    sent <-! attempt (forwardExtBatch rConn buf syncMsg);
                    match sent with
                    | None =>
                        stopQueryTimer extTimeout ;!
                        clear ;!
                        discardToPool rConn (Some p) ;!
                        reader_failed readerAddr ;!
                        fallback
                    | Some _ =>
                        cached <-! caching;
                        (if cached then
                           collected <-! attempt (relay_and_collect rConn);
                           stopQueryTimer extTimeout ;!
                           clear ;!
                           match collected with
                           | None => discardToPool rConn (Some p) ;! reader_failed readerAddr ;! fail
                           | Some collected =>
                               releaseToPool rConn (Some p) ;!
                               match collected, batch_query buf with
                               | Some result, Some query =>
                                   if cacheable then
                                     key <-! extended_key query;
                                     tables <-! extractReadQueryTables query;
                                     cache_set key result tables
                                   else ret tt
                               | _, _ => ret tt
                               end
                           end
                         else
                           relayed <-! attempt (relayUntilReady rConn);
                           stopQueryTimer extTimeout ;!
                           clear ;!
                           match relayed with
                           | None => discardToPool rConn (Some p) ;! reader_failed readerAddr ;! fail
                           | Some _ => releaseToPool rConn (Some p)
                           end) ;!
                        reader_breaker readerAddr RecordSuccess
                    end
                end
            end
      end
  end.

(** ** Multiplexed queries *)

Definition send_query (payload : bytes) (c : Pool.Conn) : M unit := must_backend c (WriteMessage Msg.Query payload).

Definition handleSynthesizedRead (queryPayload readerAddr : bytes) (queryTimeout : Duration) : M unit :=
  let fallback := writer_instead (send_query queryPayload) queryTimeout in
  match readerAddr with
  | [] => fallback
  | _ =>
      ok <-! reader_allowed readerAddr;
      if negb ok then fallback
      else
        rPool <-! ask (fun s => ReaderPool (group s) readerAddr);
        match rPool with
        | None => fallback
        | Some p =>
            r <-! acquire p;
            match r with
            | None => reader_failed readerAddr ;! fallback
            | Some rConn =>
                setFromConn readerAddr rConn ;!
                startQueryTimer queryTimeout ;!
                sent <-! attempt (send_query queryPayload rConn);
                match sent with
                | None =>
                    stopQueryTimer queryTimeout ;!
                    clear ;!
                    discardToPool rConn (Some p) ;!
                    reader_failed readerAddr ;!
                    fallback
                | Some _ =>
                    relayed <-! attempt (relayUntilReady rConn);
                    stopQueryTimer queryTimeout ;!
                    clear ;!
                    match relayed with
                    | None => discardToPool rConn (Some p) ;! reader_failed readerAddr ;! fail
                    | Some _ => releaseToPool rConn (Some p) ;! reader_breaker readerAddr RecordSuccess
                    end
                end
            end
        end
  end.

(** A connection that failed: the bound one is forgotten with it. *)
Definition discard_broken (wConn : Pool.Conn) (acquired : bool) (acquiredPool : option pool_loc) : M unit :=
  if acquired then discardToPool wConn acquiredPool
  else
    b <-! var boundWriter;
    match b with
    | Some c =>
        p <-! var boundWriterPool;
        discardToPool c p ;! assign (fun v => set_boundWriter None (set_boundWriterPool None v))
    | None => ret tt
    end.

Definition set_transaction (v : bool) : M unit := assign (fun vs => set_session (SetInTransaction (session vs) v) vs).

(** Unbind the writer and give it back to the pool it is bound to. *)
Definition unbind_writer (give : Pool.Conn -> option pool_loc -> M unit) (wConn : Pool.Conn) : M unit :=
  bwp <-! var boundWriterPool;
  assign (fun v => set_boundWriter None (set_boundWriterPool None v)) ;!
  give wConn bwp.

Definition bind_writer (wConn : Pool.Conn) (p : option pool_loc) : M unit :=
  assign (fun v => set_boundWriter (Some wConn) (set_boundWriterPool p v)).

Definition executeSynthesizedQuery (query : bytes) (route : Route_) (extTxStart extTxEnd : bool) (queryTimeout : Duration) : M unit :=
  let queryPayload := query ++ [x00] in
  inTx <-! var (fun v => inTransaction (session v));
  bound <-! var boundWriter;
  if bool_decide (route = RouteReader) && negb inTx && bool_decide (bound = None) then
    readerAddr <-! next_reader;
    handleSynthesizedRead queryPayload readerAddr queryTimeout
  else
    acquiredPool <-! ask (fun s => writerPool (group s));
    r <-! acquireWriterConn bound;
    match r with
    | None => sendError $"cannot acquire backend connection" ;! fail
    | Some (wConn, acquired) =>
        addr <-! ask (fun s => writerAddr (group s));
        setFromConn addr wConn ;!
        startQueryTimer queryTimeout ;!
        sent <-! attempt (send_query queryPayload wConn);
        match sent with
        | None =>
            stopQueryTimer queryTimeout ;!
            clear ;!
            discard_broken wConn acquired acquiredPool ;!
            fail
        | Some _ =>
            relayed <-! attempt (relayUntilReady wConn);
            stopQueryTimer queryTimeout ;!
            clear ;!
            match relayed with
            | None => discard_broken wConn acquired acquiredPool ;! fail
            | Some _ =>
                (if extTxStart then set_transaction true else ret tt) ;!
                (if extTxEnd then set_transaction false else ret tt) ;!
                if extTxStart && negb extTxEnd then bind_writer wConn acquiredPool
                else if extTxEnd then unbind_writer resetAndRelease wConn
                else if acquired then resetAndRelease wConn acquiredPool
                else ret tt
            end
        end
    end.

(** The responses to a Describe: acknowledgements are dropped, the rest forwarded. *)
Fixpoint describe_loop (c : Pool.Conn) (wPool : option pool_loc) (rounds : nat) : M unit :=
  match rounds with
  | O => discardToPool c wPool ;! fail
  | S n =>
      resp <-! attempt (read_backend c);
      match resp with
      | None => discardToPool c wPool ;! fail
      | Some resp =>
          if (mType resp =b "1") || (mType resp =b "3") then describe_loop c wPool n
          else if (mType resp =b Msg.ReadyForQuery) then resetAndRelease c wPool
          else
            ok <-! write_client (WriteMessage (mType resp) (mPayload resp));
            if ok then describe_loop c wPool n else discardToPool c wPool ;! fail
      end
  end.

Definition tmpName : bytes := $"__pgmux_desc_tmp__".

Fixpoint send_or_discard (c : Pool.Conn) (wPool : option pool_loc) (ms : list bytes) : M unit :=
  match ms with
  | [] => ret tt
  | m :: ms' =>
      ok <-! write_backend c m;
      if ok then send_or_discard c wPool ms' else discardToPool c wPool ;! fail
  end.

Definition handleMultiplexDescribe (msg : Message) : M unit :=
  match mPayload msg with
  | descType :: ((_ :: _) as rest) =>
      match IndexByte rest x00 with
      | None => sendError $"invalid describe message"
      | Some nameEnd =>
          let name := take nameEnd rest in
          if (descType =b "P") then sendError $"portal describe not supported in multiplex mode"
          else
            stmt <-! var (fun v => GetStatement (synth v) name);
            match stmt with
            | None => sendError ($"unknown statement: " ++ Quote name)
            | Some stmt =>
                wPool <-! ask (fun s => writerPool (group s));
                r <-! acquireFrom wPool;
                match r with
                | None => sendError $"cannot acquire backend connection for describe"
                | Some wConn =>
                    send_or_discard wConn wPool
                      [ WriteMessage Msg.Parse (tmpName ++ [x00] ++ Query stmt ++ [x00; x00; x00]);
                        WriteMessage Msg.Describe ("S"%byte :: tmpName ++ [x00]);
                        WriteMessage Msg.Close ("S"%byte :: tmpName ++ [x00]);
                        WriteMessage Msg.Sync [] ] ;!
                    rounds_backend wConn (describe_loop wConn wPool)
                end
            end
      end
  | _ => sendError $"invalid describe message"
  end.

(** A reader for a batch without Execute, or the writer; [None] is an error. *)
Definition acquireReaderForBind (readerAddr : bytes) : M (option (Pool.Conn * option pool_loc * bytes)) :=
  readerAddr <-! match readerAddr with
                 | [] => ret []
                 | _ => ok <-! reader_allowed readerAddr; ret (if ok then readerAddr else [])
                 end;
  reader <-! match readerAddr with
             | [] => ret None
             | _ =>
                 rPool <-! ask (fun s => ReaderPool (group s) readerAddr);
                 match rPool with
                 | None => ret None
                 | Some p =>
                     r <-! acquire p;
                     match r with
                     | Some c => ret (Some (c, Some p, readerAddr))
                     | None => reader_failed readerAddr ;! ret None
                     end
                 end
             end;
  match reader with
  | Some r => ret (Some r)
  | None =>
      wPool <-! ask (fun s => writerPool (group s));
      r <-! acquireFrom wPool;
      match r with
      | None => ret None
      | Some c => addr <-! ask (fun s => writerAddr (group s)); ret (Some (c, wPool, addr))
      end
  end.
End Handlers.
