(* ===== verification/Query.v ===== *)
(** * The query loop (internal/proxy/query.go)

    [relayQueries]: one client session from its first query to its end. A round of
    the loop reads one client message and handles it; the variables of the function are in
    the state, so that the deferred clean-up sees them however the loop ended. *)

From S2P Require Import Prelude GoStrings Float64 Net Config Wire SqlLex Classify Tables Ast Firewall Rewriter SessionCompat.
From S2P Require Import Lsn Session Balancer RateLimit Breaker Cache Pool Synth Timeout Relay DbGroup Proxy Handlers.

Local Open Scope nat_scope.

(** How a round ends: [continue], or [return] from the function. *)
Inductive signal := Continue | Return.

#[export] Instance signal_eq_dec : EqDecision signal.
Proof. solve_decision. Defined.

(** The answer to a rejected request. *)
Definition ready_idle : M unit := try_client (WriteMessage Msg.ReadyForQuery $"I").
Definition reject (text : bytes) : M signal := sendError text ;! ready_idle ;! ret Continue.

(** ** Rate limits *)

Definition global_allowed : M bool :=
  access (fun s => match rateLimiter s with
                   | Some rl => let '(ok, rl') := RateLimit.Allow (now s) rl in (ok, set_rateLimiter (Some rl') s)
                   | None => (true, s)
                   end).

Definition user_allowed (user : bytes) : M bool :=
  access (fun s => match perUserRL s with
                   | Some reg => let '(ok, reg') := RegistryAllow (now s) reg user in (ok, set_perUserRL (Some reg') s)
                   | None => (true, s)
                   end).

Definition ip_allowed (ip : bytes) : M bool :=
  access (fun s => match perIPRL s with
                   | Some reg => let '(ok, reg') := RegistryAllow (now s) reg ip in (ok, set_perIPRL (Some reg') s)
                   | None => (true, s)
                   end).

Definition extractIP (addr : bytes) : bytes := match SplitHostPort addr with Some (host, _) => host | None => addr end.

(** ** Checks of a query *)

Definition fw_config (c : Config.FirewallConfig) : Firewall.FirewallConfig :=
  Firewall.Build_FirewallConfig (Firewall_Enabled c) (Firewall_BlockDeleteWithoutWhere c) (Firewall_BlockUpdateWithoutWhere c)
    (Firewall_BlockDropTable c) (Firewall_BlockTruncate c).

Definition feature_name (f : SessionFeature) : bytes :=
  match f with
  | FeatureListen => $"listen" | FeatureUnlisten => $"unlisten" | FeatureSessionSet => $"session_set"
  | FeatureDeclare => $"declare_cursor" | FeaturePrepare => $"prepare" | FeatureCreateTemp => $"create_temp"
  | FeatureAdvisoryLock => $"advisory_lock"
  end.

Definition readOnlyError : bytes := $"cannot execute write query: pgmux is in read-only mode".

Definition pin_session (feature : bytes) : M unit :=
  assign (fun v => set_connDirty true (set_session (Pin (session v) feature) v)).

Definition dirty : M unit := assign (set_connDirty true).
Definition clean : M unit := assign (set_connDirty false).

(** Give a connection back: with the reset when it is dirty. *)
Definition give_back (wConn : Pool.Conn) (p : option pool_loc) : M unit :=
  d <-! var connDirty;
  if d then resetAndRelease wConn p else releaseToPool wConn p.

Section Query.
Context `{UnicodeCase} `{PgQuery} `{RewriteDeps} `{Texts} (order : gset Z -> list Z).

Definition fw_message (b : Blocked) : bytes :=
  match fw_rule b with
  | RuleDeleteNoWhere => $"DELETE without WHERE clause on table " ++ Quote (fw_table b) ++ $" is blocked by firewall"
  | RuleUpdateNoWhere => $"UPDATE without WHERE clause on table " ++ Quote (fw_table b) ++ $" is blocked by firewall"
  | RuleDropTable => $"DROP statement is blocked by firewall"
  | RuleTruncate => $"TRUNCATE statement is blocked by firewall"
  end.

Definition firewall_check (cfg : Config.Config) (query : bytes) (pq : option ParsedQuery) : FirewallResult :=
  if Firewall_Enabled (Config.Firewall cfg) then
    match pq with
    | Some pq => CheckFirewallWithTree pq (fw_config (Config.Firewall cfg))
    | None => CheckFirewall query (fw_config (Config.Firewall cfg))
    end
  else None.

Definition compat_check (cfg : Config.Config) (query : bytes) (pq : option ParsedQuery) : SessionDependencyResult :=
  if SessionCompat_Enabled (SessionCompat cfg) then
    match pq with
    | Some _ => DetectSessionDependencyAST pq query
    | None => DetectSessionDependency query
    end
  else None.

(** The query after rewriting, and its tree when there is one. *)
Definition rewrite_query (query : bytes) (pq : option ParsedQuery) : M (bytes * option ParsedQuery) :=
  rw <-! ask rewriter;
  match rw with
  | Some rw => let r := Apply rw query in ret (if Rewritten r then (RewrittenSQL r, None) else (query, pq))
  | None => ret (query, pq)
  end.

Definition route_query (query : bytes) : M (Route_ * bool * bool) :=
  t <-! ask now;
  s <-! var session;
  let '(route, wasInTx, nowInTx, s') := RouteWithTxState t s query in
  assign (set_session s') ;! ret (route, wasInTx, nowInTx).

(** ** Simple queries *)

(** What becomes of the writer connection after the query. *)
Definition after_write (query : bytes) (wConn : Pool.Conn) (acquired : bool) (acquiredPool : option pool_loc)
  (wasInTx nowInTx : bool) : M unit :=
  (if isSessionModifying query then dirty else ret tt) ;!
  sessionPinned <-! var (fun v => pinned (session v));
  if negb wasInTx && nowInTx then
    if acquired then bind_writer wConn acquiredPool else ret tt
  else if wasInTx && negb nowInTx then
    if sessionPinned then ret tt else unbind_writer give_back wConn ;! clean
  else if acquired then
    if sessionPinned then bind_writer wConn acquiredPool
    else
      d <-! var connDirty;
      if d || isSessionModifying query then resetAndRelease wConn acquiredPool ;! clean
      else releaseToPool wConn acquiredPool
  else ret tt.

Definition write_path (msg : Message) (query : bytes) (pq : option ParsedQuery) (cfg : Config.Config) (qtype : QueryType)
  (wasInTx nowInTx : bool) (queryTimeout : Duration) : M signal :=
  acquiredPool <-! ask (fun s => writerPool (group s));
  bound <-! var boundWriter;
  r <-! acquireWriterConn bound;
  match r with
  | None => sendError $"cannot acquire backend connection" ;! ret Return
  | Some (wConn, acquired) =>
      addr <-! ask (fun s => writerAddr (group s));
      setFromConn addr wConn ;!
      startQueryTimer queryTimeout ;!
      done <-! attempt (handleWriteQuery order wConn msg query pq qtype cfg);
      stopQueryTimer queryTimeout ;!
      clear ;!
      match done with
      | None => discard_broken wConn acquired acquiredPool ;! ret Return
      | Some _ => after_write query wConn acquired acquiredPool wasInTx nowInTx ;! ret Continue
      end
  end.

(** From routing on. *)
Definition routed (msg : Message) (query : bytes) (pq : option ParsedQuery) (cfg : Config.Config) : M signal :=
  '(route, wasInTx, nowInTx) <-! route_query query;
  qtype <-! match route with RouteReader => ret QueryRead | RouteWriter => classifyQueryParsed query pq end;
  readOnly <-! ask inReadOnly;
  if readOnly && bool_decide (qtype = QueryWrite) then reject readOnlyError
  else
    let queryTimeout := resolveQueryTimeout query (Pool_QueryTimeout (Config.Pool cfg)) in
    match route with
    | RouteWriter => write_path msg query pq cfg qtype wasInTx nowInTx queryTimeout
    | RouteReader =>
        done <-! attempt (handleReadQueryTraced msg query pq cfg queryTimeout);
        match done with None => ret Return | Some _ => ret Continue end
    end.

Definition handleQuery (msg : Message) : M signal :=
  let query := ExtractQueryText (mPayload msg) in
  queryCfg <-! getConfig;
  let parsedQuery := if ASTParser (Routing queryCfg) then NewParsedQuery query else None in
  '(query, parsedQuery) <-! rewrite_query query parsedQuery;
  match firewall_check queryCfg query parsedQuery with
  | Some b => reject (fw_message b)
  | None =>
      let dep := compat_check queryCfg query parsedQuery in
      let mode := SessionCompat_Mode (SessionCompat queryCfg) in
      match dep with
      | Some f =>
          if bool_decide (mode = $"block") then reject ($"session-dependent feature blocked: " ++ feature_name f)
          else (if bool_decide (mode = $"pin") then pin_session (feature_name f) else ret tt) ;!
               routed msg query parsedQuery queryCfg
      | None => routed msg query parsedQuery queryCfg
      end
  end.

(** ** Extended queries *)

Definition maxExtBufMessages : nat := 100 * 100.

Definition buffer (msg : Message) : M signal :=
  match CopyMessage msg with
  | Ok m => assign (fun v => set_extBuf (extBuf v ++ [m]) v) ;! ret Continue
  | _ => panic
  end.

(** A message the proxy answers itself; a failed write ends the session. *)
Definition acknowledge (t : byte) : M signal :=
  ok <-! write_client (WriteMessage t []); ret (if ok then Continue else Return).

(** What a Parse message does to the state of the batch, in both modes; [also] is the
    synthesizer's registration. *)
Definition register_parse (stmtName query : bytes) (also : M unit) : M unit :=
  assign (set_extQueryText query) ;!
  t <-! ask now;
  s <-! var session;
  let '(route, s') := Session.RegisterStatement t s stmtName query in
  assign (set_session s') ;!
  also ;!
  let '(txStart, txEnd) := IsTxControl query in
  (if txStart then assign (set_extTxStart true) else if txEnd then assign (set_extTxEnd true) else ret tt) ;!
  qtype <-! classifyQuery query;
  (if bool_decide (qtype = QueryWrite) then assign (set_extIsWrite true) else ret tt) ;!
  blocked <-! var extSessionBlocked;
  (if negb blocked then
     cfg <-! getConfig;
     if SessionCompat_Enabled (SessionCompat cfg) then
       match DetectSessionDependency query with
       | Some f =>
           let mode := SessionCompat_Mode (SessionCompat cfg) in
           if bool_decide (mode = $"block") then
             assign (fun v => set_extSessionBlocked true (set_extSessionBlockedFeature (feature_name f) v))
           else if bool_decide (mode = $"pin") then pin_session (feature_name f)
           else ret tt
       | None => ret tt
       end
     else ret tt
   else ret tt) ;!
  v <-! var (fun v => v);
  let writer := inTransaction (session v) || bool_decide (is_Some (boundWriter v)) || bool_decide (route = RouteWriter) || pinned (session v) in
  assign (set_extRoute (if writer then RouteWriter else route)).

Definition rewrite_parse (query : bytes) : M (option bytes) :=
  rw <-! ask rewriter;
  match rw with
  | Some rw => let r := Apply rw query in ret (if Rewritten r then Some (RewrittenSQL r) else None)
  | None => ret None
  end.

Definition handleParse (multiplexMode : bool) (msg : Message) : M signal :=
  let full := ParseParseMessageFull (mPayload msg) in
  let '(stmtName, query) := match pfErr full with
                            | None => (pfName full, pfQuery full)
                            | Some _ => ParseParseMessage (mPayload msg)
                            end in
  rewritten <-! rewrite_parse query;
  let query := default query rewritten in
  if multiplexMode then
    register_parse stmtName query
      (sy <-! var synth;
       sy' <-! lift (Synth.RegisterStatement sy stmtName query (pfOIDs full));
       assign (set_synth sy')) ;!
    acknowledge "1"
  else
    let paramOIDs := match pfErr full with None => pfOIDs full | Some _ => [] end in
    register_parse stmtName query (ret tt) ;!
    match rewritten with
    | Some q =>
        assign (fun v => set_extBuf (extBuf v ++ [mkMessage Msg.Parse (BuildParsePayload stmtName q paramOIDs) None]) v) ;! ret Continue
    | None => buffer msg
    end.

(** The route and kind of the statement a Bind names. *)
Definition note_bind (stmtName : bytes) : M unit :=
  s <-! var session;
  (if bool_decide (StatementRoute s stmtName = RouteWriter) then assign (set_extRoute RouteWriter) else ret tt) ;!
  if StatementIsWrite s stmtName then assign (set_extIsWrite true) else ret tt.

Definition handleBind (multiplexMode : bool) (msg : Message) : M signal :=
  if multiplexMode then
    match ParseBindMessageFull (mPayload msg) with
    | Ok detail =>
        note_bind (StatementName detail) ;!
        assign (set_muxBindDetail (Some detail)) ;!
        acknowledge "2"
    | Err e => sendError ($"invalid bind message: " ++ bind_error e) ;! ret Return
    | Panic => panic
    end
  else note_bind (ParseBindMessage (mPayload msg)).2 ;! buffer msg.

Definition handleClose (multiplexMode : bool) (msg : Message) : M signal :=
  let '(closeType, name) := ParseCloseMessage (mPayload msg) in
  (if (closeType =b "S") then
     assign (fun v => set_session (Session.CloseStatement (session v) name) v) ;!
     if multiplexMode then assign (fun v => set_synth (Synth.CloseStatement (synth v) name) v) else ret tt
   else ret tt) ;!
  if multiplexMode then acknowledge "3" else buffer msg.

(** ** Sync *)

(** The end of a batch: [keepText] where the source leaves [extQueryText] alone. *)
Definition reset_batch (blockedToo execToo textToo : bool) : M unit :=
  assign (fun v =>
    let v := set_extBuf [] (set_extRoute RouteReader (set_extTxStart false (set_extTxEnd false (set_extIsWrite false (set_muxBindDetail None v))))) in
    let v := if execToo then set_extHasExecute false v else v in
    let v := if blockedToo then set_extSessionBlocked false (set_extSessionBlockedFeature [] v) else v in
    if textToo then set_extQueryText [] v else v).

Definition forget_reader : M unit := assign (fun v => set_boundReader None (set_boundReaderPool None (set_boundReaderAddr [] v))).

(** [if boundReader != nil { reset and release it }]. *)
Definition drop_reader : M unit :=
  r <-! var boundReader;
  match r with
  | Some c => p <-! var boundReaderPool; resetAndRelease c p ;! forget_reader
  | None => ret tt
  end.

(** A rejected batch: error, ReadyForQuery with the transaction status, and the reader given back. *)
Definition reject_batch (text : bytes) : M unit :=
  sendError text ;!
  inTx <-! var (fun v => inTransaction (session v));
  sendReadyForQuery inTx ;!
  drop_reader.

(** Sending a batch to the bound reader. *)
Definition bound_reader_path (c : Pool.Conn) (msg : Message) (timeout : Duration) : M signal :=
  addr <-! var boundReaderAddr;
  p <-! var boundReaderPool;
  buf <-! var extBuf;
  setFromConn addr c ;!
  startQueryTimer timeout ;!
  sent <-! attempt (forwardExtBatch c buf msg);
  match sent with
  | None =>
      stopQueryTimer timeout ;! clear ;!
      discardToPool c p ;!
      assign (fun v => set_boundReader None (set_boundReaderPool None v)) ;! ret Return
  | Some _ =>
      relayed <-! attempt (relayUntilReady c);
      stopQueryTimer timeout ;! clear ;!
      match relayed with
      | None =>
          discardToPool c p ;!
          assign (fun v => set_boundReader None (set_boundReaderPool None v)) ;! ret Return
      | Some _ =>
          exec <-! var extHasExecute;
          (if exec then releaseToPool c p ;! forget_reader else ret tt) ;! ret Continue
      end
  end.

(** A batch without Execute: the reader stays bound for the next batch. *)
Definition bind_reader_path (msg : Message) (timeout : Duration) : M signal :=
  readerAddr <-! next_reader;
  r <-! acquireReaderForBind readerAddr;
  match r with
  | None => sendError $"cannot acquire backend connection" ;! ret Return
  | Some (rConn, rPool, usedAddr) =>
      buf <-! var extBuf;
      setFromConn usedAddr rConn ;!
      startQueryTimer timeout ;!
      sent <-! attempt (forwardExtBatch rConn buf msg);
      match sent with
      | None => stopQueryTimer timeout ;! clear ;! discardToPool rConn rPool ;! ret Return
      | Some _ =>
          relayed <-! attempt (relayUntilReady rConn);
          stopQueryTimer timeout ;! clear ;!
          match relayed with
          | None => discardToPool rConn rPool ;! ret Return
          | Some _ =>
              assign (fun v => set_boundReader (Some rConn) (set_boundReaderPool rPool (set_boundReaderAddr usedAddr v))) ;!
              ret Continue
          end
      end
  end.

Definition ext_reader_path (msg : Message) (timeout : Duration) : M signal :=
  v <-! var (fun v => v);
  match boundReader v with
  | Some c => bound_reader_path c msg timeout
  | None =>
      if negb (extHasExecute v) && (0 <? length (extBuf v)) then bind_reader_path msg timeout
      else
        readerAddr <-! next_reader;
        done <-! attempt (handleExtendedRead (extBuf v) msg readerAddr timeout);
        ret (match done with None => Return | Some _ => Continue end)
  end.

(** What becomes of the writer connection after a batch. *)
Definition after_batch (wConn : Pool.Conn) (acquired : bool) (acquiredPool : option pool_loc) : M unit :=
  v <-! var (fun v => v);
  (if extTxStart v then set_transaction true else ret tt) ;!
  (if extTxEnd v then set_transaction false else ret tt) ;!
  s <-! var session;
  if extTxStart v && negb (extTxEnd v) then
    if acquired then bind_writer wConn acquiredPool else ret tt
  else if extTxEnd v then
    if pinned s then ret tt else unbind_writer give_back wConn ;! clean
  else if acquired && negb (extHasExecute v) then bind_writer wConn acquiredPool
  else if acquired then
    if pinned s then bind_writer wConn acquiredPool
    else if connDirty v then resetAndRelease wConn acquiredPool ;! clean
    else releaseToPool wConn acquiredPool
  else if extHasExecute v then
    if negb (pinned s) && negb (inTransaction s) then unbind_writer give_back wConn ;! clean else ret tt
  else ret tt.

Definition ext_writer_path (msg : Message) (timeout : Duration) : M signal :=
  acquiredPool <-! ask (fun s => writerPool (group s));
  bound <-! var boundWriter;
  buf <-! var extBuf;
  r <-! acquireWriterConn bound;
  match r with
  | None => sendError $"cannot acquire backend connection" ;! ret Return
  | Some (wConn, acquired) =>
      addr <-! ask (fun s => writerAddr (group s));
      setFromConn addr wConn ;!
      startQueryTimer timeout ;!
      sent <-! attempt (forwardExtBatch wConn buf msg);
      match sent with
      | None => stopQueryTimer timeout ;! clear ;! discard_broken wConn acquired acquiredPool ;! ret Return
      | Some _ =>
          relayed <-! attempt (relayUntilReady wConn);
          stopQueryTimer timeout ;! clear ;!
          match relayed with
          | None => discard_broken wConn acquired acquiredPool ;! ret Return
          | Some _ => after_batch wConn acquired acquiredPool ;! ret Continue
          end
      end
  end.

(** A multiplexed batch: the bound parameters are put into the query. *)
Definition synthesized_path (detail : BindMessageDetail) (timeout : Duration) : M signal :=
  v <-! var (fun v => v);
  match Synthesize (synth v) (StatementName detail) (Parameters detail) (FormatCodes detail) with
  | Ok query =>
      done <-! attempt (executeSynthesizedQuery query (extRoute v) (extTxStart v) (extTxEnd v) timeout);
      match done with
      | None => ret Return
      | Some _ => reset_batch false true true ;! ret Continue
      end
  | Err e =>
      sendError ($"query synthesis failed: " ++ synth_error e) ;!
      sendReadyForQuery (inTransaction (session v)) ;!
      reset_batch false false false ;! ret Continue
  | Panic => panic
  end.

Definition handleSync (multiplexMode : bool) (msg : Message) : M signal :=
  text <-! var extQueryText;
  cfg <-! getConfig;
  let timeout := resolveQueryTimeout text (Pool_QueryTimeout (Config.Pool cfg)) in
  v <-! var (fun v => v);
  (if bool_decide (extRoute v = RouteWriter) || inTransaction (session v) || bool_decide (is_Some (boundWriter v))
   then drop_reader else ret tt) ;!
  if extSessionBlocked v then
    reject_batch ($"session-dependent feature blocked: " ++ extSessionBlockedFeature v) ;!
    reset_batch true true false ;! ret Continue
  else
    readOnly <-! ask inReadOnly;
    if readOnly && extIsWrite v then
      reject_batch readOnlyError ;! reset_batch false true false ;! ret Continue
    else if multiplexMode then
      match muxBindDetail v with
      | Some detail => synthesized_path detail timeout
      | None => sendReadyForQuery (inTransaction (session v)) ;! reset_batch false true true ;! ret Continue
      end
    else
      r <-! (if bool_decide (extRoute v = RouteReader) && negb (inTransaction (session v)) && bool_decide (boundWriter v = None)
             then ext_reader_path msg timeout else ext_writer_path msg timeout);
      match r with
      | Return => ret Return
      | Continue => reset_batch false true true ;! ret Continue
      end.

(** ** The loop *)

(** One message, past the checks. *)
Definition dispatch (multiplexMode : bool) (msg : Message) : M signal :=
  if (mType msg =b Msg.Query) then handleQuery msg
  else
    n <-! var (fun v => length (extBuf v));
    if maxExtBufMessages <=? n then sendError $"too many pending extended query messages" ;! ret Return
    else if (mType msg =b Msg.Parse) then handleParse multiplexMode msg
    else if (mType msg =b Msg.Bind) then handleBind multiplexMode msg
    else if (mType msg =b Msg.Close) then handleClose multiplexMode msg
    else if (mType msg =b Msg.Describe) then
      if multiplexMode then
        done <-! attempt (handleMultiplexDescribe msg);
        ret (match done with None => Return | Some _ => Continue end)
      else buffer msg
    else if (mType msg =b Msg.Execute) then
      if multiplexMode then ret Continue else assign (set_extHasExecute true) ;! buffer msg
    else if (mType msg =b Msg.Sync) then handleSync multiplexMode msg
    else if multiplexMode then ret Continue else buffer msg.

(** The checks every message goes through. *)
Definition handle_message (multiplexMode : bool) (user remoteAddr : bytes) (msg : Message) : M signal :=
  if (mType msg =b Msg.Terminate) then ret Return
  else
    maintenance <-! ask inMaintenance;
    bound <-! var boundWriter;
    if maintenance && bool_decide (bound = None) then
      sendFatalWithCode $"57P01" $"pgmux is in maintenance mode" ;! ret Return
    else
      ok <-! global_allowed;
      if negb ok then reject $"too many requests"
      else
        ok <-! user_allowed user;
        if negb ok then reject $"per-user rate limit exceeded"
        else
          ok <-! ip_allowed (extractIP remoteAddr);
          if negb ok then reject $"per-ip rate limit exceeded"
          else dispatch multiplexMode msg.

(** The configuration gives the idle timeout. A read that the deadline ends is one that fails: [ReadMessageReuse]
    wraps the error, so that the assertion [err.(net.Error)] never holds and the client is sent
    nothing. *)
Definition round (multiplexMode : bool) (user remoteAddr : bytes) : M signal :=
  stop <-! ask ctxDone;
  if stop then ret Return
  else
    _ <-! getConfig;
    m <-! attempt read_client;
    match m with
    | None => ret Return
    | Some msg => handle_message multiplexMode user remoteAddr msg
    end.

Fixpoint query_loop (multiplexMode : bool) (user remoteAddr : bytes) (rounds : nat) : M unit :=
  match rounds with
  | O => ret tt
  | S n =>
      r <-! round multiplexMode user remoteAddr;
      match r with
      | Return => ret tt
      | Continue => query_loop multiplexMode user remoteAddr n
      end
  end.

(** The deferred function. *)
Definition clean_up : M unit :=
  w <-! var boundWriter;
  (match w with
   | Some c => p <-! var boundWriterPool; give_back c p
   | None => ret tt
   end) ;!
  r <-! var boundReader;
  match r with
  | Some c => p <-! var boundReaderPool; resetAndRelease c p
  | None => ret tt
  end.

(** [defer d()] around [m]: it runs also when [m] panics, and the panic goes on. *)
Definition deferring (d m : M unit) : M unit := fun w =>
  match m w with
  | (Ok _, w') => d w'
  | (r, w') => match d w' with (Panic, w'') => (Panic, w'') | (_, w'') => (r, w'') end
  end.

Definition initial_vars (s : Session) : Vars :=
  {| boundWriter := None; boundWriterPool := None; connDirty := false; boundReader := None; boundReaderPool := None;
     boundReaderAddr := []; extBuf := []; extRoute := RouteWriter; extTxStart := false; extTxEnd := false; extIsWrite := false;
     extHasExecute := false; extSessionBlocked := false; extSessionBlockedFeature := []; extQueryText := [];
     muxBindDetail := None; synth := NewSynthesizer; session := s |}.

Definition relayQueries (s : Session) (user remoteAddr : bytes) : M unit :=
  assign (fun _ => initial_vars s) ;!
  cfg <-! getConfig;
  let multiplexMode := bool_decide (Pool_PreparedStatementMode (Config.Pool cfg) = $"multiplex") in
  deferring clean_up (rounds_client (query_loop multiplexMode user remoteAddr)).
End Query.
