(* ===== verification/Logic.v ===== *)
(** * Reasoning about session code

    A program logic for the session monad. A [Setting] fixes what is asked of the
    events of a session (an automaton over the trace), of the server (a predicate that
    everything that acts on it keeps), and of the pools. [spec a v m Q] says that [m],
    started where the automaton is in state [a] and the variables are [v], panics or
    stays legal and ends as [Q] says. *)

From S2P Require Import Prelude GoStrings Float64 Net Config Wire SqlLex Classify Tables Ast Firewall Rewriter SessionCompat.
From S2P Require Import Lsn Session Balancer RateLimit Breaker Cache Pool Synth Timeout Relay DbGroup Proxy Handlers Query.

Local Open Scope nat_scope.

(** ** Functions that only talk to one connection and the client *)

Section Talk.
Context {S : Type}.

Definition talk {A} (c : Pool.Conn) (m : Relay.M S A) : Prop :=
  forall w, wp m (fun r w' => exists evs b k, moved c w w' evs b k) w.

Lemma talk_ret {A} c (a : A) : talk c (ret a).
Proof. intros w. exists [], [], []. apply moved_refl. Qed.

Lemma talk_fail {A} c : talk c (fail : Relay.M S A).
Proof. intros w. exists [], [], []. apply moved_refl. Qed.

Lemma talk_panic {A} c : talk c (panic : Relay.M S A).
Proof. intros w. exists [], [], []. apply moved_refl. Qed.

Lemma moved_then {A} c (m : Relay.M S A) w w1 evs b k :
  moved c w w1 evs b k -> talk c m -> wp m (fun r w' => exists evs b k, moved c w w' evs b k) w1.
Proof.
  intros Hm Ht. eapply wp_mono; [apply Ht|]. intros r w' (evs' & b' & k' & Hm'). eexists _, _, _. by eapply moved_trans.
Qed.

Lemma talk_bind {A C} c (m : Relay.M S A) (k : A -> Relay.M S C) : talk c m -> (forall a, talk c (k a)) -> talk c (bind m k).
Proof.
  intros Hm Hk w. apply wp_bind. eapply wp_mono; [apply Hm|]. intros [a|e|] w' (evs & b & kk & Hmv); eauto.
  by eapply moved_then.
Qed.

Lemma talk_attempt {A} c (m : Relay.M S A) : talk c m -> talk c (attempt m).
Proof. intros Hm w. apply wp_attempt. eapply wp_mono; [apply Hm|]. by intros [] w'. Qed.

Lemma moved_quietly c w (w' : World S) evs :
  Forall (talks_to c) evs -> trace w' = trace w ++ evs -> cin w' = cin w -> bin w' = bin w -> grants w' = grants w -> sh w' = sh w ->
  moved c w w' evs [] [].
Proof. intros He Ht Hc Hb Hg Hs. split; auto; unfold stream; by rewrite ?Hb. Qed.

Lemma talk_write_client c bs : talk c (write_client bs : Relay.M S bool).
Proof.
  intros w. unfold wp, write_client, next_write, bind, emit, ret. destruct (faults w) as [|[] fs]; cbn.
  - eexists _, _, _. by apply (moved_quietly c _ _ [EvClient bs]); [repeat constructor|..].
  - eexists _, _, _. apply (moved_quietly c _ _ []); cbn; rewrite ?app_nil_r; done.
  - eexists _, _, _. by apply (moved_quietly c _ _ [EvClient bs]); [repeat constructor|..].
Qed.

Lemma talk_write_backend c bs : talk c (write_backend c bs : Relay.M S bool).
Proof.
  intros w. unfold wp, write_backend, next_write, bind, emit, ret. destruct (faults w) as [|[] fs]; cbn; eexists _, _, _;
    (by eapply (moved_quietly c _ _ [EvSend c bs _]); [repeat constructor|..]).
Qed.

Lemma talk_read_backend c : talk c (read_backend c : Relay.M S Message).
Proof.
  intros w. unfold wp, read_backend. destruct (ReadMessage (stream c w)) as [[m r]| |] eqn:E; [|by exists [], [], []; apply moved_refl..].
  apply ReadMessage_split in E as [E _]. exists [], (ForwardRaw m), []. split; cbn; rewrite ?app_nil_r; auto.
  - by rewrite stream_set.
  - intros. by apply stream_set_ne.
Qed.

Lemma talk_rounds c {A} (loop : nat -> Relay.M S A) : (forall n, talk c (loop n)) -> talk c (rounds_backend c loop).
Proof. intros H w. apply wp_rounds_backend. intros n. apply H. Qed.

Hint Resolve talk_ret talk_fail talk_panic talk_bind talk_attempt talk_write_client talk_write_backend talk_read_backend talk_rounds : pgmux.

Lemma talk_must_client c bs : talk c (must_client bs : Relay.M S unit).
Proof. unfold must_client. apply talk_bind; [auto with pgmux|]. intros []; auto with pgmux. Qed.

Lemma talk_must_backend c bs : talk c (must_backend c bs : Relay.M S unit).
Proof. unfold must_backend. apply talk_bind; [auto with pgmux|]. intros []; auto with pgmux. Qed.

Lemma talk_try_client c bs : talk c (try_client bs : Relay.M S unit).
Proof. unfold try_client. auto with pgmux. Qed.

Lemma talk_relayUntilReady c : talk c (relayUntilReady c : Relay.M S unit).
Proof.
  apply talk_rounds. intros n w. eapply wp_mono; [apply relay_loop_answering|].
  intros r w' [[(evs & b & k & H & _) _] _]. eauto.
Qed.

Lemma talk_relayAndCollect c maxSize : talk c (relayAndCollect c maxSize : Relay.M S (option bytes)).
Proof.
  apply talk_rounds. intros n w. eapply wp_mono; [apply collect_loop_answering|].
  intros r w' [[(evs & b & k & H & _) _] _]. eauto.
Qed.

Hint Resolve talk_must_client talk_must_backend talk_try_client talk_relayUntilReady talk_relayAndCollect : pgmux.

Lemma talk_forwardAndRelay c msg : talk c (forwardAndRelay c msg : Relay.M S unit).
Proof. unfold forwardAndRelay. auto with pgmux. Qed.

Lemma talk_resetConn c q : talk c (resetConn q c : Relay.M S unit).
Proof.
  unfold resetConn. destruct q; [auto with pgmux|]. apply talk_bind; [auto with pgmux|]. intros _. apply talk_rounds. intros n.
  induction n as [|n IH]; cbn [reset_loop]; [auto with pgmux|]. apply talk_bind; [auto with pgmux|]. intros m. repeat case_match; auto with pgmux.
Qed.

Lemma talk_query_lsn c sql : talk c (query_lsn sql c : Relay.M S LSN).
Proof.
  unfold query_lsn. apply talk_bind; [auto with pgmux|]. intros _. apply talk_bind.
  - apply talk_rounds. intros n. generalize (@nil byte) as l. induction n as [|n IH]; intros l; cbn [lsn_loop]; [auto with pgmux|].
    apply talk_bind; [auto with pgmux|]. intros m. cbv zeta. repeat case_match; auto with pgmux.
  - intros l. repeat case_match; auto with pgmux.
Qed.
End Talk.

#[export] Hint Resolve talk_ret talk_fail talk_panic talk_bind talk_attempt talk_write_client talk_write_backend talk_read_backend
  talk_rounds talk_must_client talk_must_backend talk_try_client talk_relayUntilReady talk_relayAndCollect talk_forwardAndRelay
  talk_resetConn talk_query_lsn : pgmux.


Lemma talk_forwardExtBatch c buf msg : talk c (forwardExtBatch c buf msg).
Proof. unfold forwardExtBatch. apply talk_bind; [|auto with pgmux]. induction buf as [|m buf IH]; cbn [forward_all]; auto with pgmux. Qed.

Lemma talk_send_query c q : talk c (send_query q c).
Proof. unfold send_query. auto with pgmux. Qed.

Lemma talk_queryCurrentLSN c : talk c (queryCurrentLSN c : M LSN).
Proof. unfold queryCurrentLSN. auto with pgmux. Qed.

#[export] Hint Resolve talk_forwardExtBatch talk_send_query talk_queryCurrentLSN : pgmux.

(** ** The server *)

(** [P] holds of the server and whatever else acts on it keeps [P]. *)
Definition remains (P : Server -> Prop) (s : Sess) : Prop := P (server s) /\ Forall (fun change => forall s, P s -> P (change s)) (env s).

(** A world that differs in the server only. *)
Record aside (P : Server -> Prop) (w w' : World Sess) : Prop := {
  aside_cin : cin w' = cin w;
  aside_faults : faults w' = faults w;
  aside_trace : trace w' = trace w;
  aside_vars : vars (sh w') = vars (sh w);
  aside_remains : remains P (sh w')
}.

Lemma wp_ask {A} P (f : Server -> A) Q w :
  remains P (sh w) -> (forall s w', P s -> aside P w w' -> Q (Ok (f s)) w') -> wp (ask f) Q w.
Proof.
  intros [HP Henv] HQ. unfold wp, ask, access. destruct (env (sh w)) as [|e es] eqn:E; cbn.
  - apply HQ; [done|]. by split.
  - apply list.Forall_cons in Henv as [He Henv]. apply HQ; [by apply He|]. split; cbn; try done. split; [by apply He|done].
Qed.

Lemma aside_trans P w w1 w2 : aside P w w1 -> aside P w1 w2 -> aside P w w2.
Proof. intros [] []. by split; [congruence..|]. Qed.

Definition with_vars (f : Vars -> Vars) (w : World Sess) : World Sess :=
  {| cin := cin w; bin := bin w; faults := faults w; grants := grants w; trace := trace w;
     sh := {| server := server (sh w); env := env (sh w); vars := f (vars (sh w)) |} |}.

Lemma wp_assign f Q w : Q (Ok tt) (with_vars f w) -> wp (assign f) Q w.
Proof. done. Qed.

Lemma wp_var {A} (f : Vars -> A) Q w : Q (Ok (f (vars (sh w)))) w -> wp (var f) Q w.
Proof. done. Qed.

Lemma wp_ret {A} (x : A) (Q : res unit A -> World Sess -> Prop) w : Q (Ok x) w -> wp (ret x) Q w.
Proof. done. Qed.

(** ** Settings *)

(** The parts of the server that a session does not change. *)
Definition static_same (s s' : Server) : Prop :=
  (now s' = now s /\ ctxDone s' = ctxDone s /\ s_cfg s' = s_cfg s) /\
  (inMaintenance s' = inMaintenance s /\ inReadOnly s' = inReadOnly s /\ rewriter s' = rewriter s /\ hasInvalidator s' = hasInvalidator s) /\
  (g_name (group s') = g_name (group s) /\ writerAddr (group s') = writerAddr (group s) /\
   writerPool (group s') = writerPool (group s) /\ readerPools (group s') = readerPools (group s)).

Class Setting (St : Type) := {
  legal : St -> event -> option St;
  start : St;
  before : list event;
  holds : Server -> Prop;
  granting : (pool_loc -> list event -> option Pool.Conn) -> Prop;
  legal_client : forall a bs, legal a (EvClient bs) = Some a;
  legal_publish : forall a ts, legal a (EvPublish ts) = Some a;
  holds_static : forall s s', static_same s s' -> holds s -> holds s'
}.

Fixpoint judge_all {St} (J : St -> event -> option St) (a : St) (evs : list event) : option St :=
  match evs with
  | [] => Some a
  | e :: evs' => match J a e with Some a' => judge_all J a' evs' | None => None end
  end.

Lemma judge_all_app {St} (J : St -> event -> option St) a evs evs' :
  judge_all J a (evs ++ evs') = match judge_all J a evs with Some a' => judge_all J a' evs' | None => None end.
Proof. revert a. induction evs as [|e evs IH]; intros a; [done|]. cbn. destruct (J a e); auto. Qed.

Section Logic.
Context `{Setting St}.

(** Talking to the client and to a connection that may be used changes nothing. *)
Lemma judge_talks a c evs :
  Forall (talks_to c) evs -> (forall bs ok, legal a (EvSend c bs ok) = Some a) -> judge_all legal a evs = Some a.
Proof.
  intros Hevs Hc. induction Hevs as [|e evs He Hevs IH]; [done|]. cbn [judge_all].
  destruct e; try done; cbn in He; [subst; by rewrite Hc|by rewrite legal_client].
Qed.

Lemma judge_client a evs : (forall e, e ∈ evs -> exists bs, e = EvClient bs) -> judge_all legal a evs = Some a.
Proof.
  induction evs as [|e evs IH]; intros He; [done|]. destruct (He e) as [bs ->]; [set_solver|]. cbn. rewrite legal_client. apply IH. set_solver.
Qed.

Definition stable (s : Sess) : Prop := remains holds s.

(** The session's trace is legal so far and leads to [a]; its variables are [v]. *)
Record at_ (a : St) (v : Vars) (w : World Sess) : Prop := {
  at_trace : exists evs, trace w = before ++ evs /\ judge_all legal start evs = Some a;
  at_vars : vars (sh w) = v;
  at_stable : stable (sh w);
  at_granting : granting (grants w)
}.

(** [m] started at [a] and [v] panics, or stays legal and ends as [Q] says. *)
Definition spec {A} (a : St) (v : Vars) (m : M A) (Q : res unit A -> St -> Vars -> Prop) : Prop :=
  forall w, at_ a v w -> wp m (fun r w' => r = Panic \/ exists a' v', at_ a' v' w' /\ Q r a' v') w.

Lemma spec_mono {A} a v (m : M A) Q Q' : spec a v m Q -> (forall r a v, Q r a v -> Q' r a v) -> spec a v m Q'.
Proof.
  intros Hs HQ w Hw. eapply wp_mono; [by apply Hs|]. intros r w' [->|(a' & v' & Ha & Hq)]; [by left|]. right. eauto.
Qed.

Lemma spec_bind {A C} a v (m : M A) (k : A -> M C) R Q :
  spec a v m R -> (forall x a v, R (Ok x) a v -> spec a v (k x) Q) -> (forall e a v, R (Err e) a v -> Q (Err e) a v) ->
  spec a v (bind m k) Q.
Proof.
  intros Hm Hk He w Hw. apply wp_bind. eapply wp_mono; [by apply Hm|].
  intros [x|e|] w' [Hp|(a' & v' & Ha & Hr)]; try done.
  - by eapply Hk.
  - right. exists a', v'. split; [done|by apply He].
  - by left.
  - by left.
Qed.

Lemma spec_ret {A} a v (x : A) (Q : res unit A -> St -> Vars -> Prop) : Q (Ok x) a v -> spec a v (ret x) Q.
Proof. intros HQ w Hw. right. eauto. Qed.

Lemma spec_fail {A} a v (Q : res unit A -> St -> Vars -> Prop) : Q (Err tt) a v -> spec a v fail Q.
Proof. intros HQ w Hw. right. eauto. Qed.

Lemma spec_panic {A} a v (Q : res unit A -> St -> Vars -> Prop) : spec a v panic Q.
Proof. intros w Hw. by left. Qed.

Lemma spec_lift {A} a v (r : res unit A) (Q : res unit A -> St -> Vars -> Prop) : (r <> Panic -> Q r a v) -> spec a v (lift r) Q.
Proof. intros HQ w Hw. destruct r; [right..|by left]; exists a, v; (split; [done|by apply HQ]). Qed.

Lemma spec_attempt {A} a v (m : M A) (Q : res unit (option A) -> St -> Vars -> Prop) :
  spec a v m (fun r => match r with Ok x => Q (Ok (Some x)) | Err _ => Q (Ok None) | Panic => fun _ _ => True end) ->
  spec a v (attempt m) Q.
Proof.
  intros Hm w Hw. apply wp_attempt. eapply wp_mono; [by apply Hm|].
  intros [x|e|] w' [Hp|(a' & v' & Ha & Hr)]; try done; try (by left); right; eauto.
Qed.

(** *** Steps that change the accounts or the variables *)

Lemma spec_emit a v e a' (Q : res unit unit -> St -> Vars -> Prop) : legal a e = Some a' -> Q (Ok tt) a' v -> spec a v (emit e) Q.
Proof.
  intros He HQ w [(evs & Ht & Hj) Hv Hs Hg]. right. exists a', v. split; [|done]. split; cbn; auto.
  exists (evs ++ [e]). rewrite Ht, app_assoc, judge_all_app, Hj. cbn. by rewrite He.
Qed.

Lemma spec_var {A} a v (f : Vars -> A) (Q : res unit A -> St -> Vars -> Prop) : Q (Ok (f v)) a v -> spec a v (var f) Q.
Proof. intros HQ w Hw. right. exists a, v. split; [done|]. by rewrite (at_vars _ _ _ Hw). Qed.

Lemma spec_assign a v f (Q : res unit unit -> St -> Vars -> Prop) : Q (Ok tt) a (f v) -> spec a v (assign f) Q.
Proof. intros HQ w []. right. exists a, (f v). split; [|done]. split; cbn; auto. by rewrite at_vars0. Qed.

Lemma spec_access {A} a v (f : Server -> A * Server) (Q : res unit A -> St -> Vars -> Prop) :
  (forall s, static_same s (f s).2) -> (forall s, holds s -> Q (Ok (f s).1) a v) -> spec a v (access f) Q.
Proof.
  intros Hf HQ w [Ht Hv Hs Hh]. unfold wp, access. set (ch := match env (sh w) with e :: es => (e, es) | [] => _ end).
  assert (holds (ch.1 (server (sh w))) /\ Forall (fun f => forall s, holds s -> holds (f s)) ch.2) as Hch.
  { destruct Hs as [HP Henv]. unfold ch. destruct (env (sh w)) as [|e es]; [done|].
    apply list.Forall_cons in Henv as [He Henv]. split; [by apply He|done]. }
  destruct ch as [change env'] eqn:Ec. cbn [fst snd] in Hch. destruct (f (change (server (sh w)))) as [x s'] eqn:Ef.
  destruct Hch as [HP Henv]. right. exists a, v. split.
  - split; cbn; auto. split; cbn; [|done]. specialize (Hf (change (server (sh w)))). rewrite Ef in Hf. by apply (holds_static _ _ Hf).
  - specialize (HQ (change (server (sh w)))). rewrite Ef in HQ. by apply HQ.
Qed.

Lemma spec_ask {A} a v (f : Server -> A) (Q : res unit A -> St -> Vars -> Prop) :
  (forall s, holds s -> Q (Ok (f s)) a v) -> spec a v (ask f) Q.
Proof. intros HQ. apply spec_access; [intros s; by split_and!|done]. Qed.

(** *** Steps that change neither *)

(** Code that talks to a connection it may use. *)
Lemma spec_talking {A} a v c (m : M A) (Q : res unit A -> St -> Vars -> Prop) :
  talk c m -> (forall bs ok, legal a (EvSend c bs ok) = Some a) -> (forall r, Q r a v) -> spec a v m Q.
Proof.
  intros Hm Hc HQ w [(evs0 & Ht & Hj) Hv Hs Hg]. eapply wp_mono; [apply Hm|]. intros r w' (evs & b & k & []). right. exists a, v.
  split; [|done]. split; rewrite ?moved_sh, ?moved_grants; [|done..].
  exists (evs0 ++ evs). rewrite moved_trace, Ht, app_assoc, judge_all_app, Hj. split; [done|]. by eapply judge_talks.
Qed.

(** Code that only talks to the client. *)
Definition client_only {A} (m : M A) : Prop :=
  forall w, wp m (fun r w' => exists evs, trace w' = trace w ++ evs /\ (forall e, e ∈ evs -> exists bs, e = EvClient bs) /\
                   sh w' = sh w /\ grants w' = grants w) w.

Lemma spec_client {A} a v (m : M A) (Q : res unit A -> St -> Vars -> Prop) :
  client_only m -> (forall r, Q r a v) -> spec a v m Q.
Proof.
  intros Hm HQ w [(evs0 & Ht0 & Hj) Hv Hs0 Hg0]. eapply wp_mono; [apply Hm|]. intros r w' (evs & Ht & Hevs & Hs & Hg). right. exists a, v.
  split; [|done]. split; rewrite ?Hs, ?Hg; [|done..].
  exists (evs0 ++ evs). rewrite Ht, Ht0, app_assoc, judge_all_app, Hj. split; [done|]. by apply judge_client.
Qed.

(** ** Sequencing *)

Lemma spec_seq {A C} a v (m : M A) (k : A -> M C) Q :
  spec a v m (fun r a v => match r with Ok x => spec a v (k x) Q | Err e => Q (Err e) a v | Panic => True end) ->
  spec a v (bind m k) Q.
Proof. intros Hm. by eapply spec_bind; [exact Hm|..]. Qed.

Lemma client_write bs : client_only (write_client bs).
Proof.
  intros w. unfold wp, write_client, next_write, bind, emit, ret. destruct (faults w) as [|[] fs]; cbn.
  - exists [EvClient bs]. split_and!; try done. intros e. rewrite list_elem_of_singleton. eauto.
  - exists []. rewrite app_nil_r. split_and!; try done. set_solver.
  - exists [EvClient bs]. split_and!; try done. intros e. rewrite list_elem_of_singleton. eauto.
Qed.

Lemma spec_write_client a v bs (Q : res unit bool -> St -> Vars -> Prop) : (forall r, Q r a v) -> spec a v (write_client bs) Q.
Proof. apply spec_client, client_write. Qed.

Lemma spec_try_client a v bs (Q : res unit unit -> St -> Vars -> Prop) : Q (Ok tt) a v -> Q (Err tt) a v -> spec a v (try_client bs) Q.
Proof. intros. apply spec_seq, spec_write_client. intros [x|[]|]; try done. by apply spec_ret. Qed.

Lemma spec_must_client a v bs (Q : res unit unit -> St -> Vars -> Prop) : Q (Ok tt) a v -> Q (Err tt) a v -> spec a v (must_client bs) Q.
Proof. intros. apply spec_seq, spec_write_client. intros [[]|[]|]; try done; [by apply spec_ret|by apply spec_fail]. Qed.

Lemma spec_read_client a v (Q : res unit Message -> St -> Vars -> Prop) : (forall r, Q r a v) -> spec a v read_client Q.
Proof.
  apply spec_client. intros w. unfold wp, read_client. destruct (ReadMessage (cin w)) as [[m r]| |]; exists []; cbn; rewrite app_nil_r;
    (split_and!; [done|set_solver|done..]).
Qed.

(** Code that always returns a value. *)
Lemma spec_total {A} a v (m : M A) (Q : res unit A -> St -> Vars -> Prop) :
  (forall w, exists x, (m w).1 = Ok x) -> (forall Q : res unit A -> St -> Vars -> Prop, (forall r, Q r a v) -> spec a v m Q) ->
  (forall x, Q (Ok x) a v) -> spec a v m Q.
Proof.
  intros Ht Hm HQ w Hw. specialize (Ht w). specialize (Hm (fun _ a' v' => a' = a /\ v' = v) (fun _ => conj eq_refl eq_refl) w Hw).
  unfold wp in *. destruct (m w) as [r w']. destruct Ht as [x Hx]. cbn in Hx. subst r.
  destruct Hm as [[=]|(a' & v' & Hat & -> & ->)]. right. eauto.
Qed.

Lemma spec_writing a v c bs (Q : res unit bool -> St -> Vars -> Prop) :
  (forall bs ok, legal a (EvSend c bs ok) = Some a) -> (forall b, Q (Ok b) a v) -> spec a v (write_backend c bs) Q.
Proof.
  intros Hc HQ. apply spec_total; [|by intros Q'; apply (spec_talking _ _ c); [auto with pgmux|]|done].
  intros w. unfold write_backend, next_write, bind, emit, ret. destruct (faults w) as [|[]]; cbn; eauto.
Qed.

Lemma spec_write_client_ok a v bs (Q : res unit bool -> St -> Vars -> Prop) : (forall b, Q (Ok b) a v) -> spec a v (write_client bs) Q.
Proof.
  intros HQ. apply spec_total; [|by intros Q'; apply spec_write_client|done].
  intros w. unfold write_client, next_write, bind, emit, ret. destruct (faults w) as [|[]]; cbn; eauto.
Qed.

(** ** Code that leaves the automaton and the variables alone *)

Definition neutral {A} (m : M A) : Prop := forall a v (Q : res unit A -> St -> Vars -> Prop), (forall r, Q r a v) -> spec a v m Q.

Lemma neutral_ret {A} (x : A) : neutral (ret x).
Proof. intros a v Q HQ. by apply spec_ret. Qed.

Lemma neutral_bind {A C} (m : M A) (k : A -> M C) : neutral m -> (forall x, neutral (k x)) -> neutral (bind m k).
Proof. intros Hm Hk a v Q HQ. apply spec_seq, Hm. intros [x|e|]; [by apply Hk|done..]. Qed.

Lemma neutral_lift {A} (r : res unit A) : neutral (lift r).
Proof. intros a v Q HQ. by apply spec_lift. Qed.

Lemma neutral_panic {A} : neutral (panic : M A).
Proof. apply (neutral_lift Panic). Qed.

Lemma neutral_var {A} (f : Vars -> A) : neutral (var f).
Proof. intros a v Q HQ. by apply spec_var. Qed.

Lemma neutral_access {A} (f : Server -> A * Server) : (forall s, static_same s (f s).2) -> neutral (access f).
Proof. intros Hf a v Q HQ. by apply spec_access. Qed.

Lemma neutral_ask {A} (f : Server -> A) : neutral (ask f).
Proof. apply neutral_access. intros s. by split_and!. Qed.

Lemma neutral_client {A} (m : M A) : client_only m -> neutral m.
Proof. intros Hm a v Q. by apply spec_client. Qed.

Lemma neutral_write_client bs : neutral (write_client bs).
Proof. apply neutral_client, client_write. Qed.

Hint Resolve neutral_ret neutral_bind neutral_lift neutral_var neutral_ask neutral_write_client : pgmux.

(** Solve the side condition of an access: it does not change the writer pool. *)
Local Ltac access_tac := apply neutral_access; intros s; cbv beta zeta; repeat case_match; by split_and!.

Lemma neutral_writer_breaker f : neutral (writer_breaker f).
Proof. access_tac. Qed.
Lemma neutral_writer_allowed : neutral writer_allowed.
Proof. access_tac. Qed.
Lemma neutral_reader_breaker addr f : neutral (reader_breaker addr f).
Proof. access_tac. Qed.
Lemma neutral_reader_allowed addr : neutral (reader_allowed addr).
Proof. access_tac. Qed.
Lemma neutral_mark_unhealthy addr : neutral (mark_unhealthy addr).
Proof. access_tac. Qed.
Lemma neutral_load {A} (f : Backend -> A) l : neutral (load f l).
Proof. apply neutral_bind; [apply neutral_ask|]. intros []; [apply neutral_ret|apply neutral_panic]. Qed.
Lemma neutral_search_slice ok : (forall l, neutral (ok l)) -> neutral (search_slice ok).
Proof.
  intros Hok. apply neutral_bind; [apply neutral_ask|]. intros slice. generalize (length slice). intros n.
  induction n as [|n IH]; cbn [search]; [apply neutral_ret|]. apply neutral_bind; [access_tac|]. intros i. destruct (slice_at slice i) as [l|]; [|apply neutral_panic].
  apply neutral_bind; [apply Hok|]. intros []; [apply neutral_load|done].
Qed.
Lemma neutral_next_reader : neutral next_reader.
Proof. apply neutral_search_slice. intros l. apply neutral_load. Qed.
Lemma neutral_next_reader_with_lsn lsn : neutral (next_reader_with_lsn lsn).
Proof.
  unfold next_reader_with_lsn. case_match; [apply neutral_next_reader|]. apply neutral_search_slice. intros l.
  apply neutral_bind; [apply neutral_load|]. intros []; [|apply neutral_ret]. apply neutral_bind; [apply neutral_load|]. intros lsn'. apply neutral_ret.
Qed.
Lemma neutral_cache_get key : neutral (cache_get key).
Proof. access_tac. Qed.
Lemma neutral_cache_set key r ts : neutral (cache_set key r ts).
Proof. access_tac. Qed.
Lemma neutral_cache_invalidate order t : neutral (cache_invalidate order t).
Proof. access_tac. Qed.
Lemma neutral_global_allowed : neutral global_allowed.
Proof. access_tac. Qed.
Lemma neutral_user_allowed u : neutral (user_allowed u).
Proof. access_tac. Qed.
Lemma neutral_ip_allowed ip : neutral (ip_allowed ip).
Proof. access_tac. Qed.

Hint Resolve neutral_writer_breaker neutral_writer_allowed neutral_reader_breaker neutral_reader_allowed neutral_mark_unhealthy
  neutral_next_reader neutral_next_reader_with_lsn neutral_cache_get neutral_cache_set neutral_cache_invalidate
  neutral_global_allowed neutral_user_allowed neutral_ip_allowed : pgmux.

Lemma neutral_reader_failed addr : neutral (reader_failed addr).
Proof. unfold reader_failed. auto with pgmux. Qed.
Lemma neutral_caching : neutral caching.
Proof. unfold caching. auto with pgmux. Qed.
Lemma neutral_getConfig : neutral getConfig.
Proof. unfold getConfig. auto with pgmux. Qed.
Lemma neutral_try_client bs : neutral (try_client bs).
Proof. unfold try_client. auto with pgmux. Qed.
Lemma neutral_must_client bs : neutral (must_client bs).
Proof. intros a v Q HQ. apply spec_must_client; auto. Qed.
Lemma neutral_sendError t : neutral (sendError t).
Proof. apply neutral_try_client. Qed.
Hint Resolve neutral_reader_failed neutral_caching neutral_getConfig neutral_try_client neutral_must_client neutral_sendError : pgmux.

Section Helpers.
Context `{UnicodeCase} `{PgQuery} `{RewriteDeps} `{Texts} (order : gset Z -> list Z).

Lemma neutral_ast : neutral astParser_on.
Proof. unfold astParser_on. auto with pgmux. Qed.
Hint Resolve neutral_ast : pgmux.

Local Ltac helper := repeat (apply neutral_bind; [auto with pgmux|intros ?]); repeat case_match; auto with pgmux.

Lemma neutral_cacheKey q n : neutral (cacheKey q n).
Proof. unfold cacheKey. helper. Qed.
Lemma neutral_classifyQuery q : neutral (classifyQuery q).
Proof. unfold classifyQuery. helper. Qed.
Lemma neutral_extractQueryTables q : neutral (extractQueryTables q).
Proof. unfold extractQueryTables. helper. Qed.
Lemma neutral_extractReadQueryTables q : neutral (extractReadQueryTables q).
Proof. unfold extractReadQueryTables. helper. Qed.
Hint Resolve neutral_cacheKey neutral_classifyQuery neutral_extractQueryTables neutral_extractReadQueryTables : pgmux.
Lemma neutral_cacheKeyParsed q pq n : neutral (cacheKeyParsed q pq n).
Proof. unfold cacheKeyParsed. helper. Qed.
Lemma neutral_classifyQueryParsed q pq : neutral (classifyQueryParsed q pq).
Proof. unfold classifyQueryParsed. helper. Qed.
Lemma neutral_extractQueryTablesParsed q pq : neutral (extractQueryTablesParsed q pq).
Proof. unfold extractQueryTablesParsed. helper. Qed.
Lemma neutral_extractReadQueryTablesParsed q pq : neutral (extractReadQueryTablesParsed q pq).
Proof. unfold extractReadQueryTablesParsed. helper. Qed.
Lemma neutral_extended_key q : neutral (extended_key q).
Proof. unfold extended_key. helper. Qed.
Hint Resolve neutral_cacheKeyParsed neutral_classifyQueryParsed neutral_extractQueryTablesParsed neutral_extractReadQueryTablesParsed
  neutral_extended_key : pgmux.

Lemma neutral_invalidate_all ts : neutral (invalidate_all order ts).
Proof. induction ts; cbn [invalidate_all]; auto with pgmux. Qed.

Lemma neutral_publish ts : neutral (emit (EvPublish ts)).
Proof. intros a v Q HQ. eapply spec_emit; [apply legal_publish|done]. Qed.

End Helpers.

Lemma neutral_sendReadyForQuery b : neutral (sendReadyForQuery b).
Proof. apply neutral_try_client. Qed.

Lemma neutral_sendFatal code t : neutral (sendFatalWithCode code t).
Proof. apply neutral_try_client. Qed.

Lemma neutral_read_client : neutral read_client.
Proof. intros a v Q HQ. by apply spec_read_client. Qed.

Section Rewriting.
Context `{UnicodeCase} `{PgQuery} `{RewriteDeps} `{Texts}.

Lemma neutral_rewrite_query q pq : neutral (rewrite_query q pq).
Proof. unfold rewrite_query. apply neutral_bind; [auto with pgmux|]. intros []; auto with pgmux. Qed.

Lemma neutral_rewrite_parse q : neutral (rewrite_parse q).
Proof. unfold rewrite_parse. apply neutral_bind; [auto with pgmux|]. intros []; auto with pgmux. Qed.
End Rewriting.

(** ** Loops and deferred calls *)

Lemma spec_rounds_backend {A} a v c (loop : nat -> M A) Q : (forall n, spec a v (loop n) Q) -> spec a v (rounds_backend c loop) Q.
Proof. intros Hl w Hw. apply wp_rounds_backend. intros n. by apply Hl. Qed.


Lemma spec_deferring a v (d m : M unit) Q R :
  spec a v m (fun _ => R) -> (forall a v, R a v -> spec a v d (fun _ => Q)) -> spec a v (deferring d m) (fun _ => Q).
Proof.
  intros Hm Hd w Hw. unfold wp, deferring. specialize (Hm w Hw). unfold wp in Hm. destruct (m w) as [r w'].
  destruct Hm as [->|(a' & v' & Hat & HR)].
  - destruct (d w') as [[] w'']; by left.
  - specialize (Hd _ _ HR w' Hat). unfold wp in Hd. destruct r; [done|..]; destruct (d w') as [[] w'']; destruct Hd as [[=]|(?&?&?&?)];
      (by left) || (by right; eauto).
Qed.

(** ** Code that emits nothing but answers to the client *)

(** Variables may change. *)
Definition quiet {A} (m : M A) : Prop := forall a v, spec a v m (fun _ a' _ => a' = a).

Lemma quiet_neutral {A} (m : M A) : neutral m -> quiet m.
Proof. intros Hm a v. by apply Hm. Qed.

Lemma quiet_bind {A C} (m : M A) (k : A -> M C) : quiet m -> (forall x, quiet (k x)) -> quiet (bind m k).
Proof. intros Hm Hk a v. eapply spec_bind; [apply Hm| |done]. intros x a' v' ->. apply Hk. Qed.

Lemma quiet_assign f : quiet (assign f).
Proof. intros a v. by apply spec_assign. Qed.

Lemma quiet_panic {A} : quiet (panic : M A).
Proof. intros a v. apply spec_panic. Qed.

Hint Resolve quiet_bind quiet_assign quiet_panic : pgmux.
Hint Resolve quiet_neutral | 5 : pgmux.
Hint Resolve neutral_ret neutral_bind neutral_lift neutral_var neutral_ask neutral_write_client neutral_writer_breaker neutral_writer_allowed neutral_reader_breaker neutral_reader_allowed neutral_mark_unhealthy neutral_next_reader neutral_next_reader_with_lsn neutral_cache_get neutral_cache_set neutral_cache_invalidate neutral_global_allowed neutral_user_allowed neutral_ip_allowed neutral_reader_failed neutral_caching neutral_getConfig neutral_try_client neutral_must_client neutral_sendError neutral_ast neutral_cacheKey neutral_classifyQuery neutral_extractQueryTables neutral_extractReadQueryTables neutral_cacheKeyParsed neutral_classifyQueryParsed neutral_extractQueryTablesParsed neutral_extractReadQueryTablesParsed neutral_extended_key neutral_invalidate_all neutral_publish neutral_sendReadyForQuery neutral_sendFatal neutral_read_client neutral_rewrite_query neutral_rewrite_parse : pgmux.

Section Messages.
Context `{UnicodeCase} `{PgQuery} `{RewriteDeps} `{Texts}.

Local Ltac quiet_tac :=
  repeat (lazymatch goal with
    | |- quiet (bind _ _) => apply quiet_bind; [|intros ?]
    | |- quiet (match _ with _ => _ end) => case_match
    | |- quiet (let _ := _ in _) => cbv zeta
    end); auto with pgmux.

Lemma quiet_reject t : quiet (reject t).
Proof. unfold reject, ready_idle. quiet_tac. Qed.

Lemma quiet_acknowledge t : quiet (acknowledge t).
Proof. unfold acknowledge. quiet_tac. Qed.

Lemma quiet_buffer m : quiet (buffer m).
Proof. unfold buffer. case_match; quiet_tac. Qed.

Lemma quiet_pin f : quiet (pin_session f).
Proof. apply quiet_assign. Qed.

Hint Resolve quiet_reject quiet_acknowledge quiet_buffer quiet_pin : pgmux.

Lemma quiet_register_parse name q also : quiet also -> quiet (register_parse name q also).
Proof. intros Ha. unfold register_parse. quiet_tac. Qed.

Lemma quiet_handleParse mux msg : quiet (handleParse mux msg).
Proof.
  unfold handleParse. cbv zeta. destruct (match pfErr _ with None => _ | Some _ => _ end) as [name q].
  apply quiet_bind; [auto with pgmux|]. intros rw. destruct mux; (apply quiet_bind; [apply quiet_register_parse|intros _]); quiet_tac.
Qed.

Lemma quiet_note_bind name : quiet (note_bind name).
Proof. unfold note_bind. quiet_tac. Qed.

Hint Resolve quiet_note_bind : pgmux.

Lemma quiet_handleBind mux msg : quiet (handleBind mux msg).
Proof. unfold handleBind. destruct mux; [destruct (ParseBindMessageFull _)|]; quiet_tac. Qed.

Lemma quiet_handleClose mux msg : quiet (handleClose mux msg).
Proof. unfold handleClose. destruct (ParseCloseMessage _). quiet_tac. Qed.

Lemma quiet_reset_batch b e t : quiet (reset_batch b e t).
Proof. apply quiet_assign. Qed.

Lemma quiet_route_query q : quiet (route_query q).
Proof. unfold route_query. quiet_tac. Qed.
End Messages.
End Logic.

#[export] Hint Resolve neutral_ret neutral_bind neutral_lift neutral_var neutral_ask neutral_write_client neutral_writer_breaker neutral_writer_allowed neutral_reader_breaker neutral_reader_allowed neutral_mark_unhealthy neutral_next_reader neutral_next_reader_with_lsn neutral_cache_get neutral_cache_set neutral_cache_invalidate neutral_global_allowed neutral_user_allowed neutral_ip_allowed neutral_reader_failed neutral_caching neutral_getConfig neutral_try_client neutral_must_client neutral_sendError neutral_ast neutral_cacheKey neutral_classifyQuery neutral_extractQueryTables neutral_extractReadQueryTables neutral_cacheKeyParsed neutral_classifyQueryParsed neutral_extractQueryTablesParsed neutral_extractReadQueryTablesParsed neutral_extended_key neutral_invalidate_all neutral_publish neutral_sendReadyForQuery neutral_sendFatal neutral_read_client neutral_rewrite_query neutral_rewrite_parse : pgmux.
#[export] Hint Resolve quiet_bind quiet_assign quiet_panic quiet_reject quiet_acknowledge quiet_buffer quiet_pin quiet_handleParse quiet_note_bind quiet_handleBind quiet_handleClose quiet_reset_batch quiet_route_query : pgmux.
#[export] Hint Resolve quiet_neutral | 5 : pgmux.
