(* ===== verification/Accounting.v ===== *)
(** * Accounting for connections

    What a session may do with the connections of the pools, as an automaton over the
    session's trace, and a proof that a session does no more and returns everything. *)

From S2P Require Import Prelude GoStrings Float64 Net Config Wire SqlLex Classify Tables Ast Firewall Rewriter SessionCompat.
From S2P Require Import Lsn Session Balancer RateLimit Breaker Cache Pool Synth Timeout Relay DbGroup Proxy Handlers Query Logic.

Local Open Scope nat_scope.

(** ** The automaton *)

(** The connections a session holds, with the pool each came from, the one a cancel
    request would go to, and whether a query timer runs. *)
Record Acc := { held : gmap nat pool_loc; target : option nat; timer : bool }.

(** A connection is used only while it is held, is given back once, not while cancel
    requests can reach it, and to its own pool when [strict]; a timer runs only while there
    is a target, and is stopped before the target goes. *)
Definition judge (strict : bool) (a : Acc) (e : event) : option Acc :=
  let give p c :=
    match held a !! Pool.conn_id c with
    | Some p' =>
        if (negb strict || bool_decide (p = p')) && bool_decide (target a <> Some (Pool.conn_id c))
        then Some {| held := delete (Pool.conn_id c) (held a); target := target a; timer := timer a |} else None
    | None => None
    end in
  match e with
  | EvAcquire p c =>
      match held a !! Pool.conn_id c with
      | None => Some {| held := <[Pool.conn_id c := p]> (held a); target := target a; timer := timer a |}
      | Some _ => None
      end
  | EvRelease p c | EvDiscard p c => give p c
  | EvSend c _ _ => if bool_decide (is_Some (held a !! Pool.conn_id c)) then Some a else None
  | EvNoConn _ | EvClient _ | EvPublish _ => Some a
  | EvTarget _ c =>
      if bool_decide (is_Some (held a !! Pool.conn_id c)) && negb (timer a)
      then Some {| held := held a; target := Some (Pool.conn_id c); timer := timer a |} else None
  | EvNoTarget => if timer a then None else Some {| held := held a; target := None; timer := false |}
  | EvTimer _ =>
      if timer a || bool_decide (target a = None) then None else Some {| held := held a; target := target a; timer := true |}
  | EvTimerStop => if timer a then Some {| held := held a; target := target a; timer := false |} else None
  end.

Definition nothing_held : Acc := {| held := ∅; target := None; timer := false |}.

Section Sessions.
Context (strict : bool).

(** What holds of the server throughout, whatever other sessions and reloads do. *)
Context (P : Server -> Prop) (P_static : forall s s', static_same s s' -> P s -> P s').

(** A pool does not hand out a connection that the session holds. *)
Definition honest (g : pool_loc -> list event -> option Pool.Conn) : Prop :=
  forall p tr c a, g p tr = Some c -> judge_all (judge strict) nothing_held tr = Some a -> held a !! Pool.conn_id c = None.

#[local] Instance accounts : Setting Acc := {|
  legal := judge strict; start := nothing_held; before := []; holds := P; granting := honest;
  legal_client := fun _ _ => eq_refl; legal_publish := fun _ _ => eq_refl; holds_static := P_static
|}.

Lemma spec_talk {A} a v c (m : M A) (Q : res unit A -> Acc -> Vars -> Prop) :
  talk c m -> is_Some (held a !! Pool.conn_id c) -> (forall r, Q r a v) -> spec a v m Q.
Proof. intros Hm Hc. apply (spec_talking _ _ c); [done|]. intros bs ok. cbn. by rewrite bool_decide_true. Qed.

Lemma spec_write_backend a v c bs (Q : res unit bool -> Acc -> Vars -> Prop) :
  is_Some (held a !! Pool.conn_id c) -> (forall b, Q (Ok b) a v) -> spec a v (write_backend c bs) Q.
Proof. intros Hc. apply spec_writing. intros bs' ok. cbn. by rewrite bool_decide_true. Qed.

(** The account with a connection more. *)
Definition hold (p : pool_loc) (c : Pool.Conn) (a : Acc) : Acc :=
  {| held := <[Pool.conn_id c := p]> (held a); target := target a; timer := timer a |}.

Lemma spec_acquire a v p (Q : res unit (option Pool.Conn) -> Acc -> Vars -> Prop) :
  Q (Ok None) a v -> (forall c, held a !! Pool.conn_id c = None -> Q (Ok (Some c)) (hold p c a) v) -> spec a v (acquire p) Q.
Proof.
  intros Hn Hc w Hw. unfold wp, acquire. destruct (grants w p (trace w)) as [c|] eqn:E.
  - assert (held a !! Pool.conn_id c = None) as Hfree.
    { destruct (at_trace _ _ _ Hw) as (evs & Ht & Hj). eapply (at_granting _ _ _ Hw); [exact E|]. by rewrite Ht. }
    apply (spec_bind a v (emit (EvAcquire p c)) (fun _ => ret (Some c)) (fun r a' v' => r = Ok tt /\ a' = hold p c a /\ v' = v) Q); [| |by intros ??? [[=] _]|done].
    + eapply spec_emit; [cbn; by rewrite Hfree|done].
    + intros [] ?? (_ & -> & ->). by apply spec_ret, Hc.
  - apply (spec_bind a v (emit (EvNoConn p)) (fun _ => ret None) (fun r a' v' => r = Ok tt /\ a' = a /\ v' = v) Q); [| |by intros ??? [[=] _]|done].
    + by eapply spec_emit.
    + intros [] ?? (_ & -> & ->). by apply spec_ret.
Qed.

(** ** Accounts of a session *)

(** Nothing can be cancelled, or the query on [c] can, with or without a timer. *)
Definition resting (H : gmap nat pool_loc) : Acc := {| held := H; target := None; timer := false |}.
Definition aimed (H : gmap nat pool_loc) (c : Pool.Conn) (t : bool) : Acc := {| held := H; target := Some (Pool.conn_id c); timer := t |}.

Lemma spec_setFromConn H v addr c (Q : res unit unit -> Acc -> Vars -> Prop) :
  is_Some (H !! Pool.conn_id c) -> Q (Ok tt) (aimed H c false) v -> spec (resting H) v (setFromConn addr c) Q.
Proof. intros Hc HQ. eapply spec_emit; [cbn; by rewrite bool_decide_true|done]. Qed.

Lemma spec_start H v c d (Q : res unit unit -> Acc -> Vars -> Prop) :
  Q (Ok tt) (aimed H c (0 <? d)%Z) v -> spec (aimed H c false) v (startQueryTimer d) Q.
Proof. intros HQ. unfold startQueryTimer. destruct (0 <? d)%Z; [by eapply spec_emit|by apply spec_ret]. Qed.

Lemma spec_stop H v c d (Q : res unit unit -> Acc -> Vars -> Prop) :
  Q (Ok tt) (aimed H c false) v -> spec (aimed H c (0 <? d)%Z) v (stopQueryTimer d) Q.
Proof. intros HQ. unfold stopQueryTimer. destruct (0 <? d)%Z; [by eapply spec_emit|by apply spec_ret]. Qed.

Lemma spec_clear H v c (Q : res unit unit -> Acc -> Vars -> Prop) : Q (Ok tt) (resting H) v -> spec (aimed H c false) v clear Q.
Proof. intros HQ. by eapply spec_emit. Qed.

(** A connection that is held may go back: to its own pool when strict, and never to a nil pool. *)
Definition returnable (H : gmap nat pool_loc) (c : Pool.Conn) (q : option pool_loc) : Prop :=
  exists p, H !! Pool.conn_id c = Some p /\ (strict = true -> forall p', q = Some p' -> p' = p).

Lemma judge_give H c q p : returnable H c q -> q = Some p -> forall e, e = EvRelease p c \/ e = EvDiscard p c ->
  judge strict (resting H) e = Some (resting (delete (Pool.conn_id c) H)).
Proof.
  intros (p' & Hp & Hq) -> e [-> | ->]; cbn; rewrite Hp; (destruct strict; cbn; [|done]);
    rewrite (Hq eq_refl p eq_refl); by rewrite bool_decide_true.
Qed.

Lemma spec_release H v c q (Q : res unit unit -> Acc -> Vars -> Prop) :
  returnable H c q -> Q (Ok tt) (resting (delete (Pool.conn_id c) H)) v -> spec (resting H) v (releaseToPool c q) Q.
Proof. intros Hr HQ. destruct q as [p|]; [|apply spec_panic]. eapply spec_emit; [|done]. by eapply judge_give; eauto. Qed.

Lemma spec_discard H v c q (Q : res unit unit -> Acc -> Vars -> Prop) :
  returnable H c q -> Q (Ok tt) (resting (delete (Pool.conn_id c) H)) v -> spec (resting H) v (discardToPool c q) Q.
Proof. intros Hr HQ. destruct q as [p|]; [|apply spec_panic]. eapply spec_emit; [|done]. by eapply judge_give; eauto. Qed.

Lemma returnable_held H c q : returnable H c q -> is_Some (H !! Pool.conn_id c).
Proof. intros (p & -> & _). done. Qed.

Lemma spec_resetAndRelease H v c q (Q : res unit unit -> Acc -> Vars -> Prop) :
  returnable H c q -> Q (Ok tt) (resting (delete (Pool.conn_id c) H)) v -> spec (resting H) v (resetAndRelease c q) Q.
Proof.
  intros Hr HQ. apply spec_seq, spec_ask. intros s _. apply spec_seq, spec_attempt.
  eapply (spec_talk _ _ c); [auto with pgmux|by eapply returnable_held|].
  intros [x|e|]; [by apply spec_release|by apply spec_discard|done].
Qed.

Lemma spec_give_back H v c q (Q : res unit unit -> Acc -> Vars -> Prop) :
  returnable H c q -> Q (Ok tt) (resting (delete (Pool.conn_id c) H)) v -> spec (resting H) v (give_back c q) Q.
Proof. intros Hr HQ. apply spec_seq, spec_var. case_match; [by apply spec_resetAndRelease|by apply spec_release]. Qed.

Context `{UnicodeCase} `{PgQuery} `{RewriteDeps} `{Texts} (order : gset Z -> list Z).

(** ** Borrowed connections *)

Lemma returnable_borrowed Hd c p : returnable (<[Pool.conn_id c := p]> Hd) c (Some p).
Proof. exists p. rewrite lookup_insert_eq. split; [done|]. by intros _ p' [= ->]. Qed.

Lemma held_borrowed (Hd : gmap nat pool_loc) c p : is_Some ((<[Pool.conn_id c := p]> Hd) !! Pool.conn_id c).
Proof. by rewrite lookup_insert_eq. Qed.

Lemma give_borrowed (Hd : gmap nat pool_loc) c p : Hd !! Pool.conn_id c = None -> delete (Pool.conn_id c) (<[Pool.conn_id c := p]> Hd) = Hd.
Proof. apply delete_insert_id. Qed.

Hint Resolve returnable_borrowed held_borrowed : pgmux.

(** The connection a piece of code talks to. *)
Local Ltac talks m :=
  lazymatch m with
  | relayUntilReady ?c => c
  | relayAndCollect ?c _ => c
  | forwardAndRelay ?c _ => c
  | forwardExtBatch ?c _ _ => c
  | must_backend ?c _ => c
  | send_query _ ?c => c
  | queryCurrentLSN ?c => c
  | read_backend ?c => c
  end.

Lemma spec_relay_and_collect Hd v c (Q : res unit (option bytes) -> Acc -> Vars -> Prop) t :
  is_Some (Hd !! Pool.conn_id c) -> (forall r, Q r (aimed Hd c t) v) -> spec (aimed Hd c t) v (relay_and_collect c) Q.
Proof. intros Hc HQ. apply spec_seq, spec_ask. intros s _. by eapply (spec_talk _ _ c); [auto with pgmux|..]. Qed.

(** One step of the code of a specification. *)
Local Ltac step_with fallback :=
  lazymatch goal with
  | |- spec _ _ (bind _ _) _ => apply spec_seq
  | |- spec _ _ (ret _) _ => apply spec_ret
  | |- spec _ _ fail _ => apply spec_fail
  | |- spec _ _ panic _ => apply spec_panic
  | |- spec _ _ (attempt _) _ => apply spec_attempt
  | |- spec _ _ (var _) _ => apply spec_var
  | |- spec _ _ (assign _) _ => apply spec_assign
  | |- spec _ _ (ask _) _ => apply spec_ask; intros ? ?
  | |- spec _ _ (write_client _) _ => apply spec_write_client_ok; intros ?
  | |- spec _ _ (write_backend _ _) _ => apply spec_write_backend; [cbn [held resting aimed]; auto with pgmux|intros ?]
  | |- spec _ _ caching _ => apply spec_ask; intros ? ?
  | |- spec _ _ getConfig _ => apply spec_ask; intros ? ?
  | |- spec _ _ (acquireFrom ?p) _ => destruct p as [?|] eqn:?; [cbn [acquireFrom]|apply spec_panic]
  | |- spec _ _ (acquire _) _ => apply spec_acquire; [|intros ? ?]; unfold hold; cbn [held target timer resting]
  | |- spec _ _ (setFromConn _ _) _ => apply spec_setFromConn; [auto with pgmux|]
  | |- spec _ _ (startQueryTimer _) _ => apply spec_start
  | |- spec _ _ (stopQueryTimer _) _ => apply spec_stop
  | |- spec _ _ clear _ => apply spec_clear
  | |- spec _ _ (releaseToPool _ _) _ => apply spec_release; [auto with pgmux|]
  | |- spec _ _ (discardToPool _ _) _ => apply spec_discard; [auto with pgmux|]
  | |- spec _ _ (resetAndRelease _ _) _ => apply spec_resetAndRelease; [auto with pgmux|]
  | |- spec _ _ (relay_and_collect _) _ => apply spec_relay_and_collect; [auto with pgmux|intros [?|[]|]]
  | |- spec _ _ (if ?b then _ else _) _ => destruct b eqn:?
  | |- spec _ _ (match ?x with _ => _ end) _ => destruct x eqn:?
  | |- spec _ _ ?m _ =>
      first [ fallback tt
            | let c := talks m in apply (spec_talk _ _ c); [auto with pgmux|cbn [held resting aimed]; auto with pgmux|intros [?|[]|]]
            | assert (neutral m) as Hneutral by auto with pgmux; apply Hneutral; clear Hneutral; intros [?|[]|] ]
  end; cbv beta iota; rewrite ?give_borrowed by assumption; try exact I.


Lemma spec_fallbackToWriter Hd v msg (Q : res unit unit -> Acc -> Vars -> Prop) :
  (forall r, Q r (resting Hd) v) -> spec (resting Hd) v (fallbackToWriter msg) Q.
Proof. intros HQ. unfold fallbackToWriter. repeat step_with ltac:(fun _ => fail); auto. Qed.

Lemma spec_writer_instead Hd v send d (Q : res unit unit -> Acc -> Vars -> Prop) :
  (forall c, talk c (send c)) -> (forall r, Q r (resting Hd) v) -> spec (resting Hd) v (writer_instead send d) Q.
Proof.
  intros Hs HQ. unfold writer_instead.
  repeat step_with ltac:(fun _ => lazymatch goal with |- spec _ _ (send ?c) _ => apply (spec_talk _ _ c); [done|cbn [held aimed]; auto with pgmux|intros [?|[]|]] end); auto.
Qed.

Local Ltac step :=
  step_with ltac:(fun _ =>
    lazymatch goal with
    | |- spec _ _ (fallbackToWriter _) _ => apply spec_fallbackToWriter; intros [?|[]|]
    | |- spec _ _ (writer_instead _ _) _ => apply spec_writer_instead; [auto with pgmux|intros [?|[]|]]
    end).

Lemma spec_handleReadQueryTraced Hd v msg q pq cfg d (Q : res unit unit -> Acc -> Vars -> Prop) :
  (forall r, Q r (resting Hd) v) -> spec (resting Hd) v (handleReadQueryTraced msg q pq cfg d) Q.
Proof. intros HQ. unfold handleReadQueryTraced. repeat step; auto. Qed.

Lemma spec_handleExtendedRead Hd v buf msg addr d (Q : res unit unit -> Acc -> Vars -> Prop) :
  (forall r, Q r (resting Hd) v) -> spec (resting Hd) v (handleExtendedRead buf msg addr d) Q.
Proof. intros HQ. unfold handleExtendedRead. repeat step; auto. Qed.

Lemma spec_handleSynthesizedRead Hd v q addr d (Q : res unit unit -> Acc -> Vars -> Prop) :
  (forall r, Q r (resting Hd) v) -> spec (resting Hd) v (handleSynthesizedRead q addr d) Q.
Proof. intros HQ. unfold handleSynthesizedRead. repeat step; auto. Qed.

Lemma spec_describe_loop Hd v c p n (Q : res unit unit -> Acc -> Vars -> Prop) :
  Hd !! Pool.conn_id c = None -> (forall r, Q r (resting Hd) v) ->
  spec (resting (<[Pool.conn_id c := p]> Hd)) v (describe_loop c (Some p) n) Q.
Proof.
  intros Hc HQ. induction n as [|n IH]; cbn [describe_loop].
  - repeat step; auto.
  - repeat (assumption || step); auto.
Qed.

Lemma spec_send_or_discard Hd v c p ms (Q : res unit unit -> Acc -> Vars -> Prop) :
  Hd !! Pool.conn_id c = None -> Q (Err tt) (resting Hd) v -> Q (Ok tt) (resting (<[Pool.conn_id c := p]> Hd)) v ->
  spec (resting (<[Pool.conn_id c := p]> Hd)) v (send_or_discard c (Some p) ms) Q.
Proof.
  intros Hc HQ HQ'. induction ms as [|m ms IH]; cbn [send_or_discard]; [by apply spec_ret|].
  repeat (assumption || step); auto.
Qed.

Lemma spec_handleMultiplexDescribe Hd v msg (Q : res unit unit -> Acc -> Vars -> Prop) :
  (forall r, Q r (resting Hd) v) -> spec (resting Hd) v (handleMultiplexDescribe msg) Q.
Proof.
  intros HQ. unfold handleMultiplexDescribe.
  repeat (step || (apply spec_send_or_discard; [assumption|auto|]; cbv beta iota)
               || (apply spec_rounds_backend; intros ?; by apply spec_describe_loop)); auto.
Qed.

(** ** The invariant of a session *)

(** With [strict] the writer's pool does not change, and [nopin] says that sessions are not pinned. *)
Definition pins (cfg : Config.Config) : bool := SessionCompat_Enabled (SessionCompat cfg) && bool_decide (SessionCompat_Mode (SessionCompat cfg) = $"pin").

Context (wp0 : option pool_loc) (Hwp0 : strict = true -> forall s, P s -> writerPool (group s) = wp0).
Context (nopin : bool) (Hnopin : nopin = true -> forall s, P s -> pins (s_cfg s) = false).

(** Beside the connections [R], the session holds [c], a connection of the writer's pool. *)
Definition owned (R Hd : gmap nat pool_loc) (c : Pool.Conn) : Prop :=
  exists p, R !! Pool.conn_id c = None /\ Hd = <[Pool.conn_id c := p]> R /\ (strict = true -> wp0 = Some p).

(** Beside the connections [L], it holds the bound reader; [L] are connections that are
    lost, which a session that is not pinned does not have. *)
Definition reader_in (R : gmap nat pool_loc) (v : Vars) : Prop :=
  exists L, (nopin = true -> L = ∅) /\
  match boundReader v with
  | None => R = L
  | Some c => exists p, L !! Pool.conn_id c = None /\ R = <[Pool.conn_id c := p]> L /\
                (strict = true -> forall p', boundReaderPool v = Some p' -> p' = p)
  end.

Definition writer_in (R Hd : gmap nat pool_loc) (v : Vars) : Prop :=
  match boundWriter v with
  | None => boundWriterPool v = None /\ Hd = R
  | Some c => owned R Hd c /\ (strict = true -> boundWriterPool v = wp0)
  end.

Definition unpinned (v : Vars) : Prop := nopin = true -> pinned (session v) = false.

(** Between two messages a session holds its bound connections, and the lost ones. *)
Definition bound (R Hd : gmap nat pool_loc) (v : Vars) : Prop := reader_in R v /\ writer_in R Hd v /\ unpinned v.

(** The session has the writer connection [c] in use: the bound one, or one acquired from [ap]. *)
Definition in_use (R Hd : gmap nat pool_loc) (v : Vars) (c : Pool.Conn) (acquired : bool) (ap : option pool_loc) : Prop :=
  reader_in R v /\ unpinned v /\ owned R Hd c /\ (strict = true -> ap = wp0) /\
  if acquired then boundWriter v = None /\ boundWriterPool v = None
  else boundWriter v = Some c /\ (strict = true -> boundWriterPool v = wp0).

Lemma owned_held R Hd c : owned R Hd c -> is_Some (Hd !! Pool.conn_id c).
Proof. intros (p & _ & -> & _). auto with pgmux. Qed.

Lemma owned_give R Hd c : owned R Hd c -> delete (Pool.conn_id c) Hd = R.
Proof. intros (p & Hc & -> & _). by apply delete_insert_id. Qed.

Lemma owned_returnable R Hd c q : owned R Hd c -> (strict = true -> q = None \/ q = wp0) -> returnable Hd c q.
Proof.
  intros (p & Hc & -> & Hwp) Hq. exists p. rewrite lookup_insert_eq. split; [done|]. intros Hs p' ->.
  specialize (Hwp Hs). destruct (Hq Hs) as [[=]|E]. rewrite Hwp in E. by injection E.
Qed.

Lemma in_use_held R Hd v c acq ap : in_use R Hd v c acq ap -> is_Some (Hd !! Pool.conn_id c).
Proof. intros (_ & _ & Ho & _). by eapply owned_held. Qed.

Lemma in_use_session R Hd v c acq ap s :
  pinned s = pinned (session v) -> in_use R Hd v c acq ap -> in_use R Hd (set_session s v) c acq ap.
Proof. intros Hs (Hr & Hu & Ho). refine (conj Hr (conj _ Ho)). intros E. cbn. rewrite Hs. by apply Hu. Qed.

(** A pinned session can lose a connection. *)
Lemma in_use_lost R Hd v c ap : nopin = false -> in_use R Hd v c true ap -> bound Hd Hd v.
Proof.
  intros Hn ((L & HL & HR) & Hu & (p & Hc & -> & Hp) & Hap & Hb & Hbp). split_and!; [|unfold writer_in; by rewrite Hb|done].
  exists (<[Pool.conn_id c := p]> L). split; [by rewrite Hn|]. destruct (boundReader v) as [r|].
  - destruct HR as (q & Hr & -> & Hq). apply lookup_insert_None in Hc as [Hc Hne]. exists q. rewrite lookup_insert_ne by done.
    split_and!; [done|by apply insert_insert_ne|done].
  - by subst.
Qed.

Lemma in_use_bound R Hd v c ap : in_use R Hd v c false ap -> bound R Hd v.
Proof. intros (Hr & Hu & Ho & _ & Hw & Hp). split_and!; [done| |done]. unfold writer_in. by rewrite Hw. Qed.

Lemma spec_acquireWriterConn R Hd v ap (Q : res unit (option (Pool.Conn * bool)) -> Acc -> Vars -> Prop) :
  bound R Hd v -> (strict = true -> ap = wp0) -> (forall e, Q (Err e) (resting Hd) v) -> Q (Ok None) (resting Hd) v ->
  (forall c acq Hd', in_use R Hd' v c acq ap -> Q (Ok (Some (c, acq))) (resting Hd') v) ->
  spec (resting Hd) v (acquireWriterConn (boundWriter v)) Q.
Proof.
  intros (Hr & Hw & Hu) Hap He Hn Hc. unfold acquireWriterConn, writer_in in *. destruct (boundWriter v) as [c|] eqn:Eb.
  - apply spec_ret, Hc. destruct Hw. by split_and!.
  - destruct Hw as [Hp ->]. repeat step; auto. apply Hc. split_and!; auto. exists n. split_and!; [done..|]. intros E. by rewrite <- (Hwp0 E s).
Qed.

(** *** What becomes of the connection in use *)

Lemma spec_discard_broken R Hd v c acq ap (Q : res unit unit -> Acc -> Vars -> Prop) :
  in_use R Hd v c acq ap -> (forall v, bound R R v -> Q (Ok tt) (resting R) v) -> spec (resting Hd) v (discard_broken c acq ap) Q.
Proof.
  intros (Hr & Hu & Ho & Hap & Hb) HQ. unfold discard_broken. destruct acq.
  - apply spec_discard; [eapply owned_returnable; eauto|]. rewrite (owned_give _ _ _ Ho). apply HQ. split_and!; [done| |done].
    destruct Hb as [Hb Hp]. unfold writer_in. by rewrite Hb.
  - destruct Hb as [Hb Hp]. apply spec_seq, spec_var. rewrite Hb. apply spec_seq, spec_var, spec_seq, spec_discard.
    + eapply owned_returnable; eauto.
    + rewrite (owned_give _ _ _ Ho). apply spec_assign, HQ. by split_and!.
Qed.

Lemma spec_unbind_writer R Hd v c acq ap give (Q : res unit unit -> Acc -> Vars -> Prop) :
  (forall Hd v q (Q : res unit unit -> Acc -> Vars -> Prop), returnable Hd c q -> Q (Ok tt) (resting (delete (Pool.conn_id c) Hd)) v ->
     spec (resting Hd) v (give c q) Q) ->
  in_use R Hd v c acq ap -> (forall v, bound R R v -> Q (Ok tt) (resting R) v) -> spec (resting Hd) v (unbind_writer give c) Q.
Proof.
  intros Hg (Hr & Hu & Ho & Hap & Hb) HQ. apply spec_seq, spec_var, spec_seq, spec_assign, Hg.
  - eapply owned_returnable; [done|]. intros Hs. destruct acq; [by left; apply Hb|by right; apply Hb].
  - rewrite (owned_give _ _ _ Ho). apply HQ. by split_and!.
Qed.

Lemma spec_bind_writer R Hd v c acq ap (Q : res unit unit -> Acc -> Vars -> Prop) :
  in_use R Hd v c acq ap -> (forall v, bound R Hd v -> Q (Ok tt) (resting Hd) v) -> spec (resting Hd) v (bind_writer c ap) Q.
Proof. intros (Hr & Hu & Ho & Hap & Hb) HQ. apply spec_assign, HQ. by split_and!. Qed.

Lemma spec_return_acquired R Hd v c ap (release : Pool.Conn -> option pool_loc -> M unit) (Q : res unit unit -> Acc -> Vars -> Prop) :
  (forall Hd v q (Q : res unit unit -> Acc -> Vars -> Prop), returnable Hd c q -> Q (Ok tt) (resting (delete (Pool.conn_id c) Hd)) v ->
     spec (resting Hd) v (release c q) Q) ->
  in_use R Hd v c true ap -> (bound R R v -> Q (Ok tt) (resting R) v) -> spec (resting Hd) v (release c ap) Q.
Proof.
  intros Hg (Hr & Hu & Ho & Hap & Hb & Hp) HQ. apply Hg; [eapply owned_returnable; eauto|].
  rewrite (owned_give _ _ _ Ho). apply HQ. split_and!; [done| |done]. unfold writer_in. by rewrite Hb.
Qed.

Definition settled (a : Acc) (v : Vars) : Prop := exists R Hd, a = resting Hd /\ bound R Hd v.

Lemma settled_bound R Hd v : bound R Hd v -> settled (resting Hd) v.
Proof. intros Hb. by exists R, Hd. Qed.

Lemma settled_in_use R Hd v c ap : in_use R Hd v c false ap -> settled (resting Hd) v.
Proof. intros Hu. by eapply settled_bound, in_use_bound. Qed.

Lemma settled_pinned R Hd v c acq ap : in_use R Hd v c acq ap -> pinned (session v) = true -> settled (resting Hd) v.
Proof.
  intros Hu Hp. destruct acq; [|by eapply settled_in_use]. eapply settled_bound, in_use_lost; [|done].
  destruct Hu as (_ & Hu & _). apply not_true_is_false. intros E. by rewrite (Hu E) in Hp.
Qed.

(** The predicates depend only on the bound connections and their pools. *)
Local Ltac in_use_tac :=
  match goal with
  | Hu : in_use ?R ?Hd _ ?c ?acq ?ap |- in_use _ _ ?v _ _ _ => exact (Hu : in_use R Hd v c acq ap)
  end.
Local Ltac settled_tac :=
  match goal with
  | Hu : in_use ?R ?Hd _ ?c false ?ap |- settled _ ?v => exact (settled_in_use R Hd v c ap Hu)
  | Hu : in_use ?R ?Hd _ ?c ?acq ?ap, Hp : pinned _ = true |- settled _ ?v => exact (settled_pinned R Hd v c acq ap Hu Hp)
  | Hb : bound ?R ?Hd _ |- settled _ ?v => exact (settled_bound R Hd v Hb)
  end.

(** Steps that end the use of a writer connection. *)
Local Ltac finish :=
  first
  [ lazymatch goal with
    | |- settled _ _ => settled_tac
    | |- spec _ _ (bind_writer _ _) _ => eapply spec_bind_writer; [in_use_tac|intros ? ?]
    | |- spec _ _ (unbind_writer give_back _) _ => eapply (spec_unbind_writer _ _ _ _ _ _ give_back); [intros *; apply spec_give_back|in_use_tac|intros ? ?]
    | |- spec _ _ (unbind_writer resetAndRelease _) _ =>
        eapply (spec_unbind_writer _ _ _ _ _ _ resetAndRelease); [intros *; apply spec_resetAndRelease|in_use_tac|intros ? ?]
    | |- spec _ _ (discard_broken _ _ _) _ => eapply spec_discard_broken; [in_use_tac|intros ? ?]
    | |- spec _ _ (releaseToPool _ _) _ => eapply (spec_return_acquired _ _ _ _ _ releaseToPool); [intros *; apply spec_release|in_use_tac|intros ?]
    | |- spec _ _ (resetAndRelease _ _) _ => eapply (spec_return_acquired _ _ _ _ _ resetAndRelease); [intros *; apply spec_resetAndRelease|in_use_tac|intros ?]
    end; cbv beta iota
  | step ].

Lemma spec_after_write R Hd v q c acq ap was now :
  in_use R Hd v c acq ap -> spec (resting Hd) v (after_write q c acq ap was now) (fun _ => settled).
Proof.
  intros Hu. unfold after_write, dirty, clean. repeat finish.
Qed.

Lemma spec_after_batch R Hd v c acq ap :
  in_use R Hd v c acq ap -> spec (resting Hd) v (after_batch c acq ap) (fun _ => settled).
Proof. intros Hu. unfold after_batch, set_transaction, clean. repeat finish. Qed.

(** ** The writer paths *)

Hint Extern 2 (is_Some (_ !! Pool.conn_id _)) => eapply in_use_held; eassumption : pgmux.

Lemma set_session_id v : set_session (session v) v = v.
Proof. by destruct v. Qed.

(** A write changes no more of the variables than the session's LSN. *)
Lemma spec_handleWriteQuery Hd v c t msg q pq qtype cfg (Q : res unit unit -> Acc -> Vars -> Prop) :
  is_Some (Hd !! Pool.conn_id c) ->
  (forall r s, pinned s = pinned (session v) -> Q r (aimed Hd c t) (set_session s v)) ->
  spec (aimed Hd c t) v (handleWriteQuery order c msg q pq qtype cfg) Q.
Proof.
  intros Hc HQ. assert (forall r, Q r (aimed Hd c t) v) as HQv.
  { intros r. rewrite <- (set_session_id v). by apply HQ. }
  unfold handleWriteQuery. repeat step; auto.
Qed.

(** *** Code that keeps the invariant *)

Definition keeps {A} (m : M A) : Prop := forall a v, settled a v -> spec a v m (fun _ => settled).

Lemma settled_seq {A C} a v (m : M A) (k : A -> M C) :
  spec a v m (fun _ => settled) -> (forall x, keeps (k x)) -> spec a v (bind m k) (fun _ => settled).
Proof. intros Hm Hk. eapply spec_bind; [exact Hm| |done]. intros x a' v' Hs. by apply Hk. Qed.

Lemma settled_then {A C} a v (m : M A) (k : A -> M C) :
  spec a v m (fun _ => settled) -> (forall x, keeps (k x)) ->
  spec a v m (fun r a v => match r with Ok x => spec a v (k x) (fun _ => settled) | Err _ => settled a v | Panic => True end).
Proof. intros Hm Hk. eapply spec_mono; [exact Hm|]. intros [x| |] a' v' Hs; [by apply Hk|done..]. Qed.

Lemma keeps_ret {A} (x : A) : keeps (ret x).
Proof. intros a v Hs. by apply spec_ret. Qed.

Lemma keeps_bind {A C} (m : M A) (k : A -> M C) : keeps m -> (forall x, keeps (k x)) -> keeps (bind m k).
Proof. intros Hm Hk a v Hs. apply settled_seq; auto. Qed.

Lemma keeps_neutral {A} (m : M A) : neutral m -> keeps m.
Proof. intros Hm a v Hs. by apply Hm. Qed.

Lemma keeps_attempt {A} (m : M A) : keeps m -> keeps (attempt m).
Proof. intros Hm a v Hs. apply spec_attempt. eapply spec_mono; [by apply Hm|]. by intros [] ?? ?. Qed.

(** An assignment that leaves the bound connections and the pin alone. *)
Definition inessential (f : Vars -> Vars) : Prop :=
  forall v, boundWriter (f v) = boundWriter v /\ boundWriterPool (f v) = boundWriterPool v /\ boundReader (f v) = boundReader v /\
    boundReaderPool (f v) = boundReaderPool v /\ pinned (session (f v)) = pinned (session v).

Lemma settled_inessential f a v : inessential f -> settled a v -> settled a (f v).
Proof.
  intros Hf (R & Hd & -> & Hb). destruct (Hf v) as (E1 & E2 & E3 & E4 & E5). exists R, Hd. split; [done|].
  unfold bound, reader_in, writer_in, unpinned in *. by rewrite E1, E2, E3, E4, E5.
Qed.

Lemma keeps_assign f : inessential f -> keeps (assign f).
Proof. intros Hf a v Hs. apply spec_assign. by apply settled_inessential. Qed.

Hint Resolve keeps_ret keeps_bind keeps_attempt keeps_assign : pgmux.
Hint Resolve keeps_neutral | 5 : pgmux.

Local Ltac acquire_writer :=
  lazymatch goal with
  | HP : holds ?s |- spec _ _ (acquireWriterConn _) _ =>
      eapply (spec_acquireWriterConn _ _ _ (writerPool (group s))); [eassumption|by intros E; apply Hwp0|intros _| |intros ? ? ? ?]; cbv beta iota
  end.

Lemma spec_write_path R Hd v msg q pq cfg qtype was now d :
  bound R Hd v -> spec (resting Hd) v (write_path order msg q pq cfg qtype was now d) (fun _ => settled).
Proof.
  intros Hb. unfold write_path. do 5 step. acquire_writer; try settled_tac; [repeat finish|].
  repeat finish. apply spec_handleWriteQuery; [auto with pgmux|].
  intros [?|[]|] s' Hs; cbv beta iota; try done.
  all: assert (in_use R Hd' (set_session s' v) c acq (writerPool (group s))) by (by apply in_use_session).
  - do 4 step. apply settled_seq; [|auto with pgmux]. eapply spec_after_write. eassumption.
  - repeat finish.
Qed.

Lemma spec_ext_writer_path R Hd v msg d :
  bound R Hd v -> spec (resting Hd) v (ext_writer_path msg d) (fun _ => settled).
Proof.
  intros Hb. unfold ext_writer_path. do 7 step. acquire_writer; try settled_tac; [repeat finish|].
  repeat finish. apply (settled_then _ _ _ (fun _ => ret Continue)); [|auto with pgmux]. eapply spec_after_batch. eassumption.
Qed.

Lemma spec_executeSynthesizedQuery R Hd v q route txStart txEnd d :
  bound R Hd v -> spec (resting Hd) v (executeSynthesizedQuery q route txStart txEnd d) (fun _ => settled).
Proof.
  intros Hb. unfold executeSynthesizedQuery, set_transaction. do 4 step. case_match.
  - repeat step; try settled_tac. apply spec_handleSynthesizedRead. intros r. settled_tac.
  - do 3 step. acquire_writer; try settled_tac; [repeat finish|]. repeat finish.
Qed.

(** ** The reader paths *)

(** The session has the reader [c] bound. *)
Definition reads (Hd : gmap nat pool_loc) (v : Vars) (c : Pool.Conn) : Prop := boundReader v = Some c /\ exists R, bound R Hd v.

(** The variables without the bound reader. *)
Definition readerless (v v' : Vars) : Prop :=
  boundReader v' = None /\ boundWriter v' = boundWriter v /\ boundWriterPool v' = boundWriterPool v /\ session v' = session v.

Lemma reads_lookup Hd v c : reads Hd v c -> exists p, Hd !! Pool.conn_id c = Some p /\ (strict = true -> forall p', boundReaderPool v = Some p' -> p' = p).
Proof.
  intros (Hr & R & (L & HL & HR) & Hw & Hu). rewrite Hr in HR. destruct HR as (p & Hc & -> & Hp). exists p. split; [|done].
  unfold writer_in in Hw. destruct (boundWriter v) as [w|].
  - destruct Hw as [(q & Hw & -> & _) _]. rewrite lookup_insert_ne, lookup_insert_eq; [done|].
    intros E. by rewrite E, lookup_insert_eq in Hw.
  - destruct Hw as [_ ->]. by rewrite lookup_insert_eq.
Qed.

Lemma reads_returnable Hd v c : reads Hd v c -> returnable Hd c (boundReaderPool v).
Proof. exact (reads_lookup Hd v c). Qed.

Lemma reads_held Hd v c : reads Hd v c -> is_Some (Hd !! Pool.conn_id c).
Proof. intros Hr. by eapply returnable_held, reads_returnable. Qed.

Lemma reads_given Hd v c v' : reads Hd v c -> readerless v v' -> settled (resting (delete (Pool.conn_id c) Hd)) v'.
Proof.
  intros (Hr & R & (L & HL & HR) & Hw & Hu) (E1 & E2 & E3 & E4). rewrite Hr in HR. destruct HR as (p & Hc & -> & Hp).
  exists L, (delete (Pool.conn_id c) Hd). split; [done|]. split_and!.
  - exists L. by rewrite E1.
  - unfold writer_in in *. rewrite E2, E3. destruct (boundWriter v) as [w|].
    + destruct Hw as [(q & Hw & -> & Hq) Hwp]. split; [|done]. apply lookup_insert_None in Hw as [Hw Hne].
      exists q. split_and!; [done| |done]. rewrite delete_insert_ne by done. by rewrite delete_insert_id.
    + destruct Hw as [Hw ->]. split; [done|]. by apply delete_insert_id.
  - unfold unpinned. by rewrite E4.
Qed.

Lemma reads_bind Hd v c p v' :
  settled (resting Hd) v -> boundReader v = None -> Hd !! Pool.conn_id c = None ->
  v' = set_boundReader (Some c) (set_boundReaderPool (Some p) v) -> settled (resting (<[Pool.conn_id c := p]> Hd)) v'.
Proof.
  intros (R & Hd' & [= <-] & (L & HL & HR) & Hw & Hu) Hr Hc ->. rewrite Hr in HR. subst L.
  exists (<[Pool.conn_id c := p]> R), (<[Pool.conn_id c := p]> Hd). split; [done|].
  assert (R !! Pool.conn_id c = None) as HRc.
  { unfold writer_in in Hw. destruct (boundWriter v) as [w|]; [|by destruct Hw as [_ ->]].
    destruct Hw as [(q & _ & -> & _) _]. by apply lookup_insert_None in Hc as [Hc _]. }
  split_and!; [| |done].
  - exists R. split; [done|]. cbn. exists p. split_and!; try done. by intros _ p' [= ->].
  - unfold writer_in in *. cbn. destruct (boundWriter v) as [w|].
    + destruct Hw as [(q & Hw & -> & Hq) Hwp]. split; [|done]. exists q. apply lookup_insert_None in Hc as [Hc Hne].
      rewrite lookup_insert_ne by congruence. split_and!; [done|by apply insert_insert_ne|done].
    + by destruct Hw as [Hw ->].
Qed.

Lemma reads_settled Hd v c : reads Hd v c -> settled (resting Hd) v.
Proof. intros (_ & R & Hb). by eapply settled_bound. Qed.

Hint Resolve reads_returnable : pgmux.
Hint Extern 2 (is_Some (_ !! Pool.conn_id _)) => eapply reads_held; eassumption : pgmux.

Local Ltac read_steps :=
  repeat (lazymatch goal with |- settled _ _ => first [by eapply reads_given|by eapply reads_settled] | _ => step end).

Lemma spec_bound_reader_path Hd v c msg d : reads Hd v c -> spec (resting Hd) v (bound_reader_path c msg d) (fun _ => settled).
Proof. intros Hr. unfold bound_reader_path, forget_reader. read_steps. Qed.

Lemma keeps_drop_reader : keeps drop_reader.
Proof.
  intros a v Hs. unfold drop_reader, forget_reader. do 2 step. destruct (boundReader v) as [c|] eqn:E; [|by step].
  destruct Hs as (R & Hd & -> & Hb). assert (reads Hd v c) as Hr by (split; eauto). read_steps.
Qed.

Lemma spec_acquireReaderForBind Hd v addr (Q : res unit (option (Pool.Conn * option pool_loc * bytes)) -> Acc -> Vars -> Prop) :
  (forall e, Q (Err e) (resting Hd) v) -> Q (Ok None) (resting Hd) v ->
  (forall c p addr, Hd !! Pool.conn_id c = None -> Q (Ok (Some (c, Some p, addr))) (resting (<[Pool.conn_id c := p]> Hd)) v) ->
  spec (resting Hd) v (acquireReaderForBind addr) Q.
Proof. intros He Hn Hc. unfold acquireReaderForBind. repeat step; auto. Qed.

Lemma spec_bind_reader_path Hd v msg d :
  settled (resting Hd) v -> boundReader v = None -> spec (resting Hd) v (bind_reader_path msg d) (fun _ => settled).
Proof.
  intros Hs Hr. unfold bind_reader_path.
  repeat (lazymatch goal with
    | |- spec _ _ (acquireReaderForBind _) _ => apply spec_acquireReaderForBind; [intros _| |intros ? ? ? ?]; cbv beta iota
    | |- settled _ _ => first [done|by eapply (reads_bind _ (set_boundReaderAddr _ v)); [apply (settled_inessential (set_boundReaderAddr _))|..]]
    | _ => step
    end).
Qed.

Lemma spec_ext_reader_path Hd v msg d :
  settled (resting Hd) v -> spec (resting Hd) v (ext_reader_path msg d) (fun _ => settled).
Proof.
  intros Hs. unfold ext_reader_path. do 2 step. destruct (boundReader v) as [c|] eqn:Er.
  - apply spec_bound_reader_path. destruct Hs as (R & Hd' & [= <-] & Hb). split; eauto.
  - case_match; [by apply spec_bind_reader_path|]. 
    repeat (lazymatch goal with
      | |- spec _ _ (handleExtendedRead _ _ _ _) _ => apply spec_handleExtendedRead; intros [?|[]|]; cbv beta iota; [..|done]
      | |- settled _ _ => done
      | _ => step
      end).
Qed.

(** ** Messages *)

Lemma keeps_reset_batch b e t : keeps (reset_batch b e t).
Proof. apply keeps_assign. intros v. by destruct b, e, t. Qed.

Hint Resolve keeps_reset_batch keeps_drop_reader : pgmux.

Lemma keeps_reject_batch t : keeps (reject_batch t).
Proof. unfold reject_batch. auto 10 with pgmux. Qed.

Lemma keeps_reject t : keeps (reject t).
Proof. unfold reject, ready_idle. auto 10 with pgmux. Qed.

Lemma keeps_acknowledge t : keeps (acknowledge t).
Proof. unfold acknowledge. auto with pgmux. Qed.

Lemma keeps_buffer m : keeps (buffer m).
Proof. unfold buffer. case_match; [|intros a v _; apply spec_panic..]. apply keeps_bind; [by apply keeps_assign|auto with pgmux]. Qed.

Hint Resolve keeps_reject_batch keeps_reject keeps_acknowledge keeps_buffer : pgmux.

Lemma settled_session a v s : (nopin = true -> pinned s = pinned (session v)) -> settled a v -> settled a (set_session s v).
Proof.
  intros Hs (R & Hd & -> & Hr & Hw & Hu). exists R, Hd. split; [done|]. refine (conj Hr (conj Hw _)). intros E. cbn. rewrite Hs by done. by apply Hu.
Qed.

Lemma route_classified_pinned t s q : pinned (route_classified t s q).2 = pinned s.
Proof. unfold route_classified. by repeat case_match. Qed.

Lemma routeQueryLocked_pinned t s q : pinned (routeQueryLocked t s q).2 = pinned s.
Proof.
  unfold routeQueryLocked. destruct (isSingleStatement q).
  - destruct (hasTxPrefix q); cbn [with_inTransaction]; case_match; rewrite ?route_classified_pinned; done.
  - cbv zeta. repeat case_match; rewrite ?route_classified_pinned; done.
Qed.

Lemma keeps_route_query q : keeps (route_query q).
Proof.
  intros a v Hs. unfold route_query, RouteWithTxState. do 4 step. destruct (routeQueryLocked _ _ _) as [r s'] eqn:E. do 2 step. step.
  apply settled_session; [|done]. intros _. by rewrite <- (routeQueryLocked_pinned (now s) (session v) q), E.
Qed.

Lemma keeps_set_session f : (forall s, pinned (f s) = pinned s) -> keeps (assign (fun v => set_session (f (session v)) v)).
Proof. intros Hf. apply keeps_assign. intros v. split_and!; [done..|]. apply Hf. Qed.

(** The configuration does not pin sessions when they are not to be. *)
Definition calm (cfg : Config.Config) : Prop := nopin = true -> pins cfg = false.

Lemma keeps_config {A} (k : Config.Config -> M A) : (forall cfg, calm cfg -> keeps (k cfg)) -> keeps (bind getConfig k).
Proof. intros Hk a v Hs. do 2 step. apply Hk; [|done]. intros E. auto. Qed.

Lemma keeps_pin cfg f :
  calm cfg -> SessionCompat_Enabled (SessionCompat cfg) = true -> SessionCompat_Mode (SessionCompat cfg) = $"pin" ->
  keeps (pin_session f).
Proof.
  intros Hc He Hm a v Hs. apply spec_assign. apply (settled_inessential (set_connDirty true)); [done|].
  apply settled_session; [|done]. intros E. specialize (Hc E). unfold pins in Hc. by rewrite He, Hm, bool_decide_true in Hc.
Qed.

Lemma keeps_write_path msg q pq cfg qtype was now d : keeps (write_path order msg q pq cfg qtype was now d).
Proof. intros a v (R & Hd & -> & Hb). by eapply spec_write_path. Qed.

Lemma keeps_read msg q pq cfg d : keeps (handleReadQueryTraced msg q pq cfg d).
Proof. intros a v (R & Hd & -> & Hb). apply spec_handleReadQueryTraced. intros r. by eapply settled_bound. Qed.

Lemma keeps_describe msg : keeps (handleMultiplexDescribe msg).
Proof. intros a v (R & Hd & -> & Hb). apply spec_handleMultiplexDescribe. intros r. by eapply settled_bound. Qed.

Hint Resolve keeps_route_query keeps_write_path keeps_read keeps_describe : pgmux.

Lemma keeps_routed msg q pq cfg : keeps (routed order msg q pq cfg).
Proof.
  unfold routed. apply keeps_bind; [auto with pgmux|]. intros [[route was] now].
  apply keeps_bind; [destruct route; auto with pgmux|]. intros qtype. apply keeps_bind; [auto with pgmux|]. intros ro.
  case_match; [auto with pgmux|]. destruct route; [auto with pgmux|]. apply keeps_bind; [auto with pgmux|]. intros []; auto with pgmux.
Qed.

Hint Resolve keeps_routed : pgmux.

Lemma compat_enabled cfg q pq f : compat_check cfg q pq = Some f -> SessionCompat_Enabled (SessionCompat cfg) = true.
Proof. unfold compat_check. by case_match. Qed.

Lemma keeps_handleQuery msg : keeps (handleQuery order msg).
Proof.
  unfold handleQuery. apply keeps_config. intros cfg Hc. apply keeps_bind; [auto with pgmux|]. intros [q pq].
  case_match; [auto with pgmux|]. case_match eqn:Ef; [|auto with pgmux]. case_match eqn:Eb; [auto with pgmux|]. clear Eb.
  apply keeps_bind; [|auto with pgmux]. case_bool_decide; [|auto with pgmux]. eapply keeps_pin; eauto using compat_enabled.
Qed.

Hint Resolve keeps_handleQuery : pgmux.

Lemma keeps_lift {A} (r : res unit A) : keeps (lift r).
Proof. apply keeps_neutral. auto with pgmux. Qed.

(** Assignments of the batch's variables. *)
Local Ltac plain := apply keeps_assign; by intros ?.

Lemma keeps_blocked cfg q : calm cfg -> keeps (
  if SessionCompat_Enabled (SessionCompat cfg) then
    match DetectSessionDependency q with
    | Some f =>
        let mode := SessionCompat_Mode (SessionCompat cfg) in
        if bool_decide (mode = $"block") then
          assign (fun v => set_extSessionBlocked true (set_extSessionBlockedFeature (feature_name f) v))
        else if bool_decide (mode = $"pin") then pin_session (feature_name f)
        else ret tt
    | None => ret tt
    end
  else ret tt).
Proof.
  intros Hc. destruct (SessionCompat_Enabled _) eqn:He; [|auto with pgmux]. case_match; [|auto with pgmux]. cbv zeta.
  case_bool_decide; [plain|]. case_bool_decide; [by eapply keeps_pin|auto with pgmux].
Qed.

Lemma keeps_register_parse name q also : keeps also -> keeps (register_parse name q also).
Proof.
  intros Ha. unfold register_parse. apply keeps_bind; [plain|]. intros _. apply keeps_bind; [auto with pgmux|]. intros t.
  intros a v Hs. do 2 step. cbn [Session.RegisterStatement]. cbv beta iota zeta. apply settled_seq.
  { apply spec_assign, settled_session; [|done]. done. }
  intros _. apply keeps_bind; [done|]. intros _. destruct (IsTxControl q) as [st en].
  apply keeps_bind; [destruct st; [plain|]; destruct en; [plain|auto with pgmux]|]. intros _.
  apply keeps_bind; [auto with pgmux|]. intros qt. apply keeps_bind; [case_match; [plain|auto with pgmux]|]. intros _.
  apply keeps_bind; [auto with pgmux|]. intros blocked.
  apply keeps_bind; [case_match; [|auto with pgmux]; apply keeps_config; intros cfg; apply keeps_blocked|]. intros _.
  apply keeps_bind; [auto with pgmux|]. intros v'. plain.
Qed.

Lemma keeps_handleParse mux msg : keeps (handleParse mux msg).
Proof.
  unfold handleParse. cbv zeta. destruct (match pfErr _ with None => _ | Some _ => _ end) as [name q].
  apply keeps_bind; [auto with pgmux|]. intros rw. destruct mux.
  - apply keeps_bind; [|auto with pgmux]. apply keeps_register_parse. apply keeps_bind; [auto with pgmux|]. intros sy.
    apply keeps_bind; [apply keeps_lift|]. intros sy'. plain.
  - apply keeps_bind; [apply keeps_register_parse; auto with pgmux|]. intros _. destruct rw; [|auto with pgmux].
    apply keeps_bind; [plain|auto with pgmux].
Qed.

Lemma keeps_note_bind name : keeps (note_bind name).
Proof.
  unfold note_bind. apply keeps_bind; [auto with pgmux|]. intros s.
  apply keeps_bind; [case_match; [plain|auto with pgmux]|]. intros _. case_match; [plain|auto with pgmux].
Qed.

Hint Resolve keeps_handleParse keeps_note_bind : pgmux.

Lemma keeps_handleBind mux msg : keeps (handleBind mux msg).
Proof.
  unfold handleBind. destruct mux; [|auto with pgmux]. destruct (ParseBindMessageFull _).
  - apply keeps_bind; [auto with pgmux|]. intros _. apply keeps_bind; [plain|auto with pgmux].
  - auto with pgmux.
  - intros ? ? _. apply spec_panic.
Qed.

Lemma keeps_handleClose mux msg : keeps (handleClose mux msg).
Proof.
  unfold handleClose. destruct (ParseCloseMessage _) as [t name]. apply keeps_bind; [|destruct mux; auto with pgmux].
  case_match; [|auto with pgmux]. apply keeps_bind; [plain|]. intros _. destruct mux; [plain|auto with pgmux].
Qed.

Lemma keeps_synthesized_path detail d : keeps (synthesized_path detail d).
Proof.
  intros a v (R & Hd & -> & Hb). unfold synthesized_path. do 2 step. destruct (Synthesize _ _ _ _).
  - apply settled_seq; [apply spec_attempt; eapply spec_mono; [by eapply spec_executeSynthesizedQuery|by intros []]|].
    intros []; auto with pgmux.
  - assert (keeps (sendError ($"query synthesis failed: " ++ synth_error e) ;! sendReadyForQuery (inTransaction (session v)) ;!
      reset_batch false false false ;! ret Continue)) as Hk by auto 10 with pgmux.
    by eapply Hk, settled_bound.
  - step.
Qed.

Hint Resolve keeps_handleBind keeps_handleClose keeps_synthesized_path : pgmux.

(** The end of a batch on a connection. *)
Lemma keeps_end (r : signal) : keeps (match r with Return => ret Return | Continue => reset_batch false true true ;! ret Continue end).
Proof. destruct r; auto with pgmux. Qed.

(** Past the checks: the reader path needs the session not to have a bound writer. *)
Lemma spec_ext_path a v (reader : bool) msg d : settled a v ->
  spec a v (if reader then ext_reader_path msg d else ext_writer_path msg d) (fun _ => settled).
Proof.
  intros (R & Hd & -> & Hb). destruct reader; [eapply spec_ext_reader_path, settled_bound|eapply spec_ext_writer_path]; eassumption.
Qed.

Lemma keeps_handleSync mux msg : keeps (handleSync mux msg).
Proof.
  unfold handleSync. apply keeps_bind; [auto with pgmux|]. intros text. apply keeps_bind; [auto with pgmux|]. intros cfg.
  apply keeps_bind; [auto with pgmux|]. intros v. apply keeps_bind; [case_match; auto with pgmux|]. intros _.
  case_match; [auto with pgmux|]. apply keeps_bind; [auto with pgmux|]. intros ro. case_match; [auto with pgmux|].
  destruct mux; [case_match; auto with pgmux|]. apply keeps_bind; [|apply keeps_end]. intros a v' Hs. by apply spec_ext_path.
Qed.

Hint Resolve keeps_handleSync : pgmux.

Lemma keeps_dispatch mux msg : keeps (dispatch order mux msg).
Proof.
  assert (keeps (assign (set_extHasExecute true))) by plain.
  unfold dispatch. case_match; [auto with pgmux|]. apply keeps_bind; [auto with pgmux|]. intros n. repeat case_match; auto with pgmux.
Qed.

Hint Resolve keeps_dispatch : pgmux.

Lemma keeps_handle_message mux user addr msg : keeps (handle_message order mux user addr msg).
Proof.
  unfold handle_message. case_match; [auto with pgmux|]. do 2 (apply keeps_bind; [auto with pgmux|]; intros ?).
  case_match; [auto with pgmux|]. repeat (apply keeps_bind; [auto with pgmux|]; intros ?; case_match; [auto with pgmux|]). auto with pgmux.
Qed.

Hint Resolve keeps_handle_message : pgmux.

Lemma keeps_round mux user addr : keeps (round order mux user addr).
Proof.
  unfold round. apply keeps_bind; [auto with pgmux|]. intros stop. case_match; [auto with pgmux|].
  do 2 (apply keeps_bind; [auto with pgmux|]; intros ?). case_match; auto with pgmux.
Qed.

Lemma keeps_query_loop mux user addr n : keeps (query_loop order mux user addr n).
Proof.
  induction n as [|n IH]; cbn [query_loop]; [auto with pgmux|]. apply keeps_bind; [apply keeps_round|]. intros []; auto with pgmux.
Qed.

(** *** The end of a session *)

(** Nothing is left but lost connections. *)
Definition returned (a : Acc) : Prop := exists L, a = resting L /\ (nopin = true -> L = ∅).

Lemma settled_writer a v c : settled a v -> boundWriter v = Some c ->
  exists R Hd, a = resting Hd /\ returnable Hd c (boundWriterPool v) /\ delete (Pool.conn_id c) Hd = R /\ reader_in R v.
Proof.
  intros (R & Hd & -> & Hr & Hw & Hu) Hb. unfold writer_in in Hw. rewrite Hb in Hw. destruct Hw as [Ho Hp].
  exists R, Hd. split_and!; [done| |by apply owned_give|done]. eapply owned_returnable; eauto.
Qed.

Lemma spec_end_reader R v : reader_in R v -> spec (resting R) v (
  r <-! var boundReader;
  match r with
  | Some c => p <-! var boundReaderPool; resetAndRelease c p
  | None => ret tt
  end) (fun _ a _ => returned a).
Proof.
  intros (L & HL & HR). do 2 step. destruct (boundReader v) as [c|]; [|step; by exists L; subst].
  destruct HR as (p & Hc & -> & Hp). do 2 step. apply spec_resetAndRelease.
  - exists p. by rewrite lookup_insert_eq.
  - exists L. by rewrite delete_insert_id.
Qed.

Lemma spec_clean_up a v : settled a v -> spec a v clean_up (fun _ a _ => returned a).
Proof.
  intros Hs. unfold clean_up. do 2 step. apply spec_seq. destruct (boundWriter v) as [c|] eqn:Eb.
  - destruct (settled_writer _ _ _ Hs Eb) as (R & Hd & -> & Hr & <- & HR). do 2 step. apply spec_give_back; [done|]. by apply spec_end_reader.
  - destruct Hs as (R & Hd & -> & Hr & Hw & _). unfold writer_in in Hw. rewrite Eb in Hw. destruct Hw as [_ ->]. step. by apply spec_end_reader.
Qed.

Lemma spec_relayQueries v s user addr : (nopin = true -> pinned s = false) ->
  spec nothing_held v (relayQueries order s user addr) (fun _ a _ => returned a).
Proof.
  intros Hp. unfold relayQueries. do 2 step. assert (settled nothing_held (initial_vars s)) as Hs.
  { exists ∅, ∅. split; [done|]. split_and!; [by exists ∅|done|done]. }
  do 2 step. eapply (spec_deferring _ _ _ _ _ settled); [|apply spec_clean_up].
  intros w Hw. apply wp_rounds_client. intros n. exact (keeps_query_loop _ _ _ n _ _ Hs w Hw).
Qed.
End Sessions.

(** ** The theorem *)

(** What is asked of the server: with [strict] its writer pool is not replaced, with [nopin]
    its configuration does not pin sessions. Everything else may change between two accesses. *)
Definition server_kept (strict nopin : bool) (wp0 : option pool_loc) (s : Server) : Prop :=
  (strict = true -> writerPool (group s) = wp0) /\ (nopin = true -> pins (s_cfg s) = false).

Section Theorems.
Context `{UnicodeCase} `{PgQuery} `{RewriteDeps} `{Texts} (order : gset Z -> list Z).

Lemma session_accounts (strict nopin : bool) (wp0 : option pool_loc) (s : Session) (user addr : bytes) (w w' : World Sess) r :
  trace w = [] -> honest strict (grants w) -> remains (server_kept strict nopin wp0) (sh w) -> (nopin = true -> pinned s = false) ->
  relayQueries order s user addr w = (r, w') -> r <> Panic ->
  exists a, judge_all (judge strict) nothing_held (trace w') = Some a /\ target a = None /\ timer a = false /\ (nopin = true -> held a = ∅).
Proof.
  intros Ht Hg Hk Hp E Hr. set (P := server_kept strict nopin wp0).
  assert (forall s s', static_same s s' -> P s -> P s') as Hstatic.
  { intros s1 s2 ((_ & _ & E2) & _ & _ & _ & E1 & _). unfold P, server_kept. by rewrite E1, E2. }
  assert (@at_ _ (accounts strict P Hstatic) nothing_held (vars (sh w)) w) as Hat by (split; [exists []; by rewrite Ht|done..]).
  pose proof (spec_relayQueries strict P Hstatic order wp0 (fun E s HP => proj1 HP E) nopin (fun E s HP => proj2 HP E)
    (vars (sh w)) s user addr Hp w Hat) as Hs.
  unfold wp in Hs. rewrite E in Hs. destruct Hs as [->|(a & v & [(evs & Hevs & Hj) _ _ _] & L & -> & HL)]; [done|].
  exists (resting L). by rewrite Hevs.
Qed.

(** C1: a session accounts for every connection. Whatever the client sends, the backends
    answer, writes fail and the rest of the proxy does, a run of [relayQueries] that does
    not panic uses a connection only between its acquisition and its return, returns it
    once and not while cancel requests are aimed at it, runs timers only while they are
    aimed at a connection it holds, and leaves no timer and no target behind. If the
    configuration does not pin sessions, every connection is returned at the end; if no
    reload replaces the writer's pool, each goes back to the pool it came from. *)
Theorem relayQueries_accounts (strict nopin : bool) (wp0 : option pool_loc) (s : Session) (user addr : bytes) (w w' : World Sess) r :
  trace w = [] -> honest strict (grants w) -> remains (server_kept strict nopin wp0) (sh w) -> (nopin = true -> pinned s = false) ->
  relayQueries order s user addr w = (r, w') -> r <> Panic ->
  exists a, judge_all (judge strict) nothing_held (trace w') = Some a /\ target a = None /\ timer a = false /\ (nopin = true -> held a = ∅).
Proof. apply session_accounts. Qed.
End Theorems.

(** ** Examples *)

(** The connections a trace acquires. *)
Definition acquired_ids (tr : list event) : list nat := omap (fun e => match e with EvAcquire _ c => Some (Pool.conn_id c) | _ => None end) tr.

Lemma judge_ids strict a e a' i :
  judge strict a e = Some a' -> is_Some (held a' !! i) -> is_Some (held a !! i) \/ i ∈ acquired_ids [e].
Proof.
  intros E Hi. destruct e; cbn in E; repeat case_match; simplify_eq; cbn in Hi; try (by left).
  - destruct (decide (Pool.conn_id c = i)) as [<-|Hne]; [right; set_solver|]. rewrite lookup_insert_ne in Hi by done. by left.
  - left. by apply lookup_delete_is_Some in Hi as [_ Hi].
  - left. by apply lookup_delete_is_Some in Hi as [_ Hi].
Qed.

Lemma judge_all_ids strict a tr a' i :
  judge_all (judge strict) a tr = Some a' -> is_Some (held a' !! i) -> is_Some (held a !! i) \/ i ∈ acquired_ids tr.
Proof.
  revert a. induction tr as [|e tr IH]; intros a E Hi; [by simplify_eq/=; left|]. cbn [judge_all] in E.
  destruct (judge strict a e) as [a1|] eqn:Ej; [|done]. change (e :: tr) with ([e] ++ tr). unfold acquired_ids. rewrite omap_app, list.elem_of_app.
  destruct (IH _ E Hi) as [Ha|Ha]; [|by right; right]. destruct (judge_ids _ _ _ _ _ Ej Ha); [by left|by right; left].
Qed.

Module Examples.
#[local] Existing Instance ascii_case.
#[local] Existing Instance Session.Examples.no_trees.
#[local] Instance no_rewriting : RewriteDeps := {| regexp_compile := fun _ => None; pg_deparse := fun _ => None |}.
#[local] Instance no_texts : Texts := {| Quote := fun s => s; bind_error := fun _ => []; synth_error := fun _ => [] |}.

(** Pools whose every connection is new. *)
Definition new_conn (p : pool_loc) (tr : list event) : option Pool.Conn :=
  Some {| Pool.conn_id := Datatypes.S (max_list (acquired_ids tr)); Pool.CreatedAt := 0; Pool.LastUsedAt := 0; Pool.BackendPID := 0; Pool.BackendSecret := 0 |}.

Lemma new_honest strict : honest strict new_conn.
Proof.
  intros p tr c a [= <-] E. cbn. destruct (held a !! _) eqn:Eh; [|done]. exfalso.
  destruct (judge_all_ids _ _ _ _ _ E ltac:(eauto)) as [Hn|Hi]; [by destruct Hn|].
  apply max_list_elem_of_le in Hi. lia.
Qed.

Definition pin_config : Config.Config :=
  let c := only_databases ∅ in
  {| Proxy := Proxy c; Config.Pool := Config.Pool c; Routing := Routing c; Config.Cache := Config.Cache c; Config.Backend := Config.Backend c; Metrics := Metrics c;
     Admin := Admin c; TLS := TLS c; Auth := Auth c; Config.CircuitBreaker := Config.CircuitBreaker c; Config.RateLimit := Config.RateLimit c; Config.Firewall := Config.Firewall c;
     Audit := Audit c; DataAPI := DataAPI c; ConfigOptions_Watch := false; Telemetry := Telemetry c; Mirror := Mirror c; Digest := Digest c;
     Databases := ∅; ConnectionLimits := ConnectionLimits c; SessionCompat := Build_SessionCompatConfig true $"pin";
     Observability := Observability c; QueryRewriting := QueryRewriting c |}.

Definition example_server (cfg : Config.Config) : Server :=
  {| now := 0%Z; ctxDone := false; s_cfg := cfg; inMaintenance := false; inReadOnly := false; rateLimiter := None;
     perUserRL := None; perIPRL := None; rewriter := None; queryCache := None; hasInvalidator := false;
     group := match DbGroup.Examples.group0 with Ok (g, _) => g | _ => {| g_name := []; writerAddr := []; writerPool := None; readerPools := ∅;
                balancer := NewRoundRobin []; writerCB := None; readerCBs := ∅; backendCfg := Build_BackendConfig [] [] [] |} end |}.

Definition session0 : Session := NewSession 0 false false.

Definition example_session (cfg : Config.Config) (client backend : bytes) : World Sess :=
  {| cin := client; bin := {[ 1 := backend ]}; faults := []; grants := new_conn; trace := [];
     sh := {| server := example_server cfg; env := []; vars := initial_vars session0 |} |}.

(** A transaction from BEGIN to COMMIT. *)
Definition transaction : World Sess :=
  example_session (only_databases ∅)
    (WriteMessage Msg.Query ($"BEGIN" ++ [x00]) ++ WriteMessage Msg.Query ($"COMMIT" ++ [x00]) ++ WriteMessage Msg.Terminate [])
    (WriteMessage Msg.CommandComplete $"BEGIN" ++ WriteMessage Msg.ReadyForQuery $"T" ++
     WriteMessage Msg.CommandComplete $"COMMIT" ++ WriteMessage Msg.ReadyForQuery $"I").

Lemma relayQueries_accounts_witness :
  let '(r, w') := relayQueries elements session0 $"u" $"h:1" transaction in
  r = Ok tt /\ acquired_ids (trace w') = [1] /\
  exists a, judge_all (judge true) nothing_held (trace w') = Some a /\ target a = None /\ timer a = false /\ (true = true -> held a = ∅).
Proof.
  assert ((relayQueries elements session0 $"u" $"h:1" transaction).1 = Ok tt /\
          acquired_ids (trace (relayQueries elements session0 $"u" $"h:1" transaction).2) = [1]) as [Hr Hi] by (by vm_compute).
  destruct (relayQueries elements session0 $"u" $"h:1" transaction) as [r w'] eqn:E. cbn [fst snd] in Hr, Hi.
  split_and!; [done..|].
  apply (relayQueries_accounts elements true true (Some 0) session0 $"u" $"h:1" transaction w' r); [done|apply new_honest| |done|done|by rewrite Hr].
  split; [|constructor]. by split.
Defined.
(** COMMIT without a transaction, in the extended protocol: the connection is given back to
    the pool of a writer that is not bound, a nil pointer. The panic ends the session and the
    connection is lost. *)
Example commit_alone_panics :
  let '(r, w') := relayQueries elements session0 $"u" $"h:1" (example_session (only_databases ∅)
    (WriteMessage Msg.Parse ([x00] ++ $"COMMIT" ++ [x00; x00; x00]) ++ WriteMessage Msg.Sync [])
    (WriteMessage "1" [] ++ WriteMessage Msg.ReadyForQuery $"I")) in
  r = Panic /\ exists a, judge_all (judge true) nothing_held (trace w') = Some a /\ held a !! 1 = Some 0.
Proof. vm_compute. split; [done|]. by eexists. Qed.

(** A session that a batch pins and whose transaction the same batch ends keeps the
    connection without binding it: it is never returned. *)
Example pinned_commit_leaks :
  let '(r, w') := relayQueries elements session0 $"u" $"h:1" (example_session pin_config
    (WriteMessage Msg.Parse ([x00] ++ $"LISTEN ch" ++ [x00; x00; x00]) ++ WriteMessage Msg.Parse ([x00] ++ $"COMMIT" ++ [x00; x00; x00]) ++
     WriteMessage Msg.Sync [] ++ WriteMessage Msg.Terminate [])
    (WriteMessage "1" [] ++ WriteMessage "1" [] ++ WriteMessage Msg.ReadyForQuery $"I")) in
  r = Ok tt /\ exists a, judge_all (judge true) nothing_held (trace w') = Some a /\ held a !! 1 = Some 0.
Proof. vm_compute. split; [done|]. by eexists. Qed.
End Examples.

