(* ===== verification/DataApi.v ===== *)
(** * The Data API (internal/dataapi/handler.go)

    Queries over HTTP: the checks of a request, the execution of its SQL on a pooled connection
    with the simple query protocol, the decoding of the backend's answer, and the JSON of requests,
    responses and cached results. The handler runs in the world of [Proxy]: the state shared
    with sessions is reached one access at a time, and others act in between.

    The request is as net/http presents it. The context of a request may be cancelled at any time; a
    watchdog then makes the reads of the connection fail. What [executeOnPool] sees of that are
    the two values of its flag [cancelled]; [Watchdog] is the protocol between the two goroutines.
    Tracing, metrics and logging are left out. *)

From S2P Require Import Json Auth.
From S2P Require Import Prelude GoStrings GoFloat Float64 Config Wire SqlLex Classify Tables Ast Firewall Rewriter SessionCompat.
From S2P Require Import Lsn Session Balancer RateLimit Breaker Cache Pool Synth Timeout Relay DbGroup Proxy Handlers Query Logic Accounting.
From Stdlib Require Import Floats.SpecFloat.

Local Open Scope nat_scope.

(** ** Numbers *)

(** [n / d], rounded; both are positive. *)
Definition f_ratio (neg : bool) (n d : Z) : float64 :=
  let '(q, e, l) := SFdiv_core_binary prec emax n 0 d 0 in binary_round_aux prec emax neg q e l.

(** [mant * base ^ e], rounded. *)
Definition f_scaled (neg : bool) (mant base e : Z) : float64 :=
  if (mant =? 0)%Z then S754_zero neg
  else if (0 <=? e)%Z then binary_normalize prec emax (if neg then - (mant * base ^ e) else mant * base ^ e)%Z 0 neg
  else f_ratio neg mant (base ^ (- e)).

(** [strconv.ParseFloat(s, 64)]. *)
Definition parse_float (s : bytes) : option float64 :=
  match special s with
  | Some FPosInf => Some (S754_infinity false)
  | Some FNegInf => Some (S754_infinity true)
  | Some _ => Some S754_nan
  | None =>
      if parse_finite s then
        let neg := HasPrefix s $"-" in
        let s1 := drop_sign s in
        let hex := is_hex_prefix s1 in
        let '(mant, frac, _, rest) := read_mantissa hex false false 0 0 (if hex then drop 2 s1 else s1) in
        let e := default 0%Z (read_exp_part hex rest) in
        Some (if hex then f_scaled neg mant 2 (e - 4 * frac) else f_scaled neg mant 10 (e - frac))
      else None
  end.

(** The token of [%f]: [accept] takes the next character if it is one of [set]. *)
Definition accept (set : byte -> bool) (s : bytes) : bytes * bytes :=
  match s with c :: s' => if set c then ([c], s') else ([], s) | [] => ([], []) end.
Fixpoint accept_run (set : byte -> bool) (s : bytes) : bytes * bytes :=
  match s with c :: s' => if set c then let '(t, r) := accept_run set s' in (c :: t, r) else ([], s) | [] => ([], []) end.

Definition letter (l c : byte) : bool := lower1 c =b l.
Definition sign (c : byte) : bool := (c =b "+") || (c =b "-").

(** Three letters, as far as they come. *)
Definition accept_word (a b c : byte) (s : bytes) : bytes * bytes * bool :=
  let '(t1, s) := accept (letter a) s in
  match t1 with
  | [] => ([], s, false)
  | _ => let '(t2, s) := accept (letter b) s in
         match t2 with
         | [] => (t1, s, false)
         | _ => let '(t3, s) := accept (letter c) s in (t1 ++ t2 ++ t3, s, negb (bool_decide (t3 = [])))
         end
  end.

Definition floatToken (s : bytes) : bytes :=
  let '(nan, s, done) := accept_word "n" "a" "n" s in
  if done then nan
  else
    let '(sg, s) := accept sign s in
    let '(inf, s, done) := accept_word "i" "n" "f" s in
    if done then nan ++ sg ++ inf
    else
      let '(zero, s) := accept (fun c => c =b "0") s in
      let '(x, s) := match zero with [] => ([], s) | _ => accept (letter "x") s end in
      let hex := negb (bool_decide (x = [])) in
      let digit c := is_digit c || (hex && is_hex_letter c) || (c =b "_") in
      let exponent c := letter "p" c || (negb hex && letter "e" c) in
      let '(ip, s) := accept_run digit s in
      let '(dot, s) := accept (fun c => c =b ".") s in
      let '(fp, s) := match dot with [] => ([], s) | _ => accept_run digit s end in
      let '(e, s) := accept exponent s in
      let '(es, s) := match e with [] => ([], s) | _ => accept sign s end in
      let '(ed, s) := match e with [] => ([], s) | _ => accept_run (fun c => is_digit c || (c =b "_")) s end in
      nan ++ sg ++ inf ++ zero ++ x ++ ip ++ dot ++ fp ++ e ++ es ++ ed.

(** A decimal mantissa with a binary exponent is allowed. *)
Definition convertFloat (str : bytes) : option float64 :=
  match IndexByte str "p" with
  | Some p =>
      if existsb (letter "x") str then parse_float str
      else match parse_float (take p str), Atoi (drop (S p) str) with
           | Some f, Some m => Some (SFldexp prec emax f m)
           | _, _ => None
           end
  | None => parse_float str
  end.

(** [fmt.Sscanf(s, "%f", &f)]. *)
Definition Sscanf_f (s : bytes) : option float64 :=
  let t := TrimLeftSpace s in
  if Contains (take (length s - length t) s) [x0a] then None
  else match t with [] => None | _ => convertFloat (floatToken t) end.

(** The bits of a number that is finite. *)
Definition float_bits (f : float64) : Z :=
  match f with
  | S754_finite neg m e =>
      let top := (if neg then 2 ^ 63 else 0)%Z in
      (if Zpos m <? 2 ^ 52 then top + Zpos m else top + (e + 1075) * 2 ^ 52 + (Zpos m - 2 ^ 52))%Z
  | S754_zero true => (2 ^ 63)%Z
  | _ => 0%Z
  end.

(** [FormatFloat(x, 'e', -1, 64)], with the exponent as JSON has it. *)
Definition format_exp (bits : Z) : bytes :=
  let '(c, s) := shortest_decimal 11 52 bits in
  let digits := reverse (GoFloat.trim_zeros (reverse (big_digits 1200 c []))) in
  let e := (Z.of_nat (length (big_digits 1200 c [])) - 1 - s)%Z in
  let head := match digits with d :: ds => d :: match ds with [] => [] | _ => "."%byte :: ds end | [] => [] end in
  (if (bits / 2 ^ 63 =? 0)%Z then [] else $"-") ++ head ++ $"e" ++ (if (e <? 0)%Z then $"-" else $"+") ++ FormatInt (Z.abs e).

(** A float in JSON; there is none for infinities and NaN. *)
Definition float_text (f : float64) : option bytes :=
  match f with
  | S754_zero _ | S754_finite _ _ _ =>
      let abs := SFabs f in
      let small := match f with S754_zero _ => false | _ => f_ltb abs (f_ratio false 1 1000000) || f_leb (f_of_Z (10 ^ 21)) abs end in
      Some (if small then format_exp (float_bits f) else FormatFloat (float_bits f) 64)
  | _ => None
  end.

(** ** Results *)

(** Go's [any], as the handler and encoding/json fill it. *)
Unset Elimination Schemes.
Inductive any :=
| VNull
| VBool (b : bool)
| VInt (n : Z)
| VFloat (f : float64)
| VString (s : bytes)
| VArr (l : list any)
| VMap (l : list (bytes * any)).
Set Elimination Schemes.

(** A row may be a nil slice. *)
Record QueryResponse := {
  Columns : list bytes;
  Types : list bytes;
  Rows : list (option (list any));
  RowCount : Z;
  Command : bytes
}.
Definition empty_response : QueryResponse := {| Columns := []; Types := []; Rows := []; RowCount := 0; Command := [] |}.

Record columnInfo := { ci_Name : bytes; ci_OID : Z; ci_TypeName : bytes }.

Definition oidToTypeName (oid : Z) : bytes :=
  if (oid =? 16)%Z then $"bool"
  else if (oid =? 20)%Z then $"int8"
  else if (oid =? 21)%Z then $"int2"
  else if (oid =? 23)%Z then $"int4"
  else if (oid =? 25)%Z then $"text"
  else if (oid =? 114)%Z then $"json"
  else if (oid =? 700)%Z then $"float4"
  else if (oid =? 701)%Z then $"float8"
  else if (oid =? 1042)%Z then $"bpchar"
  else if (oid =? 1043)%Z then $"varchar"
  else if (oid =? 1082)%Z then $"date"
  else if (oid =? 1114)%Z then $"timestamp"
  else if (oid =? 1184)%Z then $"timestamptz"
  else if (oid =? 2950)%Z then $"uuid"
  else if (oid =? 3802)%Z then $"jsonb"
  else $"oid_" ++ FormatInt oid.

Definition convertValue (val : bytes) (oid : Z) : any :=
  if (oid =? 16)%Z then VBool (bool_decide (val = $"t") || bool_decide (val = $"true"))
  else if (oid =? 20)%Z || (oid =? 21)%Z || (oid =? 23)%Z then VInt (default 0%Z (Sscanf_d val))
  else if (oid =? 700)%Z || (oid =? 701)%Z then VFloat (default f_zero (Sscanf_f val))
  else VString val.

(** The bytes before the first zero. *)
Definition parseCommandComplete (payload : bytes) : bytes :=
  match IndexByte payload x00 with Some e => take e payload | None => payload end.

(** [rest] is the payload from [pos] on. *)
Fixpoint columns_loop (n : nat) (rest : bytes) : list columnInfo :=
  match n, rest with
  | S n, _ :: _ =>
      let name := parseCommandComplete rest in
      let r := drop (S (length name)) rest in
      if length r <? 6 then []
      else
        let r := drop 6 r in
        if length r <? 4 then []
        else
          let oid := be_value (take 4 r) in
          let r := drop 4 r in
          if length r <? 8 then []
          else {| ci_Name := name; ci_OID := oid; ci_TypeName := oidToTypeName oid |} :: columns_loop n (drop 8 r)
  | _, _ => []
  end.

Definition parseRowDescription (payload : bytes) : list columnInfo :=
  if length payload <? 2 then [] else columns_loop (Z.to_nat (be_value (take 2 payload))) (drop 2 payload).

(** The values up to where the loop stops; a length below -1 slices backwards. *)
Fixpoint values_loop (n : nat) (rest : bytes) (columns : list columnInfo) : res unit (list any) :=
  match n, rest with
  | S n, _ :: _ =>
      if length rest <? 4 then Ok []
      else
        let colLen := wrapS 32 (be_value (take 4 rest)) in
        let r := drop 4 rest in
        if (colLen =? -1)%Z then vs <-? values_loop n r (tail columns) ; Ok (VNull :: vs)
        else if (Z.of_nat (length r) <? colLen)%Z then Ok []
        else if (colLen <? 0)%Z then Panic
        else
          let val := take (Z.to_nat colLen) r in
          let v := match columns with c :: _ => convertValue val (ci_OID c) | [] => VString val end in
          vs <-? values_loop n (drop (Z.to_nat colLen) r) (tail columns) ; Ok (v :: vs)
  | _, _ => Ok []
  end.

Definition parseDataRow (payload : bytes) (columns : list columnInfo) : res unit (option (list any)) :=
  if length payload <? 2 then Ok None
  else
    let numCols := Z.to_nat (be_value (take 2 payload)) in
    vs <-? values_loop numCols (drop 2 payload) columns ;
    Ok (Some (vs ++ replicate (numCols - length vs) VNull)).

(** ** JSON of responses *)

Fixpoint to_json (v : any) : option json :=
  match v with
  | VNull => Some JNull
  | VBool b => Some (JBool b)
  | VInt n => Some (JNum (FormatInt n))
  | VFloat f => JNum <$> float_text f
  | VString s => Some (JStr s)
  | VArr l => JArr <$> foldr (fun v acc => j ← to_json v; js ← acc; Some (j :: js)) (Some []) l
  | VMap l => JObj <$> foldr (fun kv acc => j ← to_json kv.2; js ← acc; Some ((kv.1, j) :: js)) (Some []) l
  end.

Definition row_json (row : option (list any)) : option json :=
  match row with None => Some JNull | Some vs => JArr <$> mapM to_json vs end.

Definition omitempty {A} (l : list A) (name : bytes) (v : json) : list (bytes * json) := match l with [] => [] | _ => [(name, v)] end.

Definition response_json (r : QueryResponse) : option json :=
  rows ← mapM row_json (Rows r);
  Some (JObj (omitempty (Columns r) $"columns" (JArr (JStr <$> Columns r)) ++ omitempty (Types r) $"types" (JArr (JStr <$> Types r)) ++
              omitempty (Rows r) $"rows" (JArr rows) ++ [($"row_count", JNum (FormatInt (RowCount r)))] ++ omitempty (Command r) $"command" (JStr (Command r)))).

(** [json.Marshal(resp)]. *)
Definition marshal (r : QueryResponse) : option bytes := print <$> response_json r.

(** *** Decoding *)

(** Names of fields are compared without case; the long s and the Kelvin sign fold to letters. *)
Fixpoint fold_name (k : bytes) : bytes :=
  match k with
  | [] => []
  | c :: t =>
      match t with
      | c1 :: t1 =>
          if (c =b xc5) && (c1 =b xbf) then "S"%byte :: fold_name t1
          else match t1 with
               | c2 :: t2 => if (c =b xe2) && (c1 =b x84) && (c2 =b xaa) then "K"%byte :: fold_name t2 else upper1 c :: fold_name t
               | [] => upper1 c :: fold_name t
               end
      | [] => [upper1 c]
      end
  end.
Definition names (key field : bytes) : bool := bool_decide (fold_name key = fold_name field).

(** Byte order of strings. *)
Fixpoint bytes_leb (a b : bytes) : bool :=
  match a, b with
  | [], _ => true
  | _ :: _, [] => false
  | x :: a', y :: b' => (bz x <? bz y)%Z || ((x =b y) && bytes_leb a' b')
  end.

(** A map of an object: a later member replaces an earlier one, and keys are written in order. *)
Fixpoint insert_key (k : bytes) (v : any) (l : list (bytes * any)) : list (bytes * any) :=
  match l with
  | [] => [(k, v)]
  | (k', v') :: l' => if bool_decide (k = k') then (k, v) :: l'
                      else if bytes_leb k k' then (k, v) :: l else (k', v') :: insert_key k v l'
  end.

(** A value for [any]: a number that is out of range is an error. *)
Fixpoint of_json (j : json) : option any :=
  match j with
  | JNull => Some VNull
  | JBool b => Some (VBool b)
  | JNum lit => VFloat <$> parse_float lit
  | JStr s => Some (VString s)
  | JArr l => VArr <$> foldr (fun j acc => v ← of_json j; vs ← acc; Some (v :: vs)) (Some []) l
  | JObj l => VMap <$> fold_left (fun acc kv => vs ← acc; v ← of_json kv.2; Some (insert_key kv.1 v vs)) l (Some [])
  end.

(** A list decoded into a slice: null leaves the element that is there. *)
Fixpoint into_strings (old : list bytes) (l : list json) : option (list bytes) :=
  match l with
  | [] => Some []
  | j :: l' =>
      s ← match j with JStr s => Some s | JNull => Some (hd [] old) | _ => None end;
      ss ← into_strings (tail old) l';
      Some (s :: ss)
  end.
Definition strings_field (old : list bytes) (j : json) : option (list bytes) :=
  match j with JNull => Some [] | JArr l => into_strings old l | _ => None end.

Definition into_row (j : json) : option (option (list any)) :=
  match j with JNull => Some None | JArr l => Some <$> mapM of_json l | _ => None end.
Definition rows_field (j : json) : option (list (option (list any))) :=
  match j with JNull => Some [] | JArr l => mapM into_row l | _ => None end.

Definition response_member (r : QueryResponse) (kv : bytes * json) : option QueryResponse :=
  let '(k, j) := kv in
  if names k $"columns" then
    cs ← strings_field (Columns r) j; Some {| Columns := cs; Types := Types r; Rows := Rows r; RowCount := RowCount r; Command := Command r |}
  else if names k $"types" then
    ts ← strings_field (Types r) j; Some {| Columns := Columns r; Types := ts; Rows := Rows r; RowCount := RowCount r; Command := Command r |}
  else if names k $"rows" then
    rs ← rows_field j; Some {| Columns := Columns r; Types := Types r; Rows := rs; RowCount := RowCount r; Command := Command r |}
  else if names k $"row_count" then
    n ← match j with JNum lit => ParseInt lit | JNull => Some (RowCount r) | _ => None end;
    Some {| Columns := Columns r; Types := Types r; Rows := Rows r; RowCount := n; Command := Command r |}
  else if names k $"command" then
    c ← match j with JStr s => Some s | JNull => Some (Command r) | _ => None end;
    Some {| Columns := Columns r; Types := Types r; Rows := Rows r; RowCount := RowCount r; Command := c |}
  else Some r.

(** [json.Unmarshal(data, &resp)]. *)
Definition unmarshal (data : bytes) : option QueryResponse :=
  match decode_whole data with
  | Some (JObj l) => fold_left (fun acc kv => r ← acc; response_member r kv) l (Some empty_response)
  | Some JNull => Some empty_response
  | _ => None
  end.

(** [json.NewDecoder(r.Body).Decode(&req)]: the SQL of the request. *)
Definition decode_request (body : bytes) : option bytes :=
  match decode_first body with
  | Some (JObj l) =>
      fold_left (fun acc kv => sql ← acc;
                   if names kv.1 $"sql" then match kv.2 with JStr s => Some s | JNull => Some sql | _ => None end else Some sql) l (Some [])
  | Some JNull => Some []
  | _ => None
  end.

(** ** Talking to the backend *)

Fixpoint drain_loop (c : Pool.Conn) (rounds : nat) : M unit :=
  match rounds with
  | O => fail
  | S n => msg <-! read_backend c; if (mType msg =b Msg.ReadyForQuery) then ret tt else drain_loop c n
  end.
Definition drainUntilReady (c : Pool.Conn) : M unit := rounds_backend c (drain_loop c).

(** What the message of an error response says. *)
Fixpoint error_loop (n : nat) (rest msg : bytes) : bytes :=
  match n, rest with
  | S n, fieldType :: t =>
      if (fieldType =b x00) then msg
      else
        let value := parseCommandComplete t in
        error_loop n (drop (S (length value)) t) (if (fieldType =b "M") then value else msg)
  | _, _ => msg
  end.
Definition parseErrorResponse (payload : bytes) : bytes := error_loop (length payload) payload [].

Definition with_columns (r : QueryResponse) (columns : list columnInfo) : QueryResponse :=
  {| Columns := ci_Name <$> columns; Types := ci_TypeName <$> columns; Rows := Rows r; RowCount := RowCount r; Command := Command r |}.
Definition with_row (r : QueryResponse) (row : option (list any)) : QueryResponse :=
  {| Columns := Columns r; Types := Types r; Rows := Rows r ++ [row]; RowCount := wrapS 64 (RowCount r + 1); Command := Command r |}.
Definition with_command (r : QueryResponse) (c : bytes) : QueryResponse :=
  {| Columns := Columns r; Types := Types r; Rows := Rows r; RowCount := RowCount r; Command := c |}.

Definition is_copy_response (t : byte) : bool := (t =b Msg.CopyInResponse) || (t =b Msg.CopyOutResponse) || (t =b Msg.CopyBothResponse).

Fixpoint response_loop (c : Pool.Conn) (rounds : nat) (columns : list columnInfo) (resp : QueryResponse) : M QueryResponse :=
  match rounds with
  | O => fail
  | S n =>
      msg <-! read_backend c;
      if (mType msg =b Msg.RowDescription) then
        let columns := parseRowDescription (mPayload msg) in response_loop c n columns (with_columns resp columns)
      else if (mType msg =b Msg.DataRow) then
        row <-! lift (parseDataRow (mPayload msg) columns); response_loop c n columns (with_row resp row)
      else if (mType msg =b Msg.CommandComplete) then response_loop c n columns (with_command resp (parseCommandComplete (mPayload msg)))
      else if (mType msg =b Msg.ErrorResponse) then attempt (drainUntilReady c) ;! fail
      else if (mType msg =b Msg.ReadyForQuery) then ret resp
      else if is_copy_response (mType msg) then
        attempt (must_backend c (WriteMessage Msg.CopyFail ($"COPY not supported via Data API" ++ [x00]))) ;! attempt (drainUntilReady c) ;! fail
      else response_loop c n columns resp
  end.

Definition executeQuery (c : Pool.Conn) (sql : bytes) : M QueryResponse :=
  (match sql with [] => ret tt | _ => must_backend c (WriteMessage Msg.Query (sql ++ [x00])) end) ;!
  rounds_backend c (fun n => response_loop c n [] empty_response).

(** What the flag [cancelled] says after the query, and after the reset. *)
Record Cancelled := { after_query : bool; after_reset : bool }.

(** The reset, and the connection back to its pool; [None] is an error. *)
Definition reset_and_return (ctx : Cancelled) (p : pool_loc) (conn : Pool.Conn) (resp : QueryResponse) : M (option QueryResponse) :=
  cfg <-! getConfig;
  sent <-! attempt (must_backend conn (WriteMessage Msg.Query (Pool_ResetQuery (Config.Pool cfg) ++ [x00])));
  match sent with
  | None => discardToPool conn (Some p) ;! ret (Some resp)
  | Some _ =>
      drained <-! attempt (drainUntilReady conn);
      if after_reset ctx then discardToPool conn (Some p) ;! ret None
      else match drained with
           | None => discardToPool conn (Some p) ;! ret (Some resp)
           | Some _ => releaseToPool conn (Some p) ;! ret (Some resp)
           end
  end.

Definition executeOnPool (ctx : Cancelled) (sql : bytes) (p : option pool_loc) : M (option QueryResponse) :=
  match p with
  | None => ret None
  | Some p =>
      conn <-! acquire p;
      match conn with
      | None => ret None
      | Some conn =>
          resp <-! attempt (executeQuery conn sql);
          if after_query ctx then discardToPool conn (Some p) ;! ret None
          else match resp with
               | None => discardToPool conn (Some p) ;! ret None
               | Some resp => reset_and_return ctx p conn resp
               end
      end
  end.

Section Api.
Context `{UnicodeCase} `{PgQuery} `{RewriteDeps} `{Texts} (order : gset Z -> list Z).

(** FNV-1a of the database name, mixed into the key. *)
Fixpoint fnv_loop (h : Z) (s : bytes) : Z :=
  match s with [] => h | b :: s' => fnv_loop (wrapU 64 (Z.lxor h (bz b) * 1099511628211)) s' end.
Definition mixDBNameDataAPI (key : Z) (dbName : bytes) : Z :=
  match dbName with [] => key | _ => Z.lxor key (fnv_loop 14695981039346656037 dbName) end.

Definition api_cacheKeyParsed (sql : bytes) (pq : option ParsedQuery) (dbName : bytes) : M Z :=
  ast <-! astParser_on;
  key <-! (match ast, pq with
           | true, Some pq => ret (semanticCacheKeyFromTree (pq_Tree pq) sql)
           | _, _ => ast <-! astParser_on; ret (if ast then SemanticCacheKey sql else CacheKey sql [])
           end);
  ret (mixDBNameDataAPI key dbName).

Definition api_key (sql : bytes) (pq : option ParsedQuery) (dbName : bytes) : M Z :=
  key <-! api_cacheKeyParsed sql pq dbName; ret (WithNamespace key NSDataAPI).

(** The contexts are those of the attempt on a reader and of the one on the writer. *)
Definition executeRead (ctx1 ctx2 : Cancelled) (sql : bytes) (pq : option ParsedQuery) (writerPool : option pool_loc)
    (readerPools : gmap bytes pool_loc) (dbName : bytes) : M (option QueryResponse) :=
  on <-! caching;
  hit <-! (if on then
             key <-! api_key sql pq dbName;
             cached <-! cache_get key;
             ret (cached ≫= unmarshal)
           else ret None);
  match hit with
  | Some resp => ret (Some resp)
  | None =>
      readerAddr <-! next_reader;
      match readerAddr with
      | [] => executeOnPool ctx2 sql writerPool
      | _ =>
          match readerPools !! readerAddr with
          | None => executeOnPool ctx2 sql writerPool
          | Some rPool =>
              resp <-! executeOnPool ctx1 sql (Some rPool);
              match resp with
              | None => mark_unhealthy readerAddr ;! executeOnPool ctx2 sql writerPool
              | Some resp =>
                  (if on then
                     key <-! api_key sql pq dbName;
                     match marshal resp with
                     | Some data => tables <-! extractReadQueryTablesParsed sql pq; cache_set key data tables
                     | None => ret tt
                     end
                   else ret tt) ;!
                  ret (Some resp)
              end
          end
      end
  end.

Definition executeWrite (ctx : Cancelled) (sql : bytes) (pq : option ParsedQuery) (writerPool : option pool_loc) : M (option QueryResponse) :=
  resp <-! executeOnPool ctx sql writerPool;
  match resp with
  | None => ret None
  | Some resp =>
      on <-! caching;
      (if on then
         tables <-! extractQueryTablesParsed sql pq;
         invalidate_all order tables ;!
         inv <-! ask hasInvalidator;
         if inv && (0 <? length tables) then emit (EvPublish tables) else ret tt
       else ret tt) ;!
      ret (Some resp)
  end.

(** ** The handler *)

Record Request := { Method : bytes; Authorization : bytes; Body : bytes; Database : bytes }.
Record Response := { status : Z; body : bytes }.

Definition writeError (code : Z) (msg : bytes) : Response :=
  {| status := code; body := print (JObj [($"error", JStr msg)]) ++ [x0a] |}.

Definition extractBearerToken (r : Request) : bytes :=
  if HasPrefix (Authorization r) $"Bearer " then drop 7 (Authorization r) else [].

(** An error of the encoder leaves the body empty. *)
Definition writeResponse (resp : QueryResponse) : Response :=
  {| status := 200; body := match marshal resp with Some data => data ++ [x0a] | None => [] end |}.

Definition authorized (apiKeys : list bytes) (token : bytes) : bool :=
  match apiKeys with
  | [] => true
  | _ => negb (bool_decide (token = [])) && existsb (fun k => bool_decide (k = token)) apiKeys
  end.

(** The pools and the balancer are those of the group. *)
Definition enter_group (dbg : DatabaseGroup) : M unit := modify (fun s => {| server := set_group dbg (server s); env := env s; vars := vars s |}).

(** From the database group on. *)
Definition run_query (ctx1 ctx2 : Cancelled) (sql dbName : bytes) : M Response :=
  cfg <-! getConfig;
  if ContainsCopyStatement sql then ret (writeError 400 $"COPY is not supported via Data API")
  else
    let parsedQuery := if ASTParser (Routing cfg) then NewParsedQuery sql else None in
    match firewall_check cfg sql parsedQuery with
    | Some blocked => ret (writeError 403 (fw_message blocked))
    | None =>
        qtype <-! classifyQueryParsed sql parsedQuery;
        writerPool <-! ask (fun s => writerPool (group s));
        readerPools <-! ask (fun s => readerPools (group s));
        resp <-! (match qtype with
                  | QueryWrite => executeWrite ctx2 sql parsedQuery writerPool
                  | QueryRead => executeRead ctx1 ctx2 sql parsedQuery writerPool readerPools dbName
                  end);
        match resp with
        | None => ret (writeError 500 $"query execution failed")
        | Some resp => ret (writeResponse resp)
        end
    end.

(** [defaultDB] and [groups] are what [defaultDBFn] and [dbGroupsFn] return, each called once. *)
Definition handleQuery (defaultDB : bytes) (groups : gmap bytes DatabaseGroup) (ctx1 ctx2 : Cancelled) (r : Request) : M Response :=
  if negb (bool_decide (Method r = $"POST")) then ret (writeError 405 $"method not allowed")
  else
    apiKeys <-! ask (fun s => DataAPI_APIKeys (DataAPI (s_cfg s)));
    if negb (authorized apiKeys (extractBearerToken r)) then ret (writeError 401 $"unauthorized")
    else
      ok <-! global_allowed;
      if negb ok then ret (writeError 429 $"too many requests")
      else
        match decode_request (Body r) with
        | None => ret (writeError 400 $"invalid request body")
        | Some [] => ret (writeError 400 $"sql is required")
        | Some sql =>
            let dbName := match Database r with [] => defaultDB | name => name end in
            match groups !! dbName with
            | None => ret (writeError 400 ($"unknown database " ++ Quote dbName))
            | Some dbg =>
                enter_group dbg ;!
                run_query ctx1 ctx2 sql dbName
            end
        end.
End Api.

(** ** Every connection goes back *)

Section Accounts.
Context `{UnicodeCase} `{PgQuery} `{RewriteDeps} `{Texts} (order : gset Z -> list Z) (strict : bool).

Definition always (s : Server) : Prop := True.
Definition always_static : forall s s', static_same s s' -> always s -> always s' := fun _ _ _ _ => I.
#[local] Instance api_accounts : Setting Acc := accounts strict always always_static.

Lemma talk_lift {A} c (r : res unit A) : talk c (lift r : M A).
Proof. destruct r as [x|[]|]; [apply (talk_ret c x)|apply (talk_fail (A := A) c)|apply (talk_panic (A := A) c)]. Qed.

Lemma talk_drainUntilReady c : talk c (drainUntilReady c).
Proof.
  apply talk_rounds. intros n. induction n as [|n IH]; cbn [drain_loop]; [apply talk_fail|]. apply talk_bind; [apply talk_read_backend|].
  intros m. case_match; [apply talk_ret|done].
Qed.

Lemma talk_executeQuery c sql : talk c (executeQuery c sql).
Proof.
  apply talk_bind; [destruct sql; [apply talk_ret|apply talk_must_backend]|]. intros _. apply talk_rounds. intros n. generalize (@nil columnInfo) empty_response.
  induction n as [|n IH]; intros cols resp; cbn [response_loop]; [apply talk_fail|]. apply talk_bind; [apply talk_read_backend|]. intros m.
  repeat case_match; auto using talk_ret.
  - apply talk_bind; [apply talk_lift|auto].
  - apply talk_bind; [apply talk_attempt, talk_drainUntilReady|]. intros _. apply talk_fail.
  - apply talk_bind; [apply talk_attempt, talk_must_backend|]. intros _. apply talk_bind; [apply talk_attempt, talk_drainUntilReady|]. intros _. apply talk_fail.
Qed.

(** Borrowed connections, in any state of the rest. *)
Lemma spec_discarded Hd v c p {A} (x : A) (Q : res unit A -> Acc -> Vars -> Prop) :
  Hd !! Pool.conn_id c = None -> (forall r, Q r (resting Hd) v) -> spec (resting (<[Pool.conn_id c := p]> Hd)) v (discardToPool c (Some p) ;! ret x) Q.
Proof. intros Hc HQ. apply spec_seq, spec_discard; [apply returnable_borrowed|]. rewrite give_borrowed by done. by apply spec_ret. Qed.

Lemma spec_reset_and_return Hd v ctx c p resp (Q : res unit (option QueryResponse) -> Acc -> Vars -> Prop) :
  Hd !! Pool.conn_id c = None -> (forall r, Q r (resting Hd) v) -> spec (resting (<[Pool.conn_id c := p]> Hd)) v (reset_and_return ctx p c resp) Q.
Proof.
  intros Hc HQ. apply spec_seq, spec_ask. intros s _.
  apply spec_seq, spec_attempt, (spec_talk _ _ _ _ _ c); [apply talk_must_backend|apply held_borrowed|]. intros [[]|[]|]; [|by apply spec_discarded|done].
  apply spec_seq, spec_attempt, (spec_talk _ _ _ _ _ c); [apply talk_drainUntilReady|apply held_borrowed|].
  intros [u|[]|]; [| |done]; (destruct (after_reset ctx); [by apply spec_discarded|]); [|by apply spec_discarded].
  apply spec_seq, spec_release; [apply returnable_borrowed|]. rewrite give_borrowed by done. by apply spec_ret.
Qed.

Lemma spec_executeOnPool Hd v ctx sql p (Q : res unit (option QueryResponse) -> Acc -> Vars -> Prop) :
  (forall r, Q r (resting Hd) v) -> spec (resting Hd) v (executeOnPool ctx sql p) Q.
Proof.
  intros HQ. destruct p as [p|]; [|by apply spec_ret]. apply spec_seq, spec_acquire; [by apply spec_ret|]. intros c Hc. unfold hold. cbn [held target timer resting].
  apply spec_seq, spec_attempt, (spec_talk _ _ _ _ _ c); [apply talk_executeQuery|apply held_borrowed|].
  intros [resp|[]|]; [| |done]; (destruct (after_query ctx); [by apply spec_discarded|]); [by apply spec_reset_and_return|by apply spec_discarded].
Qed.

Lemma neutral_api_key sql pq db : neutral (api_key sql pq db).
Proof.
  apply neutral_bind; [|intros key; apply neutral_ret]. apply neutral_bind; [apply neutral_ast|]. intros ast. apply neutral_bind; [|intros key; apply neutral_ret].
  repeat case_match; try apply neutral_ret; (apply neutral_bind; [apply neutral_ast|intros b; apply neutral_ret]).
Qed.

(** The part of the lookup in the cache. *)
Lemma neutral_lookup (on : bool) sql pq db :
  neutral (if on then key <-! api_key sql pq db; cached <-! cache_get key; ret (cached ≫= unmarshal) else ret None).
Proof.
  destruct on; [|apply neutral_ret]. apply neutral_bind; [apply neutral_api_key|]. intros key. apply neutral_bind; [apply neutral_cache_get|]. intros c. apply neutral_ret.
Qed.

Lemma neutral_store (on : bool) sql pq db resp :
  neutral (if on then
             key <-! api_key sql pq db;
             match marshal resp with
             | Some data => tables <-! extractReadQueryTablesParsed sql pq; cache_set key data tables
             | None => ret tt
             end
           else ret tt).
Proof.
  destruct on; [|apply neutral_ret]. apply neutral_bind; [apply neutral_api_key|]. intros key. destruct (marshal resp); [|apply neutral_ret].
  apply neutral_bind; [apply neutral_extractReadQueryTablesParsed|]. intros ts. apply neutral_cache_set.
Qed.

(** [Q] at rest, whatever the result. *)
Lemma spec_neutral_then {A C} a v (m : M A) (k : A -> M C) (Q : res unit C -> Acc -> Vars -> Prop) :
  neutral m -> (forall e, Q (Err e) a v) -> (forall x, spec a v (k x) Q) -> spec a v (bind m k) Q.
Proof. intros Hm He Hk. apply spec_seq, Hm. by intros [x|e|]. Qed.

Lemma spec_executeRead Hd v ctx1 ctx2 sql pq wp rps db (Q : res unit (option QueryResponse) -> Acc -> Vars -> Prop) :
  (forall r, Q r (resting Hd) v) -> spec (resting Hd) v (executeRead ctx1 ctx2 sql pq wp rps db) Q.
Proof.
  intros HQ. apply spec_neutral_then; [apply neutral_caching|done|]. intros on. apply spec_neutral_then; [apply neutral_lookup|done|]. intros [resp|]; [by apply spec_ret|].
  apply spec_neutral_then; [apply neutral_next_reader|done|]. intros [|b addr]; [by apply spec_executeOnPool|]. destruct (rps !! (b :: addr)) as [rPool|]; [|by apply spec_executeOnPool].
  apply spec_seq, spec_executeOnPool. intros [[resp|]|e|]; [| |done|done].
  - apply spec_neutral_then; [apply neutral_store|done|]. intros _. by apply spec_ret.
  - apply spec_neutral_then; [apply neutral_mark_unhealthy|done|]. intros _. by apply spec_executeOnPool.
Qed.

Lemma spec_executeWrite Hd v ctx sql pq wp (Q : res unit (option QueryResponse) -> Acc -> Vars -> Prop) :
  (forall r, Q r (resting Hd) v) -> spec (resting Hd) v (executeWrite order ctx sql pq wp) Q.
Proof.
  intros HQ. apply spec_seq, spec_executeOnPool. intros [[resp|]|e|]; [|by apply spec_ret|done|done].
  apply spec_neutral_then; [apply neutral_caching|done|]. intros on. apply spec_neutral_then; [|done|intros _; by apply spec_ret].
  destruct on; [|apply neutral_ret]. apply neutral_bind; [apply neutral_extractQueryTablesParsed|]. intros ts. apply neutral_bind; [apply neutral_invalidate_all|]. intros _.
  apply neutral_bind; [apply neutral_ask|]. intros inv. case_match; [apply neutral_publish|apply neutral_ret].
Qed.

Lemma spec_run_query Hd v ctx1 ctx2 sql db (Q : res unit Response -> Acc -> Vars -> Prop) :
  (forall r, Q r (resting Hd) v) -> spec (resting Hd) v (run_query order ctx1 ctx2 sql db) Q.
Proof.
  intros HQ. apply spec_neutral_then; [apply neutral_getConfig|done|]. intros cfg. destruct (ContainsCopyStatement sql); [by apply spec_ret|].
  cbv zeta. set (pq := if ASTParser (Routing cfg) then _ else _). destruct (firewall_check cfg sql pq) as [b|]; [by apply spec_ret|]. apply spec_neutral_then; [apply neutral_classifyQueryParsed|done|]. intros qtype.
  apply spec_neutral_then; [apply neutral_ask|done|]. intros wp. apply spec_neutral_then; [apply neutral_ask|done|]. intros rps.
  assert (forall resp, spec (resting Hd) v (match resp with None => ret (writeError 500 $"query execution failed") | Some resp => ret (writeResponse resp) end) Q) as Hresp
    by (intros [resp|]; by apply spec_ret).
  apply spec_seq. destruct qtype; [apply spec_executeRead|apply spec_executeWrite]; intros [resp|e|]; try done; apply Hresp.
Qed.

(** Entering the group. *)
Lemma spec_enter_group a v dbg {A} (k : M A) Q : spec a v k Q -> spec a v (enter_group dbg ;! k) Q.
Proof.
  intros Hk w [Ht Hv [_ He] Hg]. apply wp_bind. unfold wp at 1, enter_group, modify. apply Hk. split; [done|done| |done]. split; [done|]. exact He.
Qed.
Lemma spec_handleQuery Hd v defaultDB groups ctx1 ctx2 req (Q : res unit Response -> Acc -> Vars -> Prop) :
  (forall r, Q r (resting Hd) v) -> spec (resting Hd) v (handleQuery order defaultDB groups ctx1 ctx2 req) Q.
Proof.
  intros HQ. unfold handleQuery. case_match; [by apply spec_ret|]. apply spec_neutral_then; [apply neutral_ask|done|]. intros keys. case_match; [by apply spec_ret|].
  apply spec_neutral_then; [apply neutral_global_allowed|done|]. intros ok. case_match; [by apply spec_ret|].
  destruct (decode_request (Body req)) as [[|b sql]|]; [by apply spec_ret| |by apply spec_ret]. cbv zeta. set (db := match Database req with [] => _ | _ => _ end).
  destruct (groups !! db) as [dbg|]; [|by apply spec_ret]. by apply spec_enter_group, spec_run_query.
Qed.

(** C24: the Data API accounts for every connection. Whatever the request is, the backends
    answer, the client's disconnection cancels and the rest of the proxy does, a call of the
    handler that does not panic uses a connection only between its acquisition and its
    return, returns each one it acquired exactly once, and to the pool it came from. *)
Theorem handleQuery_accounts defaultDB groups ctx1 ctx2 req (w w' : World Sess) r :
  trace w = [] -> honest strict (grants w) -> handleQuery order defaultDB groups ctx1 ctx2 req w = (r, w') -> r <> Panic ->
  judge_all (judge strict) nothing_held (trace w') = Some nothing_held.
Proof.
  intros Ht Hg E Hr. assert (at_ nothing_held (vars (sh w)) w) as Hat.
  { split; [exists []; by rewrite Ht|done| |done]. split; [done|]. by apply Forall_true. }
  pose proof (spec_handleQuery ∅ (vars (sh w)) defaultDB groups ctx1 ctx2 req (fun _ a _ => a = nothing_held) (fun _ => eq_refl) w Hat) as Hs.
  unfold wp in Hs. rewrite E in Hs. destruct Hs as [->|(a & v & [(evs & Hevs & Hj) _ _ _] & ->)]; [done|]. by rewrite Hevs.
Qed.
End Accounts.

(** ** What the handler lets through *)

Section Guard.
Context `{UnicodeCase} `{PgQuery} `{RewriteDeps} `{Texts} (order : gset Z -> list Z) (C : Config.Config -> Prop).

Definition configured (s : Server) : Prop := C (s_cfg s).

(** The request names a token, a database and a statement that the configuration admits. *)
Definition permitted (defaultDB : bytes) (groups : gmap bytes DatabaseGroup) (req : Request) : Prop :=
  Method req = $"POST" /\
  (exists cfg, C cfg /\ (DataAPI_APIKeys (DataAPI cfg) = [] \/ exists token, token <> [] /\ Authorization req = $"Bearer " ++ token /\ token ∈ DataAPI_APIKeys (DataAPI cfg))) /\
  is_Some (groups !! match Database req with [] => defaultDB | name => name end) /\
  exists sql, decode_request (Body req) = Some sql /\ sql <> [] /\ ContainsCopyStatement sql = false /\
    exists cfg, C cfg /\ firewall_check cfg sql (if ASTParser (Routing cfg) then NewParsedQuery sql else None) = None.

Lemma authorized_spec keys req :
  authorized keys (extractBearerToken req) = true ->
  keys = [] \/ exists token, token <> [] /\ Authorization req = $"Bearer " ++ token /\ token ∈ keys.
Proof.
  unfold authorized. destruct keys as [|k keys]; [by left|]. intros [Hn Hk]%andb_true_iff. right. apply negb_true_iff, bool_decide_eq_false in Hn.
  exists (extractBearerToken req). split_and!; [done| |].
  - unfold extractBearerToken in *. destruct (HasPrefix (Authorization req) $"Bearer ") eqn:E; [|done]. apply HasPrefix_spec in E as [t Et]. by rewrite Et.
  - apply existsb_exists in Hk as (x & Hx & Ex%bool_decide_eq_true). subst. by apply list_elem_of_In.
Qed.

(** Nothing happened yet. *)
Definition untouched (w w' : World Sess) : Prop := trace w' = trace w /\ remains configured (sh w').

Lemma wp_global_allowed Q w :
  remains configured (sh w) -> (forall b w', untouched w w' -> Q (Ok b) w') -> wp global_allowed Q w.
Proof.
  intros [HP Henv] HQ. unfold wp, global_allowed, access. destruct (env (sh w)) as [|e es] eqn:E.
  - destruct (rateLimiter (server (sh w))) as [rl|]; [destruct (RateLimit.Allow _ rl)|]; apply HQ; by split.
  - apply list.Forall_cons in Henv as [He Henv]. specialize (He _ HP).
    destruct (rateLimiter (e (server (sh w)))) as [rl|]; [destruct (RateLimit.Allow _ rl)|]; apply HQ; by split.
Qed.

Definition guarded (defaultDB : bytes) (groups : gmap bytes DatabaseGroup) (req : Request) (w : World Sess) (r : res unit Response) (w' : World Sess) : Prop :=
  (trace w' = trace w /\ exists resp, r = Ok resp /\ (400 <= status resp < 500)%Z) \/ permitted defaultDB groups req.

Lemma guarded_refuse defaultDB groups req w w' code msg :
  trace w' = trace w -> (400 <= code < 500)%Z -> guarded defaultDB groups req w (Ok (writeError code msg)) w'.
Proof. intros Ht Hc. left. split; [done|]. by eexists. Qed.

Lemma wp_untouched {A} (f : Server -> A) Q w :
  remains configured (sh w) -> (forall s w', configured s -> untouched w w' -> Q (Ok (f s)) w') -> wp (ask f) Q w.
Proof. intros Hw HQ. apply (wp_ask configured); [done|]. intros s w' Hs []. by apply HQ. Qed.

Lemma wp_handleQuery defaultDB groups ctx1 ctx2 req w :
  remains configured (sh w) -> wp (handleQuery order defaultDB groups ctx1 ctx2 req) (guarded defaultDB groups req w) w.
Proof.
  intros Hw. unfold handleQuery. destruct (bool_decide (Method req = _)) eqn:Em; [|by apply guarded_refuse]. apply bool_decide_eq_true in Em. cbn [negb].
  apply wp_bind, wp_untouched; [done|]. intros s1 w1 Hs1 [Ht1 Hw1]. destruct (authorized _ _) eqn:Ea; [|by apply guarded_refuse]. apply authorized_spec in Ea. cbn [negb].
  apply wp_bind, wp_global_allowed; [done|]. intros [] w2 [Ht2 Hw2]; [|apply guarded_refuse; [congruence|done]]. cbn [negb].
  destruct (decode_request (Body req)) as [sql|] eqn:Ed; [|apply guarded_refuse; [congruence|done]]. destruct sql as [|b sql]; [apply guarded_refuse; [congruence|done]|].
  cbv zeta. destruct (groups !! _) as [dbg|] eqn:Eg; [|apply guarded_refuse; [congruence|done]].
  apply wp_bind. unfold wp at 1, enter_group, modify. set (w3 := {| cin := _; sh := _ |}). assert (remains configured (sh w3)) as Hw3 by done.
  apply wp_bind, wp_untouched; [done|]. intros s4 w4 Hs4 [Ht4 Hw4]. change (trace w3) with (trace w2) in Ht4.
  destruct (ContainsCopyStatement (b :: sql)) eqn:Ec; [apply guarded_refuse; [congruence|done]|]. cbv zeta.
  destruct (firewall_check _ _ _) as [x|] eqn:Ef; [apply guarded_refuse; [congruence|done]|].
  unfold wp. destruct (bind _ _ w4) as [r w5]. right. split_and!; [done|by exists (s_cfg s1)|by rewrite Eg|]. exists (b :: sql). split_and!; [done..|]. by exists (s_cfg s4).
Qed.

(** C8: the Data API executes only what its configuration admits. A request that is not a
    POST, that bears none of the configured keys, whose body holds no statement, that names
    no database of the proxy, or whose statement is a COPY or refused by the firewall, is
    answered with a client error, and no connection is acquired and nothing sent for it. The
    configurations are those in force when the handler reads them, which a reload may change
    in between. *)
Theorem handleQuery_guarded defaultDB groups ctx1 ctx2 req w :
  remains configured (sh w) ->
  let '(r, w') := handleQuery order defaultDB groups ctx1 ctx2 req w in
  guarded defaultDB groups req w r w'.
Proof. intros Hw. by apply (wp_handleQuery defaultDB groups ctx1 ctx2 req w). Qed.
End Guard.

(** ** Answers of the backend *)

(** A column of a RowDescription message: the bytes around the type are not used. *)
Record Field := { f_name : bytes; f_table : bytes; f_oid : Z; f_rest : bytes }.

Definition field_ok (f : Field) : Prop := NulFree (f_name f) /\ length (f_table f) = 6 /\ (0 <= f_oid f < 2 ^ 32)%Z /\ length (f_rest f) = 8.

Definition encodeField (f : Field) : bytes := f_name f ++ [x00] ++ f_table f ++ PutUint32 (f_oid f) ++ f_rest f.
Definition encodeRowDescription (fs : list Field) : bytes := PutUint16 (Z.of_nat (length fs)) ++ concat (encodeField <$> fs).
Definition encodeDataRow (vals : list (option bytes)) : bytes := PutUint16 (Z.of_nat (length vals)) ++ concat (encodeParam <$> vals).

Definition column_of (f : Field) : columnInfo := {| ci_Name := f_name f; ci_OID := f_oid f; ci_TypeName := oidToTypeName (f_oid f) |}.

(** What a row means: NULL, or a value of the column's type. *)
Fixpoint decoded (columns : list columnInfo) (vals : list (option bytes)) : list any :=
  match vals with
  | [] => []
  | v :: vals' =>
      match v, columns with
      | None, _ => VNull
      | Some v, c :: _ => convertValue v (ci_OID c)
      | Some v, [] => VString v
      end :: decoded (tail columns) vals'
  end.

Lemma parseCommandComplete_head s r : NulFree s -> parseCommandComplete (s ++ [x00] ++ r) = s /\ drop (S (length s)) (s ++ [x00] ++ r) = r.
Proof.
  intros Hs. destruct (cstring_head s r Hs) as (Hi & Ht & Hd). unfold parseCommandComplete. unfold indexOf in Hi. cbn [Nat.ltb Nat.leb] in Hi. rewrite Hi, Ht. done.
Qed.

Lemma columns_loop_encode fs r : Forall field_ok fs -> columns_loop (length fs) (concat (encodeField <$> fs) ++ r) = column_of <$> fs.
Proof.
  induction 1 as [|f fs (Hn & Ht & Ho & Hr) _ IH]; [done|]. cbn [fmap list_fmap concat length columns_loop].
  set (more := concat (encodeField <$> fs) ++ r) in *.
  assert ((encodeField f ++ concat (encodeField <$> fs)) ++ r = f_name f ++ [x00] ++ f_table f ++ PutUint32 (f_oid f) ++ f_rest f ++ more) as ->
    by (unfold encodeField, more; by rewrite <- !app_assoc).
  destruct (parseCommandComplete_head (f_name f) (f_table f ++ PutUint32 (f_oid f) ++ f_rest f ++ more) Hn) as [-> ->].
  destruct (f_name f ++ [x00] ++ _) as [|b u] eqn:E; [by destruct (f_name f)|]. clear b u E.
  rewrite (proj2 (Nat.ltb_ge _ 6)) by (rewrite length_app; lia). rewrite (drop_app_length' (f_table f)) by done.
  rewrite (proj2 (Nat.ltb_ge _ 4)) by (rewrite length_app, length_PutUint32; lia). rewrite take4_PutUint32, drop4_PutUint32, be_value_PutUint32 by done.
  rewrite (proj2 (Nat.ltb_ge _ 8)) by (rewrite length_app; lia). by rewrite (drop_app_length' (f_rest f)), IH by done.
Qed.

Definition value_ok (v : option bytes) : Prop := match v with Some v => (Z.of_nat (length v) < 2 ^ 31)%Z | None => True end.

Lemma values_loop_encode vals columns r :
  Forall value_ok vals -> values_loop (length vals) (concat (encodeParam <$> vals) ++ r) columns = Ok (decoded columns vals).
Proof.
  intros Hv. revert columns. induction Hv as [|v vals Hok _ IH]; intros columns; [done|]. cbn [fmap list_fmap concat length values_loop decoded]. rewrite <- app_assoc.
  set (more := concat (encodeParam <$> vals) ++ r) in *.
  assert (exists b u, encodeParam v ++ more = b :: u) as (b & u & E) by (destruct v as [v|]; by eexists _, _). rewrite E, <- E. clear b u E.
  assert (4 <= length (encodeParam v)) as Hl by (destruct v as [v|]; cbn [encodeParam]; rewrite ?length_app, length_PutUint32; lia).
  rewrite (proj2 (Nat.ltb_ge _ 4)) by (rewrite length_app; lia). destruct v as [v|]; cbn [encodeParam].
  - cbn in Hok. rewrite <- app_assoc, take4_PutUint32, drop4_PutUint32, be_value_PutUint32, wrapS_small by lia.
    rewrite (proj2 (Z.eqb_neq _ (-1))) by lia. rewrite (proj2 (Z.ltb_ge _ _)) by (rewrite length_app; lia). rewrite (proj2 (Z.ltb_ge _ 0)) by lia.
    rewrite Nat2Z.id, take_app_length, drop_app_length, IH. done.
  - rewrite take4_PutUint32, drop4_PutUint32. change (wrapS 32 (be_value (PutUint32 (-1)))) with (-1)%Z. cbn [Z.eqb]. by rewrite IH.
Qed.

Lemma length_decoded columns vals : length (decoded columns vals) = length vals.
Proof. revert columns. induction vals as [|v vals IH]; intros columns; [done|]. cbn. by rewrite IH. Qed.

Lemma parseDataRow_encode vals columns :
  (Z.of_nat (length vals) < 2 ^ 16)%Z -> Forall value_ok vals -> parseDataRow (encodeDataRow vals) columns = Ok (Some (decoded columns vals)).
Proof.
  intros Hl Hv. unfold parseDataRow, encodeDataRow. rewrite (proj2 (Nat.ltb_ge _ 2)) by (rewrite length_app, length_PutUint16; lia).
  rewrite (take_app_length' (PutUint16 _)), (drop_app_length' (PutUint16 _)), be_value_PutUint16, Nat2Z.id by (done || lia).
  rewrite <- (app_nil_r (concat _)), values_loop_encode by done. cbn [res_bind]. by rewrite length_decoded, Nat.sub_diag, app_nil_r.
Qed.

Lemma parseRowDescription_encode fs :
  (Z.of_nat (length fs) < 2 ^ 16)%Z -> Forall field_ok fs -> parseRowDescription (encodeRowDescription fs) = column_of <$> fs.
Proof.
  intros Hl Hf. unfold parseRowDescription, encodeRowDescription. rewrite (proj2 (Nat.ltb_ge _ 2)) by (rewrite length_app, length_PutUint16; lia).
  rewrite (take_app_length' (PutUint16 _)), (drop_app_length' (PutUint16 _)), be_value_PutUint16, Nat2Z.id by (done || lia).
  by rewrite <- (app_nil_r (concat _)), columns_loop_encode.
Qed.

(** The messages of an answer: the columns, a row each, the command and the end. *)
Definition answer_rows (rows : list (list (option bytes))) : bytes := concat ((fun row => WriteMessage Msg.DataRow (encodeDataRow row)) <$> rows).
Definition answer_end (tag : bytes) (txStatus : byte) : bytes := WriteMessage Msg.CommandComplete (tag ++ [x00]) ++ WriteMessage Msg.ReadyForQuery [txStatus].
Definition answer (fs : list Field) (rows : list (list (option bytes))) (tag : bytes) (txStatus : byte) : bytes :=
  WriteMessage Msg.RowDescription (encodeRowDescription fs) ++ answer_rows rows ++ answer_end tag txStatus.

Definition row_ok (row : list (option bytes)) : Prop :=
  (Z.of_nat (length row) < 2 ^ 16)%Z /\ Forall value_ok row /\ (Z.of_nat (length (encodeDataRow row)) <= MaxMessageSize)%Z.

(** Decides the type of a message. *)
Local Ltac message_type :=
  cbn [mType mPayload];
  repeat (match goal with |- context [Byte.eqb ?a ?b] => let v := eval vm_compute in (Byte.eqb a b) in change (Byte.eqb a b) with v end; cbv iota).

Lemma run_end c n columns resp tag st sent rest w :
  NulFree tag -> (Z.of_nat (length tag) < MaxMessageSize)%Z ->
  response_loop c (2 + n) columns resp (dialogue c sent (answer_end tag st ++ rest) w) = (Ok (with_command resp tag), dialogue c sent rest w).
Proof.
  intros Hn Ht. unfold answer_end. rewrite <- app_assoc. cbn [Nat.add response_loop]. rewrite run_read by (rewrite length_app; cbn [length]; lia). message_type.
  rewrite run_read by (cbn; unfold MaxMessageSize; lia). message_type. pose proof (proj1 (parseCommandComplete_head tag [] Hn)) as Hp. cbn [app] in Hp. by rewrite Hp.
Qed.

Lemma run_lift {A C} (x : A) (k : A -> M C) w : bind (lift (Ok x)) k w = k x w.
Proof. done. Qed.

Definition with_rows (r : QueryResponse) (rows : list (option (list any))) : QueryResponse :=
  {| Columns := Columns r; Types := Types r; Rows := Rows r ++ rows; RowCount := RowCount r + Z.of_nat (length rows); Command := Command r |}.

Lemma run_rows c n columns resp rows tag st sent rest w :
  Forall row_ok rows -> NulFree tag -> (Z.of_nat (length tag) < MaxMessageSize)%Z -> (0 <= RowCount resp)%Z -> (RowCount resp + Z.of_nat (length rows) < 2 ^ 63)%Z ->
  response_loop c (length rows + (2 + n)) columns resp (dialogue c sent (answer_rows rows ++ answer_end tag st ++ rest) w) =
  (Ok (with_command (with_rows resp ((fun row => Some (decoded columns row)) <$> rows)) tag), dialogue c sent rest w).
Proof.
  intros Hr Hn Ht. revert resp. induction Hr as [|row rows (Hl & Hv & Hm) _ IH]; intros resp H0 Hc.
  - cbn [length Nat.add answer_rows fmap list_fmap concat app]. rewrite (run_end c n) by done. unfold with_rows. cbn. rewrite app_nil_r, Z.add_0_r. by destruct resp.
  - unfold answer_rows. cbn [length Nat.add fmap list_fmap concat response_loop]. rewrite <- app_assoc, run_read by done. message_type. rewrite parseDataRow_encode by done.
    rewrite run_lift. cbn [length] in Hc. rewrite (IH (with_row resp _)); cbn [with_row RowCount]; rewrite ?wrapS_small by lia; try lia.
    unfold with_rows, with_row, with_command. cbn [Columns Types Rows RowCount Command length]. rewrite <- app_assoc. rewrite wrapS_small by lia. do 3 f_equal. lia.
Qed.

Lemma length_answer_rows rows : length rows <= length (answer_rows rows).
Proof. induction rows as [|row rows IH]; [done|]. unfold answer_rows in *. cbn [fmap list_fmap concat length]. rewrite length_app. cbn [length WriteMessage app]. lia. Qed.

(** Enough rounds for the answer. *)
Lemma answer_rounds fs rows tag st (rest : bytes) : exists n, S (length (answer fs rows tag st ++ rest)) = S (length rows + (2 + n)).
Proof.
  exists (length (answer fs rows tag st ++ rest) - (length rows + 2)). pose proof (length_answer_rows rows). unfold answer, answer_end.
  rewrite !length_app. unfold WriteMessage. rewrite !length_app. cbn [length]. lia.
Qed.

(** The backend's answer is decoded in full. *)
Definition result_of (fs : list Field) (rows : list (list (option bytes))) (tag : bytes) : QueryResponse :=
  {| Columns := f_name <$> fs; Types := (fun f => oidToTypeName (f_oid f)) <$> fs; Rows := (fun row => Some (decoded (column_of <$> fs) row)) <$> rows;
     RowCount := Z.of_nat (length rows); Command := tag |}.

(** C25: the Data API decodes the backend's answer exactly. To a query the backend answers
    with a description of the columns, any number of rows (NULLs and values of any bytes),
    the command's tag and ReadyForQuery; [executeQuery] sends the query once and returns the
    columns' names and types, every row in order with each value converted by its column's
    type, the number of rows and the tag. It reads up to ReadyForQuery and not a byte of
    [rest], so the connection can be used again. *)
Theorem executeQuery_decodes c sql fs rows tag st sent rest w :
  sql <> [] -> (Z.of_nat (length fs) < 2 ^ 16)%Z -> Forall field_ok fs -> (Z.of_nat (length (encodeRowDescription fs)) <= MaxMessageSize)%Z ->
  Forall row_ok rows -> (Z.of_nat (length rows) < 2 ^ 63)%Z -> NulFree tag -> (Z.of_nat (length tag) < MaxMessageSize)%Z ->
  executeQuery c sql (dialogue c sent (answer fs rows tag st ++ rest) w) =
  (Ok (result_of fs rows tag), dialogue c (sent ++ [WriteMessage Msg.Query (sql ++ [x00])]) rest w).
Proof.
  intros Hs Hl Hf Hm Hr Hc Hn Ht. unfold executeQuery. destruct sql as [|b sql]; [done|]. rewrite run_send. unfold rounds_backend.
  set (q := WriteMessage Msg.Query _). rewrite (stream_set c _ w : stream c (dialogue c (sent ++ [q]) _ w) = _). destruct (answer_rounds fs rows tag st rest) as [n ->].
  unfold answer. rewrite <- !app_assoc. cbn [response_loop]. rewrite run_read by done. message_type. rewrite parseRowDescription_encode by done.
  rewrite run_rows by (done || cbn; lia). unfold with_command, with_rows, with_columns, result_of. cbn [Columns Types Rows RowCount Command empty_response app].
  rewrite <- !list_fmap_compose. do 3 f_equal. by rewrite length_fmap.
Qed.

(** ** Responses in the cache *)

(** The values whose JSON denotes them; numbers are not among them. *)
Definition plain_value (v : any) : bool := match v with VNull | VBool _ => true | VString s => valid_utf8 s | _ => false end.
Definition plain_row (row : option (list any)) : bool := match row with Some vs => forallb plain_value vs | None => true end.
Definition plain_response (r : QueryResponse) : bool :=
  forallb valid_utf8 (Columns r) && forallb valid_utf8 (Types r) && forallb plain_row (Rows r) && (0 <=? RowCount r)%Z && (RowCount r <? 2 ^ 63)%Z && valid_utf8 (Command r).

(** [j] is read as [x], within depth [d]. *)
Definition denotes {A} (read : json -> option A) (d : Z) (x : A) (j : json) : Prop := read j = Some x /\ json_ok j = true /\ (depth j <= d)%Z.

Lemma denotes_list {A} (write : A -> option json) (read : json -> option A) d l :
  (0 <= d)%Z -> Forall (fun x => exists j, write x = Some j /\ denotes read d x j) l ->
  exists js, mapM write l = Some js /\ mapM read js = Some l /\ forallb json_ok js = true /\ (max_of (depth <$> js) <= d)%Z.
Proof.
  intros Hd. induction 1 as [|x l (j & Hw & Hr & Hj & Hdj) _ (js & Hws & Hrs & Hjs & Hds)]; [by exists []|].
  exists (j :: js). cbn. rewrite Hw, Hr, Hj. cbn. rewrite Hws, Hrs. cbn. split_and!; [done..|]. unfold max_of in Hds. lia.
Qed.

Lemma plain_value_json v : plain_value v = true -> exists j, to_json v = Some j /\ denotes of_json 0 v j.
Proof. destruct v as [|b|n|f|s|l|l]; intros Hv; try done; eexists; (split; [reflexivity|]); split_and!; done. Qed.

Lemma plain_row_json row : plain_row row = true -> exists j, row_json row = Some j /\ denotes into_row 1 row j.
Proof.
  destruct row as [vs|]; intros Hr; [|by exists JNull].
  destruct (denotes_list to_json of_json 0 vs) as (js & Hw & Hrd & Hj & Hd); [done| |].
  { apply list.Forall_forall. intros v Hv. apply plain_value_json. cbn in Hr. rewrite forallb_forall in Hr. by apply Hr, list_elem_of_In. }
  exists (JArr js). cbn [row_json into_row]. rewrite Hw. split; [done|]. unfold denotes. cbn [into_row json_ok depth]. rewrite Hrd. split_and!; [done..|lia].
Qed.

Lemma into_strings_json old ss : into_strings old (JStr <$> ss) = Some ss.
Proof. revert old. induction ss as [|s ss IH]; intros old; [done|]. cbn. by rewrite IH. Qed.

Lemma strings_ok ss : forallb valid_utf8 ss = true -> json_ok (JArr (JStr <$> ss)) = true /\ (depth (JArr (JStr <$> ss)) <= 2)%Z.
Proof.
  intros Hs. split.
  - cbn [json_ok]. rewrite forallb_forall in *. intros j Hj. apply list_elem_of_In, list_elem_of_fmap in Hj as (s & -> & Hin). by apply Hs, list_elem_of_In.
  - cbn [depth]. assert (max_of (depth <$> (JStr <$> ss)) <= 0)%Z; [|lia]. clear Hs. induction ss as [|s ss IH]; [done|]. cbn. unfold max_of in IH. lia.
Qed.

Lemma num_run_digits s : forallb (byte_in "0" "9") s = true -> num_run N_int s = (s, [], true).
Proof. induction s as [|c s IH]; [done|]. cbn [forallb num_run num_step]. intros [-> Hs]%andb_true_iff. by rewrite IH. Qed.

Lemma number_ok_FormatInt n : (0 <= n < 2 ^ 63)%Z -> number_ok (FormatInt n) = true.
Proof.
  intros Hn. destruct (decide (n = 0%Z)) as [->|Hz]; [done|]. unfold number_ok. apply bool_decide_eq_true.
  destruct (FormatInt_positive n) as (Hd & c & r & E & Hc); [unfold MaxInt64; lia|]. rewrite E in *. cbn [forallb] in Hd. apply andb_true_iff in Hd as [_ Hd].
  assert (num_step N_start c = Some N_int) as Hs by (revert Hc; clear; destruct c; intros Hc; (reflexivity || discriminate Hc)).
  cbn [num_run]. by rewrite Hs, num_run_digits.
Qed.

(** Reading the members one after the other. *)
Definition read_members (l : list (bytes * json)) (r : option QueryResponse) : option QueryResponse :=
  fold_left (fun acc kv => r ← acc; response_member r kv) l r.

Lemma read_members_app l1 l2 r : read_members (l1 ++ l2) r = read_members l2 (read_members l1 r).
Proof. apply fold_left_app. Qed.

Lemma read_columns cs r :
  Columns r = [] ->
  read_members (omitempty cs $"columns" (JArr (JStr <$> cs))) (Some r) =
  Some {| Columns := cs; Types := Types r; Rows := Rows r; RowCount := RowCount r; Command := Command r |}.
Proof.
  intros Hr. destruct cs as [|c cs]; [by destruct r; cbn in Hr; subst|]. cbn [omitempty read_members fold_left mbind option_bind response_member].
  change (names $"columns" $"columns") with true. cbv iota. cbn [strings_field]. by rewrite into_strings_json.
Qed.

Lemma read_types ts r :
  Types r = [] ->
  read_members (omitempty ts $"types" (JArr (JStr <$> ts))) (Some r) =
  Some {| Columns := Columns r; Types := ts; Rows := Rows r; RowCount := RowCount r; Command := Command r |}.
Proof.
  intros Hr. destruct ts as [|t ts]; [by destruct r; cbn in Hr; subst|]. cbn [omitempty read_members fold_left mbind option_bind response_member].
  change (names $"types" $"columns") with false. change (names $"types" $"types") with true. cbv iota. cbn [strings_field]. by rewrite into_strings_json.
Qed.

Lemma read_rows rows js r :
  Rows r = [] -> mapM into_row js = Some rows ->
  read_members (omitempty rows $"rows" (JArr js)) (Some r) =
  Some {| Columns := Columns r; Types := Types r; Rows := rows; RowCount := RowCount r; Command := Command r |}.
Proof.
  intros Hr Hj. destruct rows as [|row rows]; [by destruct r; cbn in Hr; subst|]. cbn [omitempty read_members fold_left mbind option_bind response_member].
  change (names $"rows" $"columns") with false. change (names $"rows" $"types") with false. change (names $"rows" $"rows") with true. cbv iota. cbn [rows_field]. by rewrite Hj.
Qed.

Lemma read_count n r :
  (0 <= n < 2 ^ 63)%Z ->
  read_members [($"row_count", JNum (FormatInt n))] (Some r) =
  Some {| Columns := Columns r; Types := Types r; Rows := Rows r; RowCount := n; Command := Command r |}.
Proof.
  intros Hn. cbn [read_members fold_left mbind option_bind response_member]. change (names $"row_count" $"columns") with false. change (names $"row_count" $"types") with false.
  change (names $"row_count" $"rows") with false. change (names $"row_count" $"row_count") with true. cbv iota. by rewrite ParseInt_FormatInt by (unfold MinInt64, MaxInt64; lia).
Qed.

Lemma read_command c r :
  Command r = [] ->
  read_members (omitempty c $"command" (JStr c)) (Some r) =
  Some {| Columns := Columns r; Types := Types r; Rows := Rows r; RowCount := RowCount r; Command := c |}.
Proof. intros Hr. destruct c as [|b c]; [by destruct r; cbn in Hr; subst|]. done. Qed.

Lemma omitempty_ok {A} (l : list A) name v :
  valid_utf8 name = true -> json_ok v = true -> (depth v <= 2)%Z ->
  forallb (fun kv : bytes * json => valid_utf8 kv.1 && json_ok kv.2) (omitempty l name v) = true /\
  (max_of ((fun kv : bytes * json => depth kv.2) <$> omitempty l name v) <= 2)%Z.
Proof. intros Hn Hv Hd. destruct l; [done|]. cbn [omitempty forallb fmap list_fmap fst snd]. rewrite Hn, Hv. split; [done|]. unfold max_of. cbn [foldr]. lia. Qed.

Lemma max_of_app l l' : max_of (l ++ l') = Z.max (max_of l) (max_of l').
Proof. induction l as [|z l IH]; cbn; [pose proof (max_of_nonneg l'); unfold max_of in *; lia|]. unfold max_of in *. rewrite IH. lia. Qed.

(** The JSON of a plain response. *)
Lemma response_json_plain r :
  plain_response r = true -> exists l, response_json r = Some (JObj l) /\ json_ok (JObj l) = true /\ (depth (JObj l) <= 3)%Z /\ read_members l (Some empty_response) = Some r.
Proof.
  unfold plain_response. intros [[[[[Hc Ht]%andb_true_iff Hr]%andb_true_iff Hn1%Z.leb_le]%andb_true_iff Hn2%Z.ltb_lt]%andb_true_iff Hm]%andb_true_iff.
  destruct (denotes_list row_json into_row 1 (Rows r)) as (js & Hw & Hrd & Hj & Hd); [done| |].
  { apply list.Forall_forall. intros row Hin. apply plain_row_json. rewrite forallb_forall in Hr. by apply Hr, list_elem_of_In. }
  destruct (strings_ok _ Hc) as [Hc1 Hc2]. destruct (strings_ok _ Ht) as [Ht1 Ht2].
  unfold response_json. rewrite Hw. eexists. split; [reflexivity|]. split_and!.
  - cbn [json_ok]. rewrite !forallb_app. apply andb_true_iff; split; [by apply omitempty_ok|]. apply andb_true_iff; split; [by apply omitempty_ok|].
    apply andb_true_iff; split; [apply omitempty_ok; [done|done|cbn [depth]; lia]|]. apply andb_true_iff; split; [|by apply omitempty_ok].
    cbn [forallb fst snd json_ok]. by rewrite number_ok_FormatInt.
  - cbn [depth]. rewrite !fmap_app, !max_of_app.
    pose proof (proj2 (omitempty_ok (Columns r) $"columns" _ eq_refl Hc1 Hc2)). pose proof (proj2 (omitempty_ok (Types r) $"types" _ eq_refl Ht1 Ht2)).
    pose proof (proj2 (omitempty_ok (Rows r) $"rows" (JArr js) eq_refl Hj ltac:(cbn [depth]; lia))).
    pose proof (proj2 (omitempty_ok (Command r) $"command" (JStr (Command r)) eq_refl Hm ltac:(done))).
    assert (max_of ((fun kv : bytes * json => depth kv.2) <$> [($"row_count", JNum (FormatInt (RowCount r)))]) = 0)%Z by done. lia.
  - rewrite !read_members_app, read_columns, read_types, read_rows, read_count, read_command by (done || lia). by destruct r.
Qed.

(** a response served from the cache is the response of the query. For a result of
    booleans, NULLs and texts (valid UTF-8), what [executeRead] stores is read back as the same
    response: columns, types, rows (absent rows and NULLs apart from empty ones), count and
    command. (Numbers come back as float64, see [Examples.cached_int8_changes].) *)
Theorem cached_response_kept r : plain_response r = true -> exists data, marshal r = Some data /\ unmarshal data = Some r.
Proof.
  intros (l & Hj & Hok & Hd & Hr)%response_json_plain. exists (print (JObj l)). unfold marshal, unmarshal. rewrite Hj. split; [done|].
  destruct (json_roundtrip (JObj l) [] Hok) as [-> _]; [change max_depth with 10000%Z; lia|done|]. exact Hr.
Qed.

(** ** The watchdog of [executeOnPool] *)

Module Watchdog.
(** The goroutine waits for its context or for [stopCh]; when the context is done it stores the
    flag and then sets the deadline. *)
Inductive goroutine := Waiting | Cancelling | Exited.

(** What becomes of the connection. *)
Inductive fate := Discarded | Released.

(** [executeOnPool] after [Acquire]: executing, resetting, waiting for [watchdogDone], done. *)
Inductive caller := Querying | Resetting | Joining (f : fate) | Returned (f : fate).

Record Exec := { ctx_done : bool; cancelled : bool; stop_closed : bool; deadline : bool; watchdog : goroutine; main : caller }.

Definition exec_start : Exec := {| ctx_done := false; cancelled := false; stop_closed := false; deadline := false; watchdog := Waiting; main := Querying |}.

Definition at_caller (stop : bool) (m : caller) (s : Exec) : Exec :=
  {| ctx_done := ctx_done s; cancelled := cancelled s; stop_closed := stop || stop_closed s; deadline := deadline s; watchdog := watchdog s; main := m |}.

(** [ok]: the query or the reset succeeded; both may fail at any time. *)
Definition query_returned (ok : bool) (s : Exec) : Exec :=
  if cancelled s then at_caller false (Joining Discarded) s
  else if ok then at_caller false Resetting s
  else at_caller true (Joining Discarded) s.

Definition reset_returned (ok : bool) (s : Exec) : Exec :=
  if cancelled s then at_caller false (Joining Discarded) s
  else at_caller true (Joining (if ok then Released else Discarded)) s.

Inductive exec_step : Exec -> Exec -> Prop :=
| E_cancel_context s :
    exec_step s {| ctx_done := true; cancelled := cancelled s; stop_closed := stop_closed s; deadline := deadline s; watchdog := watchdog s; main := main s |}
| E_cancelled s :
    watchdog s = Waiting -> ctx_done s = true ->
    exec_step s {| ctx_done := true; cancelled := true; stop_closed := stop_closed s; deadline := deadline s; watchdog := Cancelling; main := main s |}
| E_deadline s :
    watchdog s = Cancelling ->
    exec_step s {| ctx_done := ctx_done s; cancelled := cancelled s; stop_closed := stop_closed s; deadline := true; watchdog := Exited; main := main s |}
| E_stopped s :
    watchdog s = Waiting -> stop_closed s = true ->
    exec_step s {| ctx_done := ctx_done s; cancelled := cancelled s; stop_closed := stop_closed s; deadline := deadline s; watchdog := Exited; main := main s |}
| E_query ok s : main s = Querying -> exec_step s (query_returned ok s)
| E_reset_unsent s : main s = Resetting -> exec_step s (at_caller true (Joining Discarded) s)
| E_reset ok s : main s = Resetting -> exec_step s (reset_returned ok s)
| E_join f s : main s = Joining f -> watchdog s = Exited -> exec_step s (at_caller false (Returned f) s).

Record exec_inv (s : Exec) : Prop := {
  inv_cancelled : cancelled s = true <-> watchdog s = Cancelling \/ (watchdog s = Exited /\ deadline s = true);
  inv_deadline : deadline s = true -> watchdog s = Exited;
  inv_joining : forall f, main s = Joining f -> stop_closed s = true \/ cancelled s = true;
  inv_returned : forall f, main s = Returned f -> watchdog s = Exited;
  inv_running : main s = Querying \/ main s = Resetting -> stop_closed s = false
}.

Lemma exec_step_inv s s' : exec_inv s -> exec_step s s' -> exec_inv s'.
Proof.
  intros [Hc Hd Hj Hr Hn] Hst. destruct Hst as [s|s Hw Hx|s Hw|s Hw Hx|ok s Hm|s Hm|ok s Hm|f s Hm Hw]; unfold query_returned, reset_returned, at_caller;
    repeat case_match; (split; cbn; try rewrite Hm in *; try rewrite Hw in *; cbn in *; try naive_solver).
Qed.

Lemma exec_reachable s : rtc exec_step exec_start s -> exec_inv s.
Proof. revert s. apply rtc_ind_r; [by split; cbn; naive_solver|]. intros s s' _ Hst Hi. by eapply exec_step_inv. Qed.

Lemma settled_step s s' f : main s = Returned f -> watchdog s = Exited -> exec_step s s' -> main s' = Returned f /\ watchdog s' = Exited /\ deadline s' = deadline s.
Proof. intros Hm Hw Hst. destruct Hst; cbn; try congruence; by split_and!. Qed.

Lemma settled_run s s' f : main s = Returned f -> watchdog s = Exited -> rtc exec_step s s' -> main s' = Returned f /\ watchdog s' = Exited /\ deadline s' = deadline s.
Proof.
  intros Hm Hw Hr. revert Hm Hw. induction Hr as [s|s s1 s2 Hst _ IH]; intros Hm Hw; [done|].
  destruct (settled_step _ _ _ Hm Hw Hst) as (Hm1 & Hw1 & Hd1). destruct (IH Hm1 Hw1) as (Hm2 & Hw2 & Hd2). split_and!; [done..|congruence].
Qed.

(** The caller that waits is let go. *)
Lemma joins s f : exec_inv s -> main s = Joining f -> exists s', rtc exec_step s s' /\ main s' = Returned f.
Proof.
  intros [Hc _ Hj _ _] Hm. assert (forall s, main s = Joining f -> watchdog s = Exited -> exists s', rtc exec_step s s' /\ main s' = Returned f) as Hexit.
  { intros s1 Hm1 Hw1. eexists. split; [by apply rtc_once, E_join|done]. }
  destruct (watchdog s) eqn:Hw; [| |by apply Hexit].
  - destruct (Hj _ Hm) as [Hs|Hx%Hc]; [|naive_solver].
    edestruct (Hexit {| ctx_done := ctx_done s; cancelled := cancelled s; stop_closed := stop_closed s; deadline := deadline s; watchdog := Exited; main := main s |})
      as (s' & Hr & Hm'); [done..|]. exists s'. split; [|done]. eapply rtc_l; [by apply E_stopped|done].
  - edestruct (Hexit {| ctx_done := ctx_done s; cancelled := cancelled s; stop_closed := stop_closed s; deadline := true; watchdog := Exited; main := main s |})
      as (s' & Hr & Hm'); [done..|]. exists s'. split; [|done]. eapply rtc_l; [by apply E_deadline|done].
Qed.

(** C26: the watchdog of a Data API query does not outlive it. In every interleaving of
    [executeOnPool], its watchdog and the cancellation of the request, once the connection is
    handed back the watchdog has exited and never touches the connection's deadline again, and a
    caller that waits for the watchdog is always let go: the two never deadlock. *)
Theorem watchdog_joined s :
  rtc exec_step exec_start s ->
  (forall f, main s = Returned f -> watchdog s = Exited /\ forall s', rtc exec_step s s' -> deadline s' = deadline s /\ main s' = Returned f) /\
  (forall f, main s = Joining f -> exists s', rtc exec_step s s' /\ main s' = Returned f).
Proof.
  intros Hi%exec_reachable. split; [|by intros f; apply joins]. intros f Hm. pose proof (inv_returned _ Hi _ Hm) as Hw. split; [done|].
  intros s' Hr. by destruct (settled_run _ _ _ Hm Hw Hr) as (? & ? & ?).
Qed.
End Watchdog.

(** ** Examples *)

Module Examples.
#[local] Existing Instance ascii_case.
#[local] Existing Instance Session.Examples.no_trees.
#[local] Existing Instance Accounting.Examples.no_rewriting.
#[local] Existing Instance Accounting.Examples.no_texts.

Definition post (text : bytes) : Request := {| Method := $"POST"; Authorization := []; Body := text; Database := $"db" |}.
Definition no_cancel : Cancelled := {| after_query := false; after_reset := false |}.

(** A result of one column, and the answer to the reset. *)
Definition column (oid : Z) : Field := {| f_name := $"x"; f_table := replicate 6 x00; f_oid := oid; f_rest := replicate 8 x00 |}.
Definition backend_of (ans : bytes) : World Sess :=
  Accounting.Examples.example_session (only_databases ∅) [] (ans ++ answer_end $"DISCARD ALL" "I").

Definition groups0 : gmap bytes DatabaseGroup := {[ $"db" := group (Accounting.Examples.example_server (only_databases ∅)) ]}.

(** [{"sql": "UPDATE t SET x = 1"}] *)
Definition update_request : Request := post (print (JObj [($"sql", JStr $"UPDATE t SET x = 1")])).
Definition update_world : World Sess := backend_of (answer_end $"UPDATE 1" "I").

Lemma handleQuery_accounts_witness :
  let '(r, w') := handleQuery elements $"db" groups0 no_cancel no_cancel update_request update_world in
  acquired_ids (trace w') = [1] /\ judge_all (judge true) nothing_held (trace w') = Some nothing_held.
Proof.
  assert (exists resp, (handleQuery elements $"db" groups0 no_cancel no_cancel update_request update_world).1 = Ok resp /\
          acquired_ids (trace (handleQuery elements $"db" groups0 no_cancel no_cancel update_request update_world).2) = [1]) as (resp & Hr & Hi)
    by (eexists; split; vm_compute; reflexivity).
  destruct (handleQuery elements $"db" groups0 no_cancel no_cancel update_request update_world) as [r w'] eqn:E. cbn [fst snd] in Hr, Hi. split; [exact Hi|].
  apply (handleQuery_accounts elements true $"db" groups0 no_cancel no_cancel update_request update_world w' r); [done|apply Accounting.Examples.new_honest|exact E|by rewrite Hr].
Defined.

Lemma handleQuery_guarded_witness :
  let '(r, w') := handleQuery elements $"db" groups0 no_cancel no_cancel update_request update_world in
  guarded (fun cfg => cfg = only_databases ∅) $"db" groups0 update_request update_world r w'.
Proof.
  apply (handleQuery_guarded elements (fun cfg => cfg = only_databases ∅) $"db" groups0 no_cancel no_cancel update_request update_world). by split; [|constructor].
Defined.

Definition conn1 : Pool.Conn := {| Pool.conn_id := 1; Pool.CreatedAt := 0; Pool.LastUsedAt := 0; Pool.BackendPID := 0; Pool.BackendSecret := 0 |}.

Lemma executeQuery_decodes_witness :
  executeQuery conn1 $"SELECT x" (dialogue conn1 [] (answer [column 20] [[Some $"7"]; [None]] $"SELECT 2" "I" ++ $"Z") update_world) =
  (Ok {| Columns := [$"x"]; Types := [$"int8"]; Rows := [Some [VInt 7]; Some [VNull]]; RowCount := 2; Command := $"SELECT 2" |},
   dialogue conn1 [WriteMessage Msg.Query ($"SELECT x" ++ [x00])] $"Z" update_world).
Proof.
  rewrite (executeQuery_decodes conn1 $"SELECT x" [column 20] [[Some $"7"]; [None]] $"SELECT 2" "I" [] $"Z" update_world); [reflexivity|done|done| |by vm_compute| |done|by unfold NulFree; apply (bool_decide_unpack _); vm_compute|done].
  - repeat constructor; try (by vm_compute); by unfold NulFree; apply (bool_decide_unpack _); vm_compute.
  - repeat constructor; by vm_compute.
Defined.

Definition flags : QueryResponse :=
  {| Columns := [$"a"; $"b"]; Types := [$"bool"; $"text"]; Rows := [Some [VBool true; VString ($"<" ++ [xc3; xa9])]; Some [VNull; VString []]; None]; RowCount := 3; Command := $"SELECT 3" |}.

Lemma cached_response_kept_witness : exists data, marshal flags = Some data /\ unmarshal data = Some flags.
Proof. apply (cached_response_kept flags). by vm_compute. Defined.

(** An int8 of more than 53 bits is another number when it is served from the cache. *)
Definition big : QueryResponse := {| Columns := [$"x"]; Types := [$"int8"]; Rows := [Some [convertValue $"9007199254740993" 20]]; RowCount := 1; Command := $"SELECT 1" |}.

Example cached_int8_changes :
  Contains (default [] (marshal big)) $"[[9007199254740993]]" = true /\
  Contains (default [] ((marshal big ≫= unmarshal) ≫= marshal)) $"[[9007199254740992]]" = true.
Proof. split; by vm_compute. Qed.

(** A float8 that is not finite has no JSON: the response is an empty 200. *)
Example nan_response :
  writeResponse {| Columns := [$"x"]; Types := [$"float8"]; Rows := [Some [convertValue $"NaN" 701]]; RowCount := 1; Command := $"SELECT 1" |} = {| status := 200; body := [] |}.
Proof. by vm_compute. Qed.

(** A column of length -2 makes the handler panic, and its connection is not returned. *)
Example negative_length_leaks :
  let '(r, w') := handleQuery elements $"db" groups0 no_cancel no_cancel update_request
                    (backend_of (WriteMessage Msg.DataRow (PutUint16 1 ++ PutUint32 (-2)))) in
  r = Panic /\ exists a, judge_all (judge true) nothing_held (trace w') = Some a /\ held a !! 1 = Some 0.
Proof. vm_compute. split; [done|]. by eexists. Qed.

(** An error of the reset query goes unnoticed: the connection is released to its pool. *)
Example failed_reset_released :
  let '(r, w') := handleQuery elements $"db" groups0 no_cancel no_cancel update_request
                    (Accounting.Examples.example_session (only_databases ∅) []
                       (answer_end $"UPDATE 1" "I" ++ WriteMessage Msg.ErrorResponse [x00] ++ WriteMessage Msg.ReadyForQuery $"I")) in
  list.last (trace w') = Some (EvRelease 0 conn1).
Proof. by vm_compute. Qed.

(** The request is cancelled between the check of the flag and the join: the watchdog sets the
    deadline of a connection that is then released. *)
Example late_cancellation :
  exists s, rtc Watchdog.exec_step Watchdog.exec_start s /\ Watchdog.main s = Watchdog.Returned Watchdog.Released /\ Watchdog.deadline s = true.
Proof.
  eexists. split; [|split].
  - eapply rtc_l; [by apply (Watchdog.E_query true)|]. eapply rtc_l; [by apply (Watchdog.E_reset true)|]. eapply rtc_l; [apply Watchdog.E_cancel_context|].
    eapply rtc_l; [by apply Watchdog.E_cancelled|]. eapply rtc_l; [by apply Watchdog.E_deadline|]. apply rtc_once. by apply (Watchdog.E_join Watchdog.Released).
  - done.
  - done.
Qed.

Lemma watchdog_joined_witness : exists s', rtc Watchdog.exec_step (Watchdog.query_returned false Watchdog.exec_start) s' /\ Watchdog.main s' = Watchdog.Returned Watchdog.Discarded.
Proof. apply (Watchdog.watchdog_joined (Watchdog.query_returned false Watchdog.exec_start)); [by apply rtc_once, (Watchdog.E_query false)|done]. Defined.
End Examples.
