(* ===== verification/LsnPoll.v ===== *)
(** * Polling of replay positions (internal/proxy/lsn.go)

    The poll of one group: each reader of the balancer is asked for its replay LSN over a
    connection of its pool, and the balancer is told. The ticker that repeats the poll for every
    group is left out. Then what a session finds that chooses a reader after a poll, by itself and among
    others. *)

From S2P Require Import Json Auth.
From S2P Require Import Prelude GoStrings Float64 Config Wire SqlLex Classify Tables Ast Firewall Rewriter SessionCompat.
From S2P Require Import Lsn Session Balancer RateLimit Breaker Cache Pool Synth Timeout Relay DbGroup Proxy Handlers Query Logic Accounting DataApi.

Local Open Scope nat_scope.

(** [dbg.balancer.SetReplayLSN(addr, lsn)]. *)
Definition set_replay_lsn (addr : bytes) (lsn : LSN) : M unit :=
  update (fun s => set_group (set_balancer (SetReplayLSN (balancer (group s)) addr lsn) (group s)) s).

(** One reader. *)
Definition poll_reader (addr : bytes) (rPool : pool_loc) : M unit :=
  conn <-! acquire rPool;
  match conn with
  | None => ret tt
  | Some conn =>
      lsn <-! attempt (queryReplayLSN conn);
      match lsn with
      | None => discardToPool conn (Some rPool)
      | Some lsn => releaseToPool conn (Some rPool) ;! set_replay_lsn addr lsn
      end
  end.

Fixpoint poll_readers (readers : gmap bytes pool_loc) (addrs : list bytes) : M unit :=
  match addrs with
  | [] => ret tt
  | addr :: addrs' =>
      (match readers !! addr with
       | Some rPool => poll_reader addr rPool
       | None => ret tt
       end) ;!
      poll_readers readers addrs'
  end.

Definition pollReaderLSNsForGroup : M unit :=
  readers <-! ask (fun s => readerPools (group s));
  addrs <-! ask (fun s => Backends (balancer (group s)));
  poll_readers readers addrs.

(** ** Every connection goes back *)

Section Accounts.
Context (strict : bool).

#[local] Instance poll_accounts : Setting Acc := accounts strict always always_static.

Lemma spec_poll_reader Hd v addr p (Q : res unit unit -> Acc -> Vars -> Prop) :
  (forall r, Q r (resting Hd) v) -> spec (resting Hd) v (poll_reader addr p) Q.
Proof.
  intros HQ. apply spec_seq, spec_acquire; [by apply spec_ret|]. intros c Hc. unfold hold. cbn [held target timer resting].
  apply spec_seq, spec_attempt, (spec_talk _ _ _ _ _ c); [apply talk_query_lsn|apply held_borrowed|]. intros [lsn|[]|]; [| |done].
  - apply spec_seq, spec_release; [apply returnable_borrowed|]. rewrite give_borrowed by done. apply spec_access; [intros s; by split_and!|done].
  - apply spec_discard; [apply returnable_borrowed|]. by rewrite give_borrowed.
Qed.

Lemma spec_poll_readers Hd v readers addrs (Q : res unit unit -> Acc -> Vars -> Prop) :
  (forall r, Q r (resting Hd) v) -> spec (resting Hd) v (poll_readers readers addrs) Q.
Proof.
  intros HQ. induction addrs as [|addr addrs IH]; [by apply spec_ret|]. cbn [poll_readers]. apply spec_seq.
  destruct (readers !! addr); [apply spec_poll_reader|apply spec_ret, IH]. by intros [[]|e|].
Qed.

(** A poll that does not panic returns every connection it takes to its pool, whatever the
    readers answer. *)
Lemma poll_returns (w w' : World Sess) r :
  trace w = [] -> honest strict (grants w) -> pollReaderLSNsForGroup w = (r, w') -> r <> Panic ->
  judge_all (judge strict) nothing_held (trace w') = Some nothing_held.
Proof.
  intros Ht Hg E Hr. assert (at_ nothing_held (vars (sh w)) w) as Hat.
  { split; [exists []; by rewrite Ht|done| |done]. split; [done|]. by apply Forall_true. }
  assert (spec nothing_held (vars (sh w)) pollReaderLSNsForGroup (fun _ a _ => a = nothing_held)) as Hs.
  { apply spec_seq, spec_ask. intros s _. apply spec_seq, spec_ask. intros s' _. by apply spec_poll_readers. }
  specialize (Hs w Hat). unfold wp in Hs. rewrite E in Hs. destruct Hs as [->|(a & v & [(evs & Hevs & Hj) _ _ _] & ->)]; [done|]. by rewrite Hevs.
Qed.
End Accounts.

(** ** What a poll learns *)

(** Decides the type of a message. *)
Local Ltac message_type :=
  cbn [mType mPayload andb];
  repeat (match goal with |- context [Byte.eqb ?a ?b] => let v := eval vm_compute in (Byte.eqb a b) in change (Byte.eqb a b) with v end; cbn [andb]; cbv iota).

Lemma length_digits_aux fuel base n acc : length (digits_aux fuel base n acc) <= fuel + length acc.
Proof. revert n acc. induction fuel as [|f IH]; intros n acc; [done|]. cbn [digits_aux]. case_match; cbn [length]; [lia|]. etrans; [apply IH|]. cbn [length]. lia. Qed.

Lemma length_LSN_String l : 0 < length (LSN_String l) <= 129.
Proof.
  unfold LSN_String, FormatUint, digits. rewrite length_app. cbn [length]. rewrite !length_fmap.
  pose proof (length_digits_aux 64 16 (wrapU 32 (Z.shiftr l 32)) []). pose proof (length_digits_aux 64 16 (wrapU 32 l) []). cbn [length] in *. lia.
Qed.

(** The reader's answer: one row of one column. *)
Definition lsn_field : Field := {| f_name := $"pg_last_wal_replay_lsn"; f_table := replicate 6 x00; f_oid := 3220; f_rest := replicate 8 x00 |}.
Definition lsn_answer (l : LSN) (st : byte) : bytes := answer [lsn_field] [[Some (LSN_String l)]] $"SELECT 1" st.

Lemma lsn_column_row l raw old : lsn_column (mkMessage Msg.DataRow (encodeDataRow [Some (LSN_String l)]) raw) old = LSN_String l.
Proof.
  pose proof (length_LSN_String l). unfold lsn_column, encodeDataRow. cbn [mType mPayload fmap list_fmap concat encodeParam app]. message_type.
  set (t := LSN_String l) in *. rewrite app_nil_r. rewrite (drop_app_length' (PutUint16 _)) by done. rewrite take4_PutUint32, be_value_PutUint32 by lia.
  rewrite !length_app, length_PutUint16, length_PutUint32. rewrite (proj2 (Nat.leb_le _ _)) by lia. rewrite (proj2 (Z.ltb_lt _ _)), (proj2 (Z.leb_le _ _)) by lia. cbn [andb].
  rewrite app_assoc, (drop_app_length' (PutUint16 _ ++ _)) by (by rewrite length_app, length_PutUint16, length_PutUint32). rewrite Nat2Z.id. by apply take_ge.
Qed.

Lemma run_lsn_loop {S} c n l st sent rest (w : World S) :
  lsn_loop c [] (4 + n) (dialogue c sent (lsn_answer l st ++ rest) w) = (Ok (LSN_String l), dialogue c sent rest w).
Proof.
  pose proof (length_LSN_String l). unfold lsn_answer, answer, answer_rows, answer_end. cbn [fmap list_fmap concat]. rewrite app_nil_r, <- !app_assoc.
  cbn [Nat.add lsn_loop]. rewrite run_read by (by vm_compute). cbv zeta. unfold lsn_column at 1. message_type. 
  rewrite run_read.
  2:{ unfold encodeDataRow, MaxMessageSize. cbn [fmap list_fmap concat encodeParam]. rewrite app_nil_r, !length_app, length_PutUint16, length_PutUint32. lia. }
  cbv zeta. rewrite lsn_column_row. message_type. rewrite run_read by (by vm_compute). cbv zeta. unfold lsn_column at 1. message_type.
  rewrite run_read by (by vm_compute). cbv zeta. unfold lsn_column at 1. message_type. done.
Qed.

Definition replay_query : bytes := WriteMessage Msg.Query ($"SELECT pg_last_wal_replay_lsn()" ++ [x00]).

(** The query is sent once, the answer read to its end, and the LSN is the reported one. *)
Lemma run_queryReplayLSN {S} c l st sent rest (w : World S) :
  (0 <= l < 2 ^ 64)%Z -> queryReplayLSN c (dialogue c sent (lsn_answer l st ++ rest) w) = (Ok l, dialogue c (sent ++ [replay_query]) rest w).
Proof.
  intros Hl. unfold queryReplayLSN, query_lsn. rewrite run_send. fold replay_query. unfold bind at 1, rounds_backend.
  rewrite (stream_set c _ w : stream c (dialogue c (sent ++ [replay_query]) _ w) = _). 
  destruct (answer_rounds [lsn_field] [[Some (LSN_String l)]] $"SELECT 1" st rest) as [n Hn].
  unfold lsn_answer at 1. rewrite Hn. cbn [length Nat.add]. change (Datatypes.S (Datatypes.S (Datatypes.S (Datatypes.S n)))) with (4 + n). rewrite run_lsn_loop.
  pose proof (length_LSN_String l). destruct (LSN_String l) as [|b t] eqn:E; [cbn in *; lia|]. rewrite <- E, (ParseLSN_String l Hl). done.
Qed.

(** *** Searches for a reader *)

(** A search by itself is [NextWithLSN]. *)
Definition with_balancer (r : RoundRobin) (w : World Sess) : World Sess :=
  {| cin := cin w; bin := bin w; faults := faults w; grants := grants w; trace := trace w;
     sh := {| server := set_group (set_balancer r (group (server (sh w)))) (server (sh w)); env := env (sh w); vars := vars (sh w) |} |}.

Lemma with_balancer_same w : with_balancer (balancer (group (server (sh w)))) w = w.
Proof. destruct w as [? ? ? ? ? [s ? ?]]. destruct s as [? ? ? ? ? ? ? ? ? ? ? g]. by destruct g. Qed.

Lemma search_alone ok okm w r n idx :
  env (sh w) = [] ->
  (forall l b idx, store r !! l = Some b -> okm l (with_balancer (set_index r idx) w) = (Ok (ok b), with_balancer (set_index r idx) w)) ->
  (forall l idx, store r !! l = None -> okm l (with_balancer (set_index r idx) w) = (Panic, with_balancer (set_index r idx) w)) ->
  search okm (backends r) n (with_balancer (set_index r idx) w) =
    ((next_loop ok r idx n).1, with_balancer (set_index r (next_loop ok r idx n).2) w).
Proof.
  intros He Hok Hno. revert idx. induction n as [|n IH]; intros idx; [done|]. cbn [search next_loop].
  unfold bind at 1, draw, access. cbn [with_balancer env sh]. rewrite He. cbn [server group set_group balancer set_balancer index set_index].
  destruct (next_idx idx (length (backends r))) as [i idx'].
  match goal with |- context [match slice_at _ _ with _ => _ end ?x] => replace x with (with_balancer (set_index r idx') w) by (unfold with_balancer; by rewrite He) end.
  unfold at_idx. destruct (slice_at (backends r) i) as [l|]; cbn [mbind option_bind]; [|done]. unfold bind at 1.
  destruct (store r !! l) as [b|] eqn:Eb; [|by rewrite Hno]. rewrite (Hok _ _ _ Eb). destruct (ok b); [|apply IH].
  unfold load, bind, ask, access. cbn [with_balancer env sh]. rewrite He. cbn. rewrite Eb. unfold with_balancer, set_group. cbn. by rewrite He.
Qed.

Lemma load_alone {A} (f : Backend -> A) l w :
  env (sh w) = [] -> load f l w = (match store (balancer (group (server (sh w)))) !! l with Some b => Ok (f b) | None => Panic end, w).
Proof.
  intros He. unfold load, bind, ask, access. rewrite He. cbn. destruct w as [? ? ? ? ? [s e v]]. cbn in *. subst e. by destruct (store _ !! l).
Qed.

Lemma next_reader_alone minLSN w :
  env (sh w) = [] -> (next_reader_with_lsn minLSN w).1 = (NextWithLSN (balancer (group (server (sh w)))) minLSN).1.
Proof.
  intros He. set (r := balancer (group (server (sh w)))). assert (w = with_balancer (set_index r (index r)) w) as Hw.
  { rewrite <- (with_balancer_same w) at 1. fold r. by destruct r. }
  assert (forall okm ok, (forall l b idx, store r !! l = Some b -> okm l (with_balancer (set_index r idx) w) = (Ok (ok b), with_balancer (set_index r idx) w)) ->
    (forall l idx, store r !! l = None -> okm l (with_balancer (set_index r idx) w) = (Panic, with_balancer (set_index r idx) w)) ->
    (search_slice okm w).1 = (next_loop ok r (index r) (length (backends r))).1) as Hs.
  { intros okm ok Hok Hno. unfold search_slice, bind, ask, access. rewrite He. fold r.
    match goal with |- context [search _ _ _ ?x] => replace x with w by (destruct w as [? ? ? ? ? []]; cbn in *; by subst) end.
    rewrite Hw. by rewrite (search_alone ok okm w r _ _ He Hok Hno). }
  unfold next_reader_with_lsn, NextWithLSN, Next. destruct (IsZero minLSN).
  - unfold next_reader. rewrite (Hs _ healthy); [by destruct (next_loop _ _ _ _)|..]; intros; rewrite load_alone by done; cbn; by simplify_option_eq.
  - rewrite (Hs _ (caught_up minLSN)); [by destruct (next_loop _ _ _ _)|..]; intros; unfold bind; rewrite load_alone by done; cbn; simplify_option_eq; [|done].
    unfold caught_up. destruct (healthy _); [|done]. rewrite load_alone by done. cbn. by simplify_option_eq.
Qed.

(** Among others, who leave the slice, the addresses and the position of [addr] alone. *)
Definition calm (addr : bytes) (r0 : RoundRobin) (s : Server) : Prop :=
  backends (balancer (group s)) = backends r0 /\
  forall lc b0, lc ∈ backends r0 -> store r0 !! lc = Some b0 ->
    exists b, store (balancer (group s)) !! lc = Some b /\ Addr b = Addr b0 /\ (Addr b0 = addr -> replayLSN b = replayLSN b0).

Lemma wp_load {A C} P (f : Backend -> A) l (k : A -> M C) Q w :
  remains P (sh w) -> (forall w', Q Panic w') ->
  (forall s b w', P s -> remains P (sh w') -> store (balancer (group s)) !! l = Some b -> wp (k (f b)) Q w') -> wp (bind (load f l) k) Q w.
Proof.
  intros HP Hpanic Hk. apply wp_bind. unfold load. apply wp_bind, (wp_ask P); [done|]. intros s w' Hs Ha.
  destruct (store (balancer (group s)) !! l) as [b|] eqn:Eb; [|apply Hpanic]. cbn. eapply Hk; [done|apply Ha|done].
Qed.

Lemma wp_draw P n Q w :
  remains P (sh w) -> (forall s idx, P s -> P (set_group (set_balancer (set_index (balancer (group s)) idx) (group s)) s)) ->
  (forall i w', remains P (sh w') -> Q (Ok i) w') -> wp (draw n) Q w.
Proof.
  intros [HP He] Hidx HQ. unfold wp, draw, access. destruct (match env (sh w) with e :: es => (e, es) | [] => (fun s => s, []) end) as [change env'] eqn:Ee. cbv zeta.
  destruct (next_idx (index (balancer (group (change (server (sh w)))))) n) as [i idx]. apply HQ. split; cbn [sh server env].
  - apply Hidx. destruct (env (sh w)); injection Ee as <- <-; [done|]. inversion He. auto.
  - destruct (env (sh w)); injection Ee as <- <-; [done|]. by inversion He.
Qed.

Lemma wp_search addr r0 minLSN slice n w :
  remains (calm addr r0) (sh w) -> (forall lc, lc ∈ slice -> lc ∈ backends r0) -> Balancer.wf r0 ->
  wp (search (fun l => up <-! load healthy l; if up then lsn <-! load replayLSN l; ret (minLSN <=? lsn)%Z else ret false) slice n)
    (fun r _ => forall a, r = Ok a -> a = [] \/ exists b0, b0 ∈ Balancer.view r0 /\ Addr b0 = a /\ (a = addr -> (minLSN <= replayLSN b0)%Z)) w.
Proof.
  intros Hr Hsl Hwf. revert w Hr. induction n as [|n IH]; intros w Hr; cbn [search]; [intros a [= <-]; by left|].
  apply wp_bind, (wp_draw (calm addr r0)); [done|done|]. intros i w1 Hr1. destruct (slice_at slice i) as [lc|] eqn:El; [|done].
  assert (lc ∈ backends r0) as Hlc by (apply Hsl; unfold slice_at in El; case_match; [done|by eapply list_elem_of_lookup_2]).
  assert (exists b0, store r0 !! lc = Some b0) as [b0 Eb0] by (destruct Hwf as [Hall _]; rewrite Forall_forall in Hall; by apply Hall, list_elem_of_In).
  assert (b0 ∈ Balancer.view r0) as Hv by (apply list_elem_of_omap; eauto).
  apply wp_assoc, (wp_load (calm addr r0)); [done|done|]. intros s b w2 _ Hr2 _. destruct (healthy b); [|by apply IH].
  apply wp_assoc, (wp_load (calm addr r0)); [done|done|]. intros s3 b3 w3 [_ Hs3] Hr3 Eb3. destruct (Hs3 lc b0 Hlc Eb0) as (b' & E' & Ea & Hp). simplify_eq.
  cbn. destruct (Z.leb_spec minLSN (replayLSN b3)) as [Hle|Hlt]; [|by apply IH].
  apply wp_last, (wp_load (calm addr r0)); [done|done|]. intros s4 b4 w4 [_ Hs4] _ Eb4. destruct (Hs4 lc b0 Hlc Eb0) as (b5 & E5 & Ea5 & _). simplify_eq.
  cbn. intros a [= <-]. right. exists b0. split_and!; [done|done|]. intros E. rewrite <- Hp by congruence. done.
Qed.

(** Readers chosen after [addr] reported [l]. *)
Lemma SetReplayLSN_shape r addr l :
  Balancer.wf r -> Balancer.wf (SetReplayLSN r addr l) /\ backends (SetReplayLSN r addr l) = backends r /\ index (SetReplayLSN r addr l) = index r.
Proof.
  intros Hwf. unfold SetReplayLSN. destruct (find_loc r addr) as [lc|]; [|done]. split; [by apply wf_update_at|]. unfold update_at. by destruct (store r !! lc).
Qed.

Lemma NextWithLSN_reported r addr l minLSN :
  Balancer.wf r -> NoDup (Backends r) -> (index r + Z.of_nat (length (backends r)) < 2 ^ 63)%Z -> (0 < minLSN)%Z ->
  exists a, (NextWithLSN (SetReplayLSN r addr l) minLSN).1 = Ok a /\
    ((minLSN <= l)%Z -> (exists b, b ∈ Balancer.view r /\ Addr b = addr /\ healthy b = true) -> a ∈ Backends r).
Proof.
  intros Hwf Hnd Hi Hm.
  pose proof (view_update_first r addr (set_replay l) Hwf Hnd : Balancer.view (SetReplayLSN r addr l) = _) as Hv.
  destruct (SetReplayLSN_shape r addr l Hwf) as (Hwf' & Hb' & Hi').
  rewrite NextWithLSN_exact by (rewrite ?Hb', ?Hi'; done). assert (IsZero minLSN = false) as Hz by (unfold IsZero, InvalidLSN; lia).
  unfold acceptable. rewrite Hz. destruct (first_ok _ _) as [[b|] k] eqn:E; eexists; (split; [done|]); cbn [from_option]; intros Hl Hr.
  - apply first_ok_Some in E as [Hin Hok]. rewrite elem_of_cyclic, Hv in Hin. apply list_elem_of_fmap in Hin as (b0 & -> & Hin).
    unfold Backends. apply list_elem_of_fmap. exists b0. split; [by case_bool_decide|done].
  - destruct Hr as (b & Hin & Ha & Hh). exfalso.
    assert (set_replay l b ∈ Balancer.view (SetReplayLSN r addr l)) as Hin'.
    { rewrite Hv. apply list_elem_of_fmap. exists b. by rewrite bool_decide_true. }
    pose proof (first_ok_None _ _ _ E (set_replay l b)) as Hno. rewrite elem_of_cyclic in Hno. specialize (Hno Hin'). unfold caught_up in Hno. cbn in Hno. rewrite Hh in Hno. cbn in Hno. lia.
Qed.

Lemma answer_cons fs rows tag st : exists b t, answer fs rows tag st = b :: t.
Proof. unfold answer. cbn [WriteMessage app]. by eexists _, _. Qed.

Definition reports (c : Pool.Conn) (p : pool_loc) (l : LSN) (st : byte) (rest : bytes) (w : World Sess) : Prop :=
  faults w = [] /\ env (sh w) = [] /\ grants w p (trace w) = Some c /\ stream c w = lsn_answer l st ++ rest.

Lemma dialogue_start c rest (w : World Sess) : faults w = [] -> stream c w = rest -> is_Some (bin w !! Pool.conn_id c) -> w = dialogue c [] rest w.
Proof.
  intros Hf Hs [x Hx]. unfold dialogue. unfold stream in Hs. rewrite Hx in Hs. cbn in Hs. subst. cbn. rewrite app_nil_r, insert_id by done. by destruct w; cbn in *; subst.
Qed.

(** The same world with others about. *)
Definition amid (others : list (Server -> Server)) (w : World Sess) : World Sess :=
  {| cin := cin w; bin := bin w; faults := faults w; grants := grants w; trace := trace w;
     sh := {| server := server (sh w); env := others; vars := vars (sh w) |} |}.

(** A reader that reported less than [minLSN] is not used, whoever else draws readers, marks them and reports positions. *)
Lemma search_avoids addr l minLSN others w r :
  balancer (group (server (sh w))) = SetReplayLSN r addr l -> Balancer.wf r -> NoDup (Backends r) -> addr <> [] -> (0 < minLSN)%Z -> (l < minLSN)%Z ->
  Forall (fun change => forall s, calm addr (SetReplayLSN r addr l) s -> calm addr (SetReplayLSN r addr l) (change s)) others ->
  (next_reader_with_lsn minLSN (amid others w)).1 <> Ok addr.
Proof.
  intros Eb Hwf Hnd Hne Hm Hl Ho E. destruct (SetReplayLSN_shape r addr l Hwf) as (Hwf' & _). set (r1 := SetReplayLSN r addr l) in *.
  assert (remains (calm addr r1) (sh (amid others w))) as Hr by (split; [|done]; unfold calm; cbn [amid sh server]; rewrite Eb; split; [done|]; intros lc b0 _ ?; by exists b0).
  unfold next_reader_with_lsn in E. assert (IsZero minLSN = false) as Hz by (unfold IsZero, InvalidLSN; lia). rewrite Hz in E.
  assert (wp (search_slice (fun lc => up <-! load healthy lc; if up then lsn <-! load replayLSN lc; ret (minLSN <=? lsn)%Z else ret false))
    (fun x _ => forall a, x = Ok a -> a = [] \/ exists b0, b0 ∈ Balancer.view r1 /\ Addr b0 = a /\ (a = addr -> (minLSN <= replayLSN b0)%Z)) (amid others w)) as Hw.
  { apply wp_bind, (wp_ask (calm addr r1)); [done|]. intros s w' [Hsl _] Ha. apply wp_search; [apply Ha|by rewrite Hsl|done]. }
  unfold wp in Hw. destruct (search_slice _ _) as [x w']. cbn in E. destruct (Hw addr E) as [?|(b0 & Hin & Ha & Hp)]; [done|].
  unfold r1 in Hin. rewrite (view_update_first r addr (set_replay l) Hwf Hnd : Balancer.view (SetReplayLSN r addr l) = _) in Hin.
  apply list_elem_of_fmap in Hin as (b & -> & Hin). specialize (Hp eq_refl). case_bool_decide as Hb; cbn in *; [lia|done].
Qed.

(** C19: a poll makes the balancer know what the reader reported. When a reader answers the
    poll with its replay LSN, nothing fails and nobody else acts during the poll, the poll sends one query over
    one connection, reads the answer to its end and returns the connection. A read after a write at
    [minLSN] that then looks for a reader does not get this one if it has not replayed [minLSN], also
    when others draw readers and mark them between its steps, as long as they leave the
    slice of readers and the position of this one alone; and if it has, is healthy and nobody
    interferes, the read finds a reader. *)
Theorem poll_learns addr p c l st rest minLSN w :
  reports c p l st rest w -> (0 <= l < 2 ^ 64)%Z -> (0 < minLSN)%Z ->
  let r0 := balancer (group (server (sh w))) in
  Balancer.wf r0 -> NoDup (Backends r0) -> addr <> [] -> (index r0 + Z.of_nat (length (backends r0)) < 2 ^ 63)%Z ->
  exists w', poll_reader addr p w = (Ok tt, w') /\
    trace w' = trace w ++ [EvAcquire p c; EvSend c replay_query true; EvRelease p c] /\ stream c w' = rest /\
    ((l < minLSN)%Z -> forall others,
       Forall (fun change => forall s, calm addr (balancer (group (server (sh w')))) s -> calm addr (balancer (group (server (sh w')))) (change s)) others ->
       (next_reader_with_lsn minLSN (amid others w')).1 <> Ok addr) /\
    ((minLSN <= l)%Z -> (exists b, b ∈ Balancer.view r0 /\ Addr b = addr /\ healthy b = true) ->
       exists a, (next_reader_with_lsn minLSN w').1 = Ok a /\ a ∈ Backends r0).
Proof.
  intros (Hf & He & Hg & Hs) Hl Hm r0 Hwf Hnd Hne Hi. unfold poll_reader, acquire. unfold bind at 1. rewrite Hg. unfold bind at 1, emit at 1, ret at 1.
  set (w1 := {| cin := _; trace := _ |}). assert (is_Some (bin w1 !! Pool.conn_id c)) as Hb.
  { unfold w1, stream in *. cbn [bin]. destruct (bin w !! Pool.conn_id c); [done|]. destruct (answer_cons [lsn_field] [[Some (LSN_String l)]] $"SELECT 1" st) as (b & t & E).
    unfold lsn_answer in Hs. rewrite E in Hs. discriminate Hs. }
  rewrite (dialogue_start c (lsn_answer l st ++ rest) w1) by done. unfold bind at 1, attempt at 1. rewrite run_queryReplayLSN by done.
  eexists. split; [unfold bind at 1, releaseToPool, emit, set_replay_lsn, update, access; cbn [env sh dialogue w1]; rewrite He; reflexivity|]. cbn [trace dialogue w1 sh server].
  split_and!; [by rewrite <- !app_assoc|unfold stream; cbn; by rewrite lookup_insert_eq|..].
  - intros Hlt others Ho. by apply (search_avoids addr l minLSN others _ r0).
  - intros Hle Hb'. rewrite next_reader_alone by done. destruct (NextWithLSN_reported r0 addr l minLSN) as (a & Ea & Hin); [done..|]. exists a. split; [done|auto].
Qed.

Module Examples.
Definition conn1 : Pool.Conn := {| Pool.conn_id := 1; Pool.CreatedAt := 0; Pool.LastUsedAt := 0; Pool.BackendPID := 0; Pool.BackendSecret := 0 |}.

(** A group with the readers of [rr3]; the reader polled reports 0/16B3748. *)
Definition poll_world : World Sess :=
  let s := Accounting.Examples.example_server (only_databases ∅) in
  {| cin := []; bin := {[ 1 := lsn_answer 23803720%Z "I" ]}; faults := []; grants := Accounting.Examples.new_conn; trace := [];
     sh := {| server := set_group (set_balancer rr3 (group s)) s; env := []; vars := initial_vars Accounting.Examples.session0 |} |}.

Lemma poll_learns_witness :
  exists w', poll_reader $"b:1" 4 poll_world = (Ok tt, w') /\
    trace w' = [] ++ [EvAcquire 4 conn1; EvSend conn1 replay_query true; EvRelease 4 conn1] /\ stream conn1 w' = [] /\
    ((23803720 < 23803700)%Z -> forall others,
       Forall (fun change => forall s, calm $"b:1" (balancer (group (server (sh w')))) s -> calm $"b:1" (balancer (group (server (sh w')))) (change s)) others ->
       (next_reader_with_lsn 23803700%Z (amid others w')).1 <> Ok $"b:1") /\
    ((23803700 <= 23803720)%Z -> (exists b, b ∈ Balancer.view rr3 /\ Addr b = $"b:1" /\ healthy b = true) ->
       exists a, (next_reader_with_lsn 23803700%Z w').1 = Ok a /\ a ∈ Backends rr3).
Proof.
  apply (poll_learns $"b:1" 4 conn1 23803720%Z "I" [] 23803700%Z poll_world); [|done|done|apply rr3_wf| |done|by vm_compute].
  - by split_and!.
  - apply (bool_decide_unpack _). by vm_compute.
Defined.

(** One of two readers is healthy. A search finds it, unless another caller draws between the two
    tries: then both tries look at the unhealthy one. *)
Definition one_up (others : list (Server -> Server)) : World Sess :=
  amid others (with_balancer (MarkUnhealthy (NewRoundRobin [$"a:1"; $"b:1"]) $"a:1") poll_world).

Definition another_draws (s : Server) : Server :=
  let rr := balancer (group s) in set_group (set_balancer (set_index rr (next_idx (index rr) 2).2) (group s)) s.

Example search_misses :
  (next_reader (one_up [])).1 = Ok $"b:1" /\ (next_reader (one_up [fun s => s; fun s => s; fun s => s; another_draws])).1 = Ok [].
Proof. by vm_compute. Qed.
End Examples.
