(* ===== verification/Admin.v ===== *)
(** * The Admin API (internal/admin/admin.go)

    The HTTP endpoints for probes, statistics, configuration and controls. Like the Go server,
    [Server] holds functions: how to reach the configuration, the cache, the groups and the switches of
    the proxy, over a state [St] that others change too. A handler calls them one at a time, and
    [others] is what the rest of the proxy does in between. [effects] records the changes that a
    handler made.

    The request is as net/http presents it, with a clean path. Whether an address accepts TCP
    connections, the order in which goroutines finish and the zone of the clock are arguments. The
    values of the functions of type [func() any] are given by their JSON. Logging is left out. *)

From S2P Require Import Cancel AuditLog Digest Mirror Json DataApi ProxyServer.
From S2P Require Import Prelude GoStrings Net Config ConnLimit Rewriter Cache Pool DbGroup.

Local Open Scope nat_scope.

(** ** Requests and responses *)

Record Request := { Method : bytes; Path : bytes; RemoteAddr : bytes; Authorization : bytes; XForwardedFor : bytes }.

(** [Code] 200 is the default. *)
Record Response := { Code : Z; Body : bytes }.

(** A Go map is written with its keys in order. *)
Fixpoint insert_member (k : bytes) (v : json) (l : list (bytes * json)) : list (bytes * json) :=
  match l with
  | [] => [(k, v)]
  | (k', v') :: l' => if bytes_leb k k' then (k, v) :: l else (k', v') :: insert_member k v l'
  end.
Definition JMap (l : list (bytes * json)) : json := JObj (foldr (fun kv acc => insert_member kv.1 kv.2 acc) [] l).

Definition respond (code : Z) (v : json) : Response := {| Code := code; Body := print v ++ [x0a] |}.
Definition writeJSON (v : json) : Response := respond 200 v.
Definition writeJSONError (code : Z) (message : bytes) : Response := respond code (JMap [($"error", JStr message)]).
(** [http.Error]. *)
Definition http_Error (message : bytes) (code : Z) : Response := {| Code := code; Body := message ++ [x0a] |}.
Definition not_allowed : Response := http_Error $"method not allowed" 405.

Definition status_only (s : bytes) : Response := writeJSON (JMap [($"status", JStr s)]).

(** ** Times *)

(** Nanoseconds from 1970; the zero [time.Time] is the first of January of the year 1. *)
Definition instant (t : Time) : Z := if IsZeroTime t then (-62135596800 * Second)%Z else t.

(** The date of a day counted from 1970-01-01, in the proleptic Gregorian calendar; the year begins in March. *)
Definition civil (days : Z) : Z * Z * Z :=
  let z := (days + 719468)%Z in
  let era := (z / 146097)%Z in
  let doe := (z mod 146097)%Z in
  let yoe := ((doe - doe / 1460 + doe / 36524 - doe / 146096) / 365)%Z in
  let doy := (doe - (365 * yoe + yoe / 4 - yoe / 100))%Z in
  let mp := ((5 * doy + 2) / 153)%Z in
  let m := (if mp <? 10 then mp + 3 else mp - 9)%Z in
  ((yoe + era * 400 + if m <=? 2 then 1 else 0)%Z, m, (doy - (153 * mp + 2) / 5 + 1)%Z).

(** A number of at least [n] digits. *)
Definition padded (n : nat) (v : Z) : bytes := let s := FormatInt v in replicate (n - length s) "0"%byte ++ s.

Section Times.
(** Seconds east of UTC of the local time. *)
Context (zone : Time -> Z).

Definition offset_of (t : Time) : Z := if IsZeroTime t then 0%Z else zone t.

Definition zone_text (off : Z) : bytes :=
  if (off =? 0)%Z then $"Z"
  else (if (off <? 0)%Z then $"-" else $"+") ++ padded 2 (Z.abs off / 60 / 60) ++ $":" ++ padded 2 (Z.abs off / 60 mod 60).

Definition date_time (t : Time) : bytes :=
  let secs := (instant t / Second + offset_of t)%Z in
  let '(y, m, d) := civil (secs / 86400) in
  let sod := (secs mod 86400)%Z in
  padded 4 y ++ $"-" ++ padded 2 m ++ $"-" ++ padded 2 d ++ $"T" ++ padded 2 (sod / 3600) ++ $":" ++ padded 2 (sod / 60 mod 60) ++ $":" ++ padded 2 (sod mod 60).

(** [t.Format(time.RFC3339)], and the layout of JSON with the nanoseconds that are not zero. *)
Definition RFC3339 (t : Time) : bytes := date_time t ++ zone_text (offset_of t).

Fixpoint drop_zeros (rev_digits : bytes) : bytes := match rev_digits with b :: t => if (b =b "0") then drop_zeros t else rev_digits | [] => [] end.
Definition fraction (ns : Z) : bytes := if (ns =? 0)%Z then [] else $"." ++ rev (drop_zeros (rev (padded 9 ns))).
Definition RFC3339Nano (t : Time) : bytes := date_time t ++ fraction (instant t mod Second) ++ zone_text (offset_of t).
End Times.

(** ** The server *)

(** What a handler changed. *)
Inductive effect :=
| FlushedAll | FlushedTable (table : bytes) | Published (tables : option (list bytes))
| Reloaded | DigestReset | SetMaintenance (on : bool) | SetReadOnly (on : bool) | Cancelled_session (id : Z).

Record Server (St : Type) := {
  cfgFn : St -> Config.Config;
  cacheFn : St -> option Cache.Cache;
  cachePut : Cache.Cache -> St -> St;
  invalidatorFn : St -> bool;
  dbGroupsFn : St -> gmap bytes DatabaseGroup;
  poolStats : St -> pool_loc -> Z * nat;
  auditLoggerFn : St -> option AuditLog.Logger;
  mirrorStatsFn : option (St -> option json);
  digestStatsFn : option (St -> option json);
  digestResetFn : option (St -> St);
  connStatsFn : option (St -> option json);
  rewriteRulesFn : option (St -> list bytes);
  sessionsFn : option (St -> option (list SessionSnapshot));
  sessionCancelFn : option (Z -> St -> (bool * bool) * St);
  redactSQLFn : option (St -> bytes -> bytes);
  reloadFunc : option (St -> option bytes * St);
  maintenanceGetFn : option (St -> bool * Time);
  maintenanceSetFn : option (bool -> St -> St);
  readOnlyGetFn : option (St -> bool * Time);
  readOnlySetFn : option (bool -> St -> St)
}.
Arguments Build_Server {St}.
Arguments cfgFn {St}. Arguments cacheFn {St}. Arguments cachePut {St}. Arguments invalidatorFn {St}. Arguments dbGroupsFn {St}. Arguments poolStats {St}.
Arguments auditLoggerFn {St}. Arguments mirrorStatsFn {St}. Arguments digestStatsFn {St}. Arguments digestResetFn {St}. Arguments connStatsFn {St}.
Arguments rewriteRulesFn {St}. Arguments sessionsFn {St}. Arguments sessionCancelFn {St}. Arguments redactSQLFn {St}. Arguments reloadFunc {St}.
Arguments maintenanceGetFn {St}. Arguments maintenanceSetFn {St}. Arguments readOnlyGetFn {St}. Arguments readOnlySetFn {St}.

Section Handlers.
Context {St : Type} (s : Server St) (zone : Time -> Z) (dials : bytes -> bool) (finish : list bytes -> list bytes) (order : gset Z -> list Z).

(** The state, what others will do to it, and what the handler did. *)
Record Run := { state : St; others : list (St -> St); effects : list effect }.

Definition Handler (A : Type) : Type := Run -> A * Run.

Definition reply {A} (a : A) : Handler A := fun w => (a, w).
Definition andthen {A B} (m : Handler A) (k : A -> Handler B) : Handler B := fun w => let '(a, w') := m w in k a w'.

(** A call of one of the server's functions, after the next of the others. *)
Definition invoke {A} (f : St -> A * St) : Handler A := fun w =>
  let '(change, rest) := match others w with o :: os => (o, os) | [] => (fun x => x, []) end in
  let '(a, x) := f (change (state w)) in (a, {| state := x; others := rest; effects := effects w |}).
Definition look {A} (f : St -> A) : Handler A := invoke (fun x => (f x, x)).
Definition note (e : effect) : Handler unit := fun w => (tt, {| state := state w; others := others w; effects := effects w ++ [e] |}).
Definition perform {A} (e : effect) (f : St -> A * St) : Handler A := andthen (note e) (fun _ => invoke f).

Notation "x <-H m ; k" := (andthen m (fun x => k)) (at level 100, m at next level, right associativity).

(** ** Authentication *)

Definition extractBearerToken (r : Request) : bytes :=
  if HasPrefix (Authorization r) $"Bearer " then drop 7 (Authorization r) else [].

Definition in_entry (ip : IP) (text : bytes) (entry : bytes) : bool :=
  match ParseCIDR entry with
  | Some (_, cidr) => IPNet_Contains cidr ip
  | None => match ParseIP entry with Some _ => bool_decide (entry = text) | None => false end
  end.
Definition isTrustedProxy (ip : bytes) (trustedProxies : list bytes) : bool :=
  match ParseIP ip with None => false | Some parsed => existsb (in_entry parsed ip) trustedProxies end.
Definition isIPAllowed (clientIP : bytes) (allowlist : list bytes) : bool :=
  match ParseIP clientIP with None => false | Some ip => existsb (in_entry ip clientIP) allowlist end.

Definition remoteIP (r : Request) : bytes := match SplitHostPort (RemoteAddr r) with Some (host, _) => host | None => RemoteAddr r end.

Definition extractClientIP (r : Request) (trustedProxies : list bytes) : bytes :=
  if (0 <? length trustedProxies) && isTrustedProxy (remoteIP r) trustedProxies then
    match XForwardedFor r with
    | [] => remoteIP r
    | forwarded => TrimSpace (hd [] (SplitN2 forwarded ","))
    end
  else remoteIP r.

(** The role of the first key that is the token. *)
Definition role_of (keys : list AdminAPIKey) (token : bytes) : bytes :=
  match List.find (fun k => bool_decide (AdminKey k = token)) keys with Some k => AdminRole k | None => [] end.

Definition withAuth (next : Handler Response) (requireAdmin : bool) (r : Request) : Handler Response :=
  cfg <-H look (cfgFn s);
  let authCfg := Admin_Auth (Config.Admin cfg) in
  if negb (AdminAuth_Enabled authCfg) then next
  else if (0 <? length (IPAllowlist authCfg)) && negb (isIPAllowed (extractClientIP r (TrustedProxies authCfg)) (IPAllowlist authCfg))
  then reply (writeJSONError 403 $"ip not allowed")
  else
    let token := extractBearerToken r in
    match token with
    | [] => reply (writeJSONError 401 $"authentication required")
    | _ =>
        let role := role_of (APIKeys authCfg) token in
        match role with
        | [] => reply (writeJSONError 401 $"invalid api key")
        | _ => if requireAdmin && negb (bool_decide (role = $"admin")) then reply (writeJSONError 403 $"admin role required") else next
        end
    end.

(** The check that [handleMaintenance] and [handleReadOnly] make for changes. *)
Definition as_admin (r : Request) (k : Handler Response) : Handler Response :=
  cfg <-H look (cfgFn s);
  let authCfg := Admin_Auth (Config.Admin cfg) in
  if AdminAuth_Enabled authCfg && negb (bool_decide (role_of (APIKeys authCfg) (extractBearerToken r) = $"admin"))
  then reply (writeJSONError 403 $"admin role required") else k.

(** ** Probes *)

Definition with_reason (code : Z) (reason : bytes) : Response := respond code (JMap [($"status", JStr $"not_ready"); ($"reason", JStr reason)]).

Definition handleHealthz (r : Request) : Handler Response :=
  if negb (bool_decide (Method r = $"GET")) then reply not_allowed else reply (status_only $"ok").

(** The databases whose writer does not accept connections, as the goroutines find them. *)
Definition unreachable (groups : gmap bytes DatabaseGroup) : list bytes :=
  finish (fst <$> filter (fun kv : bytes * DatabaseGroup => dials (writerAddr kv.2) = false) (map_to_list groups)).

Definition handleReadyz (r : Request) : Handler Response :=
  if negb (bool_decide (Method r = $"GET")) then reply not_allowed
  else
    maintenance <-H (match maintenanceGetFn s with
                     | Some getFn => enabled <-H look getFn; reply (fst enabled)
                     | None => reply false
                     end);
    if maintenance then reply (with_reason 503 $"maintenance mode active")
    else
      groups <-H look (dbGroupsFn s);
      if bool_decide (groups = ∅) then reply (with_reason 503 $"no database groups configured")
      else match unreachable groups with
           | [] => reply (status_only $"ready")
           | failed => reply (with_reason 503 ($"writer unreachable for: " ++ Join failed $", "))
           end.

Definition backend_health (addr : bytes) : json := JObj [($"addr", JStr addr); ($"healthy", JBool (dials addr))].

Definition group_health (g : DatabaseGroup) : json :=
  JObj [($"writer", backend_health (writerAddr g)); ($"readers", JArr (backend_health <$> finish (fst <$> map_to_list (readerPools g))))].

Definition JMap_of {A} (f : A -> json) (m : gmap bytes A) : json := JMap ((fun kv => (kv.1, f kv.2)) <$> map_to_list m).

Definition handleHealth (r : Request) : Handler Response :=
  if negb (bool_decide (Method r = $"GET")) then reply not_allowed
  else groups <-H look (dbGroupsFn s); reply (writeJSON (JMap [($"databases", JMap_of group_health groups)])).

(** ** Statistics *)

Definition JInt (n : Z) : json := JNum (FormatInt n).

Definition pool_json (stats : Z * nat) : list (bytes * json) := [($"open", JInt stats.1); ($"idle", JInt (Z.of_nat stats.2))].

Fixpoint for_each {A B} (f : A -> Handler B) (l : list A) : Handler (list B) :=
  match l with
  | [] => reply []
  | a :: l' => b <-H f a; bs <-H for_each f l'; reply (b :: bs)
  end.

(** The pools of a group, asked one after the other. *)
Definition group_stats (g : DatabaseGroup) : Handler json :=
  writer <-H (match writerPool g with
              | Some p => stats <-H look (fun x => poolStats s x p); reply [($"writer", JMap ([($"addr", JStr (writerAddr g))] ++ pool_json stats))]
              | None => reply []
              end);
  readers <-H for_each (fun '(addr, p) => stats <-H look (fun x => poolStats s x p); reply (addr, JMap (pool_json stats))) (map_to_list (readerPools g));
  reply (JMap (writer ++ [($"readers", JMap readers)])).

Definition cache_json (c : option Cache.Cache) : json :=
  JMap ([($"enabled", JBool (match c with Some _ => true | None => false end))] ++
        match c with Some c => [($"entries", JInt (Z.of_nat (Len c)))] | None => [] end).

Definition audit_json (l : option AuditLog.Logger) : list (bytes * json) :=
  match l with
  | Some l => let '(slow, sent, errors) := AuditLog.Stats l in
              [($"audit", JMap [($"slow_queries", JInt slow); ($"webhook_sent", JInt sent); ($"webhook_errors", JInt errors)])]
  | None => []
  end.

Definition handleStats (r : Request) : Handler Response :=
  if negb (bool_decide (Method r = $"GET")) then reply not_allowed
  else
    groups <-H look (dbGroupsFn s);
    c <-H look (cacheFn s);
    l <-H look (auditLoggerFn s);
    pools <-H for_each (fun '(name, g) => j <-H group_stats g; reply (name, j)) (map_to_list groups);
    reply (writeJSON (JMap ([($"pool", JMap pools); ($"cache", cache_json c)] ++ audit_json l))).

(** The values of the optional components. *)
Definition optional_stats (fn : option (St -> option json)) (disabled : bytes) (r : Request) : Handler Response :=
  if negb (bool_decide (Method r = $"GET")) then reply not_allowed
  else match fn with
       | None => reply (status_only disabled)
       | Some fn => stats <-H look fn; reply (match stats with Some v => writeJSON v | None => status_only disabled end)
       end.
Definition handleMirrorStats : Request -> Handler Response := optional_stats (mirrorStatsFn s) $"mirror disabled".
Definition handleQueryDigest : Request -> Handler Response := optional_stats (digestStatsFn s) $"digest disabled".
Definition handleConnections : Request -> Handler Response := optional_stats (connStatsFn s) $"connection limits disabled".

Definition handleQueryDigestReset (r : Request) : Handler Response :=
  if negb (bool_decide (Method r = $"POST")) then reply not_allowed
  else match digestResetFn s with
       | None => reply (status_only $"digest disabled")
       | Some fn => _ <-H perform DigestReset (fun x => (tt, fn x)); reply (status_only $"reset")
       end.

(** ** The configuration, with passwords and keys masked *)

Definition masked : json := JStr $"********".
Definition JBytes (ss : list bytes) : json := JArr (JStr <$> ss).

Definition proxy_json (c : ProxyConfig) : json :=
  JObj [($"Listen", JStr (Proxy_Listen c)); ($"ShutdownTimeout", JInt (ShutdownTimeout c)); ($"ClientIdleTimeout", JInt (ClientIdleTimeout c))].
Definition poolcfg_json (c : PoolConfig) : json :=
  JObj [($"MinConnections", JInt (Pool_MinConnections c)); ($"MaxConnections", JInt (Pool_MaxConnections c)); ($"IdleTimeout", JInt (Pool_IdleTimeout c));
        ($"MaxLifetime", JInt (Pool_MaxLifetime c)); ($"ConnectionTimeout", JInt (Pool_ConnectionTimeout c)); ($"QueryTimeout", JInt (Pool_QueryTimeout c));
        ($"ResetQuery", JStr (Pool_ResetQuery c)); ($"PreparedStatementMode", JStr (Pool_PreparedStatementMode c))].
Definition routing_json (c : RoutingConfig) : json :=
  JObj [($"ReadAfterWriteDelay", JInt (ReadAfterWriteDelay c)); ($"CausalConsistency", JBool (CausalConsistency c)); ($"ASTParser", JBool (ASTParser c))].
Definition invalidation_json (c : CacheInvalidationConfig) : json :=
  JObj [($"Mode", JStr (Invalidation_Mode c)); ($"RedisAddr", JStr (Invalidation_RedisAddr c)); ($"Channel", JStr (Invalidation_Channel c))].
Definition cachecfg_json (c : CacheConfig) : json :=
  JObj [($"Enabled", JBool (Cache_Enabled c)); ($"CacheTTL", JInt (CacheTTL c)); ($"MaxCacheEntries", JInt (MaxCacheEntries c));
        ($"MaxResultSize", JStr (MaxResultSize c)); ($"Invalidation", invalidation_json (Invalidation c))].
Definition tls_json (c : TLSConfig) : json :=
  JObj [($"Enabled", JBool (TLS_Enabled c)); ($"CertFile", JStr (CertFile c)); ($"KeyFile", JStr (KeyFile c))].
Definition db_json (c : DBConfig) : json := JObj [($"Host", JStr (Host c)); ($"Port", JInt (Port c))].

Definition user_json (u : AuthUser) : json := JObj [($"username", JStr (Username u)); ($"password", masked)].
Definition key_json (k : AdminAPIKey) : json := JObj [($"key", masked); ($"role", JStr (AdminRole k))].

(** No readers are a nil slice. *)
Definition database_json (db : DatabaseConfig) : json :=
  JObj [($"writer", db_json (Writer db)); ($"readers", match Readers db with [] => JNull | rs => JArr (db_json <$> rs) end);
        ($"backend", JObj [($"user", JStr (Backend_User (DB_Backend db))); ($"password", masked); ($"database", JStr (Backend_Database (DB_Backend db)))])].

Definition config_json (cfg : Config.Config) : json :=
  JObj [($"proxy", proxy_json (Config.Proxy cfg)); ($"pool", poolcfg_json (Config.Pool cfg)); ($"routing", routing_json (Routing cfg));
        ($"cache", cachecfg_json (Config.Cache cfg)); ($"tls", tls_json (TLS cfg));
        ($"auth", JObj ([($"enabled", JBool (Auth_Enabled (Config.Auth cfg)))] ++ omitempty (Users (Config.Auth cfg)) $"users" (JArr (user_json <$> Users (Config.Auth cfg)))));
        ($"admin", let a := Config.Admin cfg in
           JObj [($"enabled", JBool (Admin_Enabled a)); ($"listen", JStr (Admin_Listen a));
                 ($"auth", let au := Admin_Auth a in
                    JObj ([($"enabled", JBool (AdminAuth_Enabled au))] ++ omitempty (APIKeys au) $"api_keys" (JArr (key_json <$> APIKeys au)) ++
                          omitempty (IPAllowlist au) $"ip_allowlist" (JBytes (IPAllowlist au)) ++ omitempty (TrustedProxies au) $"trusted_proxies" (JBytes (TrustedProxies au))))]);
        ($"databases", JMap_of database_json (Databases cfg))].

Definition handleConfig (r : Request) : Handler Response :=
  if negb (bool_decide (Method r = $"GET")) then reply not_allowed else cfg <-H look (cfgFn s); reply (writeJSON (config_json cfg)).

(** ** Controls *)

Definition TrimPrefix (t p : bytes) : bytes := if HasPrefix t p then drop (length p) t else t.

(** The server has one cache for its life: the object that [cacheFn] returned is the one of the state. *)
Definition handleCacheFlush (r : Request) : Handler Response :=
  if negb (bool_decide (Method r = $"POST")) then reply not_allowed
  else
    c <-H look (cacheFn s);
    inv <-H look (invalidatorFn s);
    match c with
    | None => reply (status_only $"cache disabled")
    | Some _ =>
        let path := TrimPrefix (TrimPrefix (Path r) $"/admin/cache/flush") $"/" in
        match path with
        | [] =>
            _ <-H perform FlushedAll (fun x => (tt, match cacheFn s x with Some c => cachePut s (FlushAll c) x | None => x end));
            _ <-H (if inv then note (Published None) else reply tt);
            reply (status_only $"flushed")
        | table =>
            _ <-H perform (FlushedTable table) (fun x => (tt, match cacheFn s x with Some c => cachePut s (InvalidateTable order c table) x | None => x end));
            _ <-H (if inv then note (Published (Some [table])) else reply tt);
            reply (writeJSON (JMap [($"status", JStr $"flushed"); ($"table", JStr table)]))
        end
    end.

Definition handleReload (r : Request) : Handler Response :=
  if negb (bool_decide (Method r = $"POST")) then reply not_allowed
  else match reloadFunc s with
       | None => reply (http_Error $"reload not configured" 503)
       | Some fn =>
           err <-H perform Reloaded fn;
           match err with
           | Some e => reply (respond 500 (JMap [($"status", JStr $"error"); ($"error", JStr e)]))
           | None => reply (status_only $"reloaded")
           end
       end.

Definition handleMaintenance (r : Request) : Handler Response :=
  match maintenanceGetFn s, maintenanceSetFn s with
  | Some getFn, Some setFn =>
      if bool_decide (Method r = $"GET") then
        st <-H look getFn;
        reply (writeJSON (JMap ([($"enabled", JBool (fst st))] ++ if fst st then [($"entered_at", JStr (RFC3339 zone (snd st)))] else [])))
      else if bool_decide (Method r = $"POST") then
        as_admin r
          (st <-H look getFn;
           if fst st then reply (status_only $"already in maintenance mode")
           else
             _ <-H perform (SetMaintenance true) (fun x => (tt, setFn true x));
             st <-H look getFn;
             reply (writeJSON (JMap [($"status", JStr $"maintenance_entered"); ($"entered_at", JStr (RFC3339 zone (snd st)))])))
      else if bool_decide (Method r = $"DELETE") then
        as_admin r
          (st <-H look getFn;
           if negb (fst st) then reply (status_only $"not in maintenance mode")
           else
             _ <-H perform (SetMaintenance false) (fun x => (tt, setFn false x));
             reply (status_only $"maintenance_exited"))
      else reply not_allowed
  | _, _ => reply (writeJSONError 503 $"maintenance control not configured")
  end.

Definition handleReadOnly (r : Request) : Handler Response :=
  match readOnlyGetFn s, readOnlySetFn s with
  | Some getFn, Some setFn =>
      if bool_decide (Method r = $"GET") then
        st <-H look getFn;
        reply (writeJSON (JMap ([($"readonly", JBool (fst st))] ++ if fst st then [($"since", JStr (RFC3339 zone (snd st)))] else [])))
      else if bool_decide (Method r = $"POST") then
        as_admin r (_ <-H perform (SetReadOnly true) (fun x => (tt, setFn true x)); reply (status_only $"readonly enabled"))
      else if bool_decide (Method r = $"DELETE") then
        as_admin r (_ <-H perform (SetReadOnly false) (fun x => (tt, setFn false x)); reply (status_only $"readonly disabled"))
      else reply not_allowed
  | _, _ => reply (writeJSONError 503 $"read-only mode not configured")
  end.

Definition handleRewriteRules (r : Request) : Handler Response :=
  if negb (bool_decide (Method r = $"GET")) then reply not_allowed
  else
    cfg <-H look (cfgFn s);
    rules <-H (match rewriteRulesFn s with Some fn => look fn | None => reply [] end);
    reply (writeJSON (JMap [($"enabled", JBool (QueryRewriting_Enabled (QueryRewriting cfg))); ($"rules", JBytes rules)])).

(** ** Sessions *)

Definition snapshot_json (sn : SessionSnapshot) : json :=
  JObj ([($"id", JInt (snap_ID sn)); ($"client_addr", JStr (snap_ClientAddr sn)); ($"user", JStr (snap_User sn)); ($"database", JStr (snap_Database sn));
         ($"connected_at", JStr (RFC3339Nano zone (snap_ConnectedAt sn)))] ++
        omitempty (CurrentQuery sn) $"current_query" (JStr (CurrentQuery sn)) ++
        match QueryStartedAt sn with Some t => [($"query_started_at", JStr (RFC3339Nano zone t))] | None => [] end ++
        omitempty (BackendAddr sn) $"backend_addr" (JStr (BackendAddr sn)) ++
        [($"in_transaction", JBool (InTransaction sn)); ($"pinned", JBool (Pinned sn))] ++
        omitempty (PinnedReason sn) $"pinned_reason" (JStr (PinnedReason sn))).

Definition with_query (sn : SessionSnapshot) (q : bytes) : SessionSnapshot :=
  {| snap_ID := snap_ID sn; snap_ClientAddr := snap_ClientAddr sn; snap_User := snap_User sn; snap_Database := snap_Database sn; snap_ConnectedAt := snap_ConnectedAt sn;
     CurrentQuery := q; QueryStartedAt := QueryStartedAt sn; BackendAddr := BackendAddr sn; InTransaction := InTransaction sn; Pinned := Pinned sn; PinnedReason := PinnedReason sn |}.

(** The queries are redacted one after the other. *)
Definition redact_snapshot (sn : SessionSnapshot) : Handler SessionSnapshot :=
  match redactSQLFn s, CurrentQuery sn with
  | Some redactFn, (_ :: _) as q => q <-H look (fun x => redactFn x q); reply (with_query sn q)
  | _, _ => reply sn
  end.

(** Without sessions the slice is nil. *)
Definition sessions_json (sns : list SessionSnapshot) : json := match sns with [] => JNull | _ => JArr (snapshot_json <$> sns) end.

Definition no_sessions : Response := writeJSON (JMap [($"sessions", JArr [])]).

Definition handleSessions (r : Request) : Handler Response :=
  if negb (bool_decide (Method r = $"GET")) then reply not_allowed
  else match sessionsFn s with
       | None => reply no_sessions
       | Some fn =>
           sns <-H look fn;
           match sns with
           | None => reply no_sessions
           | Some sns => sns <-H for_each redact_snapshot sns; reply (writeJSON (JMap [($"sessions", sessions_json sns)]))
           end
       end.

Definition handleSessionCancel (r : Request) : Handler Response :=
  if negb (bool_decide (Method r = $"POST")) then reply not_allowed
  else
    let bad := writeJSONError 400 $"invalid path, expected /admin/sessions/{id}/cancel" in
    match SplitN2 (TrimPrefix (Path r) $"/admin/sessions/") "/" with
    | [(_ :: _) as id; last] =>
        if negb (bool_decide (last = $"cancel")) then reply bad
        else match ParseUint id 10 32 with
             | None => reply (writeJSONError 400 $"invalid session id")
             | Some id =>
                 match sessionCancelFn s with
                 | None => reply (writeJSONError 503 $"session cancel not configured")
                 | Some cancelFn =>
                     fc <-H perform (Cancelled_session id) (cancelFn id);
                     if negb (fst fc) then reply (writeJSONError 404 $"session not found")
                     else if negb (snd fc) then
                       reply (writeJSON (JMap [($"status", JStr $"no_active_query"); ($"message", JStr $"session has no running query to cancel")]))
                     else reply (status_only $"cancelled")
                 end
             end
    | _ => reply bad
    end.

(** ** Routes *)

(** A path of [http.ServeMux] that ends in a slash stands for all below it; the others are exact. *)
Definition serve (r : Request) : Handler Response :=
  let exact (p : bytes) := bool_decide (Path r = p) in
  if exact $"/healthz" then handleHealthz r
  else if exact $"/readyz" then handleReadyz r
  else if exact $"/admin/health" then withAuth (handleHealth r) false r
  else if exact $"/admin/stats" then withAuth (handleStats r) false r
  else if exact $"/admin/config" then withAuth (handleConfig r) false r
  else if exact $"/admin/cache/flush" then withAuth (handleCacheFlush r) true r
  else if exact $"/admin/reload" then withAuth (handleReload r) true r
  else if exact $"/admin/mirror/stats" then withAuth (handleMirrorStats r) false r
  else if exact $"/admin/queries/top" then withAuth (handleQueryDigest r) false r
  else if exact $"/admin/queries/reset" then withAuth (handleQueryDigestReset r) true r
  else if exact $"/admin/connections" then withAuth (handleConnections r) false r
  else if exact $"/admin/maintenance" then withAuth (handleMaintenance r) false r
  else if exact $"/admin/readonly" then withAuth (handleReadOnly r) false r
  else if exact $"/admin/rewrite/rules" then withAuth (handleRewriteRules r) false r
  else if exact $"/admin/sessions" then withAuth (handleSessions r) false r
  else if HasPrefix (Path r) $"/admin/sessions/" then withAuth (handleSessionCancel r) true r
  else reply (http_Error $"404 page not found" 404).
End Handlers.
Arguments Run : clear implicits.
Arguments Handler : clear implicits.

(** ** Who may change something *)

Section Authorization.
Context {St : Type} (s : Server St) (zone : Time -> Z) (dials : bytes -> bool) (finish : list bytes -> list bytes) (order : gset Z -> list Z).
Context (C : Config.Config -> Prop).

(** The configuration has [C], and the others keep that. *)
Definition kept (w : Run St) : Prop := C (cfgFn s (state w)) /\ Forall (fun o => forall x, C (cfgFn s x) -> C (cfgFn s (o x))) (others w).

(** An address of the allow list: the peer's, or the one a trusted proxy forwards. *)
Definition from_allowed (cfg : AdminAuthConfig) (r : Request) : Prop :=
  exists ip parsed entry, ParseIP ip = Some parsed /\ entry ∈ IPAllowlist cfg /\ in_entry parsed ip entry = true /\
    (ip = remoteIP r \/
     exists peer proxy, ParseIP (remoteIP r) = Some peer /\ proxy ∈ TrustedProxies cfg /\ in_entry peer (remoteIP r) proxy = true /\
       exists forwarded, forwarded = hd [] (SplitN2 (XForwardedFor r) ",") /\ ip = TrimSpace forwarded).

(** The request may use the API under [cfg]. *)
Definition admitted (cfg : Config.Config) (r : Request) : Prop :=
  let a := Admin_Auth (Config.Admin cfg) in
  AdminAuth_Enabled a = false \/
  ((IPAllowlist a = [] \/ from_allowed a r) /\
   exists token k, token <> [] /\ Authorization r = $"Bearer " ++ token /\ k ∈ APIKeys a /\ AdminKey k = token /\ AdminRole k <> []).

(** And it may change something. *)
Definition is_admin (cfg : Config.Config) (r : Request) : Prop :=
  let a := Admin_Auth (Config.Admin cfg) in
  AdminAuth_Enabled a = false \/ exists k, k ∈ APIKeys a /\ AdminKey k = extractBearerToken r /\ AdminRole k = $"admin".

Lemma role_of_key keys token : role_of keys token <> [] -> exists k, k ∈ keys /\ AdminKey k = token /\ AdminRole k = role_of keys token.
Proof.
  unfold role_of. destruct (List.find _ keys) as [k|] eqn:E; [|done]. intros _. apply List.find_some in E as [Hin Hk%bool_decide_eq_true].
  exists k. split; [by apply list_elem_of_In|done].
Qed.

Lemma bearer r b t : extractBearerToken r = b :: t -> Authorization r = $"Bearer " ++ b :: t.
Proof.
  unfold extractBearerToken. destruct (HasPrefix (Authorization r) $"Bearer ") eqn:E; [|done]. apply HasPrefix_spec in E as [rest Hr]. rewrite Hr. intros <-. done.
Qed.

Lemma existsb_entry ip text entries : existsb (in_entry ip text) entries = true -> exists e, e ∈ entries /\ in_entry ip text e = true.
Proof. intros (e & Hin & He)%existsb_exists. exists e. split; [by apply list_elem_of_In|done]. Qed.

Lemma isIPAllowed_from a r : isIPAllowed (extractClientIP r (TrustedProxies a)) (IPAllowlist a) = true -> from_allowed a r.
Proof.
  unfold isIPAllowed. set (ip := extractClientIP r (TrustedProxies a)). destruct (ParseIP ip) as [parsed|] eqn:Ep; [|done]. intros (entry & Hin & He)%existsb_entry.
  exists ip, parsed, entry. split_and!; [done..|]. unfold ip, extractClientIP. destruct (_ && _) eqn:Et; [|by left]. apply andb_true_iff in Et as [_ Et].
  destruct (XForwardedFor r) as [|b t] eqn:Ex; [by left|]. right. unfold isTrustedProxy in Et. destruct (ParseIP (remoteIP r)) as [peer|]; [|done].
  apply existsb_entry in Et as (proxy & Hp & Hq). exists peer, proxy. split_and!; [done..|]. by eexists.
Qed.

(** *** Handlers *)

Definition silent {A} (m : Handler St A) : Prop := forall w, effects (m w).2 = effects w.
(** [m] changes something only if [P]. *)
Definition only_if (P : Prop) {A} (m : Handler St A) : Prop := forall w, kept w -> effects (m w).2 <> effects w -> P.

Lemma silent_reply {A} (a : A) : silent (reply a).
Proof. done. Qed.

Lemma silent_look {A} (f : St -> A) : silent (look f).
Proof. intros w. unfold look, invoke. by destruct (others w). Qed.

Lemma silent_andthen {A B} (m : Handler St A) (k : A -> Handler St B) : silent m -> (forall a, silent (k a)) -> silent (andthen m k).
Proof. intros Hm Hk w. unfold andthen. specialize (Hm w). destruct (m w) as [a w']. cbn in Hm. by rewrite (Hk a w'). Qed.

Lemma silent_for_each {A B} (f : A -> Handler St B) l : (forall a, silent (f a)) -> silent (for_each f l).
Proof. intros Hf. induction l as [|a l IH]; [apply silent_reply|]. apply silent_andthen; [done|]. intros b. apply silent_andthen; [done|]. intros bs. apply silent_reply. Qed.

Lemma only_if_silent P {A} (m : Handler St A) : silent m -> only_if P m.
Proof. intros Hm w _ Hw. by rewrite Hm in Hw. Qed.

Lemma only_if_true (P : Prop) {A} (m : Handler St A) : P -> only_if P m.
Proof. intros HP w _ _. exact HP. Qed.

Lemma only_if_mono (P P' : Prop) {A} (m : Handler St A) : (P -> P') -> only_if P m -> only_if P' m.
Proof. intros HP Hm w Hk Hw. by eapply HP, Hm. Qed.

(** After a look at the configuration. *)
Lemma only_if_config P {A} (k : Config.Config -> Handler St A) : (forall cfg, C cfg -> only_if P (k cfg)) -> only_if P (andthen (look (cfgFn s)) k).
Proof.
  intros Hk w [Hc Ho]. unfold andthen, look, invoke. destruct (others w) as [|o os] eqn:E.
  - intros Hw. eapply Hk; [exact Hc| |exact Hw]. by split.
  - apply list.Forall_cons in Ho as [Ho1 Ho]. intros Hw. eapply Hk; [by apply Ho1| |exact Hw]. split; [by apply Ho1|done].
Qed.

Lemma only_if_withAuth (P : Prop) next requireAdmin r :
  (forall cfg, C cfg -> admitted cfg r -> (requireAdmin = true -> is_admin cfg r) -> only_if P next) -> only_if P (withAuth s next requireAdmin r).
Proof.
  intros Hn. apply only_if_config. intros cfg HC. cbv zeta. set (a := Admin_Auth (Config.Admin cfg)).
  destruct (AdminAuth_Enabled a) eqn:Ee; cbn [negb]; [|apply (Hn cfg HC); [by left|intros _; by left]].
  destruct (_ && negb (isIPAllowed _ _)) eqn:Ei; [apply only_if_silent, silent_reply|].
  destruct (extractBearerToken r) as [|b t] eqn:Et; [apply only_if_silent, silent_reply|].
  destruct (role_of (APIKeys a) (b :: t)) as [|b' t'] eqn:Er; [apply only_if_silent, silent_reply|].
  destruct (requireAdmin && _) eqn:Ea; [apply only_if_silent, silent_reply|].
  destruct (role_of_key (APIKeys a) (b :: t)) as (k & Hk & Hkt & Hkr); [by rewrite Er|]. apply (Hn cfg HC).
  - right. split; [|exists (b :: t), k; split_and!; [done|by apply bearer|done|done|by rewrite Hkr, Er]].
    fold a. apply andb_false_iff in Ei as [Hl|Hl]; [left; apply Nat.ltb_ge in Hl; by destruct (IPAllowlist a); cbn in Hl; [|lia]|right; apply negb_false_iff in Hl; by apply isIPAllowed_from].
  - intros ->. right. exists k. fold a. rewrite Et. split_and!; [done..|]. cbn [andb] in Ea. apply negb_false_iff, bool_decide_eq_true in Ea. by rewrite Hkr, Er.
Qed.

(** What an authorized change needs. *)
Definition authorized_change (r : Request) : Prop := exists cfg1 cfg2, C cfg1 /\ C cfg2 /\ admitted cfg1 r /\ is_admin cfg2 r.

Lemma only_if_as_admin (P : Prop) r k : (forall cfg, C cfg -> is_admin cfg r -> P) -> only_if P (as_admin s r k).
Proof.
  intros HP. apply only_if_config. intros cfg HC. cbv zeta. destruct (AdminAuth_Enabled _) eqn:Ee; cbn [andb].
  - destruct (bool_decide _) eqn:Er; cbn [negb]; [|apply only_if_silent, silent_reply]. apply bool_decide_eq_true in Er. apply only_if_true, (HP cfg HC). right.
    destruct (role_of_key (APIKeys (Admin_Auth (Config.Admin cfg))) (extractBearerToken r)) as (k' & Hk & Hkt & Hkr); [by rewrite Er|]. exists k'. by rewrite Hkr.
  - apply only_if_true, (HP cfg HC). by left.
Qed.

Local Ltac silent_tac :=
  repeat first
    [ apply silent_reply | apply silent_look | apply silent_andthen | apply silent_for_each
    | progress intros
    | match goal with |- silent (match ?x with _ => _ end) => destruct x end
    | match goal with |- silent (let '(_, _) := ?x in _) => destruct x end ].

Lemma silent_reads r :
  silent (handleReadyz s dials finish r) /\ silent (handleHealth s dials finish r) /\ silent (handleStats s r) /\ silent (handleConfig s r) /\
  silent (handleMirrorStats s r) /\ silent (handleQueryDigest s r) /\ silent (handleConnections s r) /\ silent (handleRewriteRules s r) /\ silent (handleSessions s zone r).
Proof.
  unfold handleReadyz, handleHealth, handleStats, handleConfig, handleMirrorStats, handleQueryDigest, handleConnections, optional_stats, handleRewriteRules, handleSessions,
    group_stats, redact_snapshot. split_and!; silent_tac.
Qed.

Lemma only_if_switches r (P : Prop) :
  (forall cfg, C cfg -> is_admin cfg r -> P) -> only_if P (handleMaintenance s zone r) /\ only_if P (handleReadOnly s zone r).
Proof.
  intros HP. unfold handleMaintenance, handleReadOnly. split.
  - destruct (maintenanceGetFn s), (maintenanceSetFn s); try apply only_if_silent, silent_reply.
    repeat (case_match; [by apply only_if_as_admin || (apply only_if_silent; silent_tac)|]). apply only_if_silent, silent_reply.
  - destruct (readOnlyGetFn s), (readOnlySetFn s); try apply only_if_silent, silent_reply.
    repeat (case_match; [by apply only_if_as_admin || (apply only_if_silent; silent_tac)|]). apply only_if_silent, silent_reply.
Qed.

Lemma only_if_serve r : only_if (authorized_change r) (serve s zone dials finish order r).
Proof.
  destruct (silent_reads r) as (H1 & H2 & H3 & H4 & H5 & H6 & H7 & H8 & H9). unfold serve. cbv zeta.
  assert (forall next, silent next -> only_if (authorized_change r) (withAuth s next false r)) as Hread by (intros next Hs; apply only_if_withAuth; intros; by apply only_if_silent).
  assert (forall next, only_if (authorized_change r) (withAuth s next true r)) as Hadmin.
  { intros next. apply only_if_withAuth. intros cfg HC Ha Hi. apply only_if_true. exists cfg, cfg. by auto. }
  assert (forall cfg, C cfg -> admitted cfg r -> forall cfg', C cfg' -> is_admin cfg' r -> authorized_change r) as Hboth by (intros cfg HC Ha cfg' HC' Hi; by exists cfg, cfg').
  destruct (bool_decide (Path r = $"/healthz")); [apply only_if_silent; unfold handleHealthz; case_match; apply silent_reply|].
  destruct (bool_decide (Path r = $"/readyz")); [exact (only_if_silent _ _ H1)|].
  destruct (bool_decide (Path r = $"/admin/health")); [exact (Hread _ H2)|]. destruct (bool_decide (Path r = $"/admin/stats")); [exact (Hread _ H3)|].
  destruct (bool_decide (Path r = $"/admin/config")); [exact (Hread _ H4)|]. destruct (bool_decide (Path r = $"/admin/cache/flush")); [apply Hadmin|].
  destruct (bool_decide (Path r = $"/admin/reload")); [apply Hadmin|]. destruct (bool_decide (Path r = $"/admin/mirror/stats")); [exact (Hread _ H5)|].
  destruct (bool_decide (Path r = $"/admin/queries/top")); [exact (Hread _ H6)|]. destruct (bool_decide (Path r = $"/admin/queries/reset")); [apply Hadmin|].
  destruct (bool_decide (Path r = $"/admin/connections")); [exact (Hread _ H7)|].
  destruct (bool_decide (Path r = $"/admin/maintenance")); [apply only_if_withAuth; intros cfg HC Ha _; exact (proj1 (only_if_switches r _ (Hboth cfg HC Ha)))|].
  destruct (bool_decide (Path r = $"/admin/readonly")); [apply only_if_withAuth; intros cfg HC Ha _; exact (proj2 (only_if_switches r _ (Hboth cfg HC Ha)))|].
  destruct (bool_decide (Path r = $"/admin/rewrite/rules")); [exact (Hread _ H8)|]. destruct (bool_decide (Path r = $"/admin/sessions")); [exact (Hread _ H9)|].
  destruct (HasPrefix (Path r) $"/admin/sessions/"); [apply Hadmin|apply only_if_silent, silent_reply].
Qed.

(** C6: only administrators change something through the Admin API. Whatever the request is
    and whatever happens meanwhile, if handling it flushes the cache, reloads the configuration,
    resets the digest, switches maintenance or read-only mode or cancels a session, then
    authentication is off, or the request comes from an allowed address (of the peer, or
    forwarded by a trusted proxy) and bears a configured key, one of the administrator role.
    The configurations are those in force at the checks, which a reload may change in between. *)
Theorem admin_changes_authorized r w :
  kept w -> effects (serve s zone dials finish order r w).2 <> effects w -> authorized_change r.
Proof. apply only_if_serve. Qed.
End Authorization.

(** ** What the configuration endpoint shows *)

(** The same configuration but for passwords and keys. *)
Definition same_user (u u' : AuthUser) : Prop := Username u = Username u'.
Definition same_key (k k' : AdminAPIKey) : Prop := AdminRole k = AdminRole k'.
Definition same_database (d d' : DatabaseConfig) : Prop :=
  Writer d = Writer d' /\ Readers d = Readers d' /\ Backend_User (DB_Backend d) = Backend_User (DB_Backend d') /\ Backend_Database (DB_Backend d) = Backend_Database (DB_Backend d').
Definition same_public (c c' : Config.Config) : Prop :=
  (Config.Proxy c = Config.Proxy c' /\ Config.Pool c = Config.Pool c' /\ Routing c = Routing c' /\ Config.Cache c = Config.Cache c' /\ TLS c = TLS c') /\
  (Auth_Enabled (Config.Auth c) = Auth_Enabled (Config.Auth c') /\ Forall2 same_user (Users (Config.Auth c)) (Users (Config.Auth c'))) /\
  (Admin_Enabled (Config.Admin c) = Admin_Enabled (Config.Admin c') /\ Admin_Listen (Config.Admin c) = Admin_Listen (Config.Admin c')) /\
  (let a := Admin_Auth (Config.Admin c) in let a' := Admin_Auth (Config.Admin c') in
   AdminAuth_Enabled a = AdminAuth_Enabled a' /\ Forall2 same_key (APIKeys a) (APIKeys a') /\ IPAllowlist a = IPAllowlist a' /\ TrustedProxies a = TrustedProxies a') /\
  (forall name, option_Forall2 same_database (Databases c !! name) (Databases c' !! name)).

Lemma omitempty_fmap {A} (f : A -> json) (l l' : list A) name : f <$> l = f <$> l' -> omitempty l name (JArr (f <$> l)) = omitempty l' name (JArr (f <$> l')).
Proof. intros E. rewrite E. destruct l, l'; try done; by apply (f_equal length) in E. Qed.

Lemma Forall2_fmap_eq {A} (R : A -> A -> Prop) (f : A -> json) l l' : (forall x y, R x y -> f x = f y) -> Forall2 R l l' -> f <$> l = f <$> l'.
Proof. intros Hf. induction 1 as [|x y l l' Hxy _ IH]; [done|]. cbn. by rewrite (Hf _ _ Hxy), IH. Qed.

Lemma JMap_of_eq {A} (R : A -> A -> Prop) (f : A -> json) (m m' : gmap bytes A) :
  (forall x y, R x y -> f x = f y) -> (forall k, option_Forall2 R (m !! k) (m' !! k)) -> JMap_of f m = JMap_of f m'.
Proof.
  intros Hf Hm. assert (f <$> m = f <$> m') as E.
  { apply map_eq. intros k. rewrite !lookup_fmap. destruct (Hm k) as [x y Hxy|]; [|done]. cbn. by rewrite (Hf _ _ Hxy). }
  apply (f_equal map_to_list) in E. rewrite !map_to_list_fmap in E. unfold JMap_of. f_equal. erewrite (list_fmap_ext _ (prod_map id f)), E; [|done].
  apply list_fmap_ext. by intros ? [].
Qed.

Lemma database_json_same d d' : same_database d d' -> database_json d = database_json d'.
Proof. intros (E1 & E2 & E3 & E4). unfold database_json. by rewrite E1, E2, E3, E4. Qed.

Lemma config_json_same c c' : same_public c c' -> config_json c = config_json c'.
Proof.
  intros ((E1 & E2 & E3 & E4 & E5) & (E6 & Hu) & (E7 & E8) & (E9 & Hk & E10 & E11) & Hd).
  assert (user_json <$> Users (Config.Auth c) = user_json <$> Users (Config.Auth c')) as Eu by (eapply Forall2_fmap_eq; [|exact Hu]; intros x y E; unfold user_json; by rewrite E).
  assert (key_json <$> APIKeys (Admin_Auth (Config.Admin c)) = key_json <$> APIKeys (Admin_Auth (Config.Admin c'))) as Ek
    by (eapply Forall2_fmap_eq; [|exact Hk]; intros x y E; unfold key_json; by rewrite E).
  unfold config_json. cbv zeta. rewrite E1, E2, E3, E4, E5, E6, E7, E8, E9, E10, E11.
  rewrite (omitempty_fmap _ _ _ $"users" Eu), (omitempty_fmap _ _ _ $"api_keys" Ek). by rewrite (JMap_of_eq _ _ _ _ database_json_same Hd).
Qed.

Section Endpoints.
Context {St : Type} (s : Server St) (zone : Time -> Z) (dials : bytes -> bool) (finish : list bytes -> list bytes) (order : gset Z -> list Z).

Lemma unreachable_none groups :
  (forall l, finish l ≡ₚ l) -> unreachable dials finish groups = [] <-> forall name g, groups !! name = Some g -> dials (writerAddr g) = true.
Proof.
  intros Hf. unfold unreachable. set (bad := filter _ (map_to_list groups)). assert (finish (fst <$> bad) = [] <-> bad = []) as ->.
  { pose proof (Hf (fst <$> bad)) as Hp. split; [intros E; rewrite E in Hp; apply Permutation_nil in Hp; by destruct bad|intros E; rewrite E in Hp |- *; by apply Permutation_nil_r in Hp]. }
  split.
  - intros Hn name g Hg. destruct (dials (writerAddr g)) eqn:Ed; [done|]. exfalso. assert ((name, g) ∈ bad) as Hin; [|rewrite Hn in Hin; by apply not_elem_of_nil in Hin].
    apply list_elem_of_filter. split; [done|]. by apply elem_of_map_to_list.
  - intros Hall. destruct bad as [|[name g] l] eqn:E; [done|]. exfalso. assert ((name, g) ∈ bad) as Hin by (rewrite E; left).
    apply list_elem_of_filter in Hin as [Hd Hin%elem_of_map_to_list]. cbn in Hd. by rewrite (Hall _ _ Hin) in Hd.
Qed.

(** C32: the configuration endpoint reveals no secret. Two configurations that differ only in
    the passwords of users, the keys of the Admin API and the passwords of the backends (and in the
    parts that are not shown) get the same answer to GET /admin/config. *)
Theorem config_hides_secrets r w w' :
  others w = [] -> others w' = [] -> same_public (cfgFn s (state w)) (cfgFn s (state w')) -> (handleConfig s r w).1 = (handleConfig s r w').1.
Proof.
  intros Ho Ho' Hc. unfold handleConfig. case_match; [done|]. unfold andthen, look, invoke. rewrite Ho, Ho'. cbn. by rewrite (config_json_same _ _ Hc).
Qed.

(** the readiness probe tells whether the proxy can serve. It answers 200 exactly to a GET when maintenance
    mode is off, there are databases, and the writer of every database accepts connections. *)
Theorem readyz_iff r w :
  (forall l, finish l ≡ₚ l) -> others w = [] ->
  Code (handleReadyz s dials finish r w).1 = 200%Z <->
  Method r = $"GET" /\ match maintenanceGetFn s with Some getFn => (getFn (state w)).1 = false | None => True end /\
  dbGroupsFn s (state w) <> ∅ /\ (forall name g, dbGroupsFn s (state w) !! name = Some g -> dials (writerAddr g) = true).
Proof.
  intros Hf Ho. unfold handleReadyz. destruct (bool_decide (Method r = _)) eqn:Em; cbn [negb]; [apply bool_decide_eq_true in Em|apply bool_decide_eq_false in Em; by split; [done|intros [? _]]].
  set (enabled := match maintenanceGetFn s with Some getFn => (getFn (state w)).1 | None => false end).
  assert ((match maintenanceGetFn s with Some getFn => andthen (look getFn) (fun e => reply e.1) | None => reply false end) w = (enabled, w)) as E.
  { unfold enabled. destruct (maintenanceGetFn s); [|done]. unfold andthen, look, invoke, reply. rewrite Ho. by destruct w; cbn in *; subst. }
  unfold andthen at 1. rewrite E. assert (match maintenanceGetFn s with Some getFn => (getFn (state w)).1 = false | None => True end <-> enabled = false) as ->
    by (unfold enabled; by destruct (maintenanceGetFn s)).
  destruct enabled; [by split; [done|intros (_ & ? & _)]|]. unfold andthen, look, invoke. rewrite Ho. cbn. set (groups := dbGroupsFn s (state w)).
  destruct (bool_decide (groups = ∅)) eqn:Eg; [apply bool_decide_eq_true in Eg; by split; [done|intros (_ & _ & ? & _)]|]. apply bool_decide_eq_false in Eg.
  rewrite <- (unreachable_none groups Hf).
  destruct (unreachable dials finish groups) as [|b t]; [by split|]. by split; [|intros (_ & _ & _ & ?)].
Qed.
End Endpoints.

(** ** The functions that cmd/pgmux/main.go passes *)

(** The server, its sessions and the clock. *)
Record Process := { p_srv : Srv; p_sessions : Cancel.Registry; p_clock : Time }.

Definition with_srv (f : Srv -> Srv) (p : Process) : Process := {| p_srv := f (p_srv p); p_sessions := p_sessions p; p_clock := p_clock p |}.

Definition with_cache (c : Cache.Cache) (v : Srv) : Srv :=
  {| v_cfg := v_cfg v; v_heap := v_heap v; v_dbGroups := v_dbGroups v; v_defaultDB := v_defaultDB v; v_rateLimiter := v_rateLimiter v;
     v_perUserRL := v_perUserRL v; v_perIPRL := v_perIPRL v; v_connTracker := v_connTracker v; v_rewriter := v_rewriter v;
     v_queryCache := Some c; v_invalidator := v_invalidator v; v_tls := v_tls v; v_auditLogger := v_auditLogger v; v_mirror := v_mirror v;
     v_queryDigest := v_queryDigest v; v_maintenanceMode := v_maintenanceMode v; v_maintenanceAt := v_maintenanceAt v;
     v_readOnlyMode := v_readOnlyMode v; v_readOnlyAt := v_readOnlyAt v |}.

Definition with_digest (d : option Digest.Digest) (v : Srv) : Srv :=
  {| v_cfg := v_cfg v; v_heap := v_heap v; v_dbGroups := v_dbGroups v; v_defaultDB := v_defaultDB v; v_rateLimiter := v_rateLimiter v;
     v_perUserRL := v_perUserRL v; v_perIPRL := v_perIPRL v; v_connTracker := v_connTracker v; v_rewriter := v_rewriter v;
     v_queryCache := v_queryCache v; v_invalidator := v_invalidator v; v_tls := v_tls v; v_auditLogger := v_auditLogger v; v_mirror := v_mirror v;
     v_queryDigest := d; v_maintenanceMode := v_maintenanceMode v; v_maintenanceAt := v_maintenanceAt v;
     v_readOnlyMode := v_readOnlyMode v; v_readOnlyAt := v_readOnlyAt v |}.

(** The JSON of the statistics, the outcome of a reload, of the delivery of a cancel request, and the redaction are arguments. *)
Definition admin_of (mirror_json : Mirror.Mirror -> json) (digest_json : Digest.Digest -> json) (conn_json : ConnLimitStats -> json)
    (reload : Process -> option bytes * Process) (delivered : bool) (redact : Config.Config -> bytes -> bytes) : Server Process := {|
  cfgFn := fun p => v_cfg (p_srv p);
  cacheFn := fun p => v_queryCache (p_srv p);
  cachePut := fun c => with_srv (with_cache c);
  invalidatorFn := fun p => v_invalidator (p_srv p);
  dbGroupsFn := fun p => v_dbGroups (p_srv p);
  poolStats := fun p l => match objs (v_heap (p_srv p)) !! l with Some o => Pool.Stats (p_pool o) | None => (0%Z, 0) end;
  auditLoggerFn := fun p => v_auditLogger (p_srv p);
  mirrorStatsFn := Some (fun p => mirror_json <$> v_mirror (p_srv p));
  digestStatsFn := Some (fun p => digest_json <$> v_queryDigest (p_srv p));
  digestResetFn := Some (fun p => with_srv (with_digest (Digest.Reset_ <$> v_queryDigest (p_srv p))) p);
  connStatsFn := Some (fun p => (fun ct => conn_json (ConnLimit.Stats ct)) <$> v_connTracker (p_srv p));
  rewriteRulesFn := Some (fun p => match v_rewriter (p_srv p) with Some rw => Rules rw | None => [] end);
  sessionsFn := Some (fun p => Some (Cancel.Sessions (p_sessions p)));
  sessionCancelFn := Some (fun id p => ((Cancel.CancelSession (p_sessions p) id delivered).1, p));
  redactSQLFn := Some (fun p => redact (v_cfg (p_srv p)));
  reloadFunc := Some reload;
  maintenanceGetFn := Some (fun p => ProxyServer.MaintenanceState (p_srv p));
  maintenanceSetFn := Some (fun on p => with_srv (ProxyServer.SetMaintenance (p_clock p) on) p);
  readOnlyGetFn := Some (fun p => ProxyServer.ReadOnlyState (p_srv p));
  readOnlySetFn := Some (fun on p => with_srv (ProxyServer.SetReadOnly (p_clock p) on) p)
|}.

(** ** Examples *)

Module Examples.
#[local] Existing Instance ascii_case.
#[local] Existing Instance Session.Examples.no_trees.
#[local] Existing Instance ProxyServer.Examples.no_rewriting.
#[local] Existing Instance ProxyServer.Examples.offline.

Definition with_admin (a : AdminAuthConfig) (c : Config.Config) : Config.Config :=
  {| Config.Proxy := Config.Proxy c; Config.Pool := Config.Pool c; Routing := Routing c; Config.Cache := Config.Cache c; Config.Backend := Config.Backend c; Metrics := Metrics c;
     Config.Admin := {| Admin_Enabled := true; Admin_Listen := $":8080"; Admin_Auth := a |}; TLS := TLS c; Config.Auth := Config.Auth c;
     Config.CircuitBreaker := Config.CircuitBreaker c; Config.RateLimit := Config.RateLimit c; Config.Firewall := Config.Firewall c;
     Config.Audit := Config.Audit c; DataAPI := DataAPI c; ConfigOptions_Watch := false; Telemetry := Telemetry c; Config.Mirror := Config.Mirror c; Config.Digest := Config.Digest c;
     Databases := Databases c; ConnectionLimits := ConnectionLimits c; SessionCompat := SessionCompat c; Observability := Observability c; QueryRewriting := QueryRewriting c |}.

Definition keys (k1 k2 : bytes) : AdminAuthConfig :=
  {| AdminAuth_Enabled := true; APIKeys := [{| AdminKey := k1; AdminRole := $"viewer" |}; {| AdminKey := k2; AdminRole := $"admin" |}];
     IPAllowlist := [$"10.0.0.0/8"]; TrustedProxies := [$"192.0.2.1"] |}.
Definition cfg_of (k1 k2 : bytes) : Config.Config := with_admin (keys k1 k2) ProxyServer.Examples.both.

Definition process (k1 k2 : bytes) : Run Process :=
  {| state := {| p_srv := match NewServer 0 [$"log"; $"app"] (cfg_of k1 k2) with Ok v => v | _ => {| v_cfg := cfg_of k1 k2; v_heap := {| objs := ∅; next_pool := 0 |}; v_dbGroups := ∅;
                            v_defaultDB := []; v_rateLimiter := None; v_perUserRL := None; v_perIPRL := None; v_connTracker := None; v_rewriter := None; v_queryCache := None; v_invalidator := false;
                            v_tls := false; v_auditLogger := None; v_mirror := None; v_queryDigest := None; v_maintenanceMode := false; v_maintenanceAt := 0; v_readOnlyMode := false; v_readOnlyAt := 0 |} end;
                 p_sessions := Cancel.registry0; p_clock := (1700000000 * Second)%Z |};
     others := []; effects := [] |}.

Definition admin0 : Server Process := admin_of (fun _ => JNull) (fun _ => JNull) (fun _ => JNull) (fun p => (None, p)) true (fun _ q => q).

Definition request (method path remote token forwarded : bytes) : Request :=
  {| Method := method; Path := path; RemoteAddr := remote; Authorization := $"Bearer " ++ token; XForwardedFor := forwarded |}.

Definition serve0 (r : Request) : Handler Process Response := serve admin0 (fun _ => 32400%Z) (fun _ => true) (fun l => l) elements r.

(** An administrator enters maintenance mode; the proxy is not ready then. *)
Definition enter : Request := request $"POST" $"/admin/maintenance" $"10.1.2.3:999" $"k2" [].

Example maintenance_entered :
  let '(resp, w) := serve0 enter (process $"k1" $"k2") in
  Body resp = print (JMap [($"status", JStr $"maintenance_entered"); ($"entered_at", JStr $"2023-11-15T07:13:20+09:00")]) ++ [x0a] /\ effects w = [SetMaintenance true] /\
  Code (serve0 (request $"GET" $"/readyz" $"192.0.2.77:1" [] []) w).1 = 503%Z.
Proof. by vm_compute. Qed.

Lemma admin_changes_authorized_witness : authorized_change (fun cfg => cfg = cfg_of $"k1" $"k2") enter.
Proof.
  apply (admin_changes_authorized admin0 (fun _ => 32400%Z) (fun _ => true) (fun l => l) elements (fun cfg => cfg = cfg_of $"k1" $"k2") enter (process $"k1" $"k2")).
  - split; [by vm_compute|constructor].
  - by vm_compute.
Defined.

(** A viewer, and an administrator from elsewhere, are refused. *)
Example viewer_refused :
  (Code (serve0 (request $"POST" $"/admin/maintenance" $"10.1.2.3:999" $"k1" []) (process $"k1" $"k2")).1,
   Code (serve0 (request $"POST" $"/admin/reload" $"192.0.2.2:999" $"k2" $"10.1.2.3") (process $"k1" $"k2")).1) = (403%Z, 403%Z).
Proof. by vm_compute. Qed.

(** The first address that a trusted proxy forwards is the one the client itself wrote: any client behind the proxy is allowed. *)
Example forged_address :
  Code (serve0 (request $"POST" $"/admin/reload" $"192.0.2.1:999" $"k2" $"10.9.9.9, 203.0.113.7") (process $"k1" $"k2")).1 = 200%Z.
Proof. by vm_compute. Qed.

(** An address in another notation is not the one of the list. *)
Example notation_matters : isIPAllowed $"2001:db8::1" [$"2001:0db8::1"] = false.
Proof. by vm_compute. Qed.

(** The route has no path below it: a table cannot be flushed. *)
Example table_flush_not_found :
  Code (serve0 (request $"POST" $"/admin/cache/flush/users" $"10.1.2.3:999" $"k2" []) (process $"k1" $"k2")).1 = 404%Z.
Proof. by vm_compute. Qed.

(** Without sessions the list is null. *)
Example no_session_null : Body (serve0 (request $"GET" $"/admin/sessions" $"10.1.2.3:999" $"k1" []) (process $"k1" $"k2")).1 = print (JMap [($"sessions", JNull)]) ++ [x0a].
Proof. by vm_compute. Qed.

Lemma config_hides_secrets_witness :
  (handleConfig admin0 (request $"GET" $"/admin/config" [] [] []) (process $"k1" $"k2")).1 = (handleConfig admin0 (request $"GET" $"/admin/config" [] [] []) (process $"x" $"y")).1.
Proof.
  apply (config_hides_secrets admin0 (request $"GET" $"/admin/config" [] [] []) (process $"k1" $"k2") (process $"x" $"y")); [done|done|].
  change (cfgFn admin0 (state (process $"k1" $"k2"))) with (v_cfg (p_srv (state (process $"k1" $"k2")))). change (cfgFn admin0 (state (process $"x" $"y"))) with (v_cfg (p_srv (state (process $"x" $"y")))).
  assert (v_cfg (p_srv (state (process $"k1" $"k2"))) = cfg_of $"k1" $"k2") as -> by (by vm_compute).
  assert (v_cfg (p_srv (state (process $"x" $"y"))) = cfg_of $"x" $"y") as -> by (by vm_compute).
  split_and!; try done.
  - by repeat constructor.
  - intros name. destruct (Databases (cfg_of $"k1" $"k2") !! name) as [d|] eqn:E; change (Databases (cfg_of $"x" $"y")) with (Databases (cfg_of $"k1" $"k2")); rewrite E; constructor. by split_and!.
Defined.

Lemma readyz_iff_witness :
  Code (handleReadyz admin0 (fun _ => true) (fun l => l) (request $"GET" $"/readyz" [] [] []) (process $"k1" $"k2")).1 = 200%Z.
Proof.
  apply (readyz_iff admin0 (fun _ => true) (fun l => l) (request $"GET" $"/readyz" [] [] []) (process $"k1" $"k2")); [done|done|]. split_and!; [done|by vm_compute| |done].
  intros E. apply (f_equal (fun m => match m !! $"app" with Some _ => true | None => false end)) in E. by vm_compute in E.
Defined.

Example times : (RFC3339 (fun _ => 0%Z) 0, RFC3339Nano (fun _ => -19800%Z) (1709164800 * Second + 120000000)%Z) = ($"0001-01-01T00:00:00Z", $"2024-02-28T18:30:00.12-05:30").
Proof. by vm_compute. Qed.
End Examples.
