(* ===== verification/HandleConn.v ===== *)
(** * A client connection (internal/proxy/server.go, [handleConn])

    From the first byte of a client to the end of its session: the startup message with an
    optional TLS upgrade, cancel requests, the checks for maintenance, database and connection limits,
    authentication, registration, the queries, and the deferred clean-ups. What the handler
    shares with others is reached as in [Proxy]: other connections, reloads and the admin
    interface act before each access. The dialogue with the queries is that of [relayQueries],
    whose part of the world starts with an empty trace. The handler records what it does to the
    shared registries, with the state that each access finds and leaves. *)

From S2P Require Import Crypto Auth Cancel.
From S2P Require Import Prelude GoStrings Float64 Config Wire SqlLex Classify Tables Ast Rewriter Session ConnLimit Pool Relay DbGroup.
From S2P Require Import Proxy Handlers Query Logic Accounting.

Local Open Scope nat_scope.

(** The state of the server that handlers share besides what [Proxy.Server] holds. *)
Record Gate := {
  registry : Cancel.Registry;
  tracker : option ConnTracker;
  dbGroups : gmap bytes DatabaseGroup;
  defaultDB : bytes
}.

(** What the handler did: a slot of the connection limits taken and given back, a cancel key
    made and removed, a connection for relaying the authentication dialed and closed after [relayAuth]
    succeeded or not, the session
    entered and removed, queries served, a cancel request passed on. *)
Inductive op :=
| OpAcquire (user db : bytes)
| OpRelease (user db : bytes)
| OpNewKey (l : nat) (pid secret : Z)
| OpRemoveKey (l : nat)
| OpDial (c : Pool.Conn)
| OpHangUp (c : Pool.Conn) (accepted : bool)
| OpRegister (l : nat) (id : Z)
| OpUnregister (id : Z)
| OpServe (user db : bytes)
| OpCancel (m : option (bytes * bytes)).

(** Each is kept with the shared state it found and the one it left. *)
Record entry := { did : op; found : Gate; became : Gate }.

Record Front := { gate : Gate; gate_env : list (Gate -> Gate); sess : Sess; history : list entry }.

Definition log (s : Front) : list op := did <$> history s.

Abbreviation M := (Relay.M Front).

(** The connection as it arrives: the remote address, whether TLS is configured and what a
    handshake makes of the client's bytes, what dialing gives, and the random bytes drawn. *)
Record Arrival := {
  remoteAddr : bytes;
  tlsConfig : bool;
  handshake : bytes -> option bytes;
  dial : bytes -> option Pool.Conn;
  rand_salt : option bytes;
  secretBuf : bytes
}.

Definition with_front {A} (w : World A) {B} (b : B) : World B :=
  {| cin := cin w; bin := bin w; faults := faults w; grants := grants w; trace := trace w; sh := b |}.

(** One access to the shared state, logged. *)
Definition access {A} (f : Gate -> A * Gate) (o : A -> list op) : M A := fun w =>
  let '(change, env') := match gate_env (sh w) with e :: es => (e, es) | [] => (fun g => g, []) end in
  let '(a, g') := f (change (gate (sh w))) in
  (Ok a, with_front w {| gate := g'; gate_env := env'; sess := sess (sh w); history := history (sh w) ++ ((fun x => {| did := x; found := change (gate (sh w)); became := g' |}) <$> o a) |}).

Definition note (o : op) : M unit :=
  modify (fun s => {| gate := gate s; gate_env := gate_env s; sess := sess s; history := history s ++ [{| did := o; found := gate s; became := gate s |}] |}).

(** A part of the session, in a world of its own: the pools answer it as they would here. *)
Definition zoom {A} (m : Proxy.M A) : M A := fun w =>
  let '(r, w') := m {| cin := cin w; bin := bin w; faults := faults w; grants := fun p tr => grants w p (trace w ++ tr); trace := []; sh := sess (sh w) |} in
  (r, {| cin := cin w'; bin := bin w'; faults := faults w'; grants := grants w; trace := trace w ++ trace w';
         sh := {| gate := gate (sh w); gate_env := gate_env (sh w); sess := sh w'; history := history (sh w) |} |}).

(** [defer d()]. *)
Definition deferring (d m : M unit) : M unit := fun w =>
  match m w with
  | (Ok _, w') => d w'
  | (r, w') => match d w' with (Panic, w'') => (Panic, w'') | (_, w'') => (r, w'') end
  end.

(** ** Startup *)

Definition SSLRequestCode : Z := 80877103.

Definition read_startup : M Message := fun w =>
  match ReadStartupMessage (cin w) with
  | Ok (m, r) => (Ok m, {| cin := r; bin := bin w; faults := faults w; grants := grants w; trace := trace w; sh := sh w |})
  | Err _ => (Err tt, w)
  | Panic => (Panic, w)
  end.

Definition request_code (payload : bytes) : option Z := if 4 <=? length payload then Some (be_value (take 4 payload)) else None.

(** The client's bytes are decrypted from here on. *)
Definition upgrade (a : Arrival) : M unit := fun w =>
  match handshake a (cin w) with
  | Some plain => (Ok tt, {| cin := plain; bin := bin w; faults := faults w; grants := grants w; trace := trace w; sh := sh w |})
  | None => (Err tt, w)
  end.

Definition accept_ssl (a : Arrival) (startup : Message) : M Message :=
  if bool_decide (request_code (mPayload startup) = Some SSLRequestCode) then
    (if tlsConfig a then must_client ["S"%byte] ;! upgrade a else must_client ["N"%byte]) ;! read_startup
  else ret startup.

Section Handle.
Context `{UnicodeCase} `{PgQuery} `{RewriteDeps} `{Texts} (order : gset Z -> list Z).

Definition limit_reason (r : Rejection) : bytes :=
  match r with
  | TooManyForUser user limit => $"too many connections for user " ++ Quote user ++ $" (limit: " ++ FormatInt limit ++ $")"
  | TooManyForDB db limit => $"too many connections for database " ++ Quote db ++ $" (limit: " ++ FormatInt limit ++ $")"
  end.

(** [TryAcquire] on the tracker there is: whether there is one, and the reason of a rejection. *)
Definition try_acquire (user db : bytes) : M (option (option Rejection)) :=
  access (fun g => match tracker g with
                   | None => (None, g)
                   | Some ct => let '(r, ct) := TryAcquire ct user db in
                                (Some r, {| registry := registry g; tracker := Some ct; dbGroups := dbGroups g; defaultDB := defaultDB g |})
                   end)
         (fun r => match r with Some None => [OpAcquire user db] | _ => [] end).

(** The deferred release: of the tracker there is then. *)
Definition release_slot (user db : bytes) : M unit :=
  access (fun g => (tt, {| registry := registry g; tracker := (fun ct => ConnLimit.Release ct user db) <$> tracker g; dbGroups := dbGroups g; defaultDB := defaultDB g |}))
         (fun _ => [OpRelease user db]).

Definition with_registry (g : Gate) (r : Cancel.Registry) : Gate := {| registry := r; tracker := tracker g; dbGroups := dbGroups g; defaultDB := defaultDB g |}.

(** The new target: its location and its key. *)
Definition new_key (a : Arrival) : M (nat * Z * Z) :=
  access (fun g => let '(l, r) := Cancel.newCancelTarget (registry g) (secretBuf a) in
                   match Cancel.targets r !! l with
                   | Some ct => ((l, Cancel.proxyPID ct, Cancel.proxySecret ct), with_registry g r)
                   | None => ((l, 0%Z, 0%Z), with_registry g r)
                   end)
         (fun k => [OpNewKey k.1.1 k.1.2 k.2]).
Definition remove_key (l : nat) : M unit := access (fun g => (tt, with_registry g (Cancel.removeCancelTarget (registry g) l))) (fun _ => [OpRemoveKey l]).

Definition register (l : nat) (si : Cancel.SessionInfo) : M unit :=
  access (fun g => (tt, with_registry g (Cancel.registerSession (registry g) l si))) (fun _ => [OpRegister l (Cancel.si_ID si)]).
Definition unregister (id : Z) : M unit :=
  access (fun g => (tt, with_registry g (Cancel.unregisterSession (registry g) id))) (fun _ => [OpUnregister id]).

(** ** Authentication *)

Definition startup_raw (startup : Message) : bytes := PutUint32 (wrapU 32 (4 + Z.of_nat (length (mPayload startup)))) ++ mPayload startup.

(** An error ends the handler. *)
Definition authenticate (a : Arrival) (cfg : Config.Config) (dbg : DatabaseGroup) (startup : Message) (user : bytes) (pid secret : Z) : M unit :=
  if Auth_Enabled (Config.Auth cfg) then
    cfg <-! zoom getConfig;
    frontendAuth (Users (Config.Auth cfg)) user pid secret (rand_salt a)
  else
    match dial a (writerAddr dbg) with
    | None => sendError $"cannot connect to backend database" ;! fail
    | Some c =>
        note (OpDial c) ;!
        r <-! attempt (must_backend c (startup_raw startup) ;! relayAuth c pid secret);
        note (OpHangUp c (bool_decide (is_Some r))) ;!
        match r with Some _ => ret tt | None => fail end
    end.

(** ** The handler *)

(** The session serves the group that was resolved. *)
Definition enter (dbg : DatabaseGroup) : M unit :=
  modify (fun s => {| gate := gate s; gate_env := gate_env s;
                      sess := {| server := set_group dbg (server (sess s)); env := env (sess s); vars := vars (sess s) |}; history := history s |}).

(** Steps 5 to 9. *)
Definition serve (a : Arrival) (startup : Message) (user db : bytes) (dbg : DatabaseGroup) : M unit :=
  k <-! new_key a;
  let '(l, pid, secret) := k in
  deferring (remove_key l) (
    cfg <-! zoom getConfig;
    authenticate a cfg dbg startup user pid secret ;!
    now <-! zoom (ask now);
    register l {| Cancel.si_ID := pid; Cancel.ClientAddr := remoteAddr a; Cancel.User := user; Cancel.Database := db; Cancel.ConnectedAt := now;
                  Cancel.currentQuery := []; Cancel.queryStartedAt := 0%Z; Cancel.si_inTransaction := false; Cancel.pinned := false;
                  Cancel.pinnedReason := []; Cancel.si_ct := Some l |} ;!
    deferring (unregister pid) (
      let session := NewSession (ReadAfterWriteDelay (Routing cfg)) (CausalConsistency (Routing cfg)) (ASTParser (Routing cfg)) in
      note (OpServe user db) ;!
      enter dbg ;!
      zoom (relayQueries order session user (remoteAddr a)))).

Definition param (params : option (gmap bytes bytes)) (key : bytes) : bytes := default [] (params ≫= fun m => m !! key).

(** Step 4 and on: the slot is held while the session is served. *)
Definition claim_slot (a : Arrival) (startup : Message) (username dbName : bytes) (dbg : DatabaseGroup) : M unit :=
  slot <-! try_acquire username dbName;
  match slot with
  | Some (Some reason) => sendFatalWithCode $"53300" (limit_reason reason)
  | Some None => deferring (release_slot username dbName) (serve a startup username dbName dbg)
  | None => serve a startup username dbName dbg
  end.

(** The group of the database, then step 4. *)
Definition find_database (a : Arrival) (startup : Message) (username dbName : bytes) : M unit :=
  dbg <-! access (fun g => (dbGroups g !! dbName, g)) (fun _ => []);
  match dbg with
  | None => sendError ($"unknown database " ++ Quote dbName)
  | Some dbg => claim_slot a startup username dbName dbg
  end.

(** Step 3 and on. *)
Definition let_in (a : Arrival) (startup : Message) : M unit :=
  let '(_, _, params) := ParseStartupParams (mPayload startup) in
  maintenance <-! zoom (ask inMaintenance);
  if maintenance then sendFatalWithCode $"57P01" $"pgmux is in maintenance mode"
  else
    dbName <-! (match param params $"database" with [] => access (fun g => (defaultDB g, g)) (fun _ => []) | name => ret name end);
    find_database a startup (param params $"user") dbName.

Definition handleConn (a : Arrival) : M unit :=
  startup <-! read_startup;
  startup <-! accept_ssl a startup;
  if bool_decide (request_code (mPayload startup) = Some Cancel.CancelRequestCode) then
    _ <-! access (fun g => (Cancel.handleCancelRequest (registry g) (mPayload startup), g)) (fun m => [OpCancel m]); ret tt
  else let_in a startup.
End Handle.

(** ** Parts of the handler *)

(** What holds of the shared state throughout. *)
Definition gate_remains (G : Gate -> Prop) (s : Front) : Prop := G (gate s) /\ Forall (fun change => forall g, G g -> G (change g)) (gate_env s).

(** The parts of the state a step may change: none; the session's. *)
Definition same_gate (s s' : Front) : Prop := gate s' = gate s /\ gate_env s' = gate_env s /\ log s' = log s.

Lemma log_entries (h : list entry) (os : list op) g g' : did <$> (h ++ ((fun x => {| did := x; found := g; became := g' |}) <$> os)) = (did <$> h) ++ os.
Proof. rewrite fmap_app, <- list_fmap_compose. unfold compose. cbn. by rewrite list_fmap_id. Qed.

Lemma wp_access {A C} (f : Gate -> A * Gate) o (k : A -> M C) Q w :
  (forall g a g' w', (forall G, gate_remains G (sh w) -> G g) -> f g = (a, g') -> cin w' = cin w -> log (sh w') = log (sh w) ++ o a -> sess (sh w') = sess (sh w) ->
     (forall G, gate_remains G (sh w) -> G g' -> gate_remains G (sh w')) -> trace w' = trace w -> grants w' = grants w -> gate (sh w') = g' -> wp (k a) Q w') ->
  wp (bind (access f o) k) Q w.
Proof.
  intros Hk. apply wp_bind. unfold wp at 1, access.
  destruct (match gate_env (sh w) with e :: es => (e, es) | [] => (fun g => g, []) end) as [change env'] eqn:Ee.
  destruct (f (change (gate (sh w)))) as [x g'] eqn:Ef. eapply Hk; try done.
  - intros G [Hg He]. destruct (gate_env (sh w)); [by injection Ee as <- <-|]. injection Ee as <- <-. inversion He. auto.
  - apply log_entries.
  - intros G [_ He] HG. split; [done|]. cbn. destruct (gate_env (sh w)); [by injection Ee as <- <-|]. injection Ee as <- <-. by inversion He.
Qed.

(** Reading the server. *)
Lemma wp_zoom_ask {A C} (f : Server -> A) (k : A -> M C) Q w :
  (forall s w', (forall P, remains P (sess (sh w)) -> P s) -> cin w' = cin w -> same_gate (sh w) (sh w') -> trace w' = trace w -> grants w' = grants w ->
     bin w' = bin w -> vars (sess (sh w')) = vars (sess (sh w)) -> (forall P, remains P (sess (sh w)) -> remains P (sess (sh w'))) -> wp (k (f s)) Q w') ->
  wp (bind (zoom (ask f)) k) Q w.
Proof.
  intros Hk. apply wp_bind. unfold wp at 1, zoom, ask, Proxy.access. cbn [sh].
  destruct (match env (sess (sh w)) with e :: es => (e, es) | [] => (fun s => s, []) end) as [change env'] eqn:Ee.
  apply (Hk (change (server (sess (sh w))))); try done; cbn; [|by rewrite app_nil_r|].
  - intros P [Hp He]. destruct (env (sess (sh w))); [by injection Ee as <- <-|]. injection Ee as <- <-. inversion He. auto.
  - intros P [Hp He]. split; cbn; destruct (env (sess (sh w))); injection Ee as <- <-; try done; inversion He; auto.
Qed.

(** Code that talks to the client and one connection leaves the state alone. *)
Lemma steady_must_client {S} bs : steady (S := S) (must_client bs).
Proof. intros w. unfold must_client, write_client, next_write, bind, emit, ret, fail. by destruct (faults w) as [|[] ?]. Qed.
Lemma steady_try_client {S} bs : steady (S := S) (try_client bs).
Proof. intros w. unfold try_client, write_client, next_write, bind, emit, ret. by destruct (faults w) as [|[] ?]. Qed.
Lemma steady_read_client {S} : steady (S := S) read_client.
Proof. intros w. unfold read_client. pose proof (ReadMessage_no_panic (cin w)). by destruct (ReadMessage (cin w)) as [[]| |]. Qed.
Lemma steady_attempt {S A} (m : Relay.M S A) : steady m -> steady (attempt m).
Proof. intros Hm w. unfold attempt. destruct (Hm w) as [Hp Hs]. by destruct (m w) as [[]]. Qed.

Create HintDb steady.
#[local] Hint Resolve steady_ret steady_fail steady_bind steady_must_client steady_try_client steady_read_client steady_read_backend steady_must_backend : steady.

Lemma steady_frontendAuth {S} users user pid secret salt : steady (S := S) (frontendAuth users user pid secret salt).
Proof.
  unfold frontendAuth, sendError. destruct (find_user users user); [|auto with steady]. destruct salt; [|auto with steady].
  apply steady_bind; [auto with steady|]. intros _. apply steady_bind; [auto with steady|]. intros m. repeat case_match; auto 10 with steady.
Qed.

Lemma steady_relayAuth {S} c pid secret : steady (S := S) (relayAuth c pid secret).
Proof.
  apply steady_rounds. intros n. induction n as [|n IH]; cbn [relayAuth_loop]; [auto with steady|].
  apply steady_bind; [auto with steady|]. intros m. repeat case_match; auto 10 with steady.
Qed.

(** ** The path through the checks *)

(** The startup message after an optional TLS upgrade, and what the client sends after it. *)
Definition client_hello (a : Arrival) (bs : bytes) : option (Message * bytes) :=
  match ReadStartupMessage bs with
  | Ok (m, r) =>
      if bool_decide (request_code (mPayload m) = Some SSLRequestCode) then
        match (if tlsConfig a then handshake a r else Some r) with
        | Some r' => match ReadStartupMessage r' with Ok x => Some x | _ => None end
        | None => None
        end
      else Some (m, r)
  | _ => None
  end.

(** The first message of [bs] answers the challenge with the password of the user. *)
Definition authentic_bytes (users : list AuthUser) (user salt bs : bytes) : Prop :=
  exists password m rest, find_user users user = Some password /\ ReadMessage bs = Ok (m, rest) /\
    mType m = "p"%byte /\ trim_zeros (mPayload m) = pgMD5Password user password salt.

(** The client was authenticated, by the proxy or by the backend. *)
Definition authenticated (a : Arrival) (w : World Front) (user rest : bytes) (auth : list op) : Prop :=
  forall P, remains P (sess (sh w)) -> exists s, P s /\
    if Auth_Enabled (Config.Auth (s_cfg s)) then
      exists s' salt, P s' /\ rand_salt a = Some salt /\ (length salt = 4 -> authentic_bytes (Users (Config.Auth (s_cfg s'))) user salt rest)
    else exists c, auth = [OpDial c; OpHangUp c true].

(** What the handler does between making and removing its key. *)
Definition key_ops (a : Arrival) (w : World Front) (user db rest : bytes) (ops : list op) : Prop :=
  exists l pid secret auth served, ops = OpNewKey l pid secret :: auth ++ served ++ [OpRemoveKey l] /\
    (auth = [] \/ exists c ok, auth = [OpDial c; OpHangUp c ok]) /\
    (served = [] \/ (served = [OpRegister l pid; OpServe user db; OpUnregister pid] /\ authenticated a w user rest auth)).

(** The checks before: no maintenance, a known database, and a slot if connections are limited. *)
Definition admitted (a : Arrival) (w : World Front) (startup : Message) (rest : bytes) (ops : list op) : Prop :=
  let params := (ParseStartupParams (mPayload startup)).2 in
  let user := param params $"user" in
  exists db inner, (param params $"database" <> [] -> db = param params $"database") /\
    key_ops a w user db rest inner /\
    (forall P, remains P (sess (sh w)) -> exists s, P s /\ inMaintenance s = false) /\
    (forall G, gate_remains G (sh w) -> exists g, G g /\ is_Some (dbGroups g !! db)) /\
    ((ops = inner /\ forall G, gate_remains G (sh w) -> exists g, G g /\ tracker g = None) \/
     (ops = OpAcquire user db :: inner ++ [OpRelease user db] /\
      forall G, gate_remains G (sh w) -> exists g ct ct', G g /\ tracker g = Some ct /\ TryAcquire ct user db = (None, ct'))).

(** What each operation does to the registries it touches. The tracker is judged by the list of active
    connections it stands for, the registry by its maps. The rest of the shared state stays. *)
Definition has_effect (e : entry) : Prop :=
  dbGroups (became e) = dbGroups (found e) /\ defaultDB (became e) = defaultDB (found e) /\
  match did e with
  | OpAcquire u d => registry (became e) = registry (found e) /\
      exists ct ct', tracker (found e) = Some ct /\ tracker (became e) = Some ct' /\
        forall st, refines ct st -> exists st', spec_step st (Connect u d) = (Some true, st') /\ refines ct' st'
  | OpRelease u d => registry (became e) = registry (found e) /\
      match tracker (found e) with
      | None => tracker (became e) = None
      | Some ct => exists ct', tracker (became e) = Some ct' /\
          forall st, refines ct st -> (u, d) ∈ active st -> refines ct' (spec_step st (Disconnect u d)).2
      end
  | OpNewKey l pid secret => tracker (became e) = tracker (found e) /\
      Cancel.cancelMap (registry (became e)) = <[(pid, secret) := l]> (Cancel.cancelMap (registry (found e))) /\
      exists ct, Cancel.targets (registry (became e)) !! l = Some ct /\ (Cancel.proxyPID ct, Cancel.proxySecret ct) = (pid, secret)
  | OpRemoveKey l => tracker (became e) = tracker (found e) /\
      forall ct, Cancel.targets (registry (found e)) !! l = Some ct ->
        Cancel.cancelMap (registry (became e)) = delete (Cancel.proxyPID ct, Cancel.proxySecret ct) (Cancel.cancelMap (registry (found e)))
  | OpRegister l id => tracker (became e) = tracker (found e) /\ Cancel.sessions (registry (became e)) = <[id := l]> (Cancel.sessions (registry (found e)))
  | OpUnregister id => tracker (became e) = tracker (found e) /\ Cancel.sessions (registry (became e)) = delete id (Cancel.sessions (registry (found e)))
  | OpDial _ | OpHangUp _ _ | OpServe _ _ | OpCancel _ => became e = found e
  end.

Definition effect_free (o : op) : Prop := match o with OpDial _ | OpHangUp _ _ | OpServe _ _ | OpCancel _ => True | _ => False end.

(** Code whose entries are true of the shared state. *)
Definition faithful {A} (m : M A) : Prop := forall w, exists h, history (sh (m w).2) = history (sh w) ++ h /\ Forall has_effect h.

Lemma faithful_same {A} (m : M A) : (forall w, history (sh (m w).2) = history (sh w)) -> faithful m.
Proof. intros Hm w. exists []. by rewrite Hm, app_nil_r. Qed.
Lemma faithful_steady {A} (m : M A) : steady m -> faithful m.
Proof. intros Hm. apply faithful_same. intros w. by destruct (Hm w) as [_ ->]. Qed.
Lemma faithful_zoom {A} (m : Proxy.M A) : faithful (zoom m).
Proof. apply faithful_same. intros w. unfold zoom. by destruct (m _). Qed.
Lemma faithful_attempt {A} (m : M A) : faithful m -> faithful (attempt m).
Proof. intros Hm w. destruct (Hm w) as (h & E & Hh). exists h. unfold attempt. by destruct (m w) as [[] ?]. Qed.
Lemma faithful_bind {A C} (m : M A) (k : A -> M C) : faithful m -> (forall x, faithful (k x)) -> faithful (bind m k).
Proof.
  intros Hm Hk w. unfold bind. destruct (Hm w) as (h & E & Hh). destruct (m w) as [[x|e|] w1]; [|by exists h..].
  destruct (Hk x w1) as (h' & E' & Hh'). exists (h ++ h'). cbn in E. rewrite E', E, app_assoc. by rewrite Forall_app.
Qed.
Lemma faithful_deferring (d m : M unit) : faithful d -> faithful m -> faithful (deferring d m).
Proof.
  intros Hd Hm w. destruct (Hm w) as (h & E & Hh). destruct (Hd (m w).2) as (h' & E' & Hh'). exists (h ++ h'). rewrite Forall_app. split; [|done].
  rewrite app_assoc, <- E, <- E'. unfold deferring. destruct (m w) as [[[]|[]|] w1]; cbn; [done|..]; by destruct (d w1) as [[[]|[]|] ?].
Qed.
Lemma faithful_access {A} (f : Gate -> A * Gate) o :
  (forall g x, x ∈ o (f g).1 -> has_effect {| did := x; found := g; became := (f g).2 |}) -> faithful (access f o).
Proof.
  intros Hf w. unfold access. destruct (match gate_env (sh w) with e :: es => (e, es) | [] => (fun g => g, []) end) as [change env'].
  specialize (Hf (change (gate (sh w)))). destruct (f _) as [x g']. eexists. split; [reflexivity|]. apply list.Forall_fmap, list.Forall_forall, Hf.
Qed.
Lemma faithful_note o : effect_free o -> faithful (note o).
Proof. intros Ho w. eexists. split; [reflexivity|]. constructor; [|done]. by destruct o. Qed.

Lemma wp_deferring (d m : M unit) (R Q : World Front -> Prop) w :
  wp m (fun _ w1 => R w1) w -> (forall w1, R w1 -> wp d (fun _ w2 => Q w2) w1) -> wp (deferring d m) (fun _ w2 => Q w2) w.
Proof.
  unfold wp, deferring. intros Hm Hd. destruct (m w) as [r w1]. specialize (Hd w1 Hm). destruct r, (d w1) as [[] ?]; done.
Qed.

Lemma wp_steady {A C} (m : M A) (k : A -> M C) Q w :
  steady m -> (forall w', sh w' = sh w -> Q (Err tt) w') -> (forall x w', sh w' = sh w -> m w = (Ok x, w') -> wp (k x) Q w') -> wp (bind m k) Q w.
Proof. intros Hm He Hk. apply wp_bind. unfold wp at 1. destruct (Hm w) as [Hp Hs]. destruct (m w) as [[x|[]|] w'] eqn:E; [by apply Hk|by apply He|done]. Qed.

Lemma note_log o w : exists w', note o w = (Ok tt, w') /\ log (sh w') = log (sh w) ++ [o] /\ sess (sh w') = sess (sh w) /\ cin w' = cin w.
Proof. eexists. split; [reflexivity|]. split; [by apply (log_entries _ [o])|done]. Qed.

Lemma frontendAuth_Ok {S} users user pid secret salt (w w' : World S) :
  frontendAuth users user pid secret salt w = (Ok tt, w') -> exists st, salt = Some st /\ (length st = 4 -> authentic_bytes users user st (cin w)).
Proof.
  intros E. destruct salt as [st|].
  - exists st. split; [done|]. intros Hl. pose proof (frontendAuth_outcome users user pid secret st w Hl) as Ho. unfold wp in Ho. rewrite E in Ho.
    destruct Ho as (_ & evs & _ & Ha & _). destruct (Ha (or_introl eq_refl)) as (pw & m & rest & H). by exists pw, m, rest.
  - exfalso. revert E. unfold frontendAuth, bind, fail. destruct (find_user users user); [done|]. by destruct (sendError _ w) as [[] ?].
Qed.

Lemma wp_attempt_steady {A C} (m : M A) (k : option A -> M C) Q w :
  steady m -> (forall o w', sh w' = sh w -> wp (k o) Q w') -> wp (bind (attempt m) k) Q w.
Proof. intros Hm Hk. apply wp_bind, wp_attempt. unfold wp at 1. destruct (Hm w) as [Hp Hs]. destruct (m w) as [[x|[]|] w']; [by apply Hk|by apply Hk|done]. Qed.

Lemma wp_note {C} o (k : unit -> M C) Q w :
  (forall w', log (sh w') = log (sh w) ++ [o] -> sess (sh w') = sess (sh w) -> cin w' = cin w -> trace w' = trace w -> wp (k tt) Q w') -> wp (bind (note o) k) Q w.
Proof. intros Hk. apply wp_bind, Hk; [by apply (log_entries _ [o])|done..]. Qed.

Section Path.
Context `{UnicodeCase} `{PgQuery} `{RewriteDeps} `{Texts} (order : gset Z -> list Z).

Definition auth_log (auth : list op) : Prop := auth = [] \/ exists c ok, auth = [OpDial c; OpHangUp c ok].

(** [s] is the state in which the configuration was read. *)
Lemma authenticate_spec a s dbg startup user pid secret w0 w :
  (forall P, remains P (sess (sh w0)) -> P s) -> (forall P, remains P (sess (sh w0)) -> remains P (sess (sh w))) ->
  wp (authenticate a (s_cfg s) dbg startup user pid secret)
    (fun r w' => exists auth, log (sh w') = log (sh w) ++ auth /\ auth_log auth /\ (r = Ok tt -> authenticated a w0 user (cin w) auth)) w.
Proof.
  intros Hs Hr. unfold authenticate. destruct (Auth_Enabled (Config.Auth (s_cfg s))) eqn:Ea.
  - apply wp_zoom_ask. intros s' w1 Hs' Hc (_ & _ & Hl) _ _ _ _ Hr1. apply wp_last, wp_steady; [apply steady_frontendAuth|..].
    + intros w2 E. exists []. rewrite E, Hl, app_nil_r. split_and!; [done|by left|done].
    + intros [] w2 E Ef. exists []. cbn. rewrite E, Hl, app_nil_r. split_and!; [done|by left|]. intros _ P HP. exists s. split; [by apply Hs|]. rewrite Ea.
      destruct (frontendAuth_Ok _ _ _ _ _ _ _ Ef) as (st & Est & Hauth). rewrite Hc in Hauth. exists s', st. split_and!; [by apply Hs', Hr|done..].
  - destruct (dial a (writerAddr dbg)) as [c|].
    + apply wp_note. intros w1 L1 _ _ _. apply wp_attempt_steady; [apply steady_bind; [apply steady_must_backend|intros _; apply steady_relayAuth]|].
      intros o w2 E2. apply wp_note. intros w3 L3 _ _ _. rewrite E2, L1, <- app_assoc in L3. cbn [app] in L3.
      assert (authenticated a w0 user (cin w) [OpDial c; OpHangUp c true]) as Hauth by (intros P HP; exists s; split; [by apply Hs|]; rewrite Ea; by exists c).
      destruct o as [[]|]; eexists; (split; [exact L3|]); (split; [right; by eexists _, _|done]).
    + apply wp_steady; [apply steady_try_client|..].
      * intros w1 E1. exists []. rewrite E1, app_nil_r. split_and!; [done|by left|done].
      * intros [] w1 E1 _. exists []. cbn. rewrite E1, app_nil_r. split_and!; [done|by left|done].
Qed.

Lemma serve_spec a startup user db dbg w0 w :
  (forall P, remains P (sess (sh w0)) -> remains P (sess (sh w))) ->
  wp (serve order a startup user db dbg) (fun _ w' => exists ops, log (sh w') = log (sh w) ++ ops /\ key_ops a w0 user db (cin w) ops) w.
Proof.
  intros Hr. unfold serve, new_key. apply wp_access. intros g k g' w1 _ _ Hc1 Hl1 Hs1 _ _ _ _. destruct k as [[l pid] secret].
  eapply (wp_deferring _ _ (fun w2 => exists auth served, log (sh w2) = log (sh w1) ++ auth ++ served /\ auth_log auth /\
    (served = [] \/ (served = [OpRegister l pid; OpServe user db; OpUnregister pid] /\ authenticated a w0 user (cin w) auth)))).
  - apply wp_zoom_ask. intros s w2 Hs2 Hc2 (_ & _ & Hl2) _ _ _ _ Hr2. rewrite Hs1 in *.
    apply wp_bind. eapply wp_mono; [apply (authenticate_spec a s dbg startup user pid secret w0 w2); [intros P HP; by apply Hs2, Hr|intros P HP; by apply Hr2, Hr]|].
    intros r w3 (auth & Hl3 & Hal & Hok). rewrite Hc2, Hc1 in Hok. rewrite Hl2 in Hl3.
    destruct r as [[]|[]|]; try (exists auth, []; rewrite app_nil_r; split_and!; [done|done|by left]).
    specialize (Hok eq_refl). apply wp_zoom_ask. intros s4 w4 _ _ (_ & _ & Hl4) _ _ _ _ _.
    apply wp_access. intros g5 x5 g5' w5 _ _ _ Hl5 _ _ _ _ _. rewrite Hl4, Hl3 in Hl5.
    eapply (wp_deferring _ _ (fun w6 => log (sh w6) = log (sh w1) ++ auth ++ [OpRegister l pid; OpServe user db])).
    + apply wp_note. intros w6 Hl6 _ _ _. apply wp_bind. unfold wp at 1, enter, modify. unfold wp, zoom.
      destruct (relayQueries _ _ _ _ _) as [r7 w7]. etransitivity; [exact Hl6|]. by rewrite Hl5, <- !app_assoc.
    + intros w6 Hl6. apply wp_last, wp_access. intros g7 x7 g7' w7 _ _ _ Hl7 _ _ _ _ _. exists auth, [OpRegister l pid; OpServe user db; OpUnregister pid].
      rewrite Hl7, Hl6, <- !app_assoc. split_and!; [done|done|by right].
  - intros w2 (auth & served & Hl2 & Hal & Hsv). apply wp_last, wp_access. intros g3 x3 g3' w3 _ _ _ Hl3 _ _ _ _ _.
    exists (OpNewKey l pid secret :: auth ++ served ++ [OpRemoveKey l]). cbn in Hl1. rewrite Hl3, Hl2, Hl1, <- !app_assoc. split; [done|]. exists l, pid, secret, auth, served. by split_and!.
Qed.

(** A refusal: the client is told, and nothing else happens. *)
Lemma wp_refuse (m : M unit) (R : list op -> Prop) w w1 :
  steady m -> log (sh w1) = log (sh w) -> wp m (fun _ w' => exists ops, log (sh w') = log (sh w) ++ ops /\ (ops = [] \/ R ops)) w1.
Proof.
  intros Hm E. unfold wp. destruct (Hm w1) as [_ Hs]. destruct (m w1) as [r w2]. cbn in Hs. exists []. rewrite Hs, E, app_nil_r. by split; [|left].
Qed.

(** The slot, then the session. *)
Lemma slot_spec a startup rest db dbg w0 w :
  let user := param (ParseStartupParams (mPayload startup)).2 $"user" in
  (forall P, remains P (sess (sh w0)) -> remains P (sess (sh w))) -> (forall G, gate_remains G (sh w0) -> gate_remains G (sh w)) -> cin w = rest ->
  (param (ParseStartupParams (mPayload startup)).2 $"database" <> [] -> db = param (ParseStartupParams (mPayload startup)).2 $"database") ->
  (forall P, remains P (sess (sh w0)) -> exists s, P s /\ inMaintenance s = false) ->
  (forall G, gate_remains G (sh w0) -> exists g, G g /\ is_Some (dbGroups g !! db)) ->
  wp (claim_slot order a startup user db dbg)
    (fun _ w' => exists ops, log (sh w') = log (sh w) ++ ops /\ (ops = [] \/ admitted a w0 startup rest ops)) w.
Proof.
  intros user Hr Hg Hc Hdb Hm Hk. subst rest. apply wp_access. intros g x g' w1 HG Ef Hc1 Hl1 Hs1 _ _ _ _.
  rewrite <- Hs1 in Hr. pose proof (serve_spec a startup user db dbg w0 w1 Hr) as Hserve. rewrite Hc1 in Hserve.
  destruct (tracker g) as [ct|] eqn:Et; [destruct (TryAcquire ct user db) as [[reason|] ct'] eqn:Eq|]; injection Ef as <- <-.
  - apply wp_refuse; [apply steady_try_client|]. by rewrite Hl1, app_nil_r.
  - eapply wp_deferring; [exact Hserve|]. intros w2 (inner & Hl2 & Hi). apply wp_last, wp_access. intros ? ? ? w3 _ _ _ Hl3 _ _ _ _ _.
    exists (OpAcquire user db :: inner ++ [OpRelease user db]). rewrite Hl3, Hl2, Hl1, <- !app_assoc. split; [done|]. right.
    exists db, inner. split_and!; [done..|]. right. split; [done|]. intros G HGr. exists g, ct, ct'. split_and!; [by apply HG, Hg|done..].
  - eapply wp_mono; [exact Hserve|]. intros _ w2 (inner & Hl2 & Hi). exists inner. rewrite Hl2, Hl1, app_nil_r. split; [done|]. right.
    exists db, inner. split_and!; [done..|]. left. split; [done|]. intros G HGr. exists g. split; [by apply HG, Hg|done].
Qed.

Lemma let_in_spec a startup w0 w :
  (forall P, remains P (sess (sh w0)) -> remains P (sess (sh w))) -> (forall G, gate_remains G (sh w0) -> gate_remains G (sh w)) ->
  wp (let_in order a startup) (fun _ w' => exists ops, log (sh w') = log (sh w) ++ ops /\ (ops = [] \/ admitted a w0 startup (cin w) ops)) w.
Proof.
  intros Hr Hg. unfold let_in. destruct (ParseStartupParams (mPayload startup)) as [pq params] eqn:Ep. destruct pq.
  apply wp_zoom_ask. intros s w1 Hs1 Hc1 (Eg1 & Ee1 & Hl1) _ _ _ _ Hr1. destruct (inMaintenance s) eqn:Em.
  { apply wp_refuse; [apply steady_try_client|done]. }
  assert (Hm : forall P, remains P (sess (sh w0)) -> exists s, P s /\ inMaintenance s = false) by (intros P HP; exists s; split; [by apply Hs1, Hr|done]).
  assert (Hg1 : forall G, gate_remains G (sh w0) -> gate_remains G (sh w1)) by (intros G HG; unfold gate_remains; rewrite Eg1, Ee1; by apply Hg).
  assert (Hrest : forall dbName w2, (param params $"database" <> [] -> dbName = param params $"database") -> log (sh w2) = log (sh w) -> cin w2 = cin w ->
     sess (sh w2) = sess (sh w1) -> (forall G, gate_remains G (sh w0) -> gate_remains G (sh w2)) ->
     wp (find_database order a startup (param params $"user") dbName) (fun _ w' => exists ops, log (sh w') = log (sh w) ++ ops /\ (ops = [] \/ admitted a w0 startup (cin w) ops)) w2).
  { intros dbName w2 Hdb Hl2 Hc2 Hs2 Hg2. apply wp_access. intros g x g' w3 HG Ef Hc3 Hl3 Hs3 Hg3 _ _ _. injection Ef as <- <-. rewrite Hl2, app_nil_r in Hl3.
    destruct (dbGroups g !! dbName) as [dbg|] eqn:Ed; [|by apply wp_refuse; [apply steady_try_client|]].
    pose proof (slot_spec a startup (cin w) dbName dbg w0 w3) as Hslot. rewrite Ep in Hslot. cbn [snd] in Hslot. rewrite Hl3 in Hslot. apply Hslot.
    - intros P HP. rewrite Hs3, Hs2. by apply Hr1, Hr.
    - intros G HGr. apply Hg3; [by apply Hg2|by apply HG, Hg2].
    - by rewrite Hc3.
    - done.
    - done.
    - intros G HGr. exists g. split; [by apply HG, Hg2|by exists dbg]. }
  destruct (param params $"database") as [|b name] eqn:Ed.
  - apply wp_access. intros g x g' w2 HG Ef Hc2 Hl2 Hs2 Hg2 _ _ _. injection Ef as <- <-. apply Hrest; [done|..].
    + by rewrite Hl2, app_nil_r.
    + by rewrite Hc2.
    + done.
    + intros G HGr. apply Hg2; [by apply Hg1|by apply HG, Hg1].
  - apply wp_bind. apply Hrest; done.
Qed.

(** Reading the startup message and upgrading the connection. *)
Lemma wp_hello a (k : Message -> M unit) Q w :
  (forall r w', sh w' = sh w -> Q r w') -> (forall m w', client_hello a (cin w) = Some (m, cin w') -> sh w' = sh w -> wp (k m) Q w') ->
  wp (startup <-! read_startup; startup <-! accept_ssl a startup; k startup) Q w.
Proof.
  intros Hq Hk. apply wp_bind. unfold wp at 1, read_startup. unfold client_hello in Hk. destruct (ReadStartupMessage (cin w)) as [[m rest]|[]|]; [|by apply Hq..].
  unfold accept_ssl. destruct (bool_decide (request_code (mPayload m) = Some SSLRequestCode)); [|apply wp_bind; by apply Hk].
  set (w1 := {| cin := rest; bin := bin w; faults := faults w; grants := grants w; trace := trace w; sh := sh w |}).
  assert (Hread : forall w2, sh w2 = sh w -> (if tlsConfig a then handshake a rest else Some rest) = Some (cin w2) -> wp (startup <-! read_startup; k startup) Q w2).
  { intros w2 Hs2 Hh. rewrite Hh in Hk. apply wp_bind. unfold wp at 1, read_startup.
    destruct (ReadStartupMessage (cin w2)) as [[m2 rest2]|[]|]; [by apply Hk|by apply Hq..]. }
  assert (Hsend : forall bs (k' : unit -> M unit), (forall w2, sh w2 = sh w -> cin w2 = rest -> wp (k' tt) Q w2) -> wp (must_client bs ;! k' tt) Q w1).
  { intros bs k' Hk'. apply wp_bind. unfold wp at 1, must_client, write_client, next_write, bind, emit, ret, fail. cbn.
    destruct (faults w) as [|[] ?]; (apply Hk' || apply Hq); done. }
  apply wp_assoc. destruct (tlsConfig a).
  - apply wp_assoc, (Hsend _ (fun _ => upgrade a ;! (startup <-! read_startup; k startup))). intros w2 Hs2 Hc2. apply wp_bind. unfold wp at 1, upgrade. rewrite Hc2.
    destruct (handshake a rest) as [plain|] eqn:Eh; [|by apply Hq]. by apply Hread.
  - apply (Hsend _ (fun _ => startup <-! read_startup; k startup)). intros w2 Hs2 Hc2. apply Hread; [done|by rewrite Hc2].
Qed.

(** Every entry of the handler's history is true of the shared state. *)
Create HintDb faithful.
#[local] Hint Resolve faithful_bind faithful_attempt faithful_zoom faithful_deferring : faithful.
#[local] Hint Extern 1 (faithful (ret _)) => apply faithful_steady, steady_ret : faithful.
#[local] Hint Extern 1 (faithful fail) => apply faithful_steady, steady_fail : faithful.
#[local] Hint Extern 1 (faithful (must_client _)) => apply faithful_steady, steady_must_client : faithful.
#[local] Hint Extern 1 (faithful (sendError _)) => apply faithful_steady, steady_try_client : faithful.
#[local] Hint Extern 1 (faithful (sendFatalWithCode _ _)) => apply faithful_steady, steady_try_client : faithful.

Lemma faithful_try_acquire user db : faithful (try_acquire user db).
Proof.
  apply faithful_access. intros g x. destruct (tracker g) as [ct|] eqn:Et; [|by intros ?%not_elem_of_nil].
  destruct (TryAcquire ct user db) as [[reason|] ct'] eqn:E; [by intros ?%not_elem_of_nil|]. intros ->%list_elem_of_singleton.
  unfold has_effect. cbn [did found became fst snd tracker registry dbGroups defaultDB]. split_and!; [done..|]. exists ct, ct'. split_and!; [done..|]. intros st Hst.
  destruct (step_refines ct st (Connect user db) Hst I) as [Ha Hr]. cbn [ConnLimit.step] in Ha, Hr. rewrite E in Ha, Hr. cbn [fst snd] in Ha, Hr.
  destruct (spec_step st (Connect user db)) as [b st']. cbn in Ha, Hr. subst b. by exists st'.
Qed.
Lemma faithful_release_slot user db : faithful (release_slot user db).
Proof.
  apply faithful_access. intros g x ->%list_elem_of_singleton. unfold has_effect. cbn [did found became fst snd tracker registry dbGroups defaultDB]. split_and!; [done..|].
  destruct (tracker g) as [ct|]; [|done]. eexists. split; [reflexivity|]. intros st Hst Hin. apply (step_refines ct st (Disconnect user db) Hst Hin).
Qed.
Lemma faithful_new_key a : faithful (new_key a).
Proof.
  apply faithful_access. intros g x. cbn [Cancel.newCancelTarget Cancel.targets]. rewrite lookup_insert_eq. intros ->%list_elem_of_singleton.
  unfold has_effect. cbn [did found became fst snd]. split_and!; [done..|]. eexists. cbn. by rewrite lookup_insert_eq.
Qed.
Lemma faithful_remove_key l : faithful (remove_key l).
Proof. apply faithful_access. intros g x ->%list_elem_of_singleton. unfold has_effect. cbn [did found became fst snd]. split_and!; [done..|]. intros ct E. cbn in E |- *. unfold Cancel.removeCancelTarget. by rewrite E. Qed.
Lemma faithful_register l si : faithful (register l si).
Proof. apply faithful_access. by intros g x ->%list_elem_of_singleton. Qed.
Lemma faithful_unregister id : faithful (unregister id).
Proof. apply faithful_access. by intros g x ->%list_elem_of_singleton. Qed.
#[local] Hint Resolve faithful_try_acquire faithful_release_slot faithful_new_key faithful_remove_key faithful_register faithful_unregister : faithful.

Lemma faithful_authenticate a cfg dbg startup user pid secret : faithful (authenticate a cfg dbg startup user pid secret).
Proof.
  unfold authenticate. case_match; [apply faithful_bind; [apply faithful_zoom|intros c; apply faithful_steady, steady_frontendAuth]|].
  case_match; [|auto with faithful]. apply faithful_bind; [by apply faithful_note|]. intros _. apply faithful_bind.
  { apply faithful_steady, steady_attempt, steady_bind; [apply steady_must_backend|intros _; apply steady_relayAuth]. }
  intros r. apply faithful_bind; [by apply faithful_note|]. intros _. destruct r; auto with faithful.
Qed.
Lemma faithful_serve a startup user db dbg : faithful (serve order a startup user db dbg).
Proof.
  apply faithful_bind; [auto with faithful|]. intros [[l pid] secret]. apply faithful_deferring; [auto with faithful|].
  apply faithful_bind; [auto with faithful|]. intros cfg. apply faithful_bind; [apply faithful_authenticate|]. intros _.
  apply faithful_bind; [auto with faithful|]. intros t. apply faithful_bind; [auto with faithful|]. intros _. apply faithful_deferring; [auto with faithful|].
  apply faithful_bind; [by apply faithful_note|]. intros _. apply faithful_bind; [by apply faithful_same|auto with faithful].
Qed.
Lemma faithful_look {A} (f : Gate -> A * Gate) : faithful (access f (fun _ => [])).
Proof. apply faithful_access. by intros g x ?%not_elem_of_nil. Qed.
Lemma faithful_let_in a startup : faithful (let_in order a startup).
Proof.
  unfold let_in. destruct (ParseStartupParams (mPayload startup)) as [[? ?] params]. apply faithful_bind; [auto with faithful|]. intros []; [auto with faithful|].
  apply faithful_bind; [case_match; [apply faithful_look|auto with faithful]|]. intros db. apply faithful_bind; [apply faithful_look|].
  intros [dbg|]; [|auto with faithful]. apply faithful_bind; [auto with faithful|]. pose proof (faithful_serve a startup (param params $"user") db dbg).
  intros [[reason|]|]; auto with faithful.
Qed.
Lemma faithful_handleConn a : faithful (handleConn order a).
Proof.
  assert (Hread : faithful read_startup) by (apply faithful_same; intros w; unfold read_startup; by destruct (ReadStartupMessage (cin w)) as [[]| |]).
  apply faithful_bind; [done|]. intros m. apply faithful_bind.
  { unfold accept_ssl. case_match; [|auto with faithful]. apply faithful_bind; [|done]. case_match; [|auto with faithful].
    apply faithful_bind; [auto with faithful|]. intros _. apply faithful_same. intros w. unfold upgrade. by destruct (handshake a (cin w)). }
  intros m'. case_match; [|apply faithful_let_in]. apply faithful_bind; [|auto with faithful]. apply faithful_access. by intros g x ->%list_elem_of_singleton.
Qed.

(** C9: the path of a connection. Whatever the client sends and whatever other connections,
    reloads and the admin interface do meanwhile, also when the handler fails or panics, it does one of
    three things to the shared registries. Nothing; or, for a cancel request, it passes on what the
    registry says; or it takes a slot of the connection limits if there are any, makes a cancel
    key, perhaps dials the writer to relay the authentication and hangs up, perhaps enters the
    session, serves its queries and removes it, removes the key and releases the slot. It gets to
    the key only outside maintenance, for a database that is configured, and with the slot granted; it
    serves queries only for a client that answered the challenge with the password
    of its user, or for which the backend accepted the relayed authentication. Each of these
    steps has its effect ([has_effect]) on the shared state it finds: the tracker that grants the slot gains the
    connection, and the tracker in force at the end, which need not be the same after a reload, loses it
    if it counted it; the key is entered and the same key removed; the session is entered under the
    process id of the key and removed under it. *)
Theorem handleConn_path (a : Arrival) (w : World Front) :
  exists h, history (sh (handleConn order a w).2) = history (sh w) ++ h /\ Forall has_effect h /\
    let ops := did <$> h in
    (ops = [] \/ exists startup rest, client_hello a (cin w) = Some (startup, rest) /\
       if bool_decide (request_code (mPayload startup) = Some Cancel.CancelRequestCode) then
         exists m, ops = [OpCancel m] /\
           forall G, gate_remains G (sh w) -> exists g, G g /\ m = Cancel.handleCancelRequest (registry g) (mPayload startup)
       else admitted a w startup rest ops).
Proof.
  assert (wp (handleConn order a) (fun _ w' => exists ops, log (sh w') = log (sh w) ++ ops /\
    (ops = [] \/ exists startup rest, client_hello a (cin w) = Some (startup, rest) /\
       if bool_decide (request_code (mPayload startup) = Some Cancel.CancelRequestCode) then
         exists m, ops = [OpCancel m] /\ forall G, gate_remains G (sh w) -> exists g, G g /\ m = Cancel.handleCancelRequest (registry g) (mPayload startup)
       else admitted a w startup rest ops)) w) as Hw.
  { apply wp_hello; [intros _ w' E; exists []; rewrite E, app_nil_r; by split; [|left]|]. intros m w1 Hh Es.
    destruct (bool_decide (request_code (mPayload m) = Some Cancel.CancelRequestCode)) eqn:Ec.
    - apply wp_access. intros g x g' w2 HG Ef _ Hl _ _ _ _ _. injection Ef as <- <-. rewrite Es in *. eexists. split; [exact Hl|]. right.
      exists m, (cin w1). split; [done|]. rewrite Ec. eexists. split; [done|]. intros G HGr. exists g. by split; [apply HG|].
    - eapply wp_mono; [apply (let_in_spec a m w w1); by rewrite Es|]. rewrite Es. intros _ w2 (ops & Hl & Ho). exists ops. split; [done|].
      destruct Ho as [->|Ho]; [by left|]. right. exists m, (cin w1). by rewrite Ec. }
  destruct (faithful_handleConn a w) as (h & Eh & Hf). exists h. split_and!; [done..|]. cbv zeta. unfold wp in Hw.
  destruct (handleConn order a w) as [r w']. destruct Hw as (ops & El & Ho). cbn [fst snd] in Eh. unfold log in El. rewrite Eh, fmap_app in El.
  apply app_inv_head in El. by rewrite El.
Qed.
End Path.

(** ** The connections of the pools *)

(** What happens before the queries: bytes to the client and to the dialed connection. *)
Definition front (e : event) : Prop := match e with EvClient _ | EvSend _ _ _ => True | _ => False end.

Record opening (w w' : World Front) : Prop := {
  opening_grants : grants w' = grants w;
  opening_trace : exists pre, trace w' = trace w ++ pre /\ Forall front pre;
  opening_remains : forall P, remains P (sess (sh w)) -> remains P (sess (sh w'))
}.

Definition chats {A} (m : M A) : Prop := forall w, opening w (m w).2.

Lemma opening_refl w : opening w w.
Proof. split; [done| |done]. exists []. by rewrite app_nil_r. Qed.
Lemma opening_trans w w1 w2 : opening w w1 -> opening w1 w2 -> opening w w2.
Proof.
  intros [Eg (pre & Et & Hf) Hr] [Eg' (pre' & Et' & Hf') Hr']. split; [congruence| |auto]. exists (pre ++ pre'). rewrite Et', Et, app_assoc. by rewrite Forall_app.
Qed.
(** One event at most, and the state kept. *)
Lemma opening_event (w w' : World Front) evs : grants w' = grants w -> trace w' = trace w ++ evs -> Forall front evs -> sh w' = sh w -> opening w w'.
Proof. intros Eg Et Hf Es. split; [done|by exists evs|by rewrite Es]. Qed.

Lemma chats_ret {A} (x : A) : chats (ret x).
Proof. intros w. apply opening_refl. Qed.
Lemma chats_fail {A} : chats (fail (A := A)).
Proof. intros w. apply opening_refl. Qed.
Lemma chats_bind {A C} (m : M A) (k : A -> M C) : chats m -> (forall x, chats (k x)) -> chats (bind m k).
Proof.
  intros Hm Hk w. unfold bind. specialize (Hm w). destruct (m w) as [[x|e|] w1]; [|exact Hm..]. eapply opening_trans; [exact Hm|apply Hk].
Qed.
Lemma chats_attempt {A} (m : M A) : chats m -> chats (attempt m).
Proof. intros Hm w. unfold attempt. specialize (Hm w). by destruct (m w) as [[] ?]. Qed.
Lemma chats_quiet {A} (m : M A) : (forall w, grants (m w).2 = grants w /\ trace (m w).2 = trace w /\ sh (m w).2 = sh w) -> chats m.
Proof. intros Hm w. destruct (Hm w) as (Eg & Et & Es). apply (opening_event _ _ []); [done|by rewrite app_nil_r|done|done]. Qed.
Lemma chats_emit e : front e -> chats (emit e).
Proof. intros He w. by apply (opening_event _ _ [e]); [| |constructor|]. Qed.
Lemma chats_next_write : chats next_write.
Proof. apply chats_quiet. intros w. unfold next_write. by destruct (faults w). Qed.
Lemma chats_read_client : chats read_client.
Proof. apply chats_quiet. intros w. unfold read_client. by destruct (ReadMessage (cin w)) as [[]| |]. Qed.
Lemma chats_read_backend c : chats (read_backend c).
Proof. apply chats_quiet. intros w. unfold read_backend. by destruct (ReadMessage (stream c w)) as [[]| |]. Qed.

Create HintDb chats.
#[local] Hint Resolve chats_ret chats_fail chats_bind chats_attempt chats_next_write chats_read_client chats_read_backend : chats.

Lemma chats_write_client bs : chats (write_client bs).
Proof. apply chats_bind; [auto with chats|]. intros []; [|auto with chats]. apply chats_bind; [by apply chats_emit|auto with chats]. Qed.
Lemma chats_must_client bs : chats (must_client bs).
Proof. apply chats_bind; [apply chats_write_client|]. intros []; auto with chats. Qed.
Lemma chats_try_client bs : chats (try_client bs).
Proof. apply chats_bind; [apply chats_write_client|]. auto with chats. Qed.
Lemma chats_must_backend c bs : chats (must_backend c bs).
Proof.
  apply chats_bind; [|intros []; auto with chats]. apply chats_bind; [auto with chats|]. intros ok. apply chats_bind; [by apply chats_emit|auto with chats].
Qed.
#[local] Hint Resolve chats_must_client chats_try_client chats_must_backend : chats.

Lemma chats_frontendAuth users user pid secret salt : chats (frontendAuth users user pid secret salt).
Proof.
  unfold frontendAuth, sendError. destruct (find_user users user); [|auto with chats]. destruct salt; [|auto with chats].
  apply chats_bind; [auto with chats|]. intros _. apply chats_bind; [auto with chats|]. intros m. repeat case_match; auto 10 with chats.
Qed.
Lemma chats_relayAuth c pid secret : chats (relayAuth c pid secret).
Proof.
  intros w. unfold relayAuth, rounds_backend. generalize (Datatypes.S (length (stream c w))). intros n. revert w.
  induction n as [|n IH]; cbn [relayAuth_loop]; [apply chats_fail|].
  apply chats_bind; [auto with chats|]. intros m. repeat case_match; auto 10 with chats.
Qed.

Lemma chats_access {A} (f : Gate -> A * Gate) o : chats (access f o).
Proof.
  intros w. unfold access. destruct (match gate_env (sh w) with e :: es => (e, es) | [] => (fun g => g, []) end) as [change env'].
  destruct (f _) as [x g']. split; [done| |done]. exists []. by rewrite app_nil_r.
Qed.
Lemma chats_note o : chats (note o).
Proof. intros w. split; [done| |done]. exists []. by rewrite app_nil_r. Qed.
Lemma chats_zoom_ask {A} (f : Server -> A) : chats (zoom (ask f)).
Proof.
  intros w. pose proof (wp_zoom_ask f ret (fun _ w' => opening w w') w) as Hw. unfold wp, bind, ret in Hw. destruct (zoom (ask f) w) as [[x|[]|] w1] eqn:E; cbn.
  all: cbn in Hw; apply Hw; intros s w' _ _ _ Ht Hg _ _ Hr; split; [done| |done]; exists []; by rewrite app_nil_r.
Qed.
Lemma chats_read_startup : chats read_startup.
Proof. apply chats_quiet. intros w. unfold read_startup. by destruct (ReadStartupMessage (cin w)) as [[]| |]. Qed.
Lemma chats_upgrade a : chats (upgrade a).
Proof. apply chats_quiet. intros w. unfold upgrade. by destruct (handshake a (cin w)). Qed.
#[local] Hint Resolve chats_frontendAuth chats_relayAuth chats_access chats_note chats_zoom_ask chats_read_startup chats_upgrade : chats.

Section Accounts.
Context `{UnicodeCase} `{PgQuery} `{RewriteDeps} `{Texts} (order : gset Z -> list Z) (nopin : bool).

Definition unpinned (s : Server) : Prop := nopin = true -> pins (s_cfg s) = false.

(** The pools do not hand out a connection that the session holds. *)
Definition fair (w : World Front) : Prop := forall pre, Forall front pre -> honest false (fun p tr => grants w p ((trace w ++ pre) ++ tr)).

(** After the opening, the session accounts for its connections. *)
Definition accounted (w : World Front) (r : res unit unit) (w' : World Front) : Prop := r = Panic \/
  exists pre served a, trace w' = (trace w ++ pre) ++ served /\ Forall front pre /\
    judge_all (judge false) nothing_held served = Some a /\ target a = None /\ timer a = false /\ (nopin = true -> held a = ∅).

Lemma accounted_opening w r w' : opening w w' -> accounted w r w'.
Proof. intros [_ (pre & Et & Hf) _]. right. exists pre, [], nothing_held. rewrite app_nil_r. by split_and!. Qed.

Lemma wp_chat {A} (m : M A) (k : A -> M unit) w0 w :
  chats m -> opening w0 w -> (forall x w', opening w0 w' -> wp (k x) (accounted w0) w') -> wp (bind m k) (accounted w0) w.
Proof.
  intros Hm Ho Hk. apply wp_bind. unfold wp at 1. specialize (Hm w). destruct (m w) as [[x|[]|] w1]; [apply Hk|apply accounted_opening|by left]; by eapply opening_trans.
Qed.
Lemma wp_chat_end (m : M unit) w0 w : chats m -> opening w0 w -> wp m (accounted w0) w.
Proof. intros Hm Ho. apply wp_last, wp_chat; [done..|]. intros x w' Ho'. by apply accounted_opening. Qed.

(** A deferred access to the shared state leaves the trace alone. *)
Lemma wp_deferring_access (f : Gate -> unit * Gate) o (m : M unit) w0 w : wp m (accounted w0) w -> wp (deferring (access f o) m) (accounted w0) w.
Proof.
  unfold wp, deferring, access. intros Hm. destruct (m w) as [r w1].
  destruct (match gate_env (sh w1) with e :: es => (e, es) | [] => (fun g => g, []) end) as [change env']. destruct (f _) as [[] g'].
  destruct r as [[]| |]; exact Hm.
Qed.

Lemma wp_relay session user addr dbg w0 w :
  fair w0 -> opening w0 w -> remains unpinned (sess (sh w)) -> pinned session = false ->
  wp (enter dbg ;! zoom (relayQueries order session user addr)) (accounted w0) w.
Proof.
  intros Hf [Eg (pre & Et & Hp) _] [Hr He] Hs. unfold wp, bind, enter, modify, zoom. cbn [sh gate gate_env sess history cin bin faults grants trace].
  match goal with |- context [relayQueries _ _ _ _ ?x] => set (w1 := x) end. destruct (relayQueries order session user addr w1) as [r w2] eqn:E.
  assert (r = Panic \/ r <> Panic) as [->|Hnp] by (destruct r; auto); [by left|].
  destruct (session_accounts order false nopin None session user addr w1 w2 r) as (acc & Hj & Ht & Hti & Hh); try done.
  - cbn. rewrite Eg, Et. by apply Hf.
  - split; cbn; [by split|]. apply (list.Forall_impl _ _ _ He). intros ch Hch s [_ Hu]. split; [done|by apply Hch].
  - right. exists pre, (trace w2), acc. cbn. rewrite Et. by split_and!.
Qed.

Lemma wp_serve a startup user db dbg w0 w :
  fair w0 -> opening w0 w -> remains unpinned (sess (sh w0)) -> wp (serve order a startup user db dbg) (accounted w0) w.
Proof.
  intros Hf Ho Hr. apply wp_chat; [apply chats_access|done|]. intros [[l pid] secret] w1 Ho1. apply wp_deferring_access.
  apply wp_chat; [apply chats_zoom_ask|done|]. intros cfg w2 Ho2. apply wp_chat; [|done|].
  { unfold authenticate, getConfig, sendError. case_match; [auto 10 with chats|]. case_match; [|auto with chats]. apply chats_bind; [auto with chats|]. intros _.
    apply chats_bind; [apply chats_attempt, chats_bind; auto with chats|]. intros []; auto 10 with chats. }
  intros _ w3 Ho3. apply wp_chat; [apply chats_zoom_ask|done|]. intros t w4 Ho4. apply wp_chat; [apply chats_access|done|]. intros _ w5 Ho5.
  apply wp_deferring_access. apply wp_chat; [apply chats_note|done|]. intros _ w6 Ho6. apply wp_relay; [done|done|by apply Ho6|done].
Qed.

Lemma wp_let_in a startup w0 w :
  fair w0 -> opening w0 w -> remains unpinned (sess (sh w0)) -> wp (let_in order a startup) (accounted w0) w.
Proof.
  intros Hf Ho Hr. unfold let_in. destruct (ParseStartupParams (mPayload startup)) as [[? ?] params].
  apply wp_chat; [apply chats_zoom_ask|done|]. intros [] w1 Ho1; [apply wp_chat_end; [apply chats_try_client|done]|].
  apply wp_chat; [destruct (param params _); auto with chats|done|]. intros dbName w2 Ho2. unfold find_database.
  apply wp_chat; [apply chats_access|done|]. intros [dbg|] w3 Ho3; [|apply wp_chat_end; [apply chats_try_client|done]].
  unfold claim_slot. apply wp_chat; [apply chats_access|done|]. intros [[reason|]|] w4 Ho4.
  - apply wp_chat_end; [apply chats_try_client|done].
  - apply wp_deferring_access. by apply wp_serve.
  - by apply wp_serve.
Qed.

(** C7: a connection accounts for what it takes from the pools. From the first byte of the client
    to the end of the handler, if it does not panic: what happens before the queries touches no pool,
    and from there on every connection that is acquired is used only while it is held, returned
    once and never while cancel requests are aimed at it, no timer and no cancel target is left,
    and without session pinning no connection is kept. The trace of the handler is that of its
    parts: a dialogue with the client and the dialed writer, then a session. *)
Theorem handleConn_accounts (a : Arrival) (w w' : World Front) r :
  fair w -> remains unpinned (sess (sh w)) -> handleConn order a w = (r, w') -> r <> Panic ->
  exists pre served acc, trace w' = (trace w ++ pre) ++ served /\ Forall front pre /\
    judge_all (judge false) nothing_held served = Some acc /\ target acc = None /\ timer acc = false /\ (nopin = true -> held acc = ∅).
Proof.
  intros Hf Hr E Hnp. assert (wp (handleConn order a) (accounted w) w) as Hw.
  { pose proof (opening_refl w) as Ho. apply wp_chat; [apply chats_read_startup|done|]. intros m w1 Ho1. apply wp_chat; [|done|].
    { unfold accept_ssl. repeat case_match; auto 10 with chats. }
    intros m' w2 Ho2. case_match; [|by apply wp_let_in]. apply wp_chat; [apply chats_access|done|]. intros x w3 Ho3. by apply accounted_opening. }
  unfold wp in Hw. rewrite E in Hw. by destruct Hw.
Qed.
End Accounts.

(** ** Examples *)

Module Examples.
#[local] Existing Instance ascii_case.
#[local] Existing Instance Session.Examples.no_trees.
#[local] Existing Instance Accounting.Examples.no_rewriting.
#[local] Existing Instance Accounting.Examples.no_texts.

Definition auth_config : Config.Config :=
  let c := only_databases ∅ in
  {| Proxy := Proxy c; Config.Pool := Config.Pool c; Routing := Routing c; Config.Cache := Config.Cache c; Config.Backend := Config.Backend c; Metrics := Metrics c;
     Admin := Admin c; TLS := TLS c; Config.Auth := {| Auth_Enabled := true; Users := [Auth.Examples.alice] |}; Config.CircuitBreaker := Config.CircuitBreaker c;
     Config.RateLimit := Config.RateLimit c; Config.Firewall := Config.Firewall c; Audit := Audit c; DataAPI := DataAPI c; ConfigOptions_Watch := false;
     Telemetry := Telemetry c; Mirror := Mirror c; Digest := Digest c; Databases := ∅; ConnectionLimits := ConnectionLimits c; SessionCompat := SessionCompat c;
     Observability := Observability c; QueryRewriting := QueryRewriting c |}.

Definition startup0 : bytes :=
  let payload := PutUint32 196608 ++ $"user" ++ [x00] ++ $"alice" ++ [x00] ++ $"database" ++ [x00] ++ $"app" ++ [x00; x00] in
  PutUint32 (4 + Z.of_nat (length payload)) ++ payload.

Definition arrival0 : Arrival :=
  {| remoteAddr := $"h:1"; tlsConfig := false; handshake := fun _ => None; dial := fun _ => None; rand_salt := Some Auth.Examples.salt0; secretBuf := PutUint32 77 |}.

Definition gate0 : Gate :=
  let g := group (Accounting.Examples.example_server auth_config) in
  {| registry := Cancel.registry0;
     tracker := Some (NewConnTracker auth_config); dbGroups := {[ $"app" := g ]}; defaultDB := $"app" |}.

(** Alice, who knows the password, asks for TLS, is told to go on without, and runs a transaction. *)
Definition visit (answer : bytes) : World Front :=
  {| cin := PutUint32 8 ++ PutUint32 80877103 ++ startup0 ++ answer ++ cin Accounting.Examples.transaction;
     bin := bin Accounting.Examples.transaction; faults := []; grants := Accounting.Examples.new_conn; trace := [];
     sh := {| gate := gate0; gate_env := []; history := [];
              sess := {| server := Accounting.Examples.example_server auth_config; env := []; vars := initial_vars Accounting.Examples.session0 |} |} |}.

Lemma visit_fair answer : fair (visit answer).
Proof.
  intros pre Hf p tr c a. cbn [grants trace visit]. rewrite app_nil_l. intros E Hj. apply (Accounting.Examples.new_honest false p tr c a); [|done].
  rewrite <- E. unfold Accounting.Examples.new_conn, acquired_ids. rewrite omap_app.
  replace (omap _ pre) with (@nil nat); [done|]. clear -Hf. induction Hf as [|e pre He Hf IH]; [done|]. by destruct e.
Qed.

Definition served_log : list op :=
  [OpAcquire $"alice" $"app"; OpNewKey 0 1 77; OpRegister 0 1; OpServe $"alice" $"app"; OpUnregister 1; OpRemoveKey 0; OpRelease $"alice" $"app"].

Lemma handleConn_accounts_witness :
  let '(r, w') := handleConn elements arrival0 (visit Auth.Examples.alice_answer) in
  r = Ok tt /\ log (sh w') = served_log /\
  exists pre served acc, trace w' = ([] ++ pre) ++ served /\ Forall front pre /\
    judge_all (judge false) nothing_held served = Some acc /\ target acc = None /\ timer acc = false /\ (true = true -> held acc = ∅).
Proof.
  assert ((handleConn elements arrival0 (visit Auth.Examples.alice_answer)).1 = Ok tt /\
    log (sh (handleConn elements arrival0 (visit Auth.Examples.alice_answer)).2) = served_log)
    as [Hr Hl] by (by vm_compute).
  destruct (handleConn elements arrival0 (visit Auth.Examples.alice_answer)) as [r w'] eqn:E. cbn [fst snd] in Hr, Hl. split; [exact Hr|]. split; [exact Hl|].
  apply (handleConn_accounts elements true arrival0 (visit Auth.Examples.alice_answer) w' r); [apply visit_fair| |exact E|by rewrite Hr].
  split; [intros _; exact eq_refl|constructor].
Defined.

(** With a wrong password no query is served, and the key is gone. *)
Example refused_login :
  let '(r, w') := handleConn elements arrival0 (visit (WriteMessage "p" (pgMD5Password $"alice" $"guess" Auth.Examples.salt0 ++ [x00]))) in
  r = Err tt /\ log (sh w') = [OpAcquire $"alice" $"app"; OpNewKey 0 1 77; OpRemoveKey 0; OpRelease $"alice" $"app"] /\ Cancel.cancelMap (registry (gate (sh w'))) = ∅.
Proof. by vm_compute. Qed.
End Examples.
