(* ===== verification/Guards.v ===== *)
(** * What reaches the backends

    A transaction stays on its connection, and a request that is refused reaches no
    backend: theorems on the events of one message, for every behaviour of the client,
    of the backends and of the rest of the proxy. *)

From S2P Require Import Prelude GoStrings Float64 Net Config Wire SqlLex Classify Tables Ast Firewall Rewriter SessionCompat.
From S2P Require Import Lsn Session Balancer RateLimit Breaker Cache Pool Synth Timeout Relay DbGroup Proxy Handlers Query Logic Accounting.

Local Open Scope nat_scope.

(** ** Restricting the events *)

Definition is_client (e : event) : bool := match e with EvClient _ => true | _ => false end.

(** All events are allowed ones; [P] holds of the server throughout. *)
Definition only (allowed : event -> bool) (tr : list event) (P : Server -> Prop)
  (Hc : forall bs, allowed (EvClient bs) = true) (Hp : forall ts, allowed (EvPublish ts) = true)
  (HP : forall s s', static_same s s' -> P s -> P s') : Setting unit.
Proof.
  refine {| legal := fun _ e => if allowed e then Some tt else None; start := tt; before := tr; holds := P; granting := fun _ => True |}.
  - intros [] bs. by rewrite Hc.
  - intros [] ts. by rewrite Hp.
  - exact HP.
Defined.

Lemma judged_allowed (allowed : event -> bool) evs :
  judge_all (fun (_ : unit) e => if allowed e then Some tt else None) tt evs = Some tt <-> Forall (fun e => allowed e = true) evs.
Proof.
  induction evs as [|e evs IH]; cbn; [by split|]. rewrite list.Forall_cons. destruct (allowed e); naive_solver.
Qed.

(** ** Transactions *)

Definition same_conn (c c' : Pool.Conn) : bool := Pool.conn_id c =? Pool.conn_id c'.

(** An event of a session whose transaction runs on [c], and which has the reader [r] bound. *)
Definition on_transaction (c : Pool.Conn) (r : option Pool.Conn) (e : event) : bool :=
  match e with
  | EvAcquire _ _ | EvNoConn _ => false
  | EvSend c' _ _ => same_conn c c' || match r with Some c'' => same_conn c'' c' | None => false end
  | EvTarget _ c' => same_conn c c'
  | _ => true
  end.

Section Transaction.
Context (c : Pool.Conn) (r : option Pool.Conn) (tr : list event).

#[local] Instance transaction : Setting unit :=
  only (on_transaction c r) tr (fun _ => True) (fun _ => eq_refl) (fun _ => eq_refl) (fun _ _ _ _ => I).

Lemma legal_event e : on_transaction c r e = true -> legal tt e = Some tt.
Proof. intros E. cbn. by rewrite E. Qed.

Lemma spec_event v e (Q : res unit unit -> unit -> Vars -> Prop) : on_transaction c r e = true -> Q (Ok tt) tt v -> spec tt v (emit e) Q.
Proof. intros E HQ. by eapply spec_emit; [apply legal_event|]. Qed.

(** The connections that may be talked to. *)
Definition ours (c' : Pool.Conn) : Prop := c' = c \/ r = Some c'.

Lemma ours_send c' bs ok : ours c' -> on_transaction c r (EvSend c' bs ok) = true.
Proof. unfold same_conn. intros [-> | ->]; cbn; unfold same_conn; by rewrite Nat.eqb_refl, ?orb_true_r. Qed.

Lemma spec_ours {A} v c' (m : M A) (Q : res unit A -> unit -> Vars -> Prop) : talk c' m -> ours c' -> (forall x, Q x tt v) -> spec tt v m Q.
Proof. intros Hm Hc. apply (spec_talking _ _ c'); [done|]. intros bs ok. by apply legal_event, ours_send. Qed.

Context `{UnicodeCase} `{PgQuery} `{RewriteDeps} `{Texts} (order : gset Z -> list Z).

Lemma spec_aim v addr (Q : res unit unit -> unit -> Vars -> Prop) : Q (Ok tt) tt v -> spec tt v (setFromConn addr c) Q.
Proof. apply spec_event. cbn. unfold same_conn. by rewrite Nat.eqb_refl. Qed.

Lemma spec_unaim v (Q : res unit unit -> unit -> Vars -> Prop) : Q (Ok tt) tt v -> spec tt v clear Q.
Proof. by apply spec_event. Qed.

Lemma spec_timer v d (Q : res unit unit -> unit -> Vars -> Prop) : Q (Ok tt) tt v -> spec tt v (startQueryTimer d) Q.
Proof. intros HQ. unfold startQueryTimer. case_match; [by apply spec_event|by apply spec_ret]. Qed.

Lemma spec_untimer v d (Q : res unit unit -> unit -> Vars -> Prop) : Q (Ok tt) tt v -> spec tt v (stopQueryTimer d) Q.
Proof. intros HQ. unfold stopQueryTimer. case_match; [by apply spec_event|by apply spec_ret]. Qed.

Lemma spec_discardToPool v c' p (Q : res unit unit -> unit -> Vars -> Prop) : Q (Ok tt) tt v -> spec tt v (discardToPool c' p) Q.
Proof. intros HQ. destruct p; [by apply spec_event|apply spec_panic]. Qed.

Lemma spec_releaseToPool v c' p (Q : res unit unit -> unit -> Vars -> Prop) : Q (Ok tt) tt v -> spec tt v (releaseToPool c' p) Q.
Proof. intros HQ. destruct p; [by apply spec_event|apply spec_panic]. Qed.

Lemma spec_reset v c' p (Q : res unit unit -> unit -> Vars -> Prop) : ours c' -> Q (Ok tt) tt v -> spec tt v (resetAndRelease c' p) Q.
Proof.
  intros Hc HQ. apply spec_seq, spec_ask. intros s _. apply spec_seq, spec_attempt. eapply (spec_ours _ c'); [auto with pgmux|done|].
  intros [x|e|]; [by apply spec_releaseToPool|by apply spec_discardToPool|done].
Qed.

Lemma spec_quiet {A} v (m : M A) (Q : res unit A -> unit -> Vars -> Prop) : quiet m -> (forall x v', Q x tt v') -> spec tt v m Q.
Proof. intros Hm HQ. eapply spec_mono; [apply Hm|]. intros x [] v' _. apply HQ. Qed.

Lemma ours_bound : ours c.
Proof. by left. Qed.

Hint Resolve ours_bound : pgmux.

Local Ltac talks m :=
  lazymatch m with
  | relayUntilReady ?c => c
  | forwardAndRelay ?c _ => c
  | forwardExtBatch ?c _ _ => c
  | send_query _ ?c => c
  | queryCurrentLSN ?c => c
  end.

Local Ltac step :=
  lazymatch goal with
  | |- spec _ _ (bind _ _) _ => apply spec_seq
  | |- spec _ _ (ret _) _ => apply spec_ret
  | |- spec _ _ fail _ => apply spec_fail
  | |- spec _ _ panic _ => apply spec_panic
  | |- spec _ _ (attempt _) _ => apply spec_attempt
  | |- spec _ _ (var _) _ => apply spec_var
  | |- spec _ _ (assign _) _ => apply spec_assign
  | |- spec _ _ (ask _) _ => apply spec_ask; intros ? _
  | |- spec _ _ (setFromConn _ _) _ => apply spec_aim
  | |- spec _ _ clear _ => apply spec_unaim
  | |- spec _ _ (startQueryTimer _) _ => apply spec_timer
  | |- spec _ _ (stopQueryTimer _) _ => apply spec_untimer
  | |- spec _ _ (discardToPool _ _) _ => apply spec_discardToPool
  | |- spec _ _ (releaseToPool _ _) _ => apply spec_releaseToPool
  | |- spec _ _ (resetAndRelease _ _) _ => apply spec_reset; [auto with pgmux|]
  | |- spec _ _ (if ?b then _ else _) _ => destruct b eqn:?
  | |- spec _ _ (match ?x with _ => _ end) _ => destruct x eqn:?
  | |- spec _ _ ?m _ =>
      first [ let c := talks m in apply (spec_ours _ c); [auto with pgmux|auto with pgmux|intros [?|[]|]]
            | assert (neutral m) as Hneutral by auto with pgmux; apply Hneutral; clear Hneutral; intros [?|[]|]
            | apply spec_quiet; [solve [auto with pgmux]|intros [?|[]|] ?] ]
  end; cbv beta iota zeta; try exact I.

(** Code whose events are all of the transaction, from variables [v] on. *)
Definition stays {A} (v : Vars) (m : M A) : Prop := spec tt v m (fun _ _ _ => True).

Lemma stays_after_write v q acq ap was now : stays v (after_write q c acq ap was now).
Proof. unfold stays, after_write, unbind_writer, bind_writer, give_back, dirty, clean. repeat step. Qed.

Lemma stays_after_batch v acq ap : stays v (after_batch c acq ap).
Proof. unfold stays, after_batch, unbind_writer, bind_writer, give_back, set_transaction, clean. repeat step. Qed.

Lemma stays_use {A} v (m : M A) (Q : res unit A -> unit -> Vars -> Prop) : stays v m -> (forall x v', Q x tt v') -> spec tt v m Q.
Proof. intros Hm HQ. eapply spec_mono; [exact Hm|]. intros x [] v' _. apply HQ. Qed.

Lemma stays_write_path v msg q pq cfg qtype was now d :
  boundWriter v = Some c -> stays v (write_path order msg q pq cfg qtype was now d).
Proof.
  intros Hb. unfold stays, write_path, handleWriteQuery, discard_broken. do 4 step. rewrite Hb. cbn [acquireWriterConn].
  repeat (step || (apply stays_use; [apply stays_after_write|intros [?|[]|] ?; try exact I])).
Qed.

Lemma stays_ext_writer_path v msg d : boundWriter v = Some c -> stays v (ext_writer_path msg d).
Proof.
  intros Hb. unfold stays, ext_writer_path, discard_broken. do 6 step. rewrite Hb. cbn [acquireWriterConn].
  repeat (step || (apply stays_use; [apply stays_after_batch|intros [?|[]|] ?; try exact I])).
Qed.

Lemma stays_executeSynthesizedQuery v q route st en d :
  boundWriter v = Some c -> inTransaction (session v) = true -> stays v (executeSynthesizedQuery q route st en d).
Proof.
  intros Hb Ht. unfold stays, executeSynthesizedQuery, discard_broken, unbind_writer, bind_writer, set_transaction.
  do 4 step. rewrite Hb, Ht. rewrite andb_false_r. cbn [andb]. do 2 step. cbn [acquireWriterConn]. repeat step.
Qed.

(** *** The messages of a transaction *)

Definition in_transaction (v : Vars) : Prop :=
  boundWriter v = Some c /\ inTransaction (session v) = true /\ (boundReader v = None \/ boundReader v = r).

Lemma spec_route_query v q (Q : res unit (Route_ * bool * bool) -> unit -> Vars -> Prop) :
  in_transaction v -> (forall was now v', boundWriter v' = Some c -> Q (Ok (RouteWriter, was, now)) tt v') -> spec tt v (route_query q) Q.
Proof.
  intros (Hb & Ht & _) HQ. unfold route_query, RouteWithTxState. do 4 step.
  assert ((routeQueryLocked (now s) (session v) q).1 = RouteWriter) as Hw.
  { destruct (routeQueryLocked _ _ _).1 eqn:E; [done|]. apply Route_reader_iff_aux in E as (_ & E & _). congruence. }
  destruct (routeQueryLocked _ _ _) as [route s']. cbn in Hw. subst route. cbv beta iota. repeat step. by apply HQ.
Qed.

Lemma stays_routed v msg q pq cfg : in_transaction v -> stays v (routed order msg q pq cfg).
Proof.
  intros Hv. unfold stays, routed. step. apply spec_route_query; [done|]. intros was now v' Hb. cbv beta iota.
  repeat (step || by apply stays_write_path).
Qed.

Lemma stays_handleQuery v msg : in_transaction v -> stays v (handleQuery order msg).
Proof.
  intros Hv. unfold stays, handleQuery, pin_session.
  assert (forall f, in_transaction (set_connDirty true (set_session (Pin (session v) f) v))) as Hp.
  { destruct Hv as (Hb & Ht & Hr). intros f. split_and!; [done| |done]. cbn. unfold Pin. by destruct (pinned (session v)). }
  repeat (step || (apply stays_routed; [by auto])).
Qed.

Lemma spec_drop_reader v (Q : res unit unit -> unit -> Vars -> Prop) :
  in_transaction v -> (forall v', in_transaction v' -> Q (Ok tt) tt v') -> spec tt v drop_reader Q.
Proof.
  intros (Hb & Ht & Hr) HQ. unfold drop_reader, forget_reader. do 2 step. destruct (boundReader v) as [c'|] eqn:Er.
  - destruct Hr as [[=]|Hr]. assert (ours c') by (by right). repeat step. apply HQ. split_and!; [done..|by left].
  - step. apply HQ. split_and!; [done..|by left].
Qed.

Lemma stays_handleSync mux v msg : in_transaction v -> stays v (handleSync mux msg).
Proof.
  intros Hv. unfold stays, handleSync, reject_batch, synthesized_path, getConfig. do 6 step.
  pose proof Hv as (Hb & Ht & Hr). rewrite Hb, Ht, orb_true_r, andb_false_r. cbn [orb andb].
  step. apply spec_drop_reader; [done|]. clear Hv Hb Ht Hr. intros v' Hv. pose proof Hv as (Hb & Ht & Hr). cbv beta iota.
  repeat (step || (apply stays_use; [by (apply stays_ext_writer_path || apply stays_executeSynthesizedQuery)|intros [?|[]|] ?; cbv beta iota; try exact I]) ||
          (apply spec_drop_reader; [done|intros ? ?; cbv beta iota])).
Qed.

Lemma quiet_dispatch_rest mux msg :
  (mType msg =b Msg.Query) = false -> (mType msg =b Msg.Sync) = false -> (mux = true -> (mType msg =b Msg.Describe) = false) -> quiet (dispatch order mux msg).
Proof.
  intros Hq Hs Hd. unfold dispatch. rewrite Hq, Hs. apply quiet_bind; [auto with pgmux|]. intros n.
  destruct mux; [rewrite Hd by done|]; repeat case_match; auto with pgmux.
Qed.

Lemma stays_dispatch mux v msg : in_transaction v -> (mux = true -> (mType msg =b Msg.Describe) = false) -> stays v (dispatch order mux msg).
Proof.
  intros Hv Hd. destruct (mType msg =b Msg.Query) eqn:Eq.
  { unfold dispatch. rewrite Eq. by apply stays_handleQuery. }
  destruct (mType msg =b Msg.Sync) eqn:Es; [|by apply spec_quiet; [apply quiet_dispatch_rest|]].
  apply Byte.byte_dec_bl in Es.
  unfold stays, dispatch. rewrite Eq. do 2 step. case_match; [repeat step|]. rewrite Es. by apply stays_handleSync.
Qed.

Lemma stays_handle_message mux v user addr msg :
  in_transaction v -> (mux = true -> (mType msg =b Msg.Describe) = false) -> stays v (handle_message order mux user addr msg).
Proof. intros Hv Hd. unfold stays, handle_message. repeat (step || by apply stays_dispatch). Qed.
End Transaction.

Section Affinity.
Context `{UnicodeCase} `{PgQuery} `{RewriteDeps} `{Texts} (order : gset Z -> list Z).

End Affinity.

(** ** Refusals *)

Section Refusals.
Context `{UnicodeCase} `{PgQuery} `{RewriteDeps} `{Texts} (order : gset Z -> list Z).

(** The settings of the server that decide on a query. *)
Definition decided_by (cfg : Config.Config) (rw : option (list compiledRule)) (ro : bool) (s : Server) : Prop :=
  s_cfg s = cfg /\ rewriter s = rw /\ inReadOnly s = ro.

Definition rewritten (cfg : Config.Config) (rw : option (list compiledRule)) (text : bytes) : bytes * option ParsedQuery :=
  let pq := if ASTParser (Routing cfg) then NewParsedQuery text else None in
  match rw with
  | Some rw => let r := Apply rw text in if Rewritten r then (RewrittenSQL r, None) else (text, pq)
  | None => (text, pq)
  end.

(** The classifier of the server. *)
Definition classified (cfg : Config.Config) (q : bytes) (pq : option ParsedQuery) : QueryType :=
  if ASTParser (Routing cfg) then match pq with Some pq => ClassifyASTWithTree q pq | None => ClassifyAST q end else Classify q.

(** The query is a write for the server's classifier and for the session's. *)
Definition write_for (cfg : Config.Config) (s : Session) (q : bytes) (pq : option ParsedQuery) : bool :=
  bool_decide (classify s q = QueryWrite) &&
  bool_decide (classified cfg q pq = QueryWrite).

(** The text of the error a query is refused with: the firewall decides first, then the
    session features, then the read-only mode. *)
Definition refusal (cfg : Config.Config) (rw : option (list compiledRule)) (ro : bool) (s : Session) (text : bytes) : option bytes :=
  let '(q, pq) := rewritten cfg rw text in
  match firewall_check cfg q pq with
  | Some b => Some (fw_message b)
  | None =>
      match compat_check cfg q pq with
      | Some f =>
          if bool_decide (SessionCompat_Mode (SessionCompat cfg) = $"block") then Some ($"session-dependent feature blocked: " ++ feature_name f)
          else if ro && write_for cfg s q pq then Some readOnlyError else None
      | None => if ro && write_for cfg s q pq then Some readOnlyError else None
      end
  end.

Definition refused_events (text : bytes) : list event :=
  [EvClient (WriteMessage Msg.ErrorResponse (error_payload text)); EvClient (WriteMessage Msg.ReadyForQuery $"I")].

(** The session goes on, the client got the error and a ReadyForQuery (where its
    connection takes them), and nothing else happened but to the session's routing state. *)
Definition refused (text : bytes) (w : World Sess) (r : res unit signal) (w' : World Sess) : Prop :=
  r = Ok Continue /\ boundWriter (vars (sh w')) = boundWriter (vars (sh w)) /\ boundReader (vars (sh w')) = boundReader (vars (sh w)) /\
  extBuf (vars (sh w')) = extBuf (vars (sh w)) /\
  exists evs, trace w' = trace w ++ evs /\ sublist evs (refused_events text) /\ (faults w = [] -> evs = refused_events text).

Lemma wp_try_client (bs : bytes) (Q : res unit unit -> World Sess -> Prop) w :
  (forall w' evs, sh w' = sh w -> trace w' = trace w ++ evs -> (evs = [EvClient bs] /\ (faults w = [] -> faults w' = [])) \/ (evs = [] /\ faults w <> []) ->
     Q (Ok tt) w') -> wp (try_client bs) Q w.
Proof.
  intros HQ. unfold wp, try_client, write_client, next_write, bind, emit, ret. destruct (faults w) as [|[] fs] eqn:E; cbn.
  - eapply HQ; cbn; [done..|]. left. by rewrite E.
  - eapply (HQ _ []); cbn; [done|by rewrite app_nil_r|by right].
  - eapply HQ; cbn; [done..|]. by left.
Qed.

Lemma wp_reject text w : wp (reject text) (refused text w) w.
Proof.
  apply wp_bind, wp_try_client. intros w1 evs1 Hs1 Ht1 He1. apply wp_bind, wp_try_client. intros w2 evs2 Hs2 Ht2 He2.
  unfold wp, ret, refused. rewrite Hs2, Hs1. split_and!; [done..|].
  exists (evs1 ++ evs2). rewrite Ht2, Ht1, app_assoc. split; [done|].
  destruct He1 as [[-> Hf1]|[-> Hf1]], He2 as [[-> Hf2]|[-> Hf2]]; cbn; split; try done;
    try (by repeat constructor); intros Hf; exfalso; auto.
Qed.

(** A refusal later on, after steps that leave the trace and the faults alone. *)
Lemma refused_later text w w1 r w' :
  trace w1 = trace w -> faults w1 = faults w -> boundWriter (vars (sh w1)) = boundWriter (vars (sh w)) ->
  boundReader (vars (sh w1)) = boundReader (vars (sh w)) -> extBuf (vars (sh w1)) = extBuf (vars (sh w)) ->
  refused text w1 r w' -> refused text w r w'.
Proof. intros E1 E2 E3 E4 E5. unfold refused. by rewrite E1, E2, E3, E4, E5. Qed.

Lemma write_never_reader t s q : classify s q = QueryWrite -> (routeQueryLocked t s q).1 = RouteWriter.
Proof.
  intros Hc. destruct (routeQueryLocked t s q).1 eqn:E; [done|]. apply Route_reader_iff_aux in E as (_ & _ & _ & E & _). congruence.
Qed.

Lemma wp_classifyQueryParsed (P : Server -> Prop) cfg q pq Q w :
  (forall s, P s -> s_cfg s = cfg) -> remains P (sh w) -> (forall w', aside P w w' -> Q (Ok (classified cfg q pq)) w') ->
  wp (classifyQueryParsed q pq) Q w.
Proof.
  intros HP Hk HQ. unfold classifyQueryParsed, astParser_on, classified in *. do 2 apply wp_bind. apply (wp_ask P _ _ _ Hk).
  intros s1 w1 Hs1 Ha1. rewrite (HP _ Hs1). apply wp_ret. destruct (ASTParser (Routing cfg)) eqn:E, pq as [pq|]; [by apply wp_ret, HQ|..];
    unfold classifyQuery, astParser_on; do 2 apply wp_bind; apply (wp_ask P _ _ _ (aside_remains _ _ _ Ha1));
    intros s2 w2 Hs2 Ha2; rewrite (HP _ Hs2), E; do 2 apply wp_ret; apply HQ; by eapply aside_trans.
Qed.

(** From routing on: read-only mode refuses a write. *)
Lemma wp_routed cfg rw msg q pq w :
  remains (decided_by cfg rw true) (sh w) -> write_for cfg (session (vars (sh w))) q pq = true ->
  wp (routed order msg q pq cfg) (refused readOnlyError w) w.
Proof.
  intros Hk Hw. apply andb_true_iff in Hw as [Hs Hc]. apply bool_decide_eq_true in Hs. apply bool_decide_eq_true in Hc.
  unfold routed, route_query, RouteWithTxState. apply wp_bind, wp_bind, (wp_ask _ _ _ _ Hk). intros s1 w1 _ [_ Hf1 Ht1 Hv1 Hk1].
  apply wp_bind, wp_var. rewrite Hv1. pose proof (write_never_reader (now s1) _ _ Hs) as Hroute.
  destruct (routeQueryLocked _ _ _) as [route s']. cbn [fst] in Hroute. subst route. cbv beta iota.
  apply wp_bind, wp_assign, wp_ret. apply wp_bind.
  apply (wp_classifyQueryParsed (decided_by cfg rw true) cfg); [by intros ? [? _]|done|]. intros w2 [_ Hf2 Ht2 Hv2 Hk2].
  apply wp_bind, (wp_ask _ _ _ _ Hk2). intros s3 w3 (_ & _ & ->) [_ Hf3 Ht3 Hv3 _]. rewrite (bool_decide_true (classified _ _ _ = _)) by done.
  cbn [andb]. eapply wp_mono; [apply wp_reject|]. intros r w'. cbn in *.
  apply refused_later; rewrite ?Ht3, ?Hf3, ?Hv3, ?Ht2, ?Hf2, ?Hv2; cbn; by rewrite ?Ht1, ?Hf1, ?Hv1.
Qed.

Lemma wp_rewrite_query cfg rw ro text Q w :
  remains (decided_by cfg rw ro) (sh w) -> (forall w', aside (decided_by cfg rw ro) w w' -> Q (Ok (rewritten cfg rw text)) w') ->
  wp (rewrite_query text (if ASTParser (Routing cfg) then NewParsedQuery text else None)) Q w.
Proof.
  intros Hk HQ. unfold rewrite_query, rewritten in *. apply wp_bind, (wp_ask _ _ _ _ Hk). intros s w' (_ & -> & _) Ha.
  destruct rw as [rw|]; apply wp_ret; [|by apply HQ]. specialize (HQ w' Ha). cbv zeta. by destruct (Rewritten _).
Qed.

(** C10: the refusals of a simple query. While the configuration, the rewriter and the
    read-only mode stay as they are, a query that the firewall, the session features or
    the read-only mode refuse (in this order, and judged after rewriting) is answered with
    the error and a ReadyForQuery; no connection is acquired and no backend hears of it,
    and the session goes on with the connections it had. *)
Theorem refusal_answered cfg rw ro (msg : Message) (text : bytes) (w w' : World Sess) r :
  remains (decided_by cfg rw ro) (sh w) ->
  refusal cfg rw ro (session (vars (sh w))) (ExtractQueryText (mPayload msg)) = Some text ->
  handleQuery order msg w = (r, w') -> refused text w r w'.
Proof.
  intros Hk Hr E. enough (wp (handleQuery order msg) (refused text w) w) as Hw by (unfold wp in Hw; by rewrite E in Hw).
  unfold handleQuery. apply wp_bind, (wp_ask _ _ _ _ Hk). intros s1 w1 (-> & _ & _) [_ Hf1 Ht1 Hv1 Hk1].
  apply wp_bind, (wp_rewrite_query _ rw ro _ _ _ Hk1). intros w2 [_ Hf2 Ht2 Hv2 Hk2].
  unfold refusal in Hr. destruct (rewritten cfg rw _) as [q pq].
  assert (forall m, wp m (refused text w2) w2 -> wp m (refused text w) w2) as Hlater.
  { intros m Hm. eapply wp_mono; [exact Hm|]. intros r' w3. apply refused_later; congruence. }
  destruct (firewall_check cfg q pq) as [b|]; [injection Hr as <-; apply Hlater, wp_reject|].
  destruct (compat_check cfg q pq) as [f|].
  - case_bool_decide as Hm; [injection Hr as <-; apply Hlater, wp_reject|].
    destruct ro; [|done]. destruct (write_for _ _ _ _) eqn:Ew; [injection Hr as <-|done]. apply Hlater, wp_bind.
    rewrite <- Hv1, <- Hv2 in Ew. case_bool_decide; [apply wp_assign|apply wp_ret; by eapply wp_routed].
    eapply wp_mono; [apply (wp_routed cfg rw); [done|]|intros r' w3; by apply refused_later].
    unfold write_for in *. cbn. assert (astParser (Pin (session (vars (sh w2))) (feature_name f)) = astParser (session (vars (sh w2)))) as Ha
      by (unfold Pin; by case_match). unfold classify in *. by rewrite Ha.
  - destruct ro; [|done]. destruct (write_for _ _ _ _) eqn:Ew; [injection Hr as <-|done]. rewrite <- Hv1, <- Hv2 in Ew.
    apply Hlater. by eapply wp_routed.
Qed.
End Refusals.

Module Examples.
#[local] Existing Instance ascii_case.
#[local] Existing Instance Session.Examples.no_trees.
#[local] Existing Instance Accounting.Examples.no_rewriting.
#[local] Existing Instance Accounting.Examples.no_texts.

Definition conn1 : Pool.Conn :=
  {| Pool.conn_id := 1; Pool.CreatedAt := 0; Pool.LastUsedAt := 0; Pool.BackendPID := 0; Pool.BackendSecret := 0 |}.

(** A session in a transaction on [conn1]. *)
Definition inside : World Sess :=
  with_vars (fun v => set_boundWriter (Some conn1) (set_boundWriterPool (Some 0) (set_session (SetInTransaction (session v) true) v)))
    (Accounting.Examples.example_session (only_databases ∅) []
       (WriteMessage Msg.DataRow $"row" ++ WriteMessage Msg.CommandComplete $"SELECT 1" ++ WriteMessage Msg.ReadyForQuery $"T")).

Definition a_read : Message := mkMessage Msg.Query ($"SELECT 1" ++ [x00]) None.


(** The Describe of multiplexing: in the same transaction it takes another connection of the writer's pool. *)
Definition conn9 : Pool.Conn :=
  {| Pool.conn_id := 9; Pool.CreatedAt := 0; Pool.LastUsedAt := 0; Pool.BackendPID := 0; Pool.BackendSecret := 0 |}.
Definition describing : World Sess :=
  with_vars (fun v => set_boundWriter (Some conn9) (set_synth {| statements := {[ $"s" := {| Query := $"SELECT 1"; ParamOIDs := [] |} ]}; Synth.order := [$"s"] |} v)) inside.

Example describe_elsewhere :
  exists c, EvAcquire 0 c ∈ trace (handle_message elements true $"u" $"h:1" (mkMessage Msg.Describe ($"Ss" ++ [x00]) None) describing).2 /\
    boundWriter (vars (sh describing)) = Some conn9 /\ inTransaction (session (vars (sh describing))) = true /\ c <> conn9.
Proof. exists conn1. split; [|by vm_compute]. vm_compute. by left. Qed.

(** A server in read-only mode, and a write. *)
Definition read_only (s : Server) : Server :=
  {| now := now s; ctxDone := ctxDone s; s_cfg := s_cfg s; inMaintenance := inMaintenance s; inReadOnly := true;
     rateLimiter := rateLimiter s; perUserRL := perUserRL s; perIPRL := perIPRL s; rewriter := rewriter s; queryCache := queryCache s;
     hasInvalidator := hasInvalidator s; group := group s |}.

Definition refusing : World Sess :=
  let w := Accounting.Examples.example_session (only_databases ∅) [] [] in
  {| cin := []; bin := ∅; faults := []; grants := grants w; trace := [];
     sh := {| server := read_only (server (sh w)); env := []; vars := vars (sh w) |} |}.

Definition a_write : Message := mkMessage Msg.Query ($"DELETE FROM t" ++ [x00]) None.

Lemma refusal_answered_witness :
  let '(r, w') := handleQuery elements a_write refusing in refused readOnlyError refusing r w'.
Proof.
  destruct (handleQuery elements a_write refusing) as [r w'] eqn:E.
  apply (refusal_answered elements (only_databases ∅) None true a_write readOnlyError refusing w' r); [|by vm_compute|done].
  split; [|constructor]. exact (conj eq_refl (conj eq_refl eq_refl)).
Defined.
End Examples.
