(* ===== verification/Progress.v ===== *)
(** * The query loop ends

    Every round of the query loop that goes on has taken a message from the client,
    so the loop ends on every finite input, and the bound on the rounds in
    [relayQueries] is never what ends it. *)

From S2P Require Import Prelude GoStrings Float64 Net Config Wire SqlLex Classify Tables Ast Firewall Rewriter SessionCompat.
From S2P Require Import Lsn Session Balancer RateLimit Breaker Cache Pool Synth Timeout Relay DbGroup Proxy Handlers Query Logic.

Local Open Scope nat_scope.

(** Code that does not put anything before the client's unread bytes. *)
Definition shrinks {A} (m : M A) : Prop := forall w, wp m (fun _ w' => length (cin w') <= length (cin w)) w.

Lemma shrinks_talk {A} c (m : M A) : talk c m -> shrinks m.
Proof.
  intros Hm w. eapply wp_mono; [apply Hm|]. intros r w' (evs & b & k & []). rewrite moved_client, length_app. lia.
Qed.

Lemma shrinks_bind {A C} (m : M A) (k : A -> M C) : shrinks m -> (forall x, shrinks (k x)) -> shrinks (bind m k).
Proof.
  intros Hm Hk w. apply wp_bind. eapply wp_mono; [apply Hm|]. intros [x| |] w' Hw; [|done..].
  eapply wp_mono; [apply Hk|]. intros r w'' Hw'. cbn in *. lia.
Qed.

Lemma shrinks_attempt {A} (m : M A) : shrinks m -> shrinks (attempt m).
Proof. intros Hm w. apply wp_attempt. eapply wp_mono; [apply Hm|]. by intros [] w'. Qed.

Lemma shrinks_rounds {A} c (loop : nat -> M A) : (forall n, shrinks (loop n)) -> shrinks (rounds_backend c loop).
Proof. intros Hl w. apply wp_rounds_backend. intros n. apply Hl. Qed.

(** Steps that leave the client's bytes alone. *)
Lemma shrinks_ret {A} (x : A) : shrinks (ret x).
Proof. intros w. exact (le_n _). Qed.
Lemma shrinks_fail {A} : shrinks (fail : M A).
Proof. intros w. exact (le_n _). Qed.
Lemma shrinks_panic {A} : shrinks (panic : M A).
Proof. intros w. exact (le_n _). Qed.
Lemma shrinks_lift {A} (r : res unit A) : shrinks (lift r).
Proof. intros w. unfold wp, lift. destruct r; exact (le_n _). Qed.
Lemma shrinks_emit e : shrinks (emit e).
Proof. intros w. exact (le_n _). Qed.
Lemma shrinks_var {A} (f : Vars -> A) : shrinks (var f).
Proof. intros w. exact (le_n _). Qed.
Lemma shrinks_assign f : shrinks (assign f).
Proof. intros w. exact (le_n _). Qed.
Lemma shrinks_access {A} (f : Server -> A * Server) : shrinks (access f).
Proof. intros w. unfold wp, access. destruct (env (sh w)); destruct (f _); exact (le_n _). Qed.
Lemma shrinks_acquire p : shrinks (acquire p).
Proof. intros w. unfold wp, acquire. destruct (grants w p (trace w)); exact (le_n _). Qed.
Lemma shrinks_write_client bs : shrinks (write_client bs).
Proof. intros w. unfold wp, write_client, next_write, bind. destruct (faults w) as [|[]]; exact (le_n _). Qed.

#[export] Hint Resolve shrinks_ret shrinks_fail shrinks_panic shrinks_lift shrinks_emit shrinks_var shrinks_assign shrinks_access
  shrinks_acquire shrinks_write_client shrinks_attempt shrinks_rounds : pgmux.
#[export] Hint Extern 3 (shrinks _) => eapply shrinks_talk; solve [auto with pgmux] : pgmux.

Ltac shrink :=
  repeat (lazymatch goal with
    | |- shrinks (bind _ _) => apply shrinks_bind; [|intros ?]
    | |- shrinks (attempt _) => apply shrinks_attempt
    | |- shrinks (match _ with _ => _ end) => case_match
    | |- shrinks (let _ := _ in _) => cbv zeta
    end); auto with pgmux.

Lemma shrinks_acquireFrom p : shrinks (acquireFrom p).
Proof. unfold acquireFrom. shrink. Qed.
Lemma shrinks_releaseToPool c p : shrinks (releaseToPool c p).
Proof. unfold releaseToPool. shrink. Qed.
Lemma shrinks_discardToPool c p : shrinks (discardToPool c p).
Proof. unfold discardToPool. shrink. Qed.
#[export] Hint Resolve shrinks_acquireFrom shrinks_releaseToPool shrinks_discardToPool : pgmux.

Lemma shrinks_try_client bs : shrinks (try_client bs).
Proof. unfold try_client. shrink. Qed.
Lemma shrinks_must_client bs : shrinks (must_client bs).
Proof. unfold must_client. shrink. Qed.
Lemma shrinks_resetAndRelease c p : shrinks (resetAndRelease c p).
Proof. unfold resetAndRelease, resetAndReleaseToPool, getConfig, ask. shrink. Qed.
#[export] Hint Resolve shrinks_try_client shrinks_must_client shrinks_resetAndRelease : pgmux.

Section Handlers.
Context `{UnicodeCase} `{PgQuery} `{RewriteDeps} `{Texts} (order : gset Z -> list Z).

(** Unfold the small operations that only touch shared state or variables. *)
Local Ltac small :=
  unfold sendError, sendFatalWithCode, sendReadyForQuery, setFromConn, clear, startQueryTimer, stopQueryTimer, reader_failed, reader_breaker, mark_unhealthy,
    reader_allowed, writer_breaker, writer_allowed, caching, cache_get, cache_set, cache_invalidate,
    update, getConfig, ask in *.

Lemma shrinks_load {A} (f : Backend -> A) l : shrinks (load f l).
Proof. unfold load. small. shrink. Qed.
Lemma shrinks_search_slice ok : (forall l, shrinks (ok l)) -> shrinks (search_slice ok).
Proof.
  intros Hok. unfold search_slice. small. apply shrinks_bind; [shrink|]. intros slice. generalize (length slice). intros n.
  induction n as [|n IH]; cbn [search]; unfold draw; shrink; apply shrinks_load.
Qed.
Lemma shrinks_next_reader : shrinks next_reader.
Proof. apply shrinks_search_slice. intros l. apply shrinks_load. Qed.
Lemma shrinks_next_reader_with_lsn lsn : shrinks (next_reader_with_lsn lsn).
Proof.
  unfold next_reader_with_lsn. case_match; [apply shrinks_next_reader|]. apply shrinks_search_slice. intros l. shrink; apply shrinks_load.
Qed.
Hint Resolve shrinks_next_reader shrinks_next_reader_with_lsn : pgmux.

Lemma shrinks_cacheKey q n : shrinks (cacheKey q n).
Proof. unfold cacheKey, astParser_on. small. shrink. Qed.
Lemma shrinks_cacheKeyParsed q pq n : shrinks (cacheKeyParsed q pq n).
Proof. unfold cacheKeyParsed, cacheKey, astParser_on. small. shrink. Qed.
Lemma shrinks_classifyQuery q : shrinks (classifyQuery q).
Proof. unfold classifyQuery, astParser_on. small. shrink. Qed.
Lemma shrinks_classifyQueryParsed q pq : shrinks (classifyQueryParsed q pq).
Proof. unfold classifyQueryParsed, classifyQuery, astParser_on. small. shrink. Qed.
Lemma shrinks_extractQueryTablesParsed q pq : shrinks (extractQueryTablesParsed q pq).
Proof. unfold extractQueryTablesParsed, extractQueryTables, astParser_on. small. shrink. Qed.
Lemma shrinks_extractReadQueryTables q : shrinks (extractReadQueryTables q).
Proof. unfold extractReadQueryTables, astParser_on. small. shrink. Qed.
Lemma shrinks_extractReadQueryTablesParsed q pq : shrinks (extractReadQueryTablesParsed q pq).
Proof. unfold extractReadQueryTablesParsed, extractReadQueryTables, astParser_on. small. shrink. Qed.
Lemma shrinks_extended_key q : shrinks (extended_key q).
Proof. unfold extended_key, cacheKey, astParser_on. small. shrink. Qed.
Hint Resolve shrinks_cacheKey shrinks_cacheKeyParsed shrinks_classifyQuery shrinks_classifyQueryParsed shrinks_extractQueryTablesParsed
  shrinks_extractReadQueryTables shrinks_extractReadQueryTablesParsed shrinks_extended_key : pgmux.

Lemma shrinks_fallbackToWriter msg : shrinks (fallbackToWriter msg).
Proof. unfold fallbackToWriter. small. shrink. Qed.
Lemma shrinks_writer_instead send d : (forall c, shrinks (send c)) -> shrinks (writer_instead send d).
Proof. intros Hs. unfold writer_instead. small. shrink. Qed.
Lemma shrinks_relay_and_collect c : shrinks (relay_and_collect c).
Proof. unfold relay_and_collect. small. shrink. Qed.
Lemma shrinks_acquireWriterConn b : shrinks (acquireWriterConn b).
Proof. unfold acquireWriterConn. small. shrink. Qed.
Hint Resolve shrinks_fallbackToWriter shrinks_writer_instead shrinks_relay_and_collect shrinks_acquireWriterConn : pgmux.

Lemma shrinks_invalidate_all ts : shrinks (invalidate_all order ts).
Proof. induction ts; cbn [invalidate_all]; small; shrink. Qed.
Hint Resolve shrinks_invalidate_all : pgmux.

Lemma shrinks_handleWriteQuery c msg q pq qt cfg : shrinks (handleWriteQuery order c msg q pq qt cfg).
Proof. unfold handleWriteQuery. small. shrink. Qed.
Lemma shrinks_handleReadQueryTraced msg q pq cfg d : shrinks (handleReadQueryTraced msg q pq cfg d).
Proof. unfold handleReadQueryTraced. small. shrink. Qed.
Lemma shrinks_handleExtendedRead buf msg addr d : shrinks (handleExtendedRead buf msg addr d).
Proof. unfold handleExtendedRead. small. shrink. Qed.
Lemma shrinks_handleSynthesizedRead q addr d : shrinks (handleSynthesizedRead q addr d).
Proof. unfold handleSynthesizedRead. small. shrink. Qed.
Lemma shrinks_discard_broken c acq ap : shrinks (discard_broken c acq ap).
Proof. unfold discard_broken. small. shrink. Qed.
Lemma shrinks_give_back c p : shrinks (give_back c p).
Proof. unfold give_back. shrink. Qed.
Hint Resolve shrinks_handleWriteQuery shrinks_handleReadQueryTraced shrinks_handleExtendedRead shrinks_handleSynthesizedRead
  shrinks_discard_broken shrinks_give_back : pgmux.

Lemma shrinks_executeSynthesizedQuery q route st en d : shrinks (executeSynthesizedQuery q route st en d).
Proof. unfold executeSynthesizedQuery, unbind_writer, bind_writer, set_transaction. small. shrink. Qed.

Lemma shrinks_describe_loop c p n : shrinks (describe_loop c p n).
Proof. induction n as [|n IH]; cbn [describe_loop]; shrink. Qed.
Lemma shrinks_send_or_discard c p ms : shrinks (send_or_discard c p ms).
Proof. induction ms as [|m ms IH]; cbn [send_or_discard]; shrink. Qed.
Hint Resolve shrinks_executeSynthesizedQuery shrinks_describe_loop shrinks_send_or_discard : pgmux.

Lemma shrinks_handleMultiplexDescribe msg : shrinks (handleMultiplexDescribe msg).
Proof. unfold handleMultiplexDescribe. small. shrink. Qed.
Lemma shrinks_acquireReaderForBind addr : shrinks (acquireReaderForBind addr).
Proof. unfold acquireReaderForBind. small. shrink. Qed.
Hint Resolve shrinks_handleMultiplexDescribe shrinks_acquireReaderForBind : pgmux.

Lemma shrinks_write_path msg q pq cfg qt was now d : shrinks (write_path order msg q pq cfg qt was now d).
Proof. unfold write_path, after_write, unbind_writer, bind_writer, dirty, clean. small. shrink. Qed.
Lemma shrinks_route_query q : shrinks (route_query q).
Proof. unfold route_query. small. shrink. Qed.
Lemma shrinks_reject t : shrinks (reject t).
Proof. unfold reject, ready_idle. small. shrink. Qed.
Hint Resolve shrinks_write_path shrinks_route_query shrinks_reject : pgmux.

Lemma shrinks_handleQuery msg : shrinks (handleQuery order msg).
Proof. unfold handleQuery, rewrite_query, routed, pin_session. small. shrink. Qed.

Lemma shrinks_buffer m : shrinks (buffer m).
Proof. unfold buffer. shrink. Qed.
Lemma shrinks_acknowledge t : shrinks (acknowledge t).
Proof. unfold acknowledge. shrink. Qed.
Hint Resolve shrinks_handleQuery shrinks_buffer shrinks_acknowledge : pgmux.

Lemma shrinks_register_parse name q also : shrinks also -> shrinks (register_parse name q also).
Proof. intros Ha. unfold register_parse, pin_session. small. shrink. Qed.
Lemma shrinks_handleParse mux msg : shrinks (handleParse mux msg).
Proof. unfold handleParse, rewrite_parse. small. shrink; (apply shrinks_register_parse; shrink) || shrink. Qed.
Lemma shrinks_handleBind mux msg : shrinks (handleBind mux msg).
Proof. unfold handleBind, note_bind. small. shrink. Qed.
Lemma shrinks_handleClose mux msg : shrinks (handleClose mux msg).
Proof. unfold handleClose. shrink. Qed.
Hint Resolve shrinks_handleParse shrinks_handleBind shrinks_handleClose : pgmux.

Lemma shrinks_drop_reader : shrinks drop_reader.
Proof. unfold drop_reader, forget_reader. shrink. Qed.
Lemma shrinks_ext_reader_path msg d : shrinks (ext_reader_path msg d).
Proof. unfold ext_reader_path, bound_reader_path, bind_reader_path, forget_reader. small. shrink. Qed.
Lemma shrinks_ext_writer_path msg d : shrinks (ext_writer_path msg d).
Proof. unfold ext_writer_path, after_batch, unbind_writer, bind_writer, set_transaction, clean. small. shrink. Qed.
Lemma shrinks_synthesized_path det d : shrinks (synthesized_path det d).
Proof. unfold synthesized_path, reset_batch. small. shrink. Qed.
Hint Resolve shrinks_drop_reader shrinks_ext_reader_path shrinks_ext_writer_path shrinks_synthesized_path : pgmux.

Lemma shrinks_handleSync mux msg : shrinks (handleSync mux msg).
Proof. unfold handleSync, reject_batch, reset_batch. small. shrink. Qed.
Hint Resolve shrinks_handleSync : pgmux.

Lemma shrinks_handle_message mux user addr msg : shrinks (handle_message order mux user addr msg).
Proof. unfold handle_message, dispatch, global_allowed, user_allowed, ip_allowed. small. shrink. Qed.

(** *** Rounds *)

(** A round that goes on has taken at least one byte. *)
Lemma round_progress mux user addr w w' : round order mux user addr w = (Ok Continue, w') -> length (cin w') < length (cin w).
Proof.
  intros E. enough (wp (round order mux user addr) (fun r w' => r = Ok Continue -> length (cin w') < length (cin w)) w) as Hw.
  { unfold wp in Hw. rewrite E in Hw. auto. }
  unfold round, getConfig. small.
  assert (forall {A} (f : Server -> A * Server) w0 (Q : res unit A -> World Sess -> Prop),
            (forall x w1, cin w1 = cin w0 -> Q (Ok x) w1) -> wp (access f) Q w0) as Hacc.
  { intros A f w0 Q HQ. unfold wp, access. destruct (env (sh w0)); destruct (f _); by apply HQ. }
  apply wp_bind, Hacc. intros stop w1 E1. case_match; [by apply wp_ret|].
  apply wp_bind, Hacc. intros cfg w2 E2. apply wp_bind, wp_attempt. unfold wp, read_client.
  rewrite E2, E1. destruct (ReadMessage (cin w)) as [[m rest]|e|] eqn:Er.
  - apply ReadMessage_shorter in Er. eapply wp_mono; [apply shrinks_handle_message|]. cbn. intros r w3 Hle _. lia.
  - done.
  - done.
Qed.

(** The loop of the source, without a bound: rounds until one returns or fails. *)
Inductive loops (mux : bool) (user addr : bytes) : World Sess -> res unit unit -> World Sess -> Prop :=
  | loops_return w w' : round order mux user addr w = (Ok Return, w') -> loops mux user addr w (Ok tt) w'
  | loops_error w e w' : round order mux user addr w = (Err e, w') -> loops mux user addr w (Err e) w'
  | loops_panic w w' : round order mux user addr w = (Panic, w') -> loops mux user addr w Panic w'
  | loops_continue w w1 r w' : round order mux user addr w = (Ok Continue, w1) -> loops mux user addr w1 r w' -> loops mux user addr w r w'.

Lemma loops_det mux user addr w r w' r2 w2 : loops mux user addr w r w' -> loops mux user addr w r2 w2 -> r = r2 /\ w' = w2.
Proof.
  intros Hl. revert r2 w2. induction Hl as [w w' E|w e w' E|w w' E|w w1 r w' E Hl IH]; intros r2 w2 Hl2;
    inversion Hl2 as [? ? E2|? ? ? E2|? ? E2|? w3 ? ? E2 Hl3]; subst; rewrite E in E2; simplify_eq; auto.
Qed.

Lemma query_loop_loops mux user addr n w :
  length (cin w) < n -> loops mux user addr w (query_loop order mux user addr n w).1 (query_loop order mux user addr n w).2.
Proof.
  revert w. induction n as [|n IH]; intros w Hn; [lia|]. cbn [query_loop]. unfold bind.
  destruct (round order mux user addr w) as [[[]| |] w1] eqn:E.
  - apply loops_continue with w1; [done|]. apply IH. apply round_progress in E. lia.
  - by apply loops_return.
  - by apply loops_error.
  - by apply loops_panic.
Qed.

(** C21: the query loop terminates. Whatever the client has sent, the loop of
    [relayQueries] (rounds until one ends it) ends, and the bounded loop of the
    model has its result: the bound, one round more than there are bytes to read, is never
    what ends it. *)
Theorem query_loop_terminates (mux : bool) (user addr : bytes) (w w' : World Sess) (r : res unit unit) :
  loops mux user addr w r w' <-> rounds_client (query_loop order mux user addr) w = (r, w').
Proof.
  pose proof (query_loop_loops mux user addr (Datatypes.S (length (cin w))) w ltac:(lia)) as Hl. unfold rounds_client.
  destruct (query_loop _ _ _ _ _ w) as [r0 w0]. cbn [fst snd] in Hl. split.
  - intros Hl2. by destruct (loops_det _ _ _ _ _ _ _ _ Hl Hl2) as [-> ->].
  - by intros [= -> ->].
Qed.
End Handlers.
